(** * estalloc: a TLSF allocator over a caller-supplied byte pool

    Shallow embedding of [estalloc.c] / [estalloc.h] and the properties of
    its specification.

    Build configuration embedded here: the default one of a 64-bit host
    ([PLATFORM_64BIT], [ESTALLOC_24BIT], [ESTALLOC_ADDRESS_24BIT],
    [ESTALLOC_ALIGNMENT] 8, hence [ESTALLOC_IGNORE_LSBS] 5), compiled without
    [ESTALLOC_DEBUG] and with [NDEBUG] (the [assert]s of the helpers do not
    abort; the ones of [est_init] are kept as the boolean
    [est_init_asserts]).  The diagnostics that exist only under
    [ESTALLOC_DEBUG] (statistics and profiling) are embedded as functions
    of their own; [est_take_statistics] and [est_sanity_check] take the
    size of the pool header, which is larger in that build, as a
    parameter.

    Integers are [Z] with the C wrap-around written out ([u8], [u16],
    [u32], [u64]); the buffer is a byte-addressed memory read and written
    little-endian; the pool header, a C struct reached only through its
    fields, is a record. *)

From Stdlib Require Import ZArith List Lia Bool.
Import ListNotations.
Open Scope Z_scope.

(** ** Fixed-width unsigned integers *)

Definition u8 (x : Z) : Z := x mod 2 ^ 8.
Definition u16 (x : Z) : Z := x mod 2 ^ 16.
Definition u32 (x : Z) : Z := x mod 2 ^ 32.
Definition u64 (x : Z) : Z := x mod 2 ^ 64.

(** ** Constants of [estalloc.h] and [estalloc.c] *)

Definition NULL : Z := 0.

Definition ESTALLOC_ALIGNMENT : Z := 8.
Definition ALIGNMENT_MASK : Z := ESTALLOC_ALIGNMENT - 1.
Definition ESTALLOC_FLI_BIT_WIDTH : Z := 9.
Definition ESTALLOC_SLI_BIT_WIDTH : Z := 3.
Definition ESTALLOC_IGNORE_LSBS : Z := 5.
Definition SIZE_FREE_BLOCKS : Z :=
  (ESTALLOC_FLI_BIT_WIDTH + 1) * Z.shiftl 1 ESTALLOC_SLI_BIT_WIDTH.
Definition ESTALLOC_MIN_MEMORY_BLOCK_SIZE : Z :=
  Z.shiftl 1 ESTALLOC_IGNORE_LSBS.

Definition FLI (x : Z) : Z := Z.shiftr x ESTALLOC_SLI_BIT_WIDTH.
Definition SLI (x : Z) : Z :=
  Z.land x (Z.shiftl 1 ESTALLOC_SLI_BIT_WIDTH - 1).

Definition MSB_BIT1_FLI : Z := 0x8000.
Definition MSB_BIT1_SLI : Z := 0x80.

(** [sizeof] of the C types on the embedded configuration:
    [USED_BLOCK] is a [uint32_t] and two pad bytes, rounded to 8;
    [FREE_BLOCK] is the size word, padding and three 8-byte pointers;
    [MEMORY_POOL] is [ESTALLOC] (32), [size], the bitmaps, padding (24)
    and 81 pointers (648). *)
Definition sizeof_USED_BLOCK : Z := 8.
Definition sizeof_FREE_BLOCK : Z := 32.
Definition sizeof_ptr : Z := 8.
Definition sizeof_MEMORY_POOL : Z := 704.
Definition offsetof_next_free : Z := 8.
Definition offsetof_prev_free : Z := 16.

(** ** Leading zeros *)

(** [nlz16(uint16_t x)]; the shifted [x] is stored back into a
    [uint16_t]. *)
Definition nlz16 (x : Z) : Z :=
  if x =? 0 then 16 else
  let n := 1 in
  let '(n, x) :=
    if Z.shiftr x 8 =? 0 then (n + 8, u16 (Z.shiftl x 8)) else (n, x) in
  let '(n, x) :=
    if Z.shiftr x 12 =? 0 then (n + 4, u16 (Z.shiftl x 4)) else (n, x) in
  let '(n, x) :=
    if Z.shiftr x 14 =? 0 then (n + 2, u16 (Z.shiftl x 2)) else (n, x) in
  n - Z.shiftr x 15.

(** [nlz8(uint8_t x)]. *)
Definition nlz8 (x : Z) : Z :=
  if x =? 0 then 8 else
  let n := 1 in
  let '(n, x) :=
    if Z.shiftr x 4 =? 0 then (n + 4, u8 (Z.shiftl x 4)) else (n, x) in
  let '(n, x) :=
    if Z.shiftr x 6 =? 0 then (n + 2, u8 (Z.shiftl x 2)) else (n, x) in
  n - Z.shiftr x 7.

(** ** Size classes *)

(** [calc_index(ESTALLOC_MEMSIZE_T alloc_size)]; the argument of [nlz16]
    is converted to [uint16_t] at the call. *)
Definition calc_index (alloc_size : Z) : Z :=
  if negb (Z.shiftr alloc_size
             (ESTALLOC_FLI_BIT_WIDTH + ESTALLOC_SLI_BIT_WIDTH
              + ESTALLOC_IGNORE_LSBS) =? 0)
  then SIZE_FREE_BLOCKS - 1
  else
    let fli :=
      16 - nlz16 (u16 (Z.shiftr alloc_size
                         (ESTALLOC_SLI_BIT_WIDTH + ESTALLOC_IGNORE_LSBS))) in
    let shift :=
      if fli =? 0 then ESTALLOC_IGNORE_LSBS
      else ESTALLOC_IGNORE_LSBS - 1 + fli in
    let sli :=
      Z.land (Z.shiftr alloc_size shift)
             (Z.shiftl 1 ESTALLOC_SLI_BIT_WIDTH - 1) in
    Z.shiftl fli ESTALLOC_SLI_BIT_WIDTH + sli.

(** The two [assert]s at the end of [calc_index]. *)
Definition calc_index_asserts (alloc_size : Z) : bool :=
  if negb (Z.shiftr alloc_size
             (ESTALLOC_FLI_BIT_WIDTH + ESTALLOC_SLI_BIT_WIDTH
              + ESTALLOC_IGNORE_LSBS) =? 0)
  then true
  else
    let fli :=
      16 - nlz16 (u16 (Z.shiftr alloc_size
                         (ESTALLOC_SLI_BIT_WIDTH + ESTALLOC_IGNORE_LSBS))) in
    let shift :=
      if fli =? 0 then ESTALLOC_IGNORE_LSBS
      else ESTALLOC_IGNORE_LSBS - 1 + fli in
    let sli :=
      Z.land (Z.shiftr alloc_size shift)
             (Z.shiftl 1 ESTALLOC_SLI_BIT_WIDTH - 1) in
    (fli <=? ESTALLOC_FLI_BIT_WIDTH)
    && (sli <=? Z.shiftl 1 ESTALLOC_SLI_BIT_WIDTH - 1).

(** The nominal minimum size of class [c]: row 0 steps by
    [2^ESTALLOC_IGNORE_LSBS]; row [f >= 1] starts at
    [2^(f + SLI + IGNORE - 1)] and has [2^SLI] equal steps. *)
Definition class_min (c : Z) : Z :=
  let fli := FLI c in
  let sli := SLI c in
  if fli =? 0 then Z.shiftl sli ESTALLOC_IGNORE_LSBS
  else Z.shiftl (Z.shiftl 1 ESTALLOC_SLI_BIT_WIDTH + sli)
                (ESTALLOC_IGNORE_LSBS - 1 + fli).

(** ** Memory *)

(** One byte per address. *)
Definition mem : Type := Z -> Z.

Definition upd (m : mem) (a v : Z) : mem :=
  fun x => if x =? a then v else m x.

Fixpoint load_bytes (n : nat) (m : mem) (a : Z) : Z :=
  match n with
  | O => 0
  | S k => (m a) mod 256 + 256 * load_bytes k m (a + 1)
  end.

Fixpoint store_bytes (n : nat) (m : mem) (a v : Z) : mem :=
  match n with
  | O => m
  | S k => store_bytes k (upd m a (v mod 256)) (a + 1) (v / 256)
  end.

(** [p->size], a [uint32_t] at offset 0 of both block structs. *)
Definition get_size (m : mem) (p : Z) : Z := load_bytes 4 m p.
Definition set_size (m : mem) (p v : Z) : mem := store_bytes 4 m p v.

(** A pointer-sized object at address [a]. *)
Definition load_ptr (m : mem) (a : Z) : Z := load_bytes 8 m a.
Definition store_ptr (m : mem) (a v : Z) : mem := store_bytes 8 m a v.

Definition next_free (m : mem) (p : Z) : Z :=
  load_ptr m (p + offsetof_next_free).
Definition prev_free (m : mem) (p : Z) : Z :=
  load_ptr m (p + offsetof_prev_free).
Definition set_next_free (m : mem) (p v : Z) : mem :=
  store_ptr m (p + offsetof_next_free) v.
Definition set_prev_free (m : mem) (p v : Z) : mem :=
  store_ptr m (p + offsetof_prev_free) v.

(** The block macros.  [~ALIGNMENT_MASK], [~0x01] and [~0x02] are [int]s
    converted to the 32-bit type of [size]. *)
Definition BLOCK_SIZE (m : mem) (p : Z) : Z :=
  Z.land (get_size m p) (u32 (Z.lnot ALIGNMENT_MASK)).
Definition PHYS_NEXT (m : mem) (p : Z) : Z := p + BLOCK_SIZE m p.
Definition SET_USED_BLOCK (m : mem) (p : Z) : mem :=
  set_size m p (Z.lor (get_size m p) 1).
Definition SET_FREE_BLOCK (m : mem) (p : Z) : mem :=
  set_size m p (Z.land (get_size m p) (u32 (Z.lnot 1))).
Definition IS_USED_BLOCK (m : mem) (p : Z) : bool :=
  negb (Z.land (get_size m p) 1 =? 0).
Definition IS_FREE_BLOCK (m : mem) (p : Z) : bool :=
  negb (IS_USED_BLOCK m p).
Definition SET_PREV_USED (m : mem) (p : Z) : mem :=
  set_size m p (Z.lor (get_size m p) 2).
Definition SET_PREV_FREE (m : mem) (p : Z) : mem :=
  set_size m p (Z.land (get_size m p) (u32 (Z.lnot 2))).
Definition IS_PREV_USED (m : mem) (p : Z) : bool :=
  negb (Z.land (get_size m p) 2 =? 0).
Definition IS_PREV_FREE (m : mem) (p : Z) : bool :=
  negb (IS_PREV_USED m p).
Definition BLOCK_ADRS (p : Z) : Z := p - sizeof_USED_BLOCK.

(** ** The pool header *)

Record ESTALLOC_STAT : Type := mkSTAT {
  stat_total : Z;
  stat_used : Z;
  stat_free : Z;
  stat_frag : Z
}.

Record ESTALLOC_PROF : Type := mkPROF {
  prof_profiling : Z;
  prof_initial : Z;
  prof_max : Z;
  prof_min : Z
}.

Record ESTALLOC : Type := mkEST {
  stat : ESTALLOC_STAT;
  prof : ESTALLOC_PROF;
  error_message : Z
}.

(** [MEMORY_POOL] lives at address [pool_adrs] of the buffer [heap]; its
    fields are kept apart from the bytes of the block area. *)
Record MEMORY_POOL : Type := mkPOOL {
  pool_adrs : Z;
  est : ESTALLOC;
  size : Z;
  free_fli_bitmap : Z;
  free_sli_bitmap : list Z;
  free_blocks : list Z;
  heap : mem
}.

Definition BPOOL_TOP (pool : MEMORY_POOL) : Z :=
  pool_adrs pool + sizeof_MEMORY_POOL.
Definition BPOOL_END (pool : MEMORY_POOL) : Z :=
  pool_adrs pool + size pool.

(** C arrays of the header: [arr_get] reads 0 and [arr_set] writes nothing
    outside the array (the C behaviour there is undefined; the accesses of
    a well-formed pool are shown to stay inside). *)
Definition arr_get (l : list Z) (i : Z) : Z :=
  if i <? 0 then 0 else nth (Z.to_nat i) l 0.

Fixpoint list_set (l : list Z) (n : nat) (v : Z) : list Z :=
  match l, n with
  | [], _ => []
  | _ :: t, O => v :: t
  | h :: t, S k => h :: list_set t k v
  end.

Definition arr_set (l : list Z) (i v : Z) : list Z :=
  if i <? 0 then l else list_set l (Z.to_nat i) v.

Definition with_heap (pool : MEMORY_POOL) (m : mem) : MEMORY_POOL :=
  mkPOOL (pool_adrs pool) (est pool) (size pool) (free_fli_bitmap pool)
         (free_sli_bitmap pool) (free_blocks pool) m.
Definition with_fli (pool : MEMORY_POOL) (v : Z) : MEMORY_POOL :=
  mkPOOL (pool_adrs pool) (est pool) (size pool) v
         (free_sli_bitmap pool) (free_blocks pool) (heap pool).
Definition with_sli (pool : MEMORY_POOL) (i v : Z) : MEMORY_POOL :=
  mkPOOL (pool_adrs pool) (est pool) (size pool) (free_fli_bitmap pool)
         (arr_set (free_sli_bitmap pool) i v) (free_blocks pool) (heap pool).
Definition with_free_blocks (pool : MEMORY_POOL) (i v : Z) : MEMORY_POOL :=
  mkPOOL (pool_adrs pool) (est pool) (size pool) (free_fli_bitmap pool)
         (free_sli_bitmap pool) (arr_set (free_blocks pool) i v) (heap pool).
Definition with_est (pool : MEMORY_POOL) (e : ESTALLOC) : MEMORY_POOL :=
  mkPOOL (pool_adrs pool) e (size pool) (free_fli_bitmap pool)
         (free_sli_bitmap pool) (free_blocks pool) (heap pool).

(** ** Free-list maintenance *)

(** [add_free_block(pool, target)]. *)
Definition add_free_block (pool : MEMORY_POOL) (target : Z) : MEMORY_POOL :=
  let m := SET_FREE_BLOCK (heap pool) target in
  let top_adrs := target + BLOCK_SIZE m target - sizeof_ptr in
  let m := store_ptr m top_adrs target in
  let index := calc_index (BLOCK_SIZE m target) in
  let fli := FLI index in
  let sli := SLI index in
  let pool :=
    with_fli pool
      (u16 (Z.lor (free_fli_bitmap pool) (Z.shiftr MSB_BIT1_FLI fli))) in
  let pool :=
    with_sli pool fli
      (u8 (Z.lor (arr_get (free_sli_bitmap pool) fli)
                 (Z.shiftr MSB_BIT1_SLI sli))) in
  let m := set_prev_free m target NULL in
  let m := set_next_free m target (arr_get (free_blocks pool) index) in
  let m :=
    if next_free m target =? NULL then m
    else set_prev_free m (next_free m target) target in
  with_heap (with_free_blocks pool index target) m.

(** The bitmap update shared by [remove_free_block] and the unlinking in
    [est_malloc]: clear the SLI bit and, when the row is empty, the FLI
    bit. *)
Definition clear_bitmap (pool : MEMORY_POOL) (fli sli : Z) : MEMORY_POOL :=
  let pool :=
    with_sli pool fli
      (u8 (Z.land (arr_get (free_sli_bitmap pool) fli)
                  (Z.lnot (Z.shiftr MSB_BIT1_SLI sli)))) in
  if arr_get (free_sli_bitmap pool) fli =? 0
  then with_fli pool
         (u16 (Z.land (free_fli_bitmap pool)
                      (Z.lnot (Z.shiftr MSB_BIT1_FLI fli))))
  else pool.

(** The [assert] of [add_free_block]. *)
Definition add_free_block_assert (m : mem) (target : Z) : bool :=
  let m := SET_FREE_BLOCK m target in
  let top_adrs := target + BLOCK_SIZE m target - sizeof_ptr in
  let m := store_ptr m top_adrs target in
  calc_index (BLOCK_SIZE m target) <? SIZE_FREE_BLOCKS.

(** [remove_free_block(pool, target)]. *)
Definition remove_free_block (pool : MEMORY_POOL) (target : Z)
  : MEMORY_POOL :=
  let pool :=
    if prev_free (heap pool) target =? NULL then
      let index := calc_index (BLOCK_SIZE (heap pool) target) in
      let pool :=
        with_free_blocks pool index (next_free (heap pool) target) in
      if next_free (heap pool) target =? NULL
      then clear_bitmap pool (FLI index) (SLI index)
      else pool
    else
      with_heap pool
        (set_next_free (heap pool) (prev_free (heap pool) target)
                       (next_free (heap pool) target)) in
  if next_free (heap pool) target =? NULL then pool
  else
    with_heap pool
      (set_prev_free (heap pool) (next_free (heap pool) target)
                     (prev_free (heap pool) target)).

(** ** Split and merge *)

(** [split_block(target, size)]: the memory after the call and the split
    block, [NULL] when there is no split.  The subtraction is done in the
    32-bit type of [size]. *)
Definition split_block (m : mem) (target size : Z) : mem * Z :=
  if u32 (BLOCK_SIZE m target - size) <=? ESTALLOC_MIN_MEMORY_BLOCK_SIZE
  then (m, NULL)
  else
    let split := target + size in
    let m := set_size m split (u32 (BLOCK_SIZE m target - size)) in
    let m :=
      set_size m target
        (Z.lor size (Z.land (get_size m target) ALIGNMENT_MASK)) in
    (m, split).

(** [merge_block(target, next)]. *)
Definition merge_block (m : mem) (target next : Z) : mem :=
  set_size m target (u32 (get_size m target + BLOCK_SIZE m next)).

(** ** [est_init] *)

(** The conjunction of the [assert]s of [est_init]. *)
Definition est_init_asserts (ptr size : Z) : bool :=
  (sizeof_FREE_BLOCK <=? ESTALLOC_MIN_MEMORY_BLOCK_SIZE)
  && (Z.shiftl 1 ESTALLOC_IGNORE_LSBS <=? ESTALLOC_MIN_MEMORY_BLOCK_SIZE)
  && (Z.land sizeof_MEMORY_POOL ALIGNMENT_MASK =? 0)
  && (Z.land ptr ALIGNMENT_MASK =? 0)
  && negb (size =? 0)
  && (size <=? u32 (Z.lnot 0)).

Definition zero_est : ESTALLOC :=
  mkEST (mkSTAT 0 0 0 0) (mkPROF 0 0 0 0) NULL.

(** [MEMORY_POOL zero_pool = {0}] stored at [ptr]. *)
Definition zero_pool (ptr : Z) (m : mem) : MEMORY_POOL :=
  mkPOOL ptr zero_est 0 0
         (repeat 0 (Z.to_nat (ESTALLOC_FLI_BIT_WIDTH + 1 + 1)))
         (repeat 0 (Z.to_nat (SIZE_FREE_BLOCKS + 1))) m.

Definition with_size (pool : MEMORY_POOL) (v : Z) : MEMORY_POOL :=
  mkPOOL (pool_adrs pool) (est pool) v (free_fli_bitmap pool)
         (free_sli_bitmap pool) (free_blocks pool) (heap pool).

(** [est_init(ptr, size)] on a buffer whose bytes are [m]. *)
Definition est_init (m : mem) (ptr size : Z) : MEMORY_POOL :=
  let size := Z.land size (u32 (Z.lnot ALIGNMENT_MASK)) in
  let memory_pool := with_size (zero_pool ptr m) size in
  let sentinel_size := sizeof_USED_BLOCK in
  let sentinel_size :=
    u32 (sentinel_size + Z.land (- sentinel_size) ALIGNMENT_MASK) in
  let free_size := u32 (size - sizeof_MEMORY_POOL - sentinel_size) in
  let free_block := BPOOL_TOP memory_pool in
  let used_block := free_block + free_size in
  let m := set_size m free_block (Z.lor free_size 2) in
  let m := set_size m used_block (Z.lor sentinel_size 1) in
  add_free_block (with_heap memory_pool m) free_block.

(** ** [est_malloc] *)

(** The effective size of a request: header added, rounded up to the
    alignment in the 32-bit type, raised to the minimum block size. *)
Definition alloc_size_of (size : Z) : Z :=
  let alloc_size := u32 (size + sizeof_USED_BLOCK) in
  let alloc_size :=
    u32 (alloc_size + Z.land (- alloc_size) ALIGNMENT_MASK) in
  if alloc_size <? ESTALLOC_MIN_MEMORY_BLOCK_SIZE
  then ESTALLOC_MIN_MEMORY_BLOCK_SIZE else alloc_size.

(** From label [SPLIT_BLOCK] to the [return]. *)
Definition malloc_split (pool : MEMORY_POOL) (target alloc_size : Z)
  : Z * MEMORY_POOL :=
  let '(m, release) := split_block (heap pool) target alloc_size in
  let pool :=
    if negb (release =? NULL) then
      add_free_block (with_heap pool (SET_PREV_USED m release)) release
    else
      with_heap pool (SET_PREV_USED m (PHYS_NEXT m target)) in
  let pool := with_heap pool (SET_USED_BLOCK (heap pool) target) in
  (target + sizeof_USED_BLOCK, pool).

(** The statements between the labels [FOUND_TARGET_BLOCK] and
    [SPLIT_BLOCK]: unlink [target], the head of list [index]. *)
Definition malloc_unlink (pool : MEMORY_POOL) (target index fli sli : Z)
  : MEMORY_POOL :=
  let pool := with_free_blocks pool index (next_free (heap pool) target) in
  if next_free (heap pool) target =? NULL
  then clear_bitmap pool fli sli
  else with_heap pool
         (set_prev_free (heap pool) (next_free (heap pool) target) NULL).

(** From label [FOUND_TARGET_BLOCK]. *)
Definition malloc_found_target (pool : MEMORY_POOL)
    (target alloc_size index fli sli : Z) : Z * MEMORY_POOL :=
  malloc_split (malloc_unlink pool target index fli sli) target alloc_size.

(** From label [FOUND_FLI_SLI]. *)
Definition malloc_found_fli_sli (pool : MEMORY_POOL)
    (alloc_size fli sli : Z) : Z * MEMORY_POOL :=
  let index := Z.shiftl fli ESTALLOC_SLI_BIT_WIDTH + sli in
  let target := arr_get (free_blocks pool) index in
  if target =? NULL then (NULL, pool)
  else malloc_found_target pool target alloc_size index fli sli.

(** The first-fit loop [while (target) ...]; [None] when the fuel does not
    suffice. *)
Fixpoint malloc_first_fit (fuel : nat) (pool : MEMORY_POOL)
    (target alloc_size : Z) : option (Z * MEMORY_POOL) :=
  match fuel with
  | O => None
  | S k =>
      if target =? NULL then Some (NULL, pool)
      else if BLOCK_SIZE (heap pool) target >=? alloc_size then
        Some (malloc_split (remove_free_block pool target) target alloc_size)
      else malloc_first_fit k pool (next_free (heap pool) target) alloc_size
  end.

(** [est_malloc(est, size)]: the returned pointer and the pool. *)
Definition est_malloc (fuel : nat) (pool : MEMORY_POOL) (size : Z)
  : option (Z * MEMORY_POOL) :=
  let alloc_size := alloc_size_of size in
  let index := calc_index alloc_size in
  let target := arr_get (free_blocks pool) index in
  if negb (target =? NULL)
     && (BLOCK_SIZE (heap pool) target >=? alloc_size)
  then Some (malloc_found_target pool target alloc_size index
                                 (FLI index) (SLI index))
  else
    let index := index + 1 in
    let target := arr_get (free_blocks pool) index in
    let fli := FLI index in
    let sli := SLI index in
    if negb (target =? NULL)
    then Some (malloc_found_target pool target alloc_size index fli sli)
    else
      let masked :=
        u16 (Z.land (arr_get (free_sli_bitmap pool) fli)
                    (Z.shiftr MSB_BIT1_SLI sli - 1)) in
      if negb (masked =? 0)
      then Some (malloc_found_fli_sli pool alloc_size fli (nlz8 (u8 masked)))
      else
        let masked :=
          u16 (Z.land (free_fli_bitmap pool)
                      (Z.shiftr MSB_BIT1_FLI fli - 1)) in
        if negb (masked =? 0) then
          let fli := nlz16 masked in
          let sli := nlz8 (arr_get (free_sli_bitmap pool) fli) in
          Some (malloc_found_fli_sli pool alloc_size fli sli)
        else
          let index := index - 1 in
          malloc_first_fit fuel pool (arr_get (free_blocks pool) index)
                           alloc_size.

(** ** [est_permalloc] *)

(** The loop [do { prev = tail; tail = PHYS_NEXT(tail); }
    while (PHYS_NEXT(tail) < BPOOL_END(pool))]: the pair [(prev, tail)] it
    ends with. *)
Fixpoint find_tail (fuel : nat) (m : mem) (tail bpool_end : Z)
  : option (Z * Z) :=
  match fuel with
  | O => None
  | S k =>
      let prev := tail in
      let tail := PHYS_NEXT m tail in
      if PHYS_NEXT m tail <? bpool_end then find_tail k m tail bpool_end
      else Some (prev, tail)
  end.

(** The part of [est_permalloc] after the two [goto FALLBACK] tests. *)
Definition permalloc_tail (pool : MEMORY_POOL) (prev tail alloc_size : Z)
  : Z * MEMORY_POOL :=
  let pool := remove_free_block pool prev in
  let m := heap pool in
  let free_size := u32 (BLOCK_SIZE m prev - alloc_size) in
  if free_size <=? ESTALLOC_MIN_MEMORY_BLOCK_SIZE then
    let m := set_size m prev (u32 (get_size m prev + BLOCK_SIZE m tail)) in
    let m := SET_USED_BLOCK m prev in
    (prev + sizeof_USED_BLOCK, with_heap pool m)
  else
    let tail_size := u32 (get_size m tail + alloc_size) in
    let tail := tail - alloc_size in
    let m := set_size m tail tail_size in
    let m := set_size m prev (u32 (get_size m prev - alloc_size)) in
    (tail + sizeof_USED_BLOCK, add_free_block (with_heap pool m) prev).

(** [est_permalloc(est, size)].  The test against [alloc_size] is done in
    [size_t]. *)
Definition est_permalloc (fuel : nat) (pool : MEMORY_POOL) (size : Z)
  : option (Z * MEMORY_POOL) :=
  let alloc_size := u32 (size + Z.land (- size) ALIGNMENT_MASK) in
  match find_tail fuel (heap pool) (BPOOL_TOP pool) (BPOOL_END pool) with
  | None => None
  | Some (prev, tail) =>
      if IS_USED_BLOCK (heap pool) prev then est_malloc fuel pool size
      else if u64 (BLOCK_SIZE (heap pool) prev - sizeof_USED_BLOCK)
              <? alloc_size
      then est_malloc fuel pool size
      else Some (permalloc_tail pool prev tail alloc_size)
  end.

(** ** [est_calloc] *)

(** [while (total_size--) *vptr++ = 0;] *)
Fixpoint zero_fill (n : nat) (m : mem) (vptr : Z) : mem :=
  match n with
  | O => m
  | S k => zero_fill k (upd m vptr 0) (vptr + 1)
  end.

(** [est_calloc(est, nmemb, size)]; the product is an [unsigned int]. *)
Definition est_calloc (fuel : nat) (pool : MEMORY_POOL) (nmemb size : Z)
  : option (Z * MEMORY_POOL) :=
  let total_size := u32 (nmemb * size) in
  match est_malloc fuel pool total_size with
  | None => None
  | Some (ptr, pool) =>
      if negb (ptr =? NULL)
      then Some (ptr, with_heap pool
                        (zero_fill (Z.to_nat total_size) (heap pool) ptr))
      else Some (ptr, pool)
  end.

(** ** [est_free] *)

(** [est_free(est, ptr)]. *)
Definition est_free (pool : MEMORY_POOL) (ptr : Z) : MEMORY_POOL :=
  if ptr =? NULL then pool
  else
    let target := BLOCK_ADRS ptr in
    let next := PHYS_NEXT (heap pool) target in
    let pool :=
      if IS_FREE_BLOCK (heap pool) next then
        let pool := remove_free_block pool next in
        with_heap pool (merge_block (heap pool) target next)
      else with_heap pool (SET_PREV_FREE (heap pool) next) in
    let '(pool, target) :=
      if IS_PREV_FREE (heap pool) target then
        let prev := load_ptr (heap pool) (target - sizeof_ptr) in
        let pool := remove_free_block pool prev in
        (with_heap pool (merge_block (heap pool) prev target), prev)
      else (pool, target) in
    add_free_block pool target.

(** ** [est_realloc] *)

(** The copy loop of [ALLOC_AND_COPY]; its bound re-reads the size word of
    [target] at every turn ([target] is [volatile]) and [i] is an
    [unsigned int]. *)
Fixpoint realloc_copy (fuel : nat) (m : mem) (target new_ptr ptr i : Z)
  : option mem :=
  match fuel with
  | O => None
  | S k =>
      if i <? u64 (BLOCK_SIZE m target - sizeof_USED_BLOCK) then
        realloc_copy k (upd m (new_ptr + i) (m (ptr + i)))
                     target new_ptr ptr (u32 (i + 1))
      else Some m
  end.

(** From [next = PHYS_NEXT(target)] through the two [return ptr]. *)
Definition realloc_shrink (pool : MEMORY_POOL) (ptr target alloc_size : Z)
  : Z * MEMORY_POOL :=
  let next := PHYS_NEXT (heap pool) target in
  let '(m, release) := split_block (heap pool) target alloc_size in
  if release =? NULL then
    (ptr, with_heap pool (SET_PREV_USED m next))
  else
    let pool := with_heap pool (SET_PREV_USED m release) in
    let pool :=
      if IS_FREE_BLOCK (heap pool) next then
        let pool := remove_free_block pool next in
        with_heap pool (merge_block (heap pool) release next)
      else with_heap pool (SET_PREV_FREE (heap pool) next) in
    (ptr, add_free_block pool release).

(** Label [ALLOC_AND_COPY]. *)
Definition realloc_alloc_and_copy (fuel : nat) (pool : MEMORY_POOL)
    (ptr target size : Z) : option (Z * MEMORY_POOL) :=
  match est_malloc fuel pool size with
  | None => None
  | Some (new_ptr, pool) =>
      if new_ptr =? NULL then Some (NULL, pool)
      else
        match realloc_copy fuel (heap pool) target new_ptr ptr 0 with
        | None => None
        | Some m => Some (new_ptr, est_free (with_heap pool m) ptr)
        end
  end.

(** [est_realloc(est, ptr, size)]. *)
Definition est_realloc (fuel : nat) (pool : MEMORY_POOL) (ptr size : Z)
  : option (Z * MEMORY_POOL) :=
  if ptr =? NULL then est_malloc fuel pool size
  else
    let target := BLOCK_ADRS ptr in
    let alloc_size := alloc_size_of size in
    let m := heap pool in
    if alloc_size >? BLOCK_SIZE m target then
      let next := PHYS_NEXT m target in
      if IS_USED_BLOCK m next
      then realloc_alloc_and_copy fuel pool ptr target size
      else if u32 (BLOCK_SIZE m target + BLOCK_SIZE m next) <? alloc_size
      then realloc_alloc_and_copy fuel pool ptr target size
      else
        let pool := remove_free_block pool next in
        let pool := with_heap pool (merge_block (heap pool) target next) in
        Some (realloc_shrink pool ptr target alloc_size)
    else Some (realloc_shrink pool ptr target alloc_size).

(** ** [est_usable_size] *)

Definition est_usable_size (pool : MEMORY_POOL) (ptr : Z) : Z :=
  u32 (BLOCK_SIZE (heap pool) (BLOCK_ADRS ptr) - sizeof_USED_BLOCK).

(** ** Diagnostics of the [ESTALLOC_DEBUG] build *)

(** Under [ESTALLOC_DEBUG] the struct [ESTALLOC] also holds [prof] (16
    bytes): [sizeof(MEMORY_POOL)] is 720 there, and [BPOOL_TOP] lies 16
    bytes behind the one of the embedded configuration.
    [est_take_statistics] and [est_sanity_check] report what they meet
    from [BPOOL_TOP] on; they take the [sizeof(MEMORY_POOL)] of the build
    as [hdr]. *)
Definition sizeof_MEMORY_POOL_DEBUG : Z := 720.

(** The loop of [est_take_statistics]: the counters are 32-bit. *)
Fixpoint stat_walk (fuel : nat) (m : mem) (block bpool_end : Z)
    (flag_used_free : bool) (st : ESTALLOC_STAT) : option ESTALLOC_STAT :=
  match fuel with
  | O => None
  | S k =>
      if block <? bpool_end then
        let st :=
          if IS_FREE_BLOCK m block
          then mkSTAT (stat_total st) (stat_used st)
                      (u32 (stat_free st + BLOCK_SIZE m block)) (stat_frag st)
          else mkSTAT (stat_total st)
                      (u32 (stat_used st + BLOCK_SIZE m block))
                      (stat_free st) (stat_frag st) in
        let '(st, flag_used_free) :=
          if negb (Bool.eqb flag_used_free (IS_USED_BLOCK m block))
          then (mkSTAT (stat_total st) (stat_used st) (stat_free st)
                       (u32 (stat_frag st + 1)),
                IS_USED_BLOCK m block)
          else (st, flag_used_free) in
        stat_walk k m (PHYS_NEXT m block) bpool_end flag_used_free st
      else Some st
  end.

(** [est_take_statistics(est)]; [BPOOL_TOP(pool)] is [pool + hdr]. *)
Definition est_take_statistics (hdr : Z) (fuel : nat) (pool : MEMORY_POOL)
  : option MEMORY_POOL :=
  let block := pool_adrs pool + hdr in
  let flag_used_free := IS_USED_BLOCK (heap pool) block in
  match stat_walk fuel (heap pool) block (BPOOL_END pool) flag_used_free
                  (mkSTAT (size pool) 0 0 (u32 (-1))) with
  | None => None
  | Some st =>
      Some (with_est pool
              (mkEST st (prof (est pool)) (error_message (est pool))))
  end.

(** The loop of [take_profile]; [used] is an [unsigned int]. *)
Fixpoint used_walk (fuel : nat) (m : mem) (block bpool_end used : Z)
  : option Z :=
  match fuel with
  | O => None
  | S k =>
      if block <? bpool_end then
        used_walk k m (PHYS_NEXT m block) bpool_end
                  (if negb (IS_FREE_BLOCK m block)
                   then u32 (used + BLOCK_SIZE m block) else used)
      else Some used
  end.

(** [take_profile(est)]: [prof] is a local copy of [est->prof]; the
    function ends without storing it back.  The result pairs the pool with
    the final value of the local. *)
Definition take_profile (fuel : nat) (pool : MEMORY_POOL)
  : option (MEMORY_POOL * ESTALLOC_PROF) :=
  let prof0 := prof (est pool) in
  match used_walk fuel (heap pool) (BPOOL_TOP pool) (BPOOL_END pool) 0 with
  | None => None
  | Some used =>
      let prof1 :=
        if prof_max prof0 <? used
        then mkPROF (prof_profiling prof0) (prof_initial prof0) used
                    (prof_min prof0)
        else prof0 in
      let prof2 :=
        if used <? prof_min prof1
        then mkPROF (prof_profiling prof1) (prof_initial prof1)
                    (prof_max prof1) used
        else prof1 in
      Some (pool, prof2)
  end.

(** The macro [PROFILE()]. *)
Definition PROFILE (fuel : nat) (pool : MEMORY_POOL) : option MEMORY_POOL :=
  if negb (prof_profiling (prof (est pool)) =? 0)
  then match take_profile fuel pool with
       | None => None
       | Some (pool, _) => Some pool
       end
  else Some pool.

(** [est_start_profiling(est)]: again [prof] is a local copy; the pool and
    the final value of the local are returned. *)
Definition est_start_profiling (fuel : nat) (pool : MEMORY_POOL)
  : option (MEMORY_POOL * ESTALLOC_PROF) :=
  let prof0 := prof (est pool) in
  if negb (prof_profiling prof0 =? 0) then Some (pool, prof0)
  else
    let prof1 := mkPROF 1 (prof_initial prof0) 0 (prof_min prof0) in
    match PROFILE fuel pool with
    | None => None
    | Some pool =>
        Some (pool, mkPROF (prof_profiling prof1) (prof_max prof1)
                           (prof_max prof1) (prof_max prof1))
    end.

(** [est_stop_profiling(est)]. *)
Definition est_stop_profiling (pool : MEMORY_POOL) : MEMORY_POOL :=
  with_est pool
    (mkEST (stat (est pool))
           (mkPROF 0 (prof_initial (prof (est pool)))
                   (prof_max (prof (est pool)))
                   (prof_min (prof (est pool))))
           (error_message (est pool))).

(** The loop of [est_sanity_check]: [errors] is the bit mask built so
    far, [prev_block] the block visited before ([NULL] at the start). *)
Fixpoint sanity_walk (fuel : nat) (pool : MEMORY_POOL)
    (block prev_block errors : Z) : option Z :=
  match fuel with
  | O => None
  | S k =>
      let m := heap pool in
      if block <? BPOOL_END pool then
        let errors :=
          if negb (Z.land (BLOCK_SIZE m block) ALIGNMENT_MASK =? 0)
          then Z.lor errors 0x01 else errors in
        let errors :=
          if size pool <? BLOCK_SIZE m block
          then Z.lor errors 0x02 else errors in
        let next := PHYS_NEXT m block in
        let errors :=
          if (next <? block) || (BPOOL_END pool <? next)
          then Z.lor errors 0x04 else errors in
        let errors :=
          if negb (prev_block =? NULL) then
            let errors :=
              if IS_USED_BLOCK m prev_block && negb (IS_PREV_USED m block)
              then Z.lor errors 0x08 else errors in
            if IS_FREE_BLOCK m prev_block && IS_PREV_USED m block
            then Z.lor errors 0x10 else errors
          else errors in
        sanity_walk k pool next block errors
      else Some errors
  end.

(** [est_sanity_check(est)]; [BPOOL_TOP(pool)] is [pool + hdr]. *)
Definition est_sanity_check (hdr : Z) (fuel : nat) (pool : MEMORY_POOL)
  : option Z :=
  if (pool_adrs pool =? NULL) || (size pool =? 0) then Some 1
  else sanity_walk fuel pool (pool_adrs pool + hdr) NULL 0.

(** ** [est_cleanup] *)

(** The body of [est_cleanup] exists only under [ESTALLOC_DEBUG].  It
    reaches the pool header as bytes, so it is embedded over the bytes
    alone.  In that configuration [ESTALLOC] holds [stat] (16 bytes),
    [prof] (16), [error_message] (8) and [padding] (4), rounded to 48:
    the field [size] of [MEMORY_POOL] is the [uint32_t] at offset 48. *)
Definition offsetof_size_DEBUG : Z := 48.

(** [for (unsigned int i = 0; i < memory_pool->size; i++) p[i] = 0;]
    The bound is read again before every round. *)
Fixpoint cleanup_loop (fuel : nat) (m : mem) (p i : Z) : option mem :=
  match fuel with
  | O => None
  | S k =>
      if i <? load_bytes 4 m (p + offsetof_size_DEBUG)
      then cleanup_loop k (upd m (p + i) 0) p (u32 (i + 1))
      else Some m
  end.

(** [est_cleanup(est)]. *)
Definition est_cleanup (fuel : nat) (m : mem) (est : Z) : option mem :=
  if negb (est =? NULL) then cleanup_loop fuel m est 0 else Some m.

(** ** [est_free] under [ESTALLOC_DEBUG] *)

(** The four string literals the checks of [est_free] store into
    [est->error_message]. *)
Inductive free_error : Type :=
| Outside_pool        (* "est_free(): Outside memory pool address was specified.\n" *)
| Double_free         (* "est_free(): double free detected.\n" *)
| Permalloc_address   (* "est_free(): permalloc address was specified.\n" *)
| Illegal_address.    (* "est_free(): Illegal address.\n" *)

Definition with_error_message (pool : MEMORY_POOL) (msg : Z) : MEMORY_POOL :=
  with_est pool (mkEST (stat (est pool)) (prof (est pool)) msg).

(** [while(1) { if (block == target) break;
                if (PHYS_NEXT(block) >= BPOOL_END(pool)) break;
                block = PHYS_NEXT(block); }]: the [block] it ends with. *)
Fixpoint free_search (fuel : nat) (m : mem) (block target bpool_end : Z)
  : option Z :=
  match fuel with
  | O => None
  | S k =>
      if block =? target then Some block
      else if bpool_end <=? PHYS_NEXT m block then Some block
      else free_search k m (PHYS_NEXT m block) target bpool_end
  end.

(** [for (unsigned int i = 0;
         i < BLOCK_SIZE(target) - sizeof(USED_BLOCK); i++) p[i] = 0xff;]
    The bound is a [size_t], read again before every round. *)
Fixpoint free_fill (fuel : nat) (m : mem) (p target i : Z) : option mem :=
  match fuel with
  | O => None
  | S k =>
      if i <? u64 (BLOCK_SIZE m target - sizeof_USED_BLOCK)
      then free_fill k (upd m (p + i) 0xff) p target (u32 (i + 1))
      else Some m
  end.

(** [est_free(est, ptr)] as compiled with [ESTALLOC_DEBUG]: the checks,
    the fill of the payload, then the release of the other configuration
    and [PROFILE()].  [literal] gives the addresses of the string
    literals.  The pool header of that configuration is 16 bytes longer;
    the checks reach the pool only through [BPOOL_TOP], [BPOOL_END] and
    the size words, and are embedded over the block area of the
    configuration of this file. *)
Definition est_free_DEBUG (literal : free_error -> Z) (fuel : nat)
    (pool : MEMORY_POOL) (ptr : Z) : option MEMORY_POOL :=
  if ptr =? NULL then Some pool
  else
    let target := BLOCK_ADRS ptr in
    if (target <? BPOOL_TOP pool) || (BPOOL_END pool <? target)
    then Some (with_error_message pool (literal Outside_pool))
    else
      match free_search fuel (heap pool) (BPOOL_TOP pool) target
                        (BPOOL_END pool) with
      | None => None
      | Some block =>
          let checked :=
            if block =? target then
              if IS_FREE_BLOCK (heap pool) block then Some Double_free
              else if BPOOL_END pool <=? PHYS_NEXT (heap pool) block
              then Some Permalloc_address
              else None
            else if block <? target then Some Permalloc_address
            else Some Illegal_address in
          match checked with
          | Some e => Some (with_error_message pool (literal e))
          | None =>
              match free_fill fuel (heap pool) ptr target 0 with
              | None => None
              | Some m =>
                  let pool := with_error_message (with_heap pool m) NULL in
                  PROFILE fuel (est_free pool ptr)
              end
          end
      end.

(** * Properties *)

(** ** Bounded checks by evaluation *)

Fixpoint forall_from (n : nat) (i : Z) (f : Z -> bool) : bool :=
  match n with
  | O => true
  | S k => f i && forall_from k (i + 1) f
  end.

Definition forall_below (n : Z) (f : Z -> bool) : bool :=
  forall_from (Z.to_nat n) 0 f.

Lemma forall_from_spec (n : nat) (f : Z -> bool) :
  forall i, forall_from n i f = true ->
  forall x, i <= x < i + Z.of_nat n -> f x = true.
Proof.
  induction n as [|k IH]; intros i H x Hx; [lia|].
  cbn [forall_from] in H. apply andb_true_iff in H as [H1 H2].
  destruct (Z.eq_dec x i) as [->|Hne]; [exact H1|].
  apply (IH (i + 1)); [exact H2|lia].
Qed.

Lemma forall_below_spec (n : Z) (f : Z -> bool) :
  forall_below n f = true ->
  forall x, 0 <= x < n -> f x = true.
Proof.
  intros H x Hx. apply (forall_from_spec _ _ 0 H).
  rewrite Z2Nat.id; lia.
Qed.

(** ** Fixed-width arithmetic *)

Lemma u8_range x : 0 <= u8 x < 256.
Proof. unfold u8. change (2 ^ 8) with 256. apply Z.mod_pos_bound. lia. Qed.

Lemma u16_range x : 0 <= u16 x < 65536.
Proof. unfold u16. change (2 ^ 16) with 65536. apply Z.mod_pos_bound. lia. Qed.

Lemma u32_range x : 0 <= u32 x < 2 ^ 32.
Proof. unfold u32. apply Z.mod_pos_bound. lia. Qed.

Lemma u64_range x : 0 <= u64 x < 2 ^ 64.
Proof. unfold u64. apply Z.mod_pos_bound. lia. Qed.

Lemma u8_id x : 0 <= x < 256 -> u8 x = x.
Proof. intros. unfold u8. change (2 ^ 8) with 256. apply Z.mod_small. lia. Qed.

Lemma u16_id x : 0 <= x < 65536 -> u16 x = x.
Proof. intros. unfold u16. change (2 ^ 16) with 65536. apply Z.mod_small. lia. Qed.

Lemma u32_id x : 0 <= x < 2 ^ 32 -> u32 x = x.
Proof. intros. unfold u32. apply Z.mod_small. lia. Qed.

Lemma u64_id x : 0 <= x < 2 ^ 64 -> u64 x = x.
Proof. intros. unfold u64. apply Z.mod_small. lia. Qed.

(** ** Leading zeros *)

Definition nlz8_check (x : Z) : bool :=
  (x =? 0)
  || ((0 <=? nlz8 x) && (nlz8 x <=? 7)
      && Z.testbit x (7 - nlz8 x)
      && forall_below (nlz8 x) (fun j => negb (Z.testbit x (7 - j)))).

Lemma nlz8_checked : forall_below 256 nlz8_check = true.
Proof. vm_compute. reflexivity. Qed.

(** For a non-zero byte, [nlz8] is the position, counted from the most
    significant bit, of the first bit set. *)
Lemma nlz8_spec (x : Z) :
  0 < x < 256 ->
  0 <= nlz8 x <= 7
  /\ Z.testbit x (7 - nlz8 x) = true
  /\ forall j, 0 <= j < nlz8 x -> Z.testbit x (7 - j) = false.
Proof.
  intros Hx.
  pose proof (forall_below_spec _ _ nlz8_checked x ltac:(lia)) as H.
  unfold nlz8_check in H.
  destruct (Z.eqb_spec x 0) as [|_]; [lia|]. cbn [orb] in H.
  repeat (apply andb_true_iff in H as [H ?]).
  split; [lia|]. split; [assumption|].
  intros j Hj.
  match goal with
  | [ Hf : forall_below _ _ = true |- _ ] =>
      pose proof (forall_below_spec _ _ Hf j ltac:(lia)) as Hb
  end.
  cbv beta in Hb. now apply negb_true_iff in Hb.
Qed.

Definition nlz16_check (x : Z) : bool :=
  (x =? 0)
  || ((0 <=? nlz16 x) && (nlz16 x <=? 15)
      && Z.testbit x (15 - nlz16 x)
      && forall_below (nlz16 x)
           (fun j => negb (Z.testbit x (15 - j)))).

Lemma nlz16_checked : forall_below 65536 nlz16_check = true.
Proof. vm_compute. reflexivity. Qed.

Lemma nlz16_spec (x : Z) :
  0 < x < 65536 ->
  0 <= nlz16 x <= 15
  /\ Z.testbit x (15 - nlz16 x) = true
  /\ forall j, 0 <= j < nlz16 x -> Z.testbit x (15 - j) = false.
Proof.
  intros Hx.
  pose proof (forall_below_spec _ _ nlz16_checked x ltac:(lia)) as H.
  unfold nlz16_check in H.
  destruct (Z.eqb_spec x 0) as [|_]; [lia|]. cbn [orb] in H.
  repeat (apply andb_true_iff in H as [H ?]).
  split; [lia|]. split; [assumption|].
  intros j Hj.
  match goal with
  | [ Hf : forall_below _ _ = true |- _ ] =>
      pose proof (forall_below_spec _ _ Hf j ltac:(lia)) as Hb
  end.
  cbv beta in Hb. now apply negb_true_iff in Hb.
Qed.

Lemma nlz16_range (x : Z) : 0 <= x < 65536 -> 0 <= nlz16 x <= 16.
Proof.
  intros Hx. destruct (Z.eq_dec x 0) as [->|Hne].
  - vm_compute. split; discriminate.
  - pose proof (nlz16_spec x ltac:(lia)). lia.
Qed.

(** ** Size classes *)

Lemma shiftr_floor32 (s k : Z) :
  0 <= s -> 5 <= k -> Z.shiftr (32 * (s / 32)) k = Z.shiftr s k.
Proof.
  intros Hs Hk. rewrite !Z.shiftr_div_pow2 by lia.
  replace k with (5 + (k - 5)) by lia.
  rewrite Z.pow_add_r by lia. change (2 ^ 5) with 32.
  assert (0 < 2 ^ (k - 5)) by (apply Z.pow_pos_nonneg; lia).
  rewrite Z.div_mul_cancel_l by lia.
  rewrite Z.div_div by lia. reflexivity.
Qed.

(** [calc_index] looks at no bit below [ESTALLOC_IGNORE_LSBS]. *)
Lemma calc_index_floor32 (s : Z) :
  0 <= s -> calc_index (32 * (s / 32)) = calc_index s.
Proof.
  intros Hs. unfold calc_index.
  change (ESTALLOC_FLI_BIT_WIDTH + ESTALLOC_SLI_BIT_WIDTH
          + ESTALLOC_IGNORE_LSBS) with 17.
  change (ESTALLOC_SLI_BIT_WIDTH + ESTALLOC_IGNORE_LSBS) with 8.
  change ESTALLOC_IGNORE_LSBS with 5.
  rewrite !(shiftr_floor32 s) by lia.
  destruct (Z.shiftr s 17 =? 0); cbn [negb]; [|reflexivity].
  pose proof (nlz16_range (u16 (Z.shiftr s 8)) (u16_range _)) as Hn.
  cbv zeta.
  destruct (Z.eqb_spec (16 - nlz16 (u16 (Z.shiftr s 8))) 0) as [E|E].
  - rewrite (shiftr_floor32 s) by lia. reflexivity.
  - rewrite (shiftr_floor32 s) by lia. reflexivity.
Qed.

Definition calc_index_check (q : Z) : bool :=
  let c := calc_index (32 * q) in
  (0 <=? c) && (c <? SIZE_FREE_BLOCKS)
  && (c <=? calc_index (32 * (q + 1)))
  && (class_min c <=? 32 * q).

Lemma calc_index_checked : forall_below 4096 calc_index_check = true.
Proof. vm_compute. reflexivity. Qed.

Lemma calc_index_overflow (s : Z) :
  2 ^ 17 <= s -> calc_index s = SIZE_FREE_BLOCKS - 1.
Proof.
  intros Hs. unfold calc_index.
  change (ESTALLOC_FLI_BIT_WIDTH + ESTALLOC_SLI_BIT_WIDTH
          + ESTALLOC_IGNORE_LSBS) with 17.
  destruct (Z.eqb_spec (Z.shiftr s 17) 0) as [E|E]; [|reflexivity].
  exfalso. rewrite Z.shiftr_div_pow2 in E by lia.
  assert (1 <= s / 2 ^ 17); [|lia].
  apply Z.div_le_lower_bound; lia.
Qed.

Lemma calc_index_small (s : Z) :
  0 <= s < 2 ^ 17 ->
  0 <= calc_index s < SIZE_FREE_BLOCKS
  /\ calc_index s <= calc_index (32 * (s / 32 + 1))
  /\ class_min (calc_index s) <= s.
Proof.
  intros Hs.
  assert (Hq : 0 <= s / 32 < 4096).
  { split; [apply Z.div_pos; lia|].
    apply Z.div_lt_upper_bound; [lia|]. change (32 * 4096) with (2 ^ 17). lia. }
  pose proof (forall_below_spec _ _ calc_index_checked _ Hq) as H.
  unfold calc_index_check in H. cbv zeta in H.
  rewrite (calc_index_floor32 s) in H by lia.
  repeat (apply andb_true_iff in H as [H ?]).
  pose proof (Z.mul_div_le s 32 ltac:(lia)).
  repeat split; lia.
Qed.

Lemma calc_index_range (s : Z) :
  0 <= s -> 0 <= calc_index s < SIZE_FREE_BLOCKS.
Proof.
  intros Hs. destruct (Z_lt_le_dec s (2 ^ 17)) as [Hlt|Hge].
  - apply calc_index_small; lia.
  - rewrite calc_index_overflow by assumption. vm_compute. split; congruence.
Qed.

Lemma calc_index_mono_floor (n : nat) :
  forall q, 0 <= q ->
  calc_index (32 * q) <= calc_index (32 * (q + Z.of_nat n)).
Proof.
  induction n as [|k IH]; intros q Hq.
  - replace (q + Z.of_nat 0) with q by lia. lia.
  - specialize (IH (q + 1) ltac:(lia)).
    replace (q + Z.of_nat (S k)) with (q + 1 + Z.of_nat k) by lia.
    enough (calc_index (32 * q) <= calc_index (32 * (q + 1))) by lia.
    destruct (Z_lt_le_dec (32 * q) (2 ^ 17)) as [Hlt|Hge].
    + pose proof (calc_index_small (32 * q) ltac:(lia)) as (_ & H & _).
      replace (32 * q / 32) with q in H; [exact H|].
      symmetry. rewrite Z.mul_comm. apply Z.div_mul. lia.
    + rewrite !calc_index_overflow by lia. lia.
Qed.

Lemma calc_index_mono (s1 s2 : Z) :
  0 <= s1 <= s2 -> calc_index s1 <= calc_index s2.
Proof.
  intros H.
  rewrite <- (calc_index_floor32 s1), <- (calc_index_floor32 s2) by lia.
  assert (s1 / 32 <= s2 / 32) by (apply Z.div_le_mono; lia).
  assert (0 <= s1 / 32) by (apply Z.div_pos; lia).
  replace (s2 / 32) with (s1 / 32 + Z.of_nat (Z.to_nat (s2 / 32 - s1 / 32)))
    by (rewrite Z2Nat.id; lia).
  apply calc_index_mono_floor. assumption.
Qed.

Lemma class_min_calc_index (s : Z) :
  0 <= s -> class_min (calc_index s) <= s.
Proof.
  intros Hs. destruct (Z_lt_le_dec s (2 ^ 17)) as [Hlt|Hge].
  - apply calc_index_small; lia.
  - rewrite calc_index_overflow by assumption.
    assert (class_min (SIZE_FREE_BLOCKS - 1) <= 2 ^ 17)
      by (vm_compute; congruence).
    lia.
Qed.

(** A block of a class above that of a request is larger than it. *)
Lemma calc_index_lt_size (a s : Z) :
  0 <= a -> 0 <= s -> calc_index a < calc_index s -> a < s.
Proof.
  intros Ha Hs Hlt. destruct (Z_lt_le_dec a s) as [|Hge]; [assumption|].
  pose proof (calc_index_mono s a ltac:(lia)). lia.
Qed.

Lemma FLI_SLI_range (c : Z) :
  0 <= c < SIZE_FREE_BLOCKS ->
  0 <= FLI c <= ESTALLOC_FLI_BIT_WIDTH
  /\ 0 <= SLI c <= Z.shiftl 1 ESTALLOC_SLI_BIT_WIDTH - 1
  /\ c = 8 * FLI c + SLI c.
Proof.
  change SIZE_FREE_BLOCKS with 80. intros Hc.
  unfold FLI, SLI.
  change ESTALLOC_SLI_BIT_WIDTH with 3. change ESTALLOC_FLI_BIT_WIDTH with 9.
  change (Z.shiftl 1 3 - 1) with (Z.ones 3).
  rewrite Z.land_ones by lia. rewrite Z.shiftr_div_pow2 by lia.
  change (2 ^ 3) with 8.
  pose proof (Z.div_mod c 8 ltac:(lia)).
  pose proof (Z.mod_pos_bound c 8 ltac:(lia)).
  assert (0 <= c / 8) by (apply Z.div_pos; lia).
  assert (c / 8 < 10) by (apply Z.div_lt_upper_bound; lia).
  vm_compute Z.ones. lia.
Qed.

(** ** Bit operations on tagged size words *)

Lemma testbit_low3 (k c n : Z) :
  0 <= c < 8 -> 0 <= n ->
  Z.testbit (8 * k + c) n
  = if n <? 3 then Z.testbit c n else Z.testbit k (n - 3).
Proof.
  intros Hc Hn. destruct (Z.ltb_spec n 3) as [Hlt|Hge].
  - rewrite <- (Z.mod_pow2_bits_low (8 * k + c) 3 n) by lia.
    change (2 ^ 3) with 8.
    replace ((8 * k + c) mod 8) with c; [reflexivity|].
    apply Z.mod_unique_pos with (q := k); lia.
  - replace n with ((n - 3) + 3) at 1 by lia.
    rewrite <- Z.div_pow2_bits by lia. change (2 ^ 3) with 8.
    replace ((8 * k + c) / 8) with k; [reflexivity|].
    apply Z.div_unique_pos with (r := c); lia.
Qed.

Lemma small_cases (c : Z) :
  0 <= c < 8 ->
  c = 0 \/ c = 1 \/ c = 2 \/ c = 3 \/ c = 4 \/ c = 5 \/ c = 6 \/ c = 7.
Proof. lia. Qed.

Lemma land_small (c d : Z) : 0 <= c < 8 -> 0 <= d < 8 -> 0 <= Z.land c d < 8.
Proof.
  intros Hc Hd.
  destruct (small_cases c Hc) as [->|[->|[->|[->|[->|[->|[->| ->]]]]]]];
  destruct (small_cases d Hd) as [->|[->|[->|[->|[->|[->|[->| ->]]]]]]];
  vm_compute; split; congruence.
Qed.

Lemma lor_small (c d : Z) : 0 <= c < 8 -> 0 <= d < 8 -> 0 <= Z.lor c d < 8.
Proof.
  intros Hc Hd.
  destruct (small_cases c Hc) as [->|[->|[->|[->|[->|[->|[->| ->]]]]]]];
  destruct (small_cases d Hd) as [->|[->|[->|[->|[->|[->|[->| ->]]]]]]];
  vm_compute; split; congruence.
Qed.

Lemma land_low3 (k c y d : Z) :
  0 <= c < 8 -> 0 <= d < 8 ->
  Z.land (8 * k + c) (8 * y + d) = 8 * Z.land k y + Z.land c d.
Proof.
  intros Hc Hd. pose proof (land_small c d Hc Hd).
  apply Z.bits_inj'. intros n Hn.
  rewrite Z.land_spec, !testbit_low3 by lia.
  destruct (n <? 3); rewrite Z.land_spec; reflexivity.
Qed.

Lemma lor_low3 (k c y d : Z) :
  0 <= c < 8 -> 0 <= d < 8 ->
  Z.lor (8 * k + c) (8 * y + d) = 8 * Z.lor k y + Z.lor c d.
Proof.
  intros Hc Hd. pose proof (lor_small c d Hc Hd).
  apply Z.bits_inj'. intros n Hn.
  rewrite Z.lor_spec, !testbit_low3 by lia.
  destruct (n <? 3); rewrite Z.lor_spec; reflexivity.
Qed.

(** The flag bits of a size word: bit 0 is USED, bit 1 is PREV_USED. *)
Definition flags (used prev_used : bool) : Z :=
  (if used then 1 else 0) + (if prev_used then 2 else 0).

(** The size word of a block of [sz] bytes. *)
Definition word (sz : Z) (used prev_used : bool) : Z :=
  sz + flags used prev_used.

Lemma flags_range u pu : 0 <= flags u pu < 8.
Proof. destruct u, pu; vm_compute; split; congruence. Qed.

Lemma word_decomp (sz : Z) u pu :
  sz mod 8 = 0 -> word sz u pu = 8 * (sz / 8) + flags u pu.
Proof.
  intros H. unfold word. pose proof (Z.div_mod sz 8 ltac:(lia)). lia.
Qed.

Lemma word_range (sz : Z) u pu :
  sz mod 8 = 0 -> 0 <= sz < 2 ^ 32 -> 0 <= word sz u pu < 2 ^ 32.
Proof.
  intros Hm Hs. rewrite word_decomp by assumption.
  pose proof (flags_range u pu).
  assert (0 <= sz / 8) by (apply Z.div_pos; lia).
  assert (sz / 8 < 2 ^ 29) by (apply Z.div_lt_upper_bound; lia).
  change (2 ^ 32) with (8 * 2 ^ 29). lia.
Qed.

Lemma land_ones29 (k : Z) : 0 <= k < 2 ^ 29 -> Z.land k 536870911 = k.
Proof.
  intros H. change 536870911 with (Z.ones 29).
  rewrite Z.land_ones by lia. apply Z.mod_small. lia.
Qed.

Section WordOps.
Variables (sz : Z) (u pu : bool).
Hypothesis Hmod : sz mod 8 = 0.
Hypothesis Hrange : 0 <= sz < 2 ^ 32.

Let Hk : 0 <= sz / 8 < 2 ^ 29.
Proof.
  split; [apply Z.div_pos; lia|apply Z.div_lt_upper_bound; lia].
Qed.

Lemma word_block_size :
  Z.land (word sz u pu) (u32 (Z.lnot ALIGNMENT_MASK)) = sz.
Proof.
  rewrite word_decomp by assumption.
  change (u32 (Z.lnot ALIGNMENT_MASK)) with (8 * 536870911 + 0).
  rewrite land_low3 by (try apply flags_range; lia).
  rewrite land_ones29 by exact Hk. rewrite Z.land_0_r.
  pose proof (Z.div_mod sz 8 ltac:(lia)). lia.
Qed.

Lemma word_used : Z.land (word sz u pu) 1 = if u then 1 else 0.
Proof.
  rewrite word_decomp by assumption. change 1 with (8 * 0 + 1) at 1.
  rewrite land_low3 by (try apply flags_range; lia).
  rewrite Z.land_0_r. destruct u, pu; reflexivity.
Qed.

Lemma word_prev_used : Z.land (word sz u pu) 2 = if pu then 2 else 0.
Proof.
  rewrite word_decomp by assumption. change 2 with (8 * 0 + 2) at 1.
  rewrite land_low3 by (try apply flags_range; lia).
  rewrite Z.land_0_r. destruct u, pu; reflexivity.
Qed.

Lemma word_low : Z.land (word sz u pu) ALIGNMENT_MASK = flags u pu.
Proof.
  rewrite word_decomp by assumption.
  change ALIGNMENT_MASK with (8 * 0 + 7).
  rewrite land_low3 by (try apply flags_range; lia).
  rewrite Z.land_0_r. destruct u, pu; reflexivity.
Qed.

Lemma word_set_used : Z.lor (word sz u pu) 1 = word sz true pu.
Proof.
  rewrite !word_decomp by assumption. change 1 with (8 * 0 + 1) at 1.
  rewrite lor_low3 by (try apply flags_range; lia).
  rewrite Z.lor_0_r. destruct u, pu; reflexivity.
Qed.

Lemma word_set_prev_used : Z.lor (word sz u pu) 2 = word sz u true.
Proof.
  rewrite !word_decomp by assumption. change 2 with (8 * 0 + 2) at 1.
  rewrite lor_low3 by (try apply flags_range; lia).
  rewrite Z.lor_0_r. destruct u, pu; reflexivity.
Qed.

Lemma word_set_free :
  Z.land (word sz u pu) (u32 (Z.lnot 1)) = word sz false pu.
Proof.
  rewrite !word_decomp by assumption.
  change (u32 (Z.lnot 1)) with (8 * 536870911 + 6).
  rewrite land_low3 by (try apply flags_range; lia).
  rewrite land_ones29 by exact Hk. destruct u, pu; reflexivity.
Qed.

Lemma word_set_prev_free :
  Z.land (word sz u pu) (u32 (Z.lnot 2)) = word sz u false.
Proof.
  rewrite !word_decomp by assumption.
  change (u32 (Z.lnot 2)) with (8 * 536870911 + 5).
  rewrite land_low3 by (try apply flags_range; lia).
  rewrite land_ones29 by exact Hk. destruct u, pu; reflexivity.
Qed.

(** [size | (target->size & ALIGNMENT_MASK)] in [split_block]. *)
Lemma word_resize (sz' : Z) :
  sz' mod 8 = 0 -> 0 <= sz' ->
  Z.lor sz' (Z.land (word sz u pu) ALIGNMENT_MASK) = word sz' u pu.
Proof.
  intros Hm' Hs'. rewrite word_low.
  rewrite (word_decomp sz') by assumption.
  replace sz' with (8 * (sz' / 8) + 0) at 1
    by (pose proof (Z.div_mod sz' 8 ltac:(lia)); lia).
  pose proof (flags_range u pu).
  replace (flags u pu) with (8 * 0 + flags u pu) at 1 by lia.
  rewrite lor_low3 by lia. rewrite Z.lor_0_r. destruct u, pu; reflexivity.
Qed.
End WordOps.

(** ** Loads and stores *)

Lemma upd_same (m : mem) (a v : Z) : upd m a v a = v.
Proof. unfold upd. rewrite Z.eqb_refl. reflexivity. Qed.

Lemma upd_other (m : mem) (a v x : Z) : x <> a -> upd m a v x = m x.
Proof.
  intros H. unfold upd. destruct (Z.eqb_spec x a); [contradiction|reflexivity].
Qed.

Lemma store_bytes_outside (n : nat) :
  forall m a v x, x < a \/ a + Z.of_nat n <= x -> store_bytes n m a v x = m x.
Proof.
  induction n as [|k IH]; intros m a v x Hx; [reflexivity|].
  cbn [store_bytes]. rewrite IH by lia. apply upd_other. lia.
Qed.

Lemma load_bytes_ext (n : nat) :
  forall m m' a,
  (forall x, a <= x < a + Z.of_nat n -> m' x = m x) ->
  load_bytes n m' a = load_bytes n m a.
Proof.
  induction n as [|k IH]; intros m m' a H; [reflexivity|].
  cbn [load_bytes]. rewrite H by lia. f_equal. f_equal.
  apply IH. intros x Hx. apply H. lia.
Qed.

Lemma load_bytes_range (n : nat) :
  forall m a, 0 <= load_bytes n m a < 256 ^ Z.of_nat n.
Proof.
  induction n as [|k IH]; intros m a.
  - cbn. lia.
  - cbn [load_bytes]. rewrite Nat2Z.inj_succ, Z.pow_succ_r by lia.
    specialize (IH m (a + 1)).
    pose proof (Z.mod_pos_bound (m a) 256 ltac:(lia)). lia.
Qed.

Lemma load_store_same (n : nat) :
  forall m a v,
  load_bytes n (store_bytes n m a v) a = v mod 256 ^ Z.of_nat n.
Proof.
  induction n as [|k IH]; intros m a v.
  - cbn. rewrite Z.mod_1_r. reflexivity.
  - cbn [load_bytes store_bytes].
    rewrite store_bytes_outside by lia. rewrite upd_same.
    rewrite IH. rewrite Nat2Z.inj_succ, Z.pow_succ_r by lia.
    rewrite Z.mod_mod by lia.
    assert (0 < 256 ^ Z.of_nat k) by (apply Z.pow_pos_nonneg; lia).
    rewrite (Z.rem_mul_r v 256 (256 ^ Z.of_nat k)) by lia. reflexivity.
Qed.

Lemma load_store_other (k n : nat) (m : mem) (a v b : Z) :
  a + Z.of_nat n <= b \/ b + Z.of_nat k <= a ->
  load_bytes k (store_bytes n m a v) b = load_bytes k m b.
Proof.
  intros H. apply load_bytes_ext. intros x Hx.
  apply store_bytes_outside. lia.
Qed.

(** [m'] agrees with [m] outside the bytes [lo .. hi-1]. *)
Definition changed_in (m m' : mem) (lo hi : Z) : Prop :=
  forall x, x < lo \/ hi <= x -> m' x = m x.

Lemma changed_in_refl m lo hi : changed_in m m lo hi.
Proof. intros x _. reflexivity. Qed.

Lemma changed_in_trans m1 m2 m3 lo hi :
  changed_in m1 m2 lo hi -> changed_in m2 m3 lo hi -> changed_in m1 m3 lo hi.
Proof. intros H1 H2 x Hx. rewrite H2, H1 by assumption. reflexivity. Qed.

Lemma changed_in_weaken m m' lo hi lo' hi' :
  changed_in m m' lo hi -> lo' <= lo -> hi <= hi' -> changed_in m m' lo' hi'.
Proof. intros H Hl Hh x Hx. apply H. lia. Qed.

Lemma changed_in_store (n : nat) m a v lo hi :
  lo <= a -> a + Z.of_nat n <= hi ->
  changed_in m (store_bytes n m a v) lo hi.
Proof. intros Hl Hh x Hx. apply store_bytes_outside. lia. Qed.

Lemma changed_in_upd m a v lo hi :
  lo <= a < hi -> changed_in m (upd m a v) lo hi.
Proof. intros H x Hx. apply upd_other. lia. Qed.

Lemma get_size_changed m m' lo hi p :
  changed_in m m' lo hi -> p + 4 <= lo \/ hi <= p ->
  get_size m' p = get_size m p.
Proof.
  intros H Hp. apply load_bytes_ext. intros x Hx. apply H.
  change (Z.of_nat 4) with 4 in Hx. lia.
Qed.

Lemma load_ptr_changed m m' lo hi p :
  changed_in m m' lo hi -> p + 8 <= lo \/ hi <= p ->
  load_ptr m' p = load_ptr m p.
Proof.
  intros H Hp. apply load_bytes_ext. intros x Hx. apply H.
  change (Z.of_nat 8) with 8 in Hx. lia.
Qed.

Lemma get_size_range m p : 0 <= get_size m p < 2 ^ 32.
Proof. apply (load_bytes_range 4). Qed.

Lemma load_ptr_range m p : 0 <= load_ptr m p < 2 ^ 64.
Proof. apply (load_bytes_range 8). Qed.

Lemma get_set_size_same m p v : get_size (set_size m p v) p = u32 v.
Proof. apply (load_store_same 4). Qed.

Lemma get_set_size_other m p v q :
  p + 4 <= q \/ q + 4 <= p -> get_size (set_size m p v) q = get_size m q.
Proof. intros H. apply (load_store_other 4 4). exact H. Qed.

Lemma get_size_store_ptr m a v q :
  a + 8 <= q \/ q + 4 <= a -> get_size (store_ptr m a v) q = get_size m q.
Proof. intros H. apply (load_store_other 4 8). exact H. Qed.

Lemma load_store_ptr_same m a v : load_ptr (store_ptr m a v) a = u64 v.
Proof. apply (load_store_same 8). Qed.

Lemma load_store_ptr_other m a v b :
  a + 8 <= b \/ b + 8 <= a -> load_ptr (store_ptr m a v) b = load_ptr m b.
Proof. intros H. apply (load_store_other 8 8). exact H. Qed.

Lemma load_ptr_set_size m p v b :
  p + 4 <= b \/ b + 8 <= p -> load_ptr (set_size m p v) b = load_ptr m b.
Proof. intros H. apply (load_store_other 8 4). exact H. Qed.

Lemma changed_in_set_size m p v lo hi :
  lo <= p -> p + 4 <= hi -> changed_in m (set_size m p v) lo hi.
Proof. intros. apply (changed_in_store 4); assumption. Qed.

Lemma changed_in_store_ptr m a v lo hi :
  lo <= a -> a + 8 <= hi -> changed_in m (store_ptr m a v) lo hi.
Proof. intros. apply (changed_in_store 8); assumption. Qed.

(** From here on the four accessors are used through the lemmas above. *)
Global Opaque get_size set_size load_ptr store_ptr.

(** ** Arrays of the pool header *)

Lemma list_set_length (l : list Z) :
  forall n v, length (list_set l n v) = length l.
Proof.
  induction l as [|h t IH]; intros [|k] v; cbn; try reflexivity.
  rewrite IH. reflexivity.
Qed.

Lemma nth_list_set_same (l : list Z) :
  forall n v, (n < length l)%nat -> nth n (list_set l n v) 0 = v.
Proof.
  induction l as [|h t IH]; intros [|k] v H; cbn in *; try lia.
  apply IH. lia.
Qed.

Lemma nth_list_set_other (l : list Z) :
  forall n k v, n <> k -> nth k (list_set l n v) 0 = nth k l 0.
Proof.
  induction l as [|h t IH]; intros [|n] [|k] v H; cbn; try reflexivity.
  - contradiction.
  - apply IH. congruence.
Qed.

Lemma arr_set_length l i v : length (arr_set l i v) = length l.
Proof.
  unfold arr_set. destruct (i <? 0); [reflexivity|apply list_set_length].
Qed.

Lemma arr_get_set_same l i v :
  0 <= i < Z.of_nat (length l) -> arr_get (arr_set l i v) i = v.
Proof.
  intros H. unfold arr_get, arr_set.
  destruct (Z.ltb_spec i 0); [lia|]. apply nth_list_set_same. lia.
Qed.

Lemma arr_get_set_other l i j v :
  i <> j -> arr_get (arr_set l i v) j = arr_get l j.
Proof.
  intros H. unfold arr_get, arr_set.
  destruct (Z.ltb_spec j 0); [reflexivity|].
  destruct (Z.ltb_spec i 0); [reflexivity|].
  apply nth_list_set_other. lia.
Qed.

(** ** The abstract block chain *)

(** A block of the physical chain as the invariant sees it. *)
Record blk : Type := mkblk { b_addr : Z; b_size : Z; b_used : bool }.

(** Blocks laid out back to back from address [a], each a multiple of the
    alignment and at least [ESTALLOC_MIN_MEMORY_BLOCK_SIZE] long. *)
Fixpoint geo (a : Z) (L : list blk) : Prop :=
  match L with
  | [] => True
  | b :: L' =>
      b_addr b = a /\ b_size b mod 8 = 0 /\ 32 <= b_size b
      /\ geo (a + b_size b) L'
  end.

Fixpoint chain_end (a : Z) (L : list blk) : Z :=
  match L with
  | [] => a
  | b :: L' => chain_end (a + b_size b) L'
  end.

Fixpoint last_used (pu : bool) (L : list blk) : bool :=
  match L with
  | [] => pu
  | b :: L' => last_used (b_used b) L'
  end.

(** Every size word holds the size, the USED bit of its block and, as
    PREV_USED, the USED bit of the block before ([pu] for the first). *)
Fixpoint words (m : mem) (pu : bool) (L : list blk) : Prop :=
  match L with
  | [] => True
  | b :: L' =>
      get_size m (b_addr b) = word (b_size b) (b_used b) pu
      /\ words m (b_used b) L'
  end.

(** No free block follows a free block. *)
Fixpoint no_adj (pu : bool) (L : list blk) : Prop :=
  match L with
  | [] => True
  | b :: L' => (pu = false -> b_used b = true) /\ no_adj (b_used b) L'
  end.

Lemma chain_end_app a L1 L2 :
  chain_end a (L1 ++ L2) = chain_end (chain_end a L1) L2.
Proof. revert a. induction L1 as [|b L IH]; intros a; cbn; auto. Qed.

Lemma last_used_app pu L1 L2 :
  last_used pu (L1 ++ L2) = last_used (last_used pu L1) L2.
Proof. revert pu. induction L1 as [|b L IH]; intros pu; cbn; auto. Qed.

Lemma geo_app a L1 L2 :
  geo a (L1 ++ L2) <-> geo a L1 /\ geo (chain_end a L1) L2.
Proof.
  revert a. induction L1 as [|b L IH]; intros a; cbn.
  - tauto.
  - rewrite IH. tauto.
Qed.

Lemma words_app m pu L1 L2 :
  words m pu (L1 ++ L2) <-> words m pu L1 /\ words m (last_used pu L1) L2.
Proof.
  revert pu. induction L1 as [|b L IH]; intros pu; cbn.
  - tauto.
  - rewrite IH. tauto.
Qed.

Lemma no_adj_app pu L1 L2 :
  no_adj pu (L1 ++ L2) <-> no_adj pu L1 /\ no_adj (last_used pu L1) L2.
Proof.
  revert pu. induction L1 as [|b L IH]; intros pu; cbn.
  - tauto.
  - rewrite IH. tauto.
Qed.

Lemma chain_end_ge a L : geo a L -> a <= chain_end a L.
Proof.
  revert a. induction L as [|b L IH]; intros a H; cbn in *; [lia|].
  destruct H as (_ & _ & Hs & Hg). specialize (IH _ Hg). lia.
Qed.

Lemma geo_bounds a L b :
  geo a L -> In b L ->
  a <= b_addr b /\ b_addr b + b_size b <= chain_end a L
  /\ b_size b mod 8 = 0 /\ 32 <= b_size b.
Proof.
  revert a. induction L as [|c L IH]; intros a H Hin; [destruct Hin|].
  cbn in H. destruct H as (Ha & Hm & Hs & Hg).
  destruct Hin as [->|Hin].
  - cbn. pose proof (chain_end_ge _ _ Hg). repeat split; lia.
  - destruct (IH _ Hg Hin) as (H1 & H2 & H3 & H4). cbn.
    repeat split; lia.
Qed.

(** Two blocks of a chain are the same block or do not overlap. *)
Lemma geo_sep a L b1 b2 :
  geo a L -> In b1 L -> In b2 L ->
  b1 = b2 \/ b_addr b1 + b_size b1 <= b_addr b2
  \/ b_addr b2 + b_size b2 <= b_addr b1.
Proof.
  revert a. induction L as [|c L IH]; intros a H H1 H2; [destruct H1|].
  cbn in H. destruct H as (Ha & Hm & Hs & Hg).
  destruct H1 as [->|H1], H2 as [->|H2].
  - left. reflexivity.
  - right. left. pose proof (geo_bounds _ _ _ Hg H2). lia.
  - right. right. pose proof (geo_bounds _ _ _ Hg H1). lia.
  - eapply IH; eassumption.
Qed.

Lemma geo_addr_inj a L b1 b2 :
  geo a L -> In b1 L -> In b2 L -> b_addr b1 = b_addr b2 -> b1 = b2.
Proof.
  intros H H1 H2 E. destruct (geo_sep _ _ _ _ H H1 H2) as [|[|]]; auto.
  - pose proof (geo_bounds _ _ _ H H1). lia.
  - pose proof (geo_bounds _ _ _ H H2). lia.
Qed.

Lemma geo_split a L1 b L2 :
  geo a (L1 ++ b :: L2) ->
  geo a L1 /\ b_addr b = chain_end a L1 /\ b_size b mod 8 = 0
  /\ 32 <= b_size b /\ geo (b_addr b + b_size b) L2
  /\ (forall c, In c L1 -> a <= b_addr c /\ b_addr c + b_size c <= b_addr b
                           /\ 32 <= b_size c)
  /\ (forall c, In c L2 -> b_addr b + b_size b <= b_addr c /\ 32 <= b_size c).
Proof.
  intros H. apply geo_app in H as [H1 H2]. cbn in H2.
  destruct H2 as (Ha & Hm & Hs & Hg). rewrite <- Ha in Hg.
  repeat split; auto.
  - pose proof (geo_bounds _ _ _ H1 H). lia.
  - pose proof (geo_bounds _ _ _ H1 H). lia.
  - pose proof (geo_bounds _ _ _ H1 H). lia.
  - pose proof (geo_bounds _ _ _ Hg H). lia.
  - pose proof (geo_bounds _ _ _ Hg H). lia.
Qed.

Lemma words_frame m m' pu L :
  words m pu L ->
  (forall b, In b L -> get_size m' (b_addr b) = get_size m (b_addr b)) ->
  words m' pu L.
Proof.
  revert pu. induction L as [|b L IH]; intros pu H Hf; cbn in *; [exact I|].
  destruct H as [Hw Hr]. split.
  - rewrite Hf by auto. exact Hw.
  - apply IH; auto.
Qed.

(** ** The invariant *)

(** The free lists as the invariant sees them: the addresses on the list
    of each class, head first. *)
Definition flists : Type := Z -> list Z.

Definition fl_set (F : flists) (i : Z) (l : list Z) : flists :=
  fun j => if j =? i then l else F j.

(** A doubly linked list laid out in memory: [head] is its first element
    and [prev] what the first element's [prev_free] holds. *)
Fixpoint dll (m : mem) (prev : Z) (l : list Z) (head : Z) : Prop :=
  match l with
  | [] => head = NULL
  | a :: l' =>
      head = a /\ a <> NULL /\ prev_free m a = prev
      /\ dll m a l' (next_free m a)
  end.

Definition is_nil (l : list Z) : bool :=
  match l with [] => true | _ => false end.

(** The physical chain: [L0] then the last block [lst], which is in use
    and ends the pool (the sentinel, grown by [est_permalloc]). *)
Record chain_inv (pool : MEMORY_POOL) (L0 : list blk) (lst : blk)
  : Prop := mk_chain_inv {
  ci_base : 0 < pool_adrs pool;
  ci_align : pool_adrs pool mod 8 = 0;
  ci_end : BPOOL_END pool <= 2 ^ 64;
  ci_size : 0 <= size pool < 2 ^ 32;
  ci_geo : geo (BPOOL_TOP pool) L0;
  ci_lst_addr : b_addr lst = chain_end (BPOOL_TOP pool) L0;
  ci_lst_mod : b_size lst mod 8 = 0;
  ci_lst_min : 8 <= b_size lst;
  ci_lst_end : b_addr lst + b_size lst = BPOOL_END pool;
  ci_lst_used : b_used lst = true;
  ci_words : words (heap pool) true (L0 ++ [lst]);
  ci_noadj : no_adj true L0
}.

(** The free lists: every list of [F] is linked in memory from its head
    slot and holds free blocks of the chain of its class, each with its
    boundary tag. *)
Record lists_inv (pool : MEMORY_POOL) (L0 : list blk) (F : flists)
  : Prop := mk_lists_inv {
  li_len_fb : length (free_blocks pool) = 81%nat;
  li_dll : forall i, 0 <= i < 80 ->
           dll (heap pool) NULL (F i) (arr_get (free_blocks pool) i);
  li_fb_sentinel : arr_get (free_blocks pool) 80 = NULL;
  li_mem : forall i a, In a (F i) ->
           0 <= i < 80
           /\ exists sz, In (mkblk a sz false) L0 /\ calc_index sz = i
                         /\ load_ptr (heap pool) (a + sz - 8) = a;
  li_nodup : forall i, NoDup (F i)
}.

(** The bitmaps say which lists are not empty. *)
Record bitmap_inv (pool : MEMORY_POOL) (F : flists) : Prop := mk_bitmap_inv {
  bi_len_sli : length (free_sli_bitmap pool) = 11%nat;
  bi_sli : forall f s, 0 <= f <= 9 -> 0 <= s <= 7 ->
           Z.testbit (arr_get (free_sli_bitmap pool) f) (7 - s)
           = negb (is_nil (F (8 * f + s)));
  bi_sli_range : forall f, 0 <= arr_get (free_sli_bitmap pool) f < 256;
  bi_sli_sentinel : arr_get (free_sli_bitmap pool) 10 = 0;
  bi_fli : forall f, 0 <= f <= 9 ->
           Z.testbit (free_fli_bitmap pool) (15 - f)
           = negb (arr_get (free_sli_bitmap pool) f =? 0);
  bi_fli_range : 0 <= free_fli_bitmap pool < 65536;
  bi_fli_low : forall k, 0 <= k < 6 ->
               Z.testbit (free_fli_bitmap pool) k = false
}.

Record index_inv (pool : MEMORY_POOL) (L0 : list blk) (F : flists)
  : Prop := mk_index_inv {
  ii_lists : lists_inv pool L0 F;
  ii_bitmap : bitmap_inv pool F
}.

(** Every free block of the chain is on the list of its class. *)
Definition complete (L0 : list blk) (F : flists) : Prop :=
  forall b, In b L0 -> b_used b = false ->
  In (b_addr b) (F (calc_index (b_size b))).

(** The live allocations are blocks in use of [L0]. *)
Definition live_ok (L0 : list blk) (live : list Z) : Prop :=
  forall p, In p live -> exists sz, In (mkblk (p - 8) sz true) L0.

Record Inv (pool : MEMORY_POOL) (L0 : list blk) (lst : blk) (F : flists)
    (live : list Z) : Prop := mk_Inv {
  inv_chain : chain_inv pool L0 lst;
  inv_index : index_inv pool L0 F;
  inv_complete : complete L0 F;
  inv_live : live_ok L0 live
}.

(** ** Linked lists in memory *)

(** Rewriting of loads over stores; the side conditions are linear
    arithmetic over the addresses. *)
Ltac mem_unfold :=
  unfold next_free, prev_free, set_next_free, set_prev_free,
         offsetof_next_free, offsetof_prev_free, sizeof_ptr,
         sizeof_USED_BLOCK, NULL in *.

Ltac mem_step :=
  first
    [ rewrite load_store_ptr_same
    | rewrite get_set_size_same
    | rewrite load_store_ptr_other by lia
    | rewrite load_ptr_set_size by lia
    | rewrite get_size_store_ptr by lia
    | rewrite get_set_size_other by lia ].

Ltac mem_simp := mem_unfold; repeat mem_step.

(** The elements of [l] are pairwise at least a minimal block apart. *)
Fixpoint apart (l : list Z) : Prop :=
  match l with
  | [] => True
  | a :: l' => (forall b, In b l' -> a + 32 <= b \/ b + 32 <= a) /\ apart l'
  end.

Definition addr_ok (a : Z) : Prop := 0 < a /\ a + 32 <= 2 ^ 64.

Lemma apart_app l1 l2 :
  apart (l1 ++ l2) <->
  apart l1 /\ apart l2
  /\ (forall a b, In a l1 -> In b l2 -> a + 32 <= b \/ b + 32 <= a).
Proof.
  induction l1 as [|x l1 IH]; cbn.
  - intuition.
  - rewrite IH. split.
    + intros (H1 & H2 & H3 & H4). repeat split; auto.
      * intros b Hb. apply H1. apply in_or_app. auto.
      * intros a b [->|Ha] Hb; [apply H1; apply in_or_app; auto|auto].
    + intros ((H1 & H2) & H3 & H4). repeat split; auto.
      intros b Hb. apply in_app_or in Hb as [Hb|Hb]; auto.
Qed.

Lemma apart_of_nodup (l : list Z) :
  NoDup l ->
  (forall a b, In a l -> In b l -> a = b \/ a + 32 <= b \/ b + 32 <= a) ->
  apart l.
Proof.
  induction l as [|x l IH]; intros Hnd Hsp; cbn; [exact I|].
  apply NoDup_cons_iff in Hnd as [Hn Hnd]. split.
  - intros b Hb.
    destruct (Hsp x b (or_introl eq_refl) (or_intror Hb)) as [->|E];
      [contradiction|exact E].
  - apply IH; [exact Hnd|]. intros a b Ha Hb. apply Hsp; right; assumption.
Qed.

Lemma apart_nodup (l : list Z) : apart l -> NoDup l.
Proof.
  induction l as [|x l IH]; intros H; [constructor|].
  destruct H as [H1 H2]. constructor; [|auto].
  intros Hin. specialize (H1 _ Hin). lia.
Qed.

Lemma dll_frame m m' prev l head :
  dll m prev l head ->
  (forall a, In a l -> prev_free m' a = prev_free m a
                       /\ next_free m' a = next_free m a) ->
  dll m' prev l head.
Proof.
  revert prev head. induction l as [|a l IH]; intros prev head H Hf.
  - exact H.
  - cbn in *. destruct H as (Hh & Hn & Hp & Hr).
    destruct (Hf a (or_introl eq_refl)) as [E1 E2].
    repeat split; auto; try congruence.
    rewrite E2. apply IH; auto.
Qed.

Lemma dll_nonnull m prev l head a : dll m prev l head -> In a l -> a <> NULL.
Proof.
  revert prev head. induction l as [|b l IH]; intros prev head H Hin.
  - destruct Hin.
  - cbn in H. destruct H as (_ & Hn & _ & Hr). destruct Hin as [->|Hin].
    + exact Hn.
    + eapply IH; eassumption.
Qed.

Lemma dll_head m prev l head : dll m prev l head -> head = hd NULL l.
Proof. destruct l; cbn; tauto. Qed.

Lemma last_cons (l : list Z) : forall a d, last (a :: l) d = last l a.
Proof.
  induction l as [|b l IH]; intros a d; [reflexivity|].
  change (last (a :: b :: l) d) with (last (b :: l) d).
  rewrite !IH. reflexivity.
Qed.

(** Where the links of an element in the middle point. *)
Lemma dll_links m l1 t l2 :
  forall prev head,
  dll m prev (l1 ++ t :: l2) head ->
  prev_free m t = last l1 prev /\ next_free m t = hd NULL l2.
Proof.
  induction l1 as [|a l1 IH]; intros prev head H.
  - cbn in H. destruct H as (_ & _ & Hp & Hr). split; [exact Hp|].
    apply dll_head in Hr. exact Hr.
  - cbn [app] in H. cbn [dll] in H. destruct H as (_ & _ & _ & Hr).
    destruct (IH _ _ Hr) as [E1 E2]. split; [|exact E2].
    rewrite E1. symmetry. apply last_cons.
Qed.

(** Linking [t] in front of a list. *)
Lemma dll_push m l head t :
  dll m NULL l head -> apart (t :: l) -> addr_ok t ->
  (forall a, In a l -> addr_ok a) ->
  let m1 := set_prev_free m t NULL in
  let m2 := set_next_free m1 t head in
  let m3 := if next_free m2 t =? NULL then m2
            else set_prev_free m2 (next_free m2 t) t in
  dll m3 NULL (t :: l) t.
Proof.
  intros H [Hsp Hap] [Ht1 Ht2] Hok m1 m2 m3.
  assert (Hhead : 0 <= head < 2 ^ 64).
  { destruct l; cbn in H; [rewrite H; unfold NULL; lia|].
    destruct H as (-> & _). destruct (Hok z (or_introl eq_refl)). lia. }
  assert (Hnf : next_free m2 t = head).
  { unfold m2, m1. mem_simp. apply u64_id. exact Hhead. }
  unfold m3. rewrite Hnf. clear m3.
  destruct l as [|h l].
  - cbn in H. rewrite H. change (NULL =? NULL) with true. cbv iota.
    cbn. repeat split; auto; try (unfold NULL; lia).
    + unfold m2, m1. mem_simp. reflexivity.
    + rewrite Hnf. exact H.
  - cbn in H. destruct H as (Hh & Hz & Hp & Hr). subst head.
    pose proof (Hsp h (or_introl eq_refl)) as Hth.
    destruct (Hok h (or_introl eq_refl)) as [Hh1 Hh2].
    destruct Hap as [Hap _].
    destruct (Z.eqb_spec h NULL) as [E|_]; [contradiction|].
    cbn. repeat split; auto; try (unfold NULL; lia).
    + unfold m2, m1. mem_simp. reflexivity.
    + unfold m2, m1. mem_simp. apply u64_id. lia.
    + unfold m2, m1. mem_simp. apply u64_id. lia.
    + replace (next_free (set_prev_free m2 h t) h) with (next_free m h)
        by (unfold m2, m1; mem_simp; reflexivity).
      replace (next_free (set_prev_free m2 h t) t) with h
        by (unfold m2, m1; mem_simp; symmetry; apply u64_id; lia).
      apply (dll_frame m); [exact Hr|].
      intros a Ha.
      pose proof (Hsp a (or_intror Ha)). pose proof (Hap a Ha).
      unfold m2, m1. split; mem_simp; reflexivity.
Qed.

(** Unlinking the first element. *)
Lemma dll_pop m prev t l2 head :
  dll m prev (t :: l2) head -> apart (t :: l2) ->
  0 <= prev < 2 ^ 64 -> (forall a, In a l2 -> addr_ok a) ->
  let n := next_free m t in
  let m2 := if n =? NULL then m else set_prev_free m n prev in
  dll m2 prev l2 n.
Proof.
  intros H [Hsp Hap] Hprev Hok n m2. cbn in H.
  destruct H as (Hh & Hz & Hp & Hr). fold n in Hr.
  destruct l2 as [|h l].
  - cbn in Hr. unfold m2. rewrite Hr. cbn. reflexivity.
  - cbn in Hr. destruct Hr as (Hn & Hhz & Hhp & Hr). unfold m2. rewrite Hn.
    destruct (Z.eqb_spec h NULL) as [|_]; [contradiction|].
    destruct (Hok h (or_introl eq_refl)) as [Hh1 Hh2].
    destruct Hap as [Hap _].
    cbn. repeat split; auto.
    + mem_simp. apply u64_id. exact Hprev.
    + replace (next_free (set_prev_free m h prev) h) with (next_free m h)
        by (mem_simp; reflexivity).
      apply (dll_frame m); [exact Hr|]. intros a Ha.
      pose proof (Hap a Ha). split; mem_simp; reflexivity.
Qed.

(** Unlinking an element that has a predecessor [p]. *)
Lemma dll_unlink m l1 p t l2 :
  forall prev head,
  dll m prev (l1 ++ p :: t :: l2) head ->
  apart (l1 ++ p :: t :: l2) ->
  (forall a, In a (l1 ++ p :: t :: l2) -> addr_ok a) ->
  let n := next_free m t in
  let m1 := set_next_free m p n in
  let m2 := if n =? NULL then m1 else set_prev_free m1 n p in
  dll m2 prev (l1 ++ p :: l2) head.
Proof.
  induction l1 as [|a l1 IH]; intros prev head H Hap Hok n m1 m2.
  - cbn [app] in *. cbn [dll] in H.
    destruct H as (Hh & Hpz & Hpp & Hnp & Htz & Hpt & Hr). fold n in Hr.
    destruct (Hok p (or_introl eq_refl)) as [Hp1 Hp2].
    destruct (Hok t (or_intror (or_introl eq_refl))) as [Ht1 Ht2].
    destruct Hap as (Hpx & Htx & Hap).
    pose proof (Hpx t (or_introl eq_refl)) as Hpt'.
    destruct l2 as [|h l].
    + cbn in Hr. unfold m2. rewrite Hr. change (NULL =? NULL) with true.
      cbv iota. cbn. repeat split; auto.
      * unfold m1. mem_simp. mem_unfold. exact Hpp.
      * unfold m1. mem_simp. rewrite Hr. reflexivity.
    + cbn in Hr. destruct Hr as (Hn & Hhz & Hhp & Hr). unfold m2.
      rewrite Hn.
      destruct (Z.eqb_spec h NULL) as [|_]; [contradiction|].
      destruct (Hok h (or_intror (or_intror (or_introl eq_refl))))
        as [Hh1 Hh2].
      pose proof (Hpx h (or_intror (or_introl eq_refl))) as Hph.
      pose proof (Htx h (or_introl eq_refl)) as Hth'.
      destruct Hap as [Hhx _].
      cbn. repeat split; auto.
      * unfold m1. mem_simp. mem_unfold. exact Hpp.
      * unfold m1. rewrite Hn. mem_simp. apply u64_id. lia.
      * unfold m1. mem_simp. apply u64_id. lia.
      * replace (next_free (set_prev_free m1 h p) p) with h
          by (unfold m1; rewrite Hn; mem_simp; symmetry; apply u64_id; lia).
        replace (next_free (set_prev_free m1 h p) h) with (next_free m h)
          by (unfold m1; mem_simp; reflexivity).
        apply (dll_frame m); [exact Hr|]. intros a Ha.
        pose proof (Hhx a Ha).
        pose proof (Hpx a (or_intror (or_intror Ha))).
        unfold m1. split; mem_simp; reflexivity.
  - cbn [app] in *. cbn [dll] in H. destruct H as (Hh & Haz & Hap' & Hr).
    destruct Hap as [Hax Hap].
    specialize (IH _ _ Hr Hap (fun x Hx => Hok x (or_intror Hx))).
    cbv zeta in IH. fold n in IH. fold m1 in IH. fold m2 in IH.
    assert (Hne : forall x, In x (p :: t :: l2) -> a + 32 <= x \/ x + 32 <= a).
    { intros x Hx. apply Hax. apply in_or_app. right. exact Hx. }
    pose proof (Hne p (or_introl eq_refl)) as Hap2.
    assert (Hfr : prev_free m2 a = prev_free m a
                  /\ next_free m2 a = next_free m a).
    { unfold m2. destruct (Z.eqb_spec n NULL) as [En|En].
      - unfold m1. split; mem_simp; reflexivity.
      - assert (Hx : In n l2).
        { pose proof Hr as Hl.
          replace (l1 ++ p :: t :: l2) with ((l1 ++ [p]) ++ t :: l2) in Hl
            by (rewrite <- app_assoc; reflexivity).
          apply dll_links in Hl as [_ Hnx]. fold n in Hnx.
          destruct l2 as [|h l2]; cbn in Hnx; [congruence|].
          left. auto. }
        pose proof (Hne _ (or_intror (or_intror Hx))).
        unfold m1. split; mem_simp; reflexivity. }
    destruct Hfr as [E1 E2].
    cbn. repeat split; auto; try congruence.
Qed.

(** ** The bitmaps *)

Lemma shiftr_sli_bit (s : Z) :
  0 <= s <= 7 -> Z.shiftr MSB_BIT1_SLI s = 2 ^ (7 - s).
Proof.
  intros H.
  assert (s = 0 \/ s = 1 \/ s = 2 \/ s = 3 \/ s = 4 \/ s = 5 \/ s = 6 \/ s = 7)
    as [->|[->|[->|[->|[->|[->|[->| ->]]]]]]] by lia; reflexivity.
Qed.

Lemma shiftr_fli_bit (f : Z) :
  0 <= f <= 15 -> Z.shiftr MSB_BIT1_FLI f = 2 ^ (15 - f).
Proof.
  intros H.
  assert (f = 0 \/ f = 1 \/ f = 2 \/ f = 3 \/ f = 4 \/ f = 5 \/ f = 6 \/ f = 7
          \/ f = 8 \/ f = 9 \/ f = 10 \/ f = 11 \/ f = 12 \/ f = 13
          \/ f = 14 \/ f = 15)
    as [->|[->|[->|[->|[->|[->|[->|[->|[->|[->|[->|[->|[->|[->|[->| ->]]]]]]]]]]]]]]]
    by lia; reflexivity.
Qed.

Lemma testbit_u8 (x k : Z) :
  0 <= k -> Z.testbit (u8 x) k = (k <? 8) && Z.testbit x k.
Proof.
  intros Hk. unfold u8. destruct (Z.ltb_spec k 8).
  - rewrite Z.mod_pow2_bits_low by lia. reflexivity.
  - rewrite Z.mod_pow2_bits_high by lia. reflexivity.
Qed.

Lemma testbit_u16 (x k : Z) :
  0 <= k -> Z.testbit (u16 x) k = (k <? 16) && Z.testbit x k.
Proof.
  intros Hk. unfold u16. destruct (Z.ltb_spec k 16).
  - rewrite Z.mod_pow2_bits_low by lia. reflexivity.
  - rewrite Z.mod_pow2_bits_high by lia. reflexivity.
Qed.

Lemma testbit_set (x j k : Z) :
  0 <= j -> 0 <= k ->
  Z.testbit (Z.lor x (2 ^ j)) k = Z.testbit x k || (j =? k).
Proof.
  intros Hj Hk. rewrite Z.lor_spec, Z.pow2_bits_eqb by lia. reflexivity.
Qed.

Lemma testbit_clear (x j k : Z) :
  0 <= j -> 0 <= k ->
  Z.testbit (Z.land x (Z.lnot (2 ^ j))) k = Z.testbit x k && negb (j =? k).
Proof.
  intros Hj Hk.
  rewrite Z.land_spec, Z.lnot_spec, Z.pow2_bits_eqb by lia. reflexivity.
Qed.

Lemma bits_zero (n x : Z) :
  0 <= n -> 0 <= x < 2 ^ n ->
  (forall k, 0 <= k < n -> Z.testbit x k = false) -> x = 0.
Proof.
  intros Hn Hx H. apply Z.bits_inj'. intros k Hk. rewrite Z.bits_0.
  destruct (Z_lt_le_dec k n) as [Hlt|Hge]; [apply H; lia|].
  rewrite <- (Z.mod_small x (2 ^ n)) by lia.
  apply Z.mod_pow2_bits_high. lia.
Qed.

Lemma testbit_true_nonzero (x k : Z) : Z.testbit x k = true -> x <> 0.
Proof. intros H ->. rewrite Z.bits_0 in H. discriminate. Qed.

Lemma fl_set_same F i l : fl_set F i l i = l.
Proof. unfold fl_set. rewrite Z.eqb_refl. reflexivity. Qed.

Lemma fl_set_other F i l j : j <> i -> fl_set F i l j = F j.
Proof.
  intros H. unfold fl_set. destruct (Z.eqb_spec j i); [contradiction|].
  reflexivity.
Qed.

Lemma bitmap_inv_ext pool pool' F :
  bitmap_inv pool F ->
  free_fli_bitmap pool' = free_fli_bitmap pool ->
  free_sli_bitmap pool' = free_sli_bitmap pool ->
  bitmap_inv pool' F.
Proof.
  intros [H1 H2 H3 H4 H5 H6 H7] E1 E2.
  constructor; rewrite ?E1, ?E2; assumption.
Qed.

(** Replacing a list by one that is empty exactly when it was. *)
Lemma bitmap_inv_same pool F idx l :
  bitmap_inv pool F -> is_nil l = is_nil (F idx) ->
  bitmap_inv pool (fl_set F idx l).
Proof.
  intros [H1 H2 H3 H4 H5 H6 H7] E. constructor; auto.
  intros f s Hf Hs. rewrite H2 by assumption. unfold fl_set.
  destruct (Z.eqb_spec (8 * f + s) idx) as [->|]; [rewrite E|]; reflexivity.
Qed.

(** The two bitmap updates of [add_free_block]. *)
Lemma bitmap_inv_set pool F idx t :
  bitmap_inv pool F -> 0 <= idx < 80 ->
  let fli := FLI idx in
  let sli := SLI idx in
  let pool1 :=
    with_fli pool
      (u16 (Z.lor (free_fli_bitmap pool) (Z.shiftr MSB_BIT1_FLI fli))) in
  let pool2 :=
    with_sli pool1 fli
      (u8 (Z.lor (arr_get (free_sli_bitmap pool1) fli)
                 (Z.shiftr MSB_BIT1_SLI sli))) in
  bitmap_inv pool2 (fl_set F idx (t :: F idx)).
Proof.
  intros [H1 H2 H3 H4 H5 H6 H7] Hidx fli sli pool1 pool2.
  destruct (FLI_SLI_range idx Hidx) as (Hf & Hs & Hi).
  change ESTALLOC_FLI_BIT_WIDTH with 9 in Hf.
  change (Z.shiftl 1 ESTALLOC_SLI_BIT_WIDTH - 1) with 7 in Hs.
  fold fli in Hf, Hi. fold sli in Hs, Hi.
  assert (Hlen : 0 <= fli < Z.of_nat (length (free_sli_bitmap pool)))
    by (rewrite H1; lia).
  assert (Hget : forall f,
    arr_get (free_sli_bitmap pool2) f
    = if f =? fli
      then u8 (Z.lor (arr_get (free_sli_bitmap pool) fli) (2 ^ (7 - sli)))
      else arr_get (free_sli_bitmap pool) f).
  { intros f. unfold pool2, pool1. cbn [free_sli_bitmap with_sli with_fli].
    rewrite shiftr_sli_bit by lia.
    destruct (Z.eqb_spec f fli) as [->|Hne].
    - apply arr_get_set_same. exact Hlen.
    - apply arr_get_set_other. congruence. }
  assert (Hfl : free_fli_bitmap pool2
                = u16 (Z.lor (free_fli_bitmap pool) (2 ^ (15 - fli)))).
  { unfold pool2, pool1. cbn [free_fli_bitmap with_sli with_fli].
    rewrite shiftr_fli_bit by lia. reflexivity. }
  assert (Hne0 : arr_get (free_sli_bitmap pool2) fli <> 0).
  { rewrite Hget, Z.eqb_refl.
    apply (testbit_true_nonzero _ (7 - sli)).
    rewrite testbit_u8, testbit_set by lia. rewrite Z.eqb_refl.
    rewrite orb_true_r. destruct (Z.ltb_spec (7 - sli) 8); [reflexivity|lia]. }
  constructor.
  - unfold pool2. cbn [free_sli_bitmap with_sli]. rewrite arr_set_length.
    exact H1.
  - intros f s Hf' Hs'. rewrite Hget. unfold fl_set.
    destruct (Z.eqb_spec f fli) as [->|Hne].
    + rewrite testbit_u8, testbit_set by lia.
      destruct (Z.ltb_spec (7 - s) 8); [|lia]. cbn [andb].
      destruct (Z.eqb_spec (8 * fli + s) idx) as [E|E].
      * assert (s = sli) by lia. subst s. rewrite Z.eqb_refl.
        rewrite orb_true_r. reflexivity.
      * destruct (Z.eqb_spec (7 - sli) (7 - s)); [lia|].
        rewrite orb_false_r. apply H2; lia.
    + destruct (Z.eqb_spec (8 * f + s) idx) as [E|E]; [lia|].
      apply H2; lia.
  - intros f. rewrite Hget. destruct (f =? fli); [apply u8_range|apply H3].
  - rewrite Hget. destruct (Z.eqb_spec 10 fli); [lia|exact H4].
  - intros f Hf'. rewrite Hfl, testbit_u16, testbit_set by lia.
    destruct (Z.ltb_spec (15 - f) 16); [|lia]. cbn [andb].
    destruct (Z.eqb_spec f fli) as [->|Hne].
    + rewrite Z.eqb_refl, orb_true_r.
      destruct (Z.eqb_spec (arr_get (free_sli_bitmap pool2) fli) 0);
        [contradiction|reflexivity].
    + destruct (Z.eqb_spec (15 - fli) (15 - f)); [lia|].
      rewrite orb_false_r, H5 by lia. rewrite Hget.
      destruct (Z.eqb_spec f fli); [contradiction|reflexivity].
  - rewrite Hfl. apply u16_range.
  - intros k Hk. rewrite Hfl, testbit_u16, testbit_set by lia.
    destruct (Z.eqb_spec (15 - fli) k); [lia|].
    rewrite H7 by lia. destruct (k <? 16); reflexivity.
Qed.

(** [clear_bitmap] when the list of class [idx] has become empty. *)
Lemma bitmap_inv_clear pool F idx :
  bitmap_inv pool F -> 0 <= idx < 80 -> F idx <> [] ->
  bitmap_inv (clear_bitmap pool (FLI idx) (SLI idx)) (fl_set F idx []).
Proof.
  intros [H1 H2 H3 H4 H5 H6 H7] Hidx Hnn.
  destruct (FLI_SLI_range idx Hidx) as (Hf & Hs & Hi).
  change ESTALLOC_FLI_BIT_WIDTH with 9 in Hf.
  change (Z.shiftl 1 ESTALLOC_SLI_BIT_WIDTH - 1) with 7 in Hs.
  set (fli := FLI idx) in *. set (sli := SLI idx) in *.
  assert (Hlen : 0 <= fli < Z.of_nat (length (free_sli_bitmap pool)))
    by (rewrite H1; lia).
  set (v := u8 (Z.land (arr_get (free_sli_bitmap pool) fli)
                       (Z.lnot (2 ^ (7 - sli))))).
  set (pool1 := with_sli pool fli v).
  assert (Hcb : clear_bitmap pool fli sli
                = if v =? 0
                  then with_fli pool1
                         (u16 (Z.land (free_fli_bitmap pool)
                                      (Z.lnot (2 ^ (15 - fli)))))
                  else pool1).
  { unfold clear_bitmap. rewrite shiftr_sli_bit, shiftr_fli_bit by lia.
    fold v. fold pool1. unfold pool1 at 1.
    cbn [free_sli_bitmap with_sli]. rewrite arr_get_set_same by exact Hlen.
    reflexivity. }
  assert (Hget : forall f,
    arr_get (free_sli_bitmap pool1) f
    = if f =? fli then v else arr_get (free_sli_bitmap pool) f).
  { intros f. unfold pool1. cbn [free_sli_bitmap with_sli].
    destruct (Z.eqb_spec f fli) as [->|Hne].
    - apply arr_get_set_same. exact Hlen.
    - apply arr_get_set_other. congruence. }
  assert (Hold : arr_get (free_sli_bitmap pool) fli <> 0).
  { apply (testbit_true_nonzero _ (7 - sli)). rewrite H2 by lia.
    replace (8 * fli + sli) with idx by lia.
    destruct (F idx); [contradiction|reflexivity]. }
  assert (Hsli : forall f s, 0 <= f <= 9 -> 0 <= s <= 7 ->
    Z.testbit (arr_get (free_sli_bitmap pool1) f) (7 - s)
    = negb (is_nil (fl_set F idx [] (8 * f + s)))).
  { intros f s Hf' Hs'. rewrite Hget. unfold fl_set.
    destruct (Z.eqb_spec f fli) as [->|Hne].
    - unfold v. rewrite testbit_u8, testbit_clear by lia.
      destruct (Z.ltb_spec (7 - s) 8); [|lia]. cbn [andb].
      destruct (Z.eqb_spec (8 * fli + s) idx) as [E|E].
      + assert (s = sli) by lia. subst s. rewrite Z.eqb_refl.
        rewrite andb_false_r. reflexivity.
      + destruct (Z.eqb_spec (7 - sli) (7 - s)); [lia|].
        rewrite andb_true_r. apply H2; lia.
    - destruct (Z.eqb_spec (8 * f + s) idx) as [E|E]; [lia|].
      apply H2; lia. }
  rewrite Hcb. destruct (Z.eqb_spec v 0) as [Hv|Hv].
  - constructor; cbn [free_sli_bitmap free_fli_bitmap with_fli].
    + unfold pool1. cbn [free_sli_bitmap with_sli]. rewrite arr_set_length.
      exact H1.
    + exact Hsli.
    + intros f. rewrite Hget. destruct (f =? fli); [apply u8_range|apply H3].
    + rewrite Hget. destruct (Z.eqb_spec 10 fli); [lia|exact H4].
    + intros f Hf'. rewrite testbit_u16, testbit_clear by lia.
      destruct (Z.ltb_spec (15 - f) 16); [|lia]. cbn [andb].
      rewrite Hget. destruct (Z.eqb_spec f fli) as [->|Hne].
      * rewrite Z.eqb_refl, andb_false_r, Hv. reflexivity.
      * destruct (Z.eqb_spec (15 - fli) (15 - f)); [lia|].
        rewrite andb_true_r. apply H5; lia.
    + apply u16_range.
    + intros k Hk. rewrite testbit_u16, testbit_clear by lia.
      rewrite H7 by lia. destruct (k <? 16); reflexivity.
  - constructor.
    + unfold pool1. cbn [free_sli_bitmap with_sli]. rewrite arr_set_length.
      exact H1.
    + exact Hsli.
    + intros f. rewrite Hget. destruct (f =? fli); [apply u8_range|apply H3].
    + rewrite Hget. destruct (Z.eqb_spec 10 fli); [lia|exact H4].
    + intros f Hf'. unfold pool1 at 1. cbn [free_fli_bitmap with_sli].
      rewrite H5 by lia. rewrite Hget.
      destruct (Z.eqb_spec f fli) as [->|Hne]; [|reflexivity].
      destruct (Z.eqb_spec (arr_get (free_sli_bitmap pool) fli) 0);
        [contradiction|].
      destruct (Z.eqb_spec v 0); [contradiction|reflexivity].
    + exact H6.
    + exact H7.
Qed.

(** ** The free lists under memory updates *)

(** The chain [L0] from [a0] lies in the address space and its blocks have
    32-bit sizes. *)
Record geo_ok (a0 : Z) (L0 : list blk) : Prop := mk_geo_ok {
  go_pos : 0 < a0;
  go_geo : geo a0 L0;
  go_end : chain_end a0 L0 + 8 <= 2 ^ 64;
  go_len : chain_end a0 L0 - a0 < 2 ^ 32
}.

Lemma geo_ok_blk a0 L0 b :
  geo_ok a0 L0 -> In b L0 ->
  0 < b_addr b /\ b_addr b + b_size b + 8 <= 2 ^ 64
  /\ 32 <= b_size b < 2 ^ 32 /\ b_size b mod 8 = 0
  /\ a0 <= b_addr b /\ b_addr b + b_size b <= chain_end a0 L0.
Proof.
  intros [H1 H2 H3 H4] Hin.
  pose proof (geo_bounds _ _ _ H2 Hin). lia.
Qed.

Lemma blk_sep a0 L0 a sza ua b szb ub :
  geo_ok a0 L0 -> In (mkblk a sza ua) L0 -> In (mkblk b szb ub) L0 ->
  (a = b /\ sza = szb /\ ua = ub) \/ a + sza <= b \/ b + szb <= a.
Proof.
  intros Hg Ha Hb.
  destruct (geo_sep _ _ _ _ (go_geo _ _ Hg) Ha Hb) as [E|E].
  - left. inversion E. auto.
  - right. exact E.
Qed.

Section ListsInv.
Variables (a0 : Z) (L0 : list blk).
Hypothesis Hgeo : geo_ok a0 L0.

Lemma li_member pool F i a :
  lists_inv pool L0 F -> In a (F i) ->
  0 <= i < 80
  /\ exists sz, In (mkblk a sz false) L0 /\ calc_index sz = i
                /\ load_ptr (heap pool) (a + sz - 8) = a
                /\ 0 < a /\ a + sz + 8 <= 2 ^ 64
                /\ 32 <= sz < 2 ^ 32 /\ sz mod 8 = 0.
Proof.
  intros Hl Hin. destruct (li_mem _ _ _ Hl _ _ Hin) as (Hi & sz & Hb & Hc & Ht).
  split; [exact Hi|]. exists sz.
  pose proof (geo_ok_blk _ _ _ Hgeo Hb) as Hk. cbn in Hk.
  repeat split; auto; lia.
Qed.

Lemma li_addr_ok pool F i a :
  lists_inv pool L0 F -> In a (F i) -> addr_ok a.
Proof.
  intros Hl Hin. destruct (li_member _ _ _ _ Hl Hin) as (_ & sz & H).
  unfold addr_ok. lia.
Qed.

(** Members of the lists are distinct blocks, or the same member of the
    same list. *)
Lemma li_sep pool F i j a b :
  lists_inv pool L0 F -> In a (F i) -> In b (F j) ->
  (a = b /\ i = j) \/ a + 32 <= b \/ b + 32 <= a.
Proof.
  intros Hl Ha Hb.
  destruct (li_member _ _ _ _ Hl Ha) as (_ & sza & Ha1 & Ha2 & Ha3).
  destruct (li_member _ _ _ _ Hl Hb) as (_ & szb & Hb1 & Hb2 & Hb3).
  destruct (blk_sep _ _ _ _ _ _ _ _ Hgeo Ha1 Hb1) as [(E1 & E2 & _)|E].
  - left. split; [exact E1|]. congruence.
  - right. lia.
Qed.

Lemma li_apart pool F i : lists_inv pool L0 F -> apart (F i).
Proof.
  intros Hl. apply apart_of_nodup; [apply (li_nodup _ _ _ Hl)|].
  intros a b Ha Hb. destruct (li_sep _ _ _ _ _ _ Hl Ha Hb) as [[E _]|E]; auto.
Qed.

(** [lists_inv] only reads the head slots and the memory. *)
Lemma lists_inv_frame pool pool' L0' F :
  lists_inv pool L0 F ->
  free_blocks pool' = free_blocks pool ->
  (forall i a sz, In a (F i) -> In (mkblk a sz false) L0 ->
     In (mkblk a sz false) L0'
     /\ prev_free (heap pool') a = prev_free (heap pool) a
     /\ next_free (heap pool') a = next_free (heap pool) a
     /\ load_ptr (heap pool') (a + sz - 8)
        = load_ptr (heap pool) (a + sz - 8)) ->
  lists_inv pool' L0' F.
Proof.
  intros [H1 H2 H3 H4 H5] Efb Hf. constructor; rewrite ?Efb; auto.
  - intros i Hi. apply (dll_frame (heap pool)); [apply H2; exact Hi|].
    intros a Ha. destruct (H4 _ _ Ha) as (_ & sz & Hb & _).
    destruct (Hf _ _ _ Ha Hb) as (_ & E1 & E2 & _). auto.
  - intros i a Ha. destruct (H4 _ _ Ha) as (Hi & sz & Hb & Hc & Ht).
    split; [exact Hi|]. exists sz.
    destruct (Hf _ _ _ Ha Hb) as (Hb' & _ & _ & E3).
    repeat split; auto. congruence.
Qed.

(** Memory changed inside [lo, hi), away from the bodies of the listed
    blocks. *)
Lemma lists_inv_changed pool pool' F lo hi :
  lists_inv pool L0 F ->
  free_blocks pool' = free_blocks pool ->
  changed_in (heap pool) (heap pool') lo hi ->
  (forall i a sz, In a (F i) -> In (mkblk a sz false) L0 ->
     hi <= a + 8 \/ a + sz <= lo) ->
  lists_inv pool' L0 F.
Proof.
  intros Hl Efb Hch Hout. apply (lists_inv_frame pool); auto.
  intros i a sz Ha Hb. specialize (Hout _ _ _ Ha Hb).
  pose proof (geo_ok_blk _ _ _ Hgeo Hb) as Hk. cbn in Hk.
  split; [exact Hb|]. unfold prev_free, next_free.
  unfold offsetof_prev_free, offsetof_next_free.
  repeat split; apply (load_ptr_changed _ _ lo hi); auto; lia.
Qed.
End ListsInv.

(** The chain may change around the listed blocks. *)
Lemma lists_inv_chain pool L0 L0' F :
  lists_inv pool L0 F ->
  (forall i a sz, In a (F i) -> In (mkblk a sz false) L0 ->
     In (mkblk a sz false) L0') ->
  lists_inv pool L0' F.
Proof.
  intros [H1 H2 H3 H4 H5] Hf. constructor; auto.
  intros i a Ha. destruct (H4 _ _ Ha) as (Hi & sz & Hb & Hc & Ht).
  split; [exact Hi|]. exists sz. repeat split; auto. eapply Hf; eassumption.
Qed.

Section ListsOps.
Variables (a0 : Z) (L0 : list blk).
Hypothesis Hgeo : geo_ok a0 L0.

(** Links and tag of a listed block [a] after a pointer store into the
    link fields of another listed block [x]. *)
Lemma li_other_links pool F i j a x sz off v :
  lists_inv pool L0 F -> In a (F i) -> In x (F j) -> a <> x ->
  In (mkblk a sz false) L0 -> (off = 8 \/ off = 16) ->
  let m' := store_ptr (heap pool) (x + off) v in
  prev_free m' a = prev_free (heap pool) a
  /\ next_free m' a = next_free (heap pool) a
  /\ load_ptr m' (a + sz - 8) = load_ptr (heap pool) (a + sz - 8).
Proof.
  intros Hl Ha Hx Hne Hb Hoff m'.
  destruct (li_member _ _ Hgeo _ _ _ _ Hl Hx) as (_ & szx & Hbx & _ & _ & Hx').
  pose proof (geo_ok_blk _ _ _ Hgeo Hb) as Hk. cbn in Hk.
  destruct (blk_sep _ _ _ _ _ _ _ _ Hgeo Hb Hbx) as [(E & _)|E];
    [contradiction|].
  unfold m'. repeat split; mem_simp; reflexivity.
Qed.

(** The tag of a listed block after a store into its own link fields. *)
Lemma li_own_tag pool F i a sz off v :
  lists_inv pool L0 F -> In a (F i) ->
  In (mkblk a sz false) L0 -> (off = 8 \/ off = 16) ->
  load_ptr (store_ptr (heap pool) (a + off) v) (a + sz - 8)
  = load_ptr (heap pool) (a + sz - 8).
Proof.
  intros Hl Ha Hb Hoff.
  pose proof (geo_ok_blk _ _ _ Hgeo Hb) as Hk. cbn in Hk.
  mem_simp. reflexivity.
Qed.

(** Unlinking the head [t] of list [idx]. *)
Lemma lists_inv_pop pool pool' F idx t l2 :
  lists_inv pool L0 F -> F idx = t :: l2 ->
  let n := next_free (heap pool) t in
  free_blocks pool' = arr_set (free_blocks pool) idx n ->
  heap pool' = (if n =? NULL then heap pool
                else set_prev_free (heap pool) n NULL) ->
  lists_inv pool' L0 (fl_set F idx l2).
Proof.
  intros Hl HF n Efb Eh.
  assert (Ht : In t (F idx)) by (rewrite HF; left; reflexivity).
  destruct (li_member _ _ Hgeo _ _ _ _ Hl Ht) as (Hidx & _).
  pose proof (li_dll _ _ _ Hl idx Hidx) as Hd. rewrite HF in Hd.
  pose proof (li_apart _ _ Hgeo _ _ idx Hl) as Hap. rewrite HF in Hap.
  assert (Hn : n = hd NULL l2).
  { cbn in Hd. destruct Hd as (_ & _ & _ & Hd). apply dll_head in Hd.
    exact Hd. }
  assert (Hnin : n <> NULL -> In n l2).
  { rewrite Hn. destruct l2; cbn; [congruence|auto]. }
  assert (Hsub : forall i a, In a (fl_set F idx l2 i) -> In a (F i)).
  { intros i a. unfold fl_set.
    destruct (Z.eqb_spec i idx) as [->|]; [|auto].
    rewrite HF. intros H. right. exact H. }
  assert (Hfr : forall i a sz, In a (F i) -> In (mkblk a sz false) L0 ->
            (i <> idx \/ In a l2) ->
            prev_free (heap pool') a
            = (if (a =? n) && negb (n =? NULL) then NULL
               else prev_free (heap pool) a)
            /\ next_free (heap pool') a = next_free (heap pool) a
            /\ load_ptr (heap pool') (a + sz - 8)
               = load_ptr (heap pool) (a + sz - 8)).
  { intros i a sz Ha Hb Hcase. rewrite Eh.
    destruct (Z.eqb_spec n NULL) as [En|En].
    - rewrite andb_false_r. auto.
    - rewrite andb_true_r. specialize (Hnin En).
      assert (Hn' : In n (F idx)) by (rewrite HF; right; exact Hnin).
      destruct (Z.eqb_spec a n) as [->|Hne].
      + pose proof (geo_ok_blk _ _ _ Hgeo Hb) as Hk. cbn in Hk.
        repeat split; mem_simp; reflexivity.
      + unfold set_prev_free, offsetof_prev_free.
        apply (li_other_links pool F i idx a n sz 16 NULL); auto. }
  constructor.
  - rewrite Efb, arr_set_length. apply (li_len_fb _ _ _ Hl).
  - intros i Hi. rewrite Efb. unfold fl_set.
    destruct (Z.eqb_spec i idx) as [->|Hne].
    + rewrite arr_get_set_same
        by (rewrite (li_len_fb _ _ _ Hl); lia).
      rewrite Eh. apply (dll_pop _ _ t _ (arr_get (free_blocks pool) idx));
        auto.
      * unfold NULL. lia.
      * intros a Ha. apply (li_addr_ok _ _ Hgeo pool F idx); auto.
        rewrite HF. right. exact Ha.
    + rewrite arr_get_set_other by congruence.
      apply (dll_frame (heap pool)); [apply (li_dll _ _ _ Hl); exact Hi|].
      intros a Ha.
      destruct (li_member _ _ Hgeo _ _ _ _ Hl Ha) as (_ & sz & Hb & _).
      destruct (Hfr i a sz Ha Hb (or_introl Hne)) as (E1 & E2 & _).
      split; [|exact E2]. rewrite E1.
      destruct (Z.eqb_spec a n) as [->|]; [|reflexivity].
      destruct (Z.eqb_spec n NULL) as [|En]; [reflexivity|].
      exfalso. specialize (Hnin En).
      assert (Hn' : In n (F idx)) by (rewrite HF; right; exact Hnin).
      destruct (li_sep _ _ Hgeo _ _ _ _ _ _ Hl Ha Hn') as [[_ E]|E]; lia.
  - rewrite Efb, arr_get_set_other by lia. apply (li_fb_sentinel _ _ _ Hl).
  - intros i a Ha. pose proof (Hsub _ _ Ha) as Ha'.
    destruct (li_member _ _ Hgeo _ _ _ _ Hl Ha') as (Hi & sz & Hb & Hc & Htag & _).
    split; [exact Hi|]. exists sz. repeat split; auto.
    assert (Hcase : i <> idx \/ In a l2).
    { unfold fl_set in Ha. destruct (Z.eqb_spec i idx); auto. }
    destruct (Hfr i a sz Ha' Hb Hcase) as (_ & _ & E3). congruence.
  - intros i. unfold fl_set. destruct (i =? idx); [|apply (li_nodup _ _ _ Hl)].
    pose proof (li_nodup _ _ _ Hl idx) as Hnd. rewrite HF in Hnd.
    inversion Hnd; assumption.
Qed.

(** A pointer store into a link field of block [x] leaves the tag and
    the size word of every block, and the links of the others. *)
Lemma link_store_frame m a sza ua x szx ux off v :
  In (mkblk a sza ua) L0 -> In (mkblk x szx ux) L0 ->
  (off = 8 \/ off = 16) ->
  let m' := store_ptr m (x + off) v in
  load_ptr m' (a + sza - 8) = load_ptr m (a + sza - 8)
  /\ get_size m' a = get_size m a
  /\ (a <> x -> prev_free m' a = prev_free m a
                /\ next_free m' a = next_free m a).
Proof.
  intros Ha Hx Hoff m'.
  pose proof (geo_ok_blk _ _ _ Hgeo Ha) as Hka. cbn in Hka.
  pose proof (geo_ok_blk _ _ _ Hgeo Hx) as Hkx. cbn in Hkx.
  destruct (blk_sep _ _ _ _ _ _ _ _ Hgeo Ha Hx) as [(E & _)|E].
  - subst x. unfold m'. repeat split; mem_simp; try reflexivity.
  - unfold m'. repeat split; mem_simp; reflexivity.
Qed.

(** Unlinking [t], which follows [p] on list [idx]. *)
Lemma lists_inv_unlink pool pool' F idx l1 p t l2 :
  lists_inv pool L0 F -> F idx = l1 ++ p :: t :: l2 ->
  let n := next_free (heap pool) t in
  let m1 := set_next_free (heap pool) p n in
  free_blocks pool' = free_blocks pool ->
  heap pool' = (if n =? NULL then m1 else set_prev_free m1 n p) ->
  lists_inv pool' L0 (fl_set F idx (l1 ++ p :: l2)).
Proof.
  intros Hl HF n m1 Efb Eh.
  assert (Hp : In p (F idx))
    by (rewrite HF; apply in_or_app; right; left; reflexivity).
  assert (Ht : In t (F idx))
    by (rewrite HF; apply in_or_app; right; right; left; reflexivity).
  destruct (li_member _ _ Hgeo _ _ _ _ Hl Hp) as (Hidx & szp & Hbp & _).
  pose proof (li_dll _ _ _ Hl idx Hidx) as Hd. rewrite HF in Hd.
  pose proof (li_apart _ _ Hgeo _ _ idx Hl) as Hap. rewrite HF in Hap.
  assert (Hn : n = hd NULL l2).
  { pose proof Hd as Hd'.
    replace (l1 ++ p :: t :: l2) with ((l1 ++ [p]) ++ t :: l2) in Hd'
      by (rewrite <- app_assoc; reflexivity).
    apply dll_links in Hd' as [_ E]. exact E. }
  assert (Hnin : n <> NULL -> In n l2).
  { rewrite Hn. destruct l2; cbn; [congruence|auto]. }
  assert (Hsub : forall i a, In a (fl_set F idx (l1 ++ p :: l2) i) ->
                 In a (F i) /\ a <> t).
  { intros i a. unfold fl_set.
    destruct (Z.eqb_spec i idx) as [->|Hne].
    - rewrite HF. intros H. split.
      + apply in_app_or in H as [H|[H|H]]; apply in_or_app; cbn; auto.
      + intros ->. apply apart_nodup in Hap.
        apply NoDup_remove_2 in Hap.
        replace (l1 ++ p :: t :: l2) with ((l1 ++ [p]) ++ t :: l2) in Hap
          by (rewrite <- app_assoc; reflexivity).
        pose proof (li_nodup _ _ _ Hl idx) as Hnd. rewrite HF in Hnd.
        replace (l1 ++ p :: t :: l2) with ((l1 ++ [p]) ++ t :: l2) in Hnd
          by (rewrite <- app_assoc; reflexivity).
        apply NoDup_remove_2 in Hnd. apply Hnd.
        rewrite <- app_assoc. exact H.
    - intros H. split; [exact H|]. intros ->.
      destruct (li_sep _ _ Hgeo _ _ _ _ _ _ Hl H Ht) as [[_ E]|E]; lia. }
  assert (Hfr : forall a sz, In (mkblk a sz false) L0 ->
            load_ptr (heap pool') (a + sz - 8)
            = load_ptr (heap pool) (a + sz - 8)
            /\ (a <> p -> (n = NULL \/ a <> n) ->
                prev_free (heap pool') a = prev_free (heap pool) a
                /\ next_free (heap pool') a = next_free (heap pool) a)).
  { intros a sz Hb. rewrite Eh.
    destruct (link_store_frame (heap pool) a sz false p szp false 8 n
                Hb Hbp (or_introl eq_refl)) as (T1 & _ & L1).
    change (store_ptr (heap pool) (p + 8) n) with m1 in T1, L1.
    destruct (Z.eqb_spec n NULL) as [En|En].
    - split; [exact T1|]. intros Hc _. apply L1. exact Hc.
    - assert (Hn' : In n (F idx)).
      { rewrite HF. apply in_or_app. right. right. right. auto. }
      destruct (li_member _ _ Hgeo _ _ _ _ Hl Hn') as (_ & szn & Hbn & _).
      destruct (link_store_frame m1 a sz false n szn false 16 p
                  Hb Hbn (or_intror eq_refl)) as (T2 & _ & L2).
      change (store_ptr m1 (n + 16) p) with (set_prev_free m1 n p)
        in T2, L2.
      split; [rewrite T2; exact T1|]. intros Hc [Hc'|Hc']; [contradiction|].
      destruct (L1 Hc) as [E1 E2]. destruct (L2 Hc') as [E3 E4].
      split; congruence. }
  constructor.
  - rewrite Efb. apply (li_len_fb _ _ _ Hl).
  - intros i Hi. rewrite Efb. unfold fl_set.
    destruct (Z.eqb_spec i idx) as [->|Hne].
    + rewrite Eh. apply dll_unlink; auto.
      intros a Ha. apply (li_addr_ok _ _ Hgeo pool F idx); auto.
      rewrite HF. exact Ha.
    + apply (dll_frame (heap pool)); [apply (li_dll _ _ _ Hl); exact Hi|].
      intros a Ha.
      destruct (li_member _ _ Hgeo _ _ _ _ Hl Ha) as (_ & sz & Hb & _).
      apply (Hfr a sz Hb).
      * intros ->.
        destruct (li_sep _ _ Hgeo _ _ _ _ _ _ Hl Ha Hp) as [[_ E]|E]; lia.
      * destruct (Z.eq_dec n NULL) as [En|En]; [left; exact En|right].
        intros ->.
        assert (Hn' : In n (F idx)).
        { rewrite HF. apply in_or_app. right. right. right. auto. }
        destruct (li_sep _ _ Hgeo _ _ _ _ _ _ Hl Ha Hn') as [[_ E]|E]; lia.
  - rewrite Efb. apply (li_fb_sentinel _ _ _ Hl).
  - intros i a Ha. destruct (Hsub _ _ Ha) as [Ha' Hat].
    destruct (li_member _ _ Hgeo _ _ _ _ Hl Ha')
      as (Hi & sz & Hb & Hc & Htag & _).
    split; [exact Hi|]. exists sz. repeat split; auto.
    destruct (Hfr a sz Hb) as [E _]. congruence.
  - intros i. unfold fl_set.
    destruct (i =? idx); [|apply (li_nodup _ _ _ Hl)].
    pose proof (li_nodup _ _ _ Hl idx) as Hnd. rewrite HF in Hnd.
    replace (l1 ++ p :: t :: l2) with ((l1 ++ [p]) ++ t :: l2) in Hnd
      by (rewrite <- app_assoc; reflexivity).
    apply NoDup_remove_1 in Hnd. rewrite <- app_assoc in Hnd. exact Hnd.
Qed.

(** Linking the free block [t] of the chain at the head of its list. *)
Lemma lists_inv_push pool pool' F idx t sz :
  lists_inv pool L0 F -> 0 <= idx < 80 ->
  In (mkblk t sz false) L0 -> calc_index sz = idx ->
  (forall i, ~ In t (F i)) ->
  load_ptr (heap pool) (t + sz - 8) = t ->
  let head := arr_get (free_blocks pool) idx in
  let m1 := set_prev_free (heap pool) t NULL in
  let m2 := set_next_free m1 t head in
  free_blocks pool' = arr_set (free_blocks pool) idx t ->
  heap pool' = (if next_free m2 t =? NULL then m2
                else set_prev_free m2 (next_free m2 t) t) ->
  lists_inv pool' L0 (fl_set F idx (t :: F idx)).
Proof.
  intros Hl Hidx Hbt Hci Hnin Htag head m1 m2 Efb Eh.
  pose proof (geo_ok_blk _ _ _ Hgeo Hbt) as Hkt. cbn in Hkt.
  pose proof (li_dll _ _ _ Hl idx Hidx) as Hd. fold head in Hd.
  assert (Hhd : head = hd NULL (F idx)) by (apply dll_head in Hd; exact Hd).
  assert (Hhin : head <> NULL -> In head (F idx)).
  { rewrite Hhd. destruct (F idx); cbn; [congruence|auto]. }
  assert (Hhr : 0 <= head < 2 ^ 64).
  { destruct (Z.eq_dec head NULL) as [E|E]; [rewrite E; unfold NULL; lia|].
    destruct (li_addr_ok _ _ Hgeo _ _ _ _ Hl (Hhin E)). lia. }
  assert (Hnf : next_free m2 t = head).
  { unfold m2, m1. mem_simp. apply u64_id. exact Hhr. }
  rewrite Hnf in Eh.
  assert (Hfr : forall a sza, In (mkblk a sza false) L0 ->
            load_ptr (heap pool') (a + sza - 8)
            = load_ptr (heap pool) (a + sza - 8)
            /\ (a <> t -> (head = NULL \/ a <> head) ->
                prev_free (heap pool') a = prev_free (heap pool) a
                /\ next_free (heap pool') a = next_free (heap pool) a)).
  { intros a sza Hb. rewrite Eh.
    destruct (link_store_frame (heap pool) a sza false t sz false 16 NULL
                Hb Hbt (or_intror eq_refl)) as (T1 & _ & L1).
    change (store_ptr (heap pool) (t + 16) NULL) with m1 in T1, L1.
    destruct (link_store_frame m1 a sza false t sz false 8 head
                Hb Hbt (or_introl eq_refl)) as (T2 & _ & L2).
    change (store_ptr m1 (t + 8) head) with m2 in T2, L2.
    destruct (Z.eqb_spec head NULL) as [En|En].
    - split; [rewrite T2; exact T1|]. intros Hc _.
      destruct (L1 Hc) as [E1 E2]. destruct (L2 Hc) as [E3 E4].
      split; congruence.
    - destruct (li_member _ _ Hgeo _ _ _ _ Hl (Hhin En))
        as (_ & szh & Hbh & _).
      destruct (link_store_frame m2 a sza false head szh false 16 t
                  Hb Hbh (or_intror eq_refl)) as (T3 & _ & L3).
      change (store_ptr m2 (head + 16) t) with (set_prev_free m2 head t)
        in T3, L3.
      split; [rewrite T3, T2; exact T1|].
      intros Hc [Hc'|Hc']; [contradiction|].
      destruct (L1 Hc) as [E1 E2]. destruct (L2 Hc) as [E3 E4].
      destruct (L3 Hc') as [E5 E6]. split; congruence. }
  assert (Hsep : forall i a, In a (F i) -> t + 32 <= a \/ a + 32 <= t).
  { intros i a Ha.
    destruct (li_member _ _ Hgeo _ _ _ _ Hl Ha) as (_ & sza & Hba & Hx).
    destruct (blk_sep _ _ _ _ _ _ _ _ Hgeo Hbt Hba) as [(E & _)|E].
    - exfalso. subst a. exact (Hnin _ Ha).
    - lia. }
  constructor.
  - rewrite Efb, arr_set_length. apply (li_len_fb _ _ _ Hl).
  - intros i Hi. rewrite Efb. unfold fl_set.
    destruct (Z.eqb_spec i idx) as [->|Hne].
    + rewrite arr_get_set_same by (rewrite (li_len_fb _ _ _ Hl); lia).
      rewrite Eh. rewrite <- Hnf. apply dll_push; auto.
      * split; [|apply (li_apart _ _ Hgeo _ _ idx Hl)].
        intros b Hb. apply (Hsep idx). exact Hb.
      * unfold addr_ok. lia.
      * intros a Ha. apply (li_addr_ok _ _ Hgeo pool F idx); auto.
    + rewrite arr_get_set_other by congruence.
      apply (dll_frame (heap pool)); [apply (li_dll _ _ _ Hl); exact Hi|].
      intros a Ha.
      destruct (li_member _ _ Hgeo _ _ _ _ Hl Ha) as (_ & sza & Hb & _).
      apply (Hfr a sza Hb).
      * intros ->. exact (Hnin _ Ha).
      * destruct (Z.eq_dec head NULL) as [En|En]; [left; exact En|right].
        intros ->.
        destruct (li_sep _ _ Hgeo _ _ _ _ _ _ Hl Ha (Hhin En))
          as [[_ E]|E]; lia.
  - rewrite Efb, arr_get_set_other by lia. apply (li_fb_sentinel _ _ _ Hl).
  - intros i a Ha. unfold fl_set in Ha.
    assert (Hcase : (i = idx /\ a = t) \/ In a (F i)).
    { destruct (Z.eqb_spec i idx) as [->|]; [|auto].
      destruct Ha as [<-|Ha]; auto. }
    destruct Hcase as [[-> ->]|Ha'].
    + split; [exact Hidx|]. exists sz. repeat split; auto.
      destruct (Hfr t sz Hbt) as [E _]. congruence.
    + destruct (li_member _ _ Hgeo _ _ _ _ Hl Ha')
        as (Hi & sza & Hb & Hc & Htg & _).
      split; [exact Hi|]. exists sza. repeat split; auto.
      destruct (Hfr a sza Hb) as [E _]. congruence.
  - intros i. unfold fl_set.
    destruct (i =? idx); [|apply (li_nodup _ _ _ Hl)].
    constructor; [apply Hnin|apply (li_nodup _ _ _ Hl)].
Qed.
End ListsOps.

(** ** The block macros on tagged words *)

Section MacroFacts.
Variables (m : mem) (p sz : Z) (u pu : bool).
Hypothesis Hw : get_size m p = word sz u pu.
Hypothesis Hmod : sz mod 8 = 0.
Hypothesis Hrange : 0 <= sz < 2 ^ 32.

Lemma BLOCK_SIZE_word : BLOCK_SIZE m p = sz.
Proof. unfold BLOCK_SIZE. rewrite Hw. apply word_block_size; assumption. Qed.

Lemma PHYS_NEXT_word : PHYS_NEXT m p = p + sz.
Proof. unfold PHYS_NEXT. rewrite BLOCK_SIZE_word. reflexivity. Qed.

Lemma IS_USED_word : IS_USED_BLOCK m p = u.
Proof.
  unfold IS_USED_BLOCK. rewrite Hw, word_used by assumption.
  destruct u; reflexivity.
Qed.

Lemma IS_FREE_word : IS_FREE_BLOCK m p = negb u.
Proof. unfold IS_FREE_BLOCK. rewrite IS_USED_word. reflexivity. Qed.

Lemma IS_PREV_USED_word : IS_PREV_USED m p = pu.
Proof.
  unfold IS_PREV_USED. rewrite Hw, word_prev_used by assumption.
  destruct pu; reflexivity.
Qed.

Lemma IS_PREV_FREE_word : IS_PREV_FREE m p = negb pu.
Proof. unfold IS_PREV_FREE. rewrite IS_PREV_USED_word. reflexivity. Qed.

Lemma SET_USED_word : SET_USED_BLOCK m p = set_size m p (word sz true pu).
Proof.
  unfold SET_USED_BLOCK. rewrite Hw, word_set_used by assumption.
  reflexivity.
Qed.

Lemma SET_FREE_word : SET_FREE_BLOCK m p = set_size m p (word sz false pu).
Proof.
  unfold SET_FREE_BLOCK. rewrite Hw, word_set_free by assumption.
  reflexivity.
Qed.

Lemma SET_PREV_USED_word :
  SET_PREV_USED m p = set_size m p (word sz u true).
Proof.
  unfold SET_PREV_USED. rewrite Hw, word_set_prev_used by assumption.
  reflexivity.
Qed.

Lemma SET_PREV_FREE_word :
  SET_PREV_FREE m p = set_size m p (word sz u false).
Proof.
  unfold SET_PREV_FREE. rewrite Hw, word_set_prev_free by assumption.
  reflexivity.
Qed.
End MacroFacts.

Lemma get_set_word m p sz u pu :
  sz mod 8 = 0 -> 0 <= sz < 2 ^ 32 ->
  get_size (set_size m p (word sz u pu)) p = word sz u pu.
Proof.
  intros Hm Hr. rewrite get_set_size_same. apply u32_id.
  apply word_range; assumption.
Qed.

(** ** Projections of the header updates *)

Lemma clear_bitmap_fields pool fli sli :
  pool_adrs (clear_bitmap pool fli sli) = pool_adrs pool
  /\ size (clear_bitmap pool fli sli) = size pool
  /\ est (clear_bitmap pool fli sli) = est pool
  /\ free_blocks (clear_bitmap pool fli sli) = free_blocks pool
  /\ heap (clear_bitmap pool fli sli) = heap pool.
Proof.
  unfold clear_bitmap.
  destruct (arr_get _ _ =? 0); cbn; repeat split; reflexivity.
Qed.

(** ** Size words that the list operations leave alone *)

(** [q] is the address of a block of [L0] or lies outside all of them. *)
Definition hdr_pos (L0 : list blk) (q : Z) : Prop :=
  forall b, In b L0 ->
  q = b_addr b \/ q + 4 <= b_addr b \/ b_addr b + b_size b <= q.

Lemma hdr_pos_block a0 L0 b : geo a0 L0 -> In b L0 -> hdr_pos L0 (b_addr b).
Proof.
  intros Hg Hb c Hc. destruct (geo_sep _ _ _ _ Hg Hb Hc) as [->|[E|E]].
  - left. reflexivity.
  - right. left. pose proof (geo_bounds _ _ _ Hg Hb). lia.
  - right. right. exact E.
Qed.

Lemma hdr_pos_end a0 L0 q : geo a0 L0 -> chain_end a0 L0 <= q -> hdr_pos L0 q.
Proof.
  intros Hg Hq c Hc. right. right.
  pose proof (geo_bounds _ _ _ Hg Hc). lia.
Qed.

Lemma hdr_pos_link_store L0 a0 m q x szx ux off v :
  geo_ok a0 L0 -> hdr_pos L0 q -> In (mkblk x szx ux) L0 ->
  (off = 8 \/ off = 16) ->
  get_size (store_ptr m (x + off) v) q = get_size m q.
Proof.
  intros Hg Hq Hx Hoff.
  pose proof (geo_ok_blk _ _ _ Hg Hx) as Hk. cbn in Hk.
  specialize (Hq _ Hx). cbn in Hq. mem_simp. reflexivity.
Qed.

Lemma exists_last_or_nil (l : list Z) :
  l = [] \/ exists l' a, l = l' ++ [a].
Proof.
  destruct l as [|x l]; [left; reflexivity|right].
  destruct (@exists_last _ (x :: l) ltac:(discriminate)) as (l' & a & E).
  exists l', a. exact E.
Qed.

Section IndexOps.
Variables (a0 : Z) (L0 : list blk).
Hypothesis Hgeo : geo_ok a0 L0.

(** The unlinking of the head of a list, as [est_malloc] does it. *)
Lemma malloc_unlink_spec pool F idx t l2 :
  index_inv pool L0 F -> F idx = t :: l2 ->
  let pool' := malloc_unlink pool t idx (FLI idx) (SLI idx) in
  index_inv pool' L0 (fl_set F idx l2)
  /\ (forall q, hdr_pos L0 q ->
        get_size (heap pool') q = get_size (heap pool) q)
  /\ pool_adrs pool' = pool_adrs pool /\ size pool' = size pool
  /\ est pool' = est pool.
Proof.
  intros [Hl Hb] HF pool'.
  assert (Ht : In t (F idx)) by (rewrite HF; left; reflexivity).
  destruct (li_member _ _ Hgeo _ _ _ _ Hl Ht) as (Hidx & _).
  pose proof (li_dll _ _ _ Hl idx Hidx) as Hd. rewrite HF in Hd.
  set (n := next_free (heap pool) t) in *.
  assert (Hn : n = hd NULL l2).
  { cbn in Hd. destruct Hd as (_ & _ & _ & Hd). apply dll_head in Hd.
    exact Hd. }
  assert (Hnn : n = NULL <-> l2 = []).
  { rewrite Hn. destruct l2 as [|h l2]; cbn; [tauto|].
    split; [|discriminate]. intros E. exfalso.
    cbn in Hd. destruct Hd as (_ & _ & _ & _ & Hz & _). contradiction. }
  set (pool1 := with_free_blocks pool idx n).
  assert (Hp' : pool' = if n =? NULL
                        then clear_bitmap pool1 (FLI idx) (SLI idx)
                        else with_heap pool1
                               (set_prev_free (heap pool) n NULL))
    by reflexivity.
  destruct (clear_bitmap_fields pool1 (FLI idx) (SLI idx))
    as (C1 & C2 & C3 & C4 & C5).
  split; [split|].
  - apply (lists_inv_pop _ _ Hgeo pool pool' F idx t l2 Hl HF); fold n.
    + rewrite Hp'. destruct (n =? NULL); [rewrite C4|]; reflexivity.
    + rewrite Hp'. destruct (n =? NULL); [rewrite C5|]; reflexivity.
  - rewrite Hp'. destruct (Z.eqb_spec n NULL) as [En|En].
    + apply Hnn in En. subst l2.
      apply bitmap_inv_clear; [|exact Hidx|rewrite HF; discriminate].
      apply (bitmap_inv_ext pool); auto.
    + apply (bitmap_inv_ext pool); [|reflexivity|reflexivity].
      apply bitmap_inv_same; [exact Hb|]. rewrite HF.
      destruct l2; [exfalso; apply En; apply Hnn; reflexivity|reflexivity].
  - rewrite Hp'. destruct (Z.eqb_spec n NULL) as [En|En].
    + rewrite C1, C2, C3, C5. repeat split; reflexivity.
    + repeat split; try reflexivity. intros q Hq.
      cbn [heap with_heap].
      assert (Hn' : In n (F idx)).
      { rewrite HF. right. rewrite Hn. destruct l2; cbn; [|auto].
        exfalso. apply En. apply Hnn. reflexivity. }
      destruct (li_member _ _ Hgeo _ _ _ _ Hl Hn') as (_ & szn & Hbn & _).
      unfold set_prev_free, offsetof_prev_free.
      apply (hdr_pos_link_store L0 a0 _ q n szn false 16 NULL); auto.
Qed.

Lemma remove_free_block_spec pool F t sz :
  index_inv pool L0 F ->
  In (mkblk t sz false) L0 -> In t (F (calc_index sz)) ->
  BLOCK_SIZE (heap pool) t = sz ->
  let pool' := remove_free_block pool t in
  exists l1 l2,
    F (calc_index sz) = l1 ++ t :: l2
    /\ index_inv pool' L0 (fl_set F (calc_index sz) (l1 ++ l2))
    /\ (forall q, hdr_pos L0 q ->
          get_size (heap pool') q = get_size (heap pool) q)
    /\ pool_adrs pool' = pool_adrs pool /\ size pool' = size pool
    /\ est pool' = est pool.
Proof.
  intros Hi Hbt Hin Hbs pool'. pose proof Hi as [Hl Hb].
  set (idx := calc_index sz) in *.
  destruct (in_split _ _ Hin) as (l1 & l2 & HF).
  exists l1, l2. split; [exact HF|].
  destruct (li_member _ _ Hgeo _ _ _ _ Hl Hin) as (Hidx & _).
  pose proof (li_dll _ _ _ Hl idx Hidx) as Hd. rewrite HF in Hd.
  destruct (dll_links _ _ _ _ _ _ Hd) as [Hpv Hnx].
  set (n := next_free (heap pool) t) in *.
  destruct (exists_last_or_nil l1) as [->|(l1' & p & ->)].
  - (* head of its list *)
    cbn in Hpv. cbn [app] in *.
    assert (E : pool' = malloc_unlink pool t idx (FLI idx) (SLI idx)).
    { unfold pool', remove_free_block, malloc_unlink.
      rewrite Hpv, Hbs. change (NULL =? NULL) with true. cbv iota.
      fold idx. cbn [heap with_free_blocks]. fold n.
      destruct (clear_bitmap_fields (with_free_blocks pool idx n)
                  (FLI idx) (SLI idx)) as (_ & _ & _ & _ & C5).
      destruct (Z.eqb_spec n NULL) as [En|En].
      - rewrite C5. cbn [heap with_free_blocks]. fold n.
        destruct (Z.eqb_spec n NULL); [reflexivity|contradiction].
      - cbn [heap with_free_blocks]. fold n.
        destruct (Z.eqb_spec n NULL); [contradiction|].
        rewrite Hpv. reflexivity. }
    rewrite E. apply malloc_unlink_spec; assumption.
  - (* it has a predecessor *)
    rewrite last_last in Hpv. rewrite <- app_assoc in HF. cbn in HF.
    assert (Hp : In p (F idx))
      by (rewrite HF; apply in_or_app; right; left; reflexivity).
    destruct (li_member _ _ Hgeo _ _ _ _ Hl Hp)
      as (_ & szp & Hbp & _ & _ & Hp1 & Hp2 & _).
    pose proof (geo_ok_blk _ _ _ Hgeo Hbt) as Hkt. cbn in Hkt.
    assert (Hpt : p + 32 <= t \/ t + 32 <= p).
    { pose proof (li_apart _ _ Hgeo _ _ idx Hl) as Hap. rewrite HF in Hap.
      apply apart_app in Hap as (_ & [Hap _] & _).
      specialize (Hap t (or_introl eq_refl)). exact Hap. }
    set (m1 := set_next_free (heap pool) p n).
    assert (Hn1 : next_free m1 t = n)
      by (unfold m1, n; mem_simp; reflexivity).
    assert (Hp1' : prev_free m1 t = p)
      by (unfold m1; mem_simp; mem_unfold; exact Hpv).
    assert (E : pool' = if n =? NULL then with_heap pool m1
                        else with_heap pool (set_prev_free m1 n p)).
    { unfold pool', remove_free_block. rewrite Hpv.
      destruct (Z.eqb_spec p NULL) as [Ez|_];
        [unfold NULL in Ez; lia|].
      fold n. fold m1. cbn [heap with_heap]. rewrite Hn1, Hp1'.
      destruct (n =? NULL); reflexivity. }
    assert (Hnin : n <> NULL -> In n (F idx)).
    { intros En. rewrite HF. apply in_or_app. right. right. right.
      rewrite Hnx in *. destruct l2; cbn in *; [congruence|auto]. }
    split; [split|].
    + replace ((l1' ++ [p]) ++ l2) with (l1' ++ p :: l2)
        by (rewrite <- app_assoc; reflexivity).
      apply (lists_inv_unlink _ _ Hgeo pool pool' F idx l1' p t l2 Hl HF);
        fold n; fold m1; rewrite E; destruct (n =? NULL); reflexivity.
    + apply (bitmap_inv_ext pool);
        [|rewrite E; destruct (n =? NULL); reflexivity
         |rewrite E; destruct (n =? NULL); reflexivity].
      apply bitmap_inv_same; [exact Hb|]. rewrite HF.
      destruct l1'; reflexivity.
    + rewrite E. split; [|destruct (n =? NULL); repeat split; reflexivity].
      intros q Hq.
      assert (Hq1 : get_size m1 q = get_size (heap pool) q).
      { unfold m1, set_next_free, offsetof_next_free.
        apply (hdr_pos_link_store L0 a0 _ q p szp false 8 n); auto. }
      destruct (Z.eqb_spec n NULL) as [En|En]; cbn [heap with_heap];
        [exact Hq1|].
      destruct (li_member _ _ Hgeo _ _ _ _ Hl (Hnin En))
        as (_ & szn & Hbn & _).
      rewrite <- Hq1. unfold set_prev_free, offsetof_prev_free.
      apply (hdr_pos_link_store L0 a0 _ q n szn false 16 p); auto.
Qed.

Lemma add_free_block_spec pool F t sz u pu :
  index_inv pool L0 F ->
  In (mkblk t sz false) L0 -> (forall i, ~ In t (F i)) ->
  get_size (heap pool) t = word sz u pu ->
  let pool' := add_free_block pool t in
  index_inv pool' L0 (fl_set F (calc_index sz) (t :: F (calc_index sz)))
  /\ get_size (heap pool') t = word sz false pu
  /\ (forall q, hdr_pos L0 q -> q <> t ->
        get_size (heap pool') q = get_size (heap pool) q)
  /\ pool_adrs pool' = pool_adrs pool /\ size pool' = size pool
  /\ est pool' = est pool.
Proof.
  intros [Hl Hb] Hbt Hnin Hw pool'.
  pose proof (geo_ok_blk _ _ _ Hgeo Hbt) as Hkt. cbn in Hkt.
  assert (Hmod : sz mod 8 = 0) by lia.
  assert (Hr : 0 <= sz < 2 ^ 32) by lia.
  set (idx := calc_index sz) in *.
  assert (Hidx : 0 <= idx < 80) by (apply calc_index_range; lia).
  set (ma := set_size (heap pool) t (word sz false pu)).
  assert (Hwa : get_size ma t = word sz false pu)
    by (apply get_set_word; assumption).
  set (mb := store_ptr ma (t + sz - 8) t).
  assert (Hwb : get_size mb t = word sz false pu)
    by (unfold mb; mem_simp; exact Hwa).
  set (head := arr_get (free_blocks pool) idx).
  set (m1 := set_prev_free mb t NULL).
  set (m2 := set_next_free m1 t head).
  set (m3 := if next_free m2 t =? NULL then m2
             else set_prev_free m2 (next_free m2 t) t).
  set (pool1 :=
    with_fli pool
      (u16 (Z.lor (free_fli_bitmap pool)
                  (Z.shiftr MSB_BIT1_FLI (FLI idx))))).
  set (pool2 :=
    with_sli pool1 (FLI idx)
      (u8 (Z.lor (arr_get (free_sli_bitmap pool1) (FLI idx))
                 (Z.shiftr MSB_BIT1_SLI (SLI idx))))).
  assert (E : pool' = with_heap (with_free_blocks pool2 idx t) m3).
  { unfold pool', add_free_block.
    rewrite (SET_FREE_word _ _ _ _ _ Hw Hmod Hr). fold ma.
    rewrite (BLOCK_SIZE_word _ _ _ _ _ Hwa Hmod Hr).
    change sizeof_ptr with 8. fold mb.
    rewrite (BLOCK_SIZE_word _ _ _ _ _ Hwb Hmod Hr). fold idx.
    reflexivity. }
  (* the lists, first across the size word and the tag *)
  assert (Hlb : lists_inv (with_heap pool mb) L0 F).
  { apply (lists_inv_changed _ _ Hgeo pool _ F t (t + sz)); auto.
    - cbn [heap with_heap]. unfold mb, ma.
      apply (changed_in_trans _ (set_size (heap pool) t (word sz false pu))).
      + apply changed_in_set_size; lia.
      + apply changed_in_store_ptr; lia.
    - intros i a sza Ha Hba.
      destruct (blk_sep _ _ _ _ _ _ _ _ Hgeo Hbt Hba) as [(E1 & _)|E1].
      + exfalso. subst a. exact (Hnin _ Ha).
      + lia. }
  assert (Htag : load_ptr mb (t + sz - 8) = t).
  { unfold mb. rewrite load_store_ptr_same. apply u64_id. lia. }
  assert (Hhead : head = NULL \/ In head (F idx)).
  { pose proof (li_dll _ _ _ Hl idx Hidx) as Hd. fold head in Hd.
    apply dll_head in Hd. rewrite Hd.
    destruct (F idx); cbn; [left; reflexivity|right; auto]. }
  assert (Hhr : 0 <= head < 2 ^ 64).
  { destruct Hhead as [->|Hh]; [unfold NULL; lia|].
    destruct (li_addr_ok _ _ Hgeo _ _ _ _ Hl Hh). lia. }
  assert (Hnf : next_free m2 t = head).
  { unfold m2, m1. mem_simp. apply u64_id. exact Hhr. }
  split; [split|].
  - pose proof (lists_inv_push _ _ Hgeo (with_heap pool mb) pool' F idx t sz
                  Hlb Hidx Hbt eq_refl Hnin Htag) as HH.
    cbv zeta in HH. cbn [heap with_heap free_blocks] in HH.
    fold head m1 m2 in HH.
    apply HH.
    + rewrite E. reflexivity.
    + rewrite E. reflexivity.
  - apply (bitmap_inv_ext pool2); [|rewrite E; reflexivity
                                   |rewrite E; reflexivity].
    apply bitmap_inv_set; assumption.
  - rewrite E. cbn [heap with_heap pool_adrs size est with_free_blocks].
    assert (Hq12 : forall q, hdr_pos L0 q ->
              get_size m3 q = get_size mb q).
    { intros q Hq. unfold m3. rewrite Hnf.
      assert (Hq2 : get_size m2 q = get_size mb q).
      { unfold m2, set_next_free, offsetof_next_free.
        rewrite (hdr_pos_link_store L0 a0 _ q t sz false 8 head); auto.
        unfold m1, set_prev_free, offsetof_prev_free.
        apply (hdr_pos_link_store L0 a0 _ q t sz false 16 NULL); auto. }
      destruct (Z.eqb_spec head NULL) as [En|En]; [exact Hq2|].
      destruct Hhead as [Hh|Hh]; [contradiction|].
      destruct (li_member _ _ Hgeo _ _ _ _ Hl Hh) as (_ & szh & Hbh & _).
      rewrite <- Hq2. unfold set_prev_free, offsetof_prev_free.
      apply (hdr_pos_link_store L0 a0 _ q head szh false 16 t); auto. }
    repeat split; try reflexivity.
    + rewrite Hq12
        by (apply (hdr_pos_block a0 L0 (mkblk t sz false));
            [apply Hgeo|exact Hbt]).
      exact Hwb.
    + intros q Hq Hne. rewrite Hq12 by exact Hq.
      pose proof (Hq _ Hbt) as Hqt. cbn in Hqt.
      unfold mb, ma. mem_simp. reflexivity.
Qed.
End IndexOps.

(** ** Facts about a well-formed chain *)

Lemma no_adj_weaken pu L : no_adj pu L -> no_adj true L.
Proof.
  destruct L as [|b L]; cbn; [auto|]. intros [_ H]. split; [discriminate|auto].
Qed.

Section ChainFacts.
Variables (pool : MEMORY_POOL) (L0 : list blk) (lst : blk).
Hypothesis Hc : chain_inv pool L0 lst.

Lemma chain_inv_geo_ok : geo_ok (BPOOL_TOP pool) L0.
Proof.
  pose proof Hc as [H1 H2 H3 H4 H5 H6 H7 H8 H9 H10 H11 H12].
  pose proof (chain_end_ge _ _ H5).
  unfold BPOOL_TOP, BPOOL_END, sizeof_MEMORY_POOL in *.
  constructor; auto; lia.
Qed.

Lemma chain_inv_blk b :
  In b L0 ->
  pool_adrs pool + 704 <= b_addr b
  /\ b_addr b + b_size b <= b_addr lst
  /\ b_addr lst + 8 <= pool_adrs pool + size pool
  /\ 32 <= b_size b < 2 ^ 32 /\ b_size b mod 8 = 0
  /\ 0 < b_addr b /\ b_addr b + b_size b + 8 <= 2 ^ 64.
Proof.
  intros Hin. pose proof (geo_ok_blk _ _ _ chain_inv_geo_ok Hin).
  pose proof Hc as [H1 H2 H3 H4 H5 H6 H7 H8 H9 H10 H11 H12].
  unfold BPOOL_TOP, BPOOL_END, sizeof_MEMORY_POOL in *. lia.
Qed.

Lemma chain_inv_lst :
  pool_adrs pool + 704 <= b_addr lst
  /\ b_addr lst + b_size lst = pool_adrs pool + size pool
  /\ 8 <= b_size lst < 2 ^ 32 /\ b_size lst mod 8 = 0
  /\ 0 < b_addr lst /\ b_addr lst + b_size lst <= 2 ^ 64.
Proof.
  pose proof Hc as [H1 H2 H3 H4 H5 H6 H7 H8 H9 H10 H11 H12].
  pose proof (chain_end_ge _ _ H5).
  unfold BPOOL_TOP, BPOOL_END, sizeof_MEMORY_POOL in *. lia.
Qed.

Lemma chain_inv_hdr_lst : hdr_pos L0 (b_addr lst).
Proof.
  apply (hdr_pos_end (BPOOL_TOP pool)); [apply Hc|].
  rewrite (ci_lst_addr _ _ _ Hc). lia.
Qed.

Lemma chain_inv_lst_word :
  get_size (heap pool) (b_addr lst)
  = word (b_size lst) true (last_used true L0).
Proof.
  pose proof (ci_words _ _ _ Hc) as Hw. apply words_app in Hw as [_ Hw].
  cbn in Hw. destruct Hw as [Hw _]. rewrite (ci_lst_used _ _ _ Hc) in Hw.
  exact Hw.
Qed.
End ChainFacts.

(** The words of a block in the middle of the chain and of the block
    after it. *)
Lemma chain_inv_split pool A b B lst :
  chain_inv pool (A ++ b :: B) lst ->
  get_size (heap pool) (b_addr b)
  = word (b_size b) (b_used b) (last_used true A)
  /\ words (heap pool) true A
  /\ words (heap pool) (b_used b) (B ++ [lst])
  /\ b_addr (hd lst B) = b_addr b + b_size b
  /\ geo (BPOOL_TOP pool) A /\ b_addr b = chain_end (BPOOL_TOP pool) A
  /\ geo (b_addr b + b_size b) B
  /\ b_addr lst = chain_end (b_addr b + b_size b) B
  /\ no_adj true A /\ (last_used true A = false -> b_used b = true)
  /\ no_adj (b_used b) B.
Proof.
  intros Hc. pose proof (ci_words _ _ _ Hc) as Hw.
  rewrite <- app_assoc in Hw. cbn [app] in Hw.
  apply words_app in Hw as [HwA Hw]. cbn [words] in Hw.
  destruct Hw as [Hwb HwB].
  pose proof (ci_geo _ _ _ Hc) as Hg. apply geo_split in Hg
    as (HgA & Hab & _ & _ & HgB & _ & _).
  pose proof (ci_noadj _ _ _ Hc) as Hn. apply no_adj_app in Hn as [HnA Hn].
  cbn [no_adj] in Hn. destruct Hn as [Hnb HnB].
  pose proof (ci_lst_addr _ _ _ Hc) as Hl.
  rewrite chain_end_app in Hl. cbn [chain_end] in Hl. rewrite <- Hab in Hl.
  repeat split; auto.
  destruct B as [|c B]; cbn [hd]; [exact Hl|].
  cbn in HgB. destruct HgB as [E _]. exact E.
Qed.

(** A chain invariant is kept by updates that leave the size words. *)
Lemma chain_inv_frame pool pool' L0 lst :
  chain_inv pool L0 lst ->
  pool_adrs pool' = pool_adrs pool -> size pool' = size pool ->
  (forall q, hdr_pos L0 q ->
     get_size (heap pool') q = get_size (heap pool) q) ->
  chain_inv pool' L0 lst.
Proof.
  intros Hc E1 E2 Hf. pose proof Hc as [H1 H2 H3 H4 H5 H6 H7 H8 H9 H10 H11 H12].
  unfold BPOOL_TOP, BPOOL_END in *.
  constructor; unfold BPOOL_TOP, BPOOL_END; rewrite ?E1, ?E2; auto.
  apply (words_frame (heap pool)); [exact H11|].
  intros b Hb. apply Hf. apply in_app_or in Hb as [Hb|[<-|[]]].
  - apply (hdr_pos_block (pool_adrs pool + sizeof_MEMORY_POOL)); assumption.
  - apply (chain_inv_hdr_lst pool). exact Hc.
Qed.

(** A size-word store at a block address keeps the lists. *)
Lemma lists_inv_hdr_store a0 L0 pool F q v :
  geo_ok a0 L0 -> lists_inv pool L0 F -> hdr_pos L0 q ->
  lists_inv (with_heap pool (set_size (heap pool) q v)) L0 F.
Proof.
  intros Hg Hl Hq. apply (lists_inv_frame L0 pool); auto.
  intros i a sz Ha Hb. split; [exact Hb|].
  pose proof (geo_ok_blk _ _ _ Hg Hb) as Hk. cbn in Hk.
  specialize (Hq _ Hb). cbn in Hq. cbn [heap with_heap].
  repeat split; mem_simp; reflexivity.
Qed.

Lemma index_inv_hdr_store a0 L0 pool F q v :
  geo_ok a0 L0 -> index_inv pool L0 F -> hdr_pos L0 q ->
  index_inv (with_heap pool (set_size (heap pool) q v)) L0 F.
Proof.
  intros Hg [Hl Hb] Hq. split.
  - apply (lists_inv_hdr_store a0); assumption.
  - apply (bitmap_inv_ext pool); auto.
Qed.

Lemma index_inv_chain pool L0 L0' F :
  index_inv pool L0 F ->
  (forall i a sz, In a (F i) -> In (mkblk a sz false) L0 ->
     In (mkblk a sz false) L0') ->
  index_inv pool L0' F.
Proof.
  intros [Hl Hb] H. split; [|exact Hb].
  apply (lists_inv_chain pool L0); assumption.
Qed.

Lemma index_inv_changed a0 L0 pool pool' F lo hi :
  geo_ok a0 L0 -> index_inv pool L0 F ->
  free_blocks pool' = free_blocks pool ->
  free_fli_bitmap pool' = free_fli_bitmap pool ->
  free_sli_bitmap pool' = free_sli_bitmap pool ->
  changed_in (heap pool) (heap pool') lo hi ->
  (forall i a sz, In a (F i) -> In (mkblk a sz false) L0 ->
     hi <= a + 8 \/ a + sz <= lo) ->
  index_inv pool' L0 F.
Proof.
  intros Hg [Hl Hb] E1 E2 E3 Hch Hout. split.
  - apply (lists_inv_changed a0 L0 Hg pool pool' F lo hi); assumption.
  - apply (bitmap_inv_ext pool); assumption.
Qed.

(** ** [est_init] *)

Lemma arr_get_repeat (n : nat) (i : Z) : arr_get (repeat 0 n) i = 0.
Proof.
  unfold arr_get. destruct (i <? 0); [reflexivity|].
  generalize (Z.to_nat i). induction n as [|k IH]; intros [|j]; cbn; auto.
Qed.

Lemma index_inv_zero ptr m L0 :
  index_inv (with_heap (zero_pool ptr m) m) L0 (fun _ => []).
Proof.
  split; constructor; cbn [free_blocks free_sli_bitmap free_fli_bitmap
                           heap with_heap zero_pool].
  - reflexivity.
  - intros i _. cbn. apply arr_get_repeat.
  - apply arr_get_repeat.
  - intros i a [].
  - intros i. constructor.
  - reflexivity.
  - intros f s _ _. rewrite arr_get_repeat. apply Z.bits_0.
  - intros f. rewrite arr_get_repeat. lia.
  - apply arr_get_repeat.
  - intros f _. rewrite arr_get_repeat. apply Z.bits_0.
  - lia.
  - intros k _. apply Z.bits_0.
Qed.

Lemma round_down_8 (x : Z) :
  0 <= x < 2 ^ 32 -> Z.land x (u32 (Z.lnot ALIGNMENT_MASK)) = 8 * (x / 8).
Proof.
  intros Hx. pose proof (Z.div_mod x 8 ltac:(lia)).
  pose proof (Z.mod_pos_bound x 8 ltac:(lia)).
  replace x with (8 * (x / 8) + x mod 8) at 1 by lia.
  change (u32 (Z.lnot ALIGNMENT_MASK)) with (8 * 536870911 + 0).
  rewrite land_low3 by lia. rewrite Z.land_0_r.
  rewrite land_ones29; [lia|].
  split; [apply Z.div_pos; lia|apply Z.div_lt_upper_bound; lia].
Qed.

(** What a caller owes [est_init] beyond its assertions: the buffer lies
    in the address space, away from the null address, and has room for
    the header, one minimal block and the sentinel. *)
Definition init_ok (ptr size : Z) : Prop :=
  est_init_asserts ptr size = true
  /\ 0 < ptr /\ ptr + size <= 2 ^ 64
  /\ sizeof_MEMORY_POOL + ESTALLOC_MIN_MEMORY_BLOCK_SIZE + sizeof_USED_BLOCK
     <= size.

Definition init_free_size (size : Z) : Z := 8 * (size / 8) - 712.

Definition init_chain (ptr size : Z) : list blk :=
  [mkblk (ptr + 704) (init_free_size size) false].

Definition init_last (ptr size : Z) : blk :=
  mkblk (ptr + 704 + init_free_size size) 8 true.

Definition init_flists (ptr size : Z) : flists :=
  fl_set (fun _ => []) (calc_index (init_free_size size)) [ptr + 704].

Lemma est_init_spec (m : mem) (ptr bytes : Z) :
  init_ok ptr bytes ->
  Inv (est_init m ptr bytes) (init_chain ptr bytes) (init_last ptr bytes)
      (init_flists ptr bytes) [].
Proof.
  intros (Ha & Hp & He & Hs).
  unfold est_init_asserts in Ha.
  repeat (apply andb_true_iff in Ha as [Ha ?]).
  change sizeof_MEMORY_POOL with 704 in *.
  change ESTALLOC_MIN_MEMORY_BLOCK_SIZE with 32 in *.
  change sizeof_USED_BLOCK with 8 in Hs.
  change (u32 (Z.lnot 0)) with (2 ^ 32 - 1) in *.
  assert (Hsz : 0 <= bytes < 2 ^ 32) by lia.
  assert (Hal : ptr mod 8 = 0).
  { match goal with
    | [ H : (Z.land ptr ALIGNMENT_MASK =? 0) = true |- _ ] =>
        apply Z.eqb_eq in H; change ALIGNMENT_MASK with (Z.ones 3) in H;
        rewrite Z.land_ones in H by lia; exact H
    end. }
  set (S := 8 * (bytes / 8)).
  assert (HS : 744 <= S <= bytes /\ S mod 8 = 0).
  { unfold S. pose proof (Z.div_mod bytes 8 ltac:(lia)).
    pose proof (Z.mod_pos_bound bytes 8 ltac:(lia)).
    split; [lia|]. rewrite Z.mul_comm. apply Z.mod_mul. lia. }
  set (fs := init_free_size bytes).
  assert (Hfs : fs = S - 712 /\ 32 <= fs < 2 ^ 32 /\ fs mod 8 = 0).
  { unfold fs, init_free_size. fold S. split; [reflexivity|]. split; [lia|].
    replace (S - 712) with (S + (-89) * 8) by lia.
    rewrite Z.mod_add by lia. apply HS. }
  set (top := ptr + 704).
  set (m1 := set_size m top (Z.lor fs 2)).
  set (m2 := set_size m1 (top + fs) (Z.lor 8 1)).
  set (pool0 := with_heap (with_size (zero_pool ptr m) S) m2).
  assert (E : est_init m ptr bytes = add_free_block pool0 top).
  { unfold est_init. rewrite round_down_8 by exact Hsz. fold S.
    change (BPOOL_TOP (with_size (zero_pool ptr m) S)) with top.
    change sizeof_USED_BLOCK with 8.
    change (u32 (8 + Z.land (Z.opp 8) ALIGNMENT_MASK)) with 8.
    change sizeof_MEMORY_POOL with 704.
    assert (Hfu : u32 (S - 704 - 8) = fs).
    { replace (S - 704 - 8) with fs by lia. apply u32_id. lia. }
    rewrite Hfu. reflexivity. }
  set (L0 := init_chain ptr bytes). set (lst := init_last ptr bytes).
  assert (Hw1 : Z.lor fs 2 = word fs false true).
  { rewrite <- (word_set_prev_used fs false false) by lia.
    unfold word, flags. rewrite Z.add_0_r. reflexivity. }
  assert (Hg : geo_ok top L0).
  { constructor; cbn; unfold top in *; fold fs; try lia; repeat split; lia. }
  assert (Hwt : get_size m2 top = word fs false true).
  { unfold m2, m1. rewrite get_set_size_other by lia.
    rewrite Hw1. apply get_set_word; lia. }
  assert (Hwl : get_size m2 (top + fs) = word 8 true false).
  { unfold m2. change (Z.lor 8 1) with (word 8 true false).
    apply get_set_word; [reflexivity|lia]. }
  assert (Hi0 : index_inv pool0 L0 (fun _ => [])).
  { pose proof (index_inv_zero ptr m2 L0) as [Hl Hb]. split.
    - destruct Hl. constructor; auto.
    - destruct Hb. constructor; auto. }
  destruct (add_free_block_spec top L0 Hg pool0 (fun _ => []) top fs
              false true Hi0 (or_introl eq_refl) (fun i H => H) Hwt)
    as (Hi & Hw & Hfr & E1 & E2 & E3).
  rewrite <- E in *.
  assert (Ea : pool_adrs (est_init m ptr bytes) = ptr)
    by (rewrite E1; reflexivity).
  assert (Es : size (est_init m ptr bytes) = S)
    by (rewrite E2; reflexivity).
  constructor.
  - constructor; unfold BPOOL_TOP, BPOOL_END; rewrite ?Ea, ?Es;
      change sizeof_MEMORY_POOL with 704; fold top;
      unfold L0, lst, init_chain, init_last; fold top; fold fs;
      cbn [b_addr b_size b_used geo chain_end app words no_adj].
    + lia.
    + exact Hal.
    + lia.
    + lia.
    + repeat split; lia.
    + reflexivity.
    + reflexivity.
    + lia.
    + lia.
    + reflexivity.
    + split; [exact Hw|]. split; [|exact I].
      rewrite Hfr; [exact Hwl| |lia].
      apply (hdr_pos_end top); [apply Hg|]. cbn. fold fs. lia.
    + split; [discriminate|exact I].
  - exact Hi.
  - intros b [<-|[]] _. cbn. fold fs. unfold init_flists. fold fs.
    rewrite fl_set_same. left. reflexivity.
  - intros p [].
Qed.

(** ** [est_malloc] *)

Lemma alloc_size_of_facts (n : Z) :
  32 <= alloc_size_of n < 2 ^ 32 /\ alloc_size_of n mod 8 = 0.
Proof.
  unfold alloc_size_of. change ESTALLOC_MIN_MEMORY_BLOCK_SIZE with 32.
  change sizeof_USED_BLOCK with 8. change ALIGNMENT_MASK with (Z.ones 3).
  set (x := u32 (n + 8)). rewrite Z.land_ones by lia. change (2 ^ 3) with 8.
  set (y := u32 (x + (- x) mod 8)).
  cbv zeta. destruct (Z.ltb_spec y 32) as [Hlt|Hge].
  - split; [lia|reflexivity].
  - pose proof (u32_range (x + (- x) mod 8)). fold y in H.
    split; [lia|]. unfold y, u32.
    rewrite Z.mod_mod_divide by (exists (2 ^ 29); reflexivity).
    rewrite Z.add_mod_idemp_r by lia. rewrite Z.add_opp_diag_r. reflexivity.
Qed.

Lemma alloc_size_of_ge (n : Z) :
  0 <= n -> n + 15 < 2 ^ 32 -> n + 8 <= alloc_size_of n.
Proof.
  intros H0 H1. unfold alloc_size_of.
  change ESTALLOC_MIN_MEMORY_BLOCK_SIZE with 32.
  change sizeof_USED_BLOCK with 8. change ALIGNMENT_MASK with (Z.ones 3).
  rewrite (u32_id (n + 8)) by lia.
  rewrite Z.land_ones by lia. change (2 ^ 3) with 8.
  pose proof (Z.mod_pos_bound (- (n + 8)) 8 ltac:(lia)).
  rewrite u32_id by lia.
  destruct (Z.ltb_spec (n + 8 + (- (n + 8)) mod 8) 32); lia.
Qed.

(** The chain after [est_malloc] took the free block [t] of [sz] bytes for
    a request of effective size [al]. *)
Definition malloc_chain (A : list blk) (t sz al : Z) (B : list blk)
  : list blk :=
  if sz - al <=? 32 then A ++ mkblk t sz true :: B
  else A ++ mkblk t al true :: mkblk (t + al) (sz - al) false :: B.

(** The lists with [t] taken off list [idx]. *)
Lemma unlinked_facts a0 L0 pool F idx l1 t l2 :
  geo_ok a0 L0 -> lists_inv pool L0 F -> F idx = l1 ++ t :: l2 ->
  let F1 := fl_set F idx (l1 ++ l2) in
  (forall i, ~ In t (F1 i))
  /\ (forall i a, In a (F i) -> a <> t -> In a (F1 i))
  /\ (forall i a, In a (F1 i) -> In a (F i) /\ a <> t).
Proof.
  intros Hg Hl HF F1.
  assert (Ht : In t (F idx))
    by (rewrite HF; apply in_or_app; right; left; reflexivity).
  pose proof (li_nodup _ _ _ Hl idx) as Hnd. rewrite HF in Hnd.
  apply NoDup_remove_2 in Hnd.
  assert (H3 : forall i a, In a (F1 i) -> In a (F i) /\ a <> t).
  { intros i a. unfold F1, fl_set. destruct (Z.eqb_spec i idx) as [->|Hne].
    - intros Ha. split; [|intros ->; contradiction].
      rewrite HF. apply in_app_or in Ha as [Ha|Ha]; apply in_or_app; cbn; auto.
    - intros Ha. split; [exact Ha|]. intros ->.
      destruct (li_sep _ _ Hg _ _ _ _ _ _ Hl Ha Ht) as [[_ E]|E]; lia. }
  split; [|split].
  - intros i Hin. destruct (H3 _ _ Hin) as [_ Hne]. apply Hne. reflexivity.
  - intros i a Ha Hne. unfold F1, fl_set.
    destruct (Z.eqb_spec i idx) as [->|]; [|exact Ha].
    rewrite HF in Ha. apply in_app_or in Ha as [Ha|[Ha|Ha]];
      [apply in_or_app; auto|congruence|apply in_or_app; auto].
  - exact H3.
Qed.

(** A block in use and a free block of one chain have different
    addresses. *)
Lemma used_free_neq a0 L0 a sza b szb :
  geo a0 L0 -> In (mkblk a sza true) L0 -> In (mkblk b szb false) L0 -> a <> b.
Proof.
  intros Hg Ha Hb E.
  pose proof (geo_addr_inj _ _ _ _ Hg Ha Hb E) as X. discriminate X.
Qed.

(** Blocks back to back, each with room for a header: the whole chain,
    last block included. *)
Fixpoint lay (a : Z) (L : list blk) : Prop :=
  match L with
  | [] => True
  | b :: L' =>
      b_addr b = a /\ b_size b mod 8 = 0 /\ 8 <= b_size b
      /\ lay (a + b_size b) L'
  end.

Lemma geo_lay a L : geo a L -> lay a L.
Proof.
  revert a. induction L as [|b L IH]; intros a H; cbn in *; [exact I|].
  destruct H as (H1 & H2 & H3 & H4). repeat split; auto. lia.
Qed.

Lemma lay_app a L1 L2 :
  lay a (L1 ++ L2) <-> lay a L1 /\ lay (chain_end a L1) L2.
Proof.
  revert a. induction L1 as [|b L IH]; intros a; cbn.
  - tauto.
  - rewrite IH. tauto.
Qed.

Lemma lay_end_ge a L : lay a L -> a <= chain_end a L.
Proof.
  revert a. induction L as [|b L IH]; intros a H; cbn in *; [lia|].
  destruct H as (_ & _ & Hs & Hg). specialize (IH _ Hg). lia.
Qed.

Lemma lay_bounds a L b :
  lay a L -> In b L ->
  a <= b_addr b /\ b_addr b + b_size b <= chain_end a L
  /\ b_size b mod 8 = 0 /\ 8 <= b_size b.
Proof.
  revert a. induction L as [|c L IH]; intros a H Hin; [destruct Hin|].
  cbn in H. destruct H as (Ha & Hm & Hs & Hg).
  destruct Hin as [->|Hin].
  - cbn. pose proof (lay_end_ge _ _ Hg). repeat split; lia.
  - destruct (IH _ Hg Hin) as (H1 & H2 & H3 & H4). cbn.
    repeat split; lia.
Qed.

Lemma chain_inv_lay pool L0 lst :
  chain_inv pool L0 lst ->
  lay (BPOOL_TOP pool) (L0 ++ [lst])
  /\ chain_end (BPOOL_TOP pool) (L0 ++ [lst]) = BPOOL_END pool.
Proof.
  intros Hc. pose proof Hc as [H1 H2 H3 H4 H5 H6 H7 H8 H9 H10 H11 H12].
  split.
  - apply lay_app. split; [apply geo_lay; exact H5|].
    cbn. rewrite <- H6. repeat split; auto.
  - rewrite chain_end_app. cbn. rewrite <- H6. exact H9.
Qed.

(** The neighbourhood of a block [b] of the chain: the blocks before it,
    the block [nx] after it and the blocks [R] after that (the last block
    of the pool is [nx] or in [R]). *)
Lemma chain_around pool A b B lst :
  chain_inv pool (A ++ b :: B) lst ->
  exists nx R,
    B ++ [lst] = nx :: R
    /\ b_addr nx = b_addr b + b_size b
    /\ 8 <= b_size nx < 2 ^ 32 /\ b_size nx mod 8 = 0
    /\ b_addr nx + b_size nx <= BPOOL_END pool
    /\ (forall c, In c R ->
          b_addr nx + b_size nx <= b_addr c /\ 8 <= b_size c
          /\ b_addr c + b_size c <= BPOOL_END pool)
    /\ (forall c, In c A ->
          BPOOL_TOP pool <= b_addr c /\ b_addr c + b_size c <= b_addr b
          /\ 32 <= b_size c)
    /\ BPOOL_TOP pool <= b_addr b /\ 32 <= b_size b < 2 ^ 32
    /\ b_size b mod 8 = 0
    /\ 0 < BPOOL_TOP pool /\ BPOOL_END pool <= 2 ^ 64
    /\ BPOOL_END pool - BPOOL_TOP pool < 2 ^ 32.
Proof.
  intros Hc. destruct (chain_inv_lay _ _ _ Hc) as [Hl He].
  pose proof (chain_inv_blk _ _ _ Hc b
                ltac:(apply in_or_app; right; left; reflexivity)) as Hb.
  pose proof (chain_inv_lst _ _ _ Hc) as Hlst.
  pose proof (ci_geo _ _ _ Hc) as Hg. apply geo_split in Hg
    as (HgA & Hab & _ & _ & HgB & HA & _).
  rewrite <- app_assoc in Hl, He. cbn [app] in Hl, He.
  apply lay_app in Hl as [_ Hl]. rewrite chain_end_app in He.
  rewrite <- Hab in Hl, He. cbn [lay chain_end] in Hl, He.
  destruct Hl as (_ & _ & _ & Hl).
  destruct (B ++ [lst]) as [|nx R] eqn:E.
  { destruct B; discriminate E. }
  exists nx, R. cbn [lay chain_end] in Hl, He.
  destruct Hl as (Hn1 & Hn2 & Hn3 & Hl).
  pose proof (lay_end_ge _ _ Hl) as Hge. rewrite Hn1 in *.
  pose proof (ci_base _ _ _ Hc). pose proof (ci_end _ _ _ Hc).
  pose proof (ci_size _ _ _ Hc).
  unfold BPOOL_TOP, BPOOL_END, sizeof_MEMORY_POOL in *.
  repeat split; auto; try lia.
  - pose proof (lay_bounds _ _ _ Hl H2). lia.
  - pose proof (lay_bounds _ _ _ Hl H2). lia.
  - pose proof (lay_bounds _ _ _ Hl H2). lia.
  - pose proof (HA _ H2). lia.
  - pose proof (HA _ H2). lia.
  - pose proof (HA _ H2). lia.
Qed.

(** The invariant with the free block at [t] taken off its list. *)
Record Inv_hole (pool : MEMORY_POOL) (L0 : list blk) (lst : blk)
    (F : flists) (live : list Z) (t : Z) : Prop := mk_Inv_hole {
  ih_chain : chain_inv pool L0 lst;
  ih_index : index_inv pool L0 F;
  ih_notin : forall i, ~ In t (F i);
  ih_complete : forall b, In b L0 -> b_used b = false -> b_addr b <> t ->
                In (b_addr b) (F (calc_index (b_size b)));
  ih_live : live_ok L0 live
}.

Lemma Inv_unlink pool pool1 L0 lst F live idx l1 t l2 :
  Inv pool L0 lst F live -> F idx = l1 ++ t :: l2 ->
  index_inv pool1 L0 (fl_set F idx (l1 ++ l2)) ->
  (forall q, hdr_pos L0 q ->
     get_size (heap pool1) q = get_size (heap pool) q) ->
  pool_adrs pool1 = pool_adrs pool -> size pool1 = size pool ->
  Inv_hole pool1 L0 lst (fl_set F idx (l1 ++ l2)) live t.
Proof.
  intros [Hc Hi Hcm Hlv] HF Hi1 Hfr E1 E2.
  pose proof (chain_inv_geo_ok _ _ _ Hc) as Hg.
  destruct (unlinked_facts _ _ _ _ _ _ _ _ Hg (ii_lists _ _ _ Hi) HF)
    as (U1 & U2 & U3).
  constructor.
  - apply (chain_inv_frame pool); assumption.
  - exact Hi1.
  - exact U1.
  - intros b Hb Hu Hne. apply U2; auto.
  - exact Hlv.
Qed.

Lemma words_frame_before m m' pu A hi :
  words m pu A -> (forall c, In c A -> b_addr c + 4 <= hi) ->
  (forall q, q + 4 <= hi -> get_size m' q = get_size m q) ->
  words m' pu A.
Proof.
  intros Hw Hb Hf. apply (words_frame m); [exact Hw|].
  intros b Hin. apply Hf. apply Hb. exact Hin.
Qed.

Lemma words_frame_after m m' pu R lo :
  words m pu R -> (forall c, In c R -> lo <= b_addr c) ->
  (forall q, lo <= q -> get_size m' q = get_size m q) ->
  words m' pu R.
Proof.
  intros Hw Hb Hf. apply (words_frame m); [exact Hw|].
  intros b Hin. apply Hf. apply Hb. exact Hin.
Qed.

Lemma hdr_pos_chain pool L0 lst c :
  chain_inv pool L0 lst -> In c (L0 ++ [lst]) -> hdr_pos L0 (b_addr c).
Proof.
  intros Hc Hin. apply in_app_or in Hin as [Hin|[<-|[]]].
  - apply (hdr_pos_block (BPOOL_TOP pool)); [apply Hc|exact Hin].
  - apply (chain_inv_hdr_lst pool). exact Hc.
Qed.

Lemma fl_set_cons_incl F idx t i a :
  In a (F i) -> In a (fl_set F idx (t :: F idx) i).
Proof.
  intros H. unfold fl_set. destruct (Z.eqb_spec i idx) as [->|]; [right|];
    exact H.
Qed.

Lemma in_middle (A : list blk) b B c :
  In c (A ++ b :: B) <-> In c A \/ c = b \/ In c B.
Proof.
  rewrite in_app_iff. cbn. split; intros [H|[H|H]]; auto.
Qed.

Lemma malloc_split_nosplit pool A t sz B lst F live al :
  Inv_hole pool (A ++ mkblk t sz false :: B) lst F live t ->
  32 <= al <= sz -> sz - al <= 32 ->
  exists pool',
    malloc_split pool t al = (t + 8, pool')
    /\ Inv pool' (A ++ mkblk t sz true :: B) lst F (t + 8 :: live)
    /\ pool_adrs pool' = pool_adrs pool /\ size pool' = size pool.
Proof.
  intros [Hc Hi Hni Hcm Hlv] Hal Hns.
  set (L0 := A ++ mkblk t sz false :: B) in *.
  set (L0' := A ++ mkblk t sz true :: B).
  pose proof (chain_inv_geo_ok _ _ _ Hc) as Hg.
  destruct (chain_around _ _ _ _ _ Hc)
    as (nx & R & ER & Hnxa & Hnxs & Hnxm & Hnxe & HR & HA & Htop & Hsz & Hszm
        & Hpos & Hend & Hlen).
  cbn [b_addr b_size] in *.
  destruct (chain_inv_split _ _ _ _ _ Hc)
    as (Hwt & HwA & HwB & _ & HgA & Hta & HgB & Hla & HnA & Hput & HnB).
  cbn [b_addr b_size b_used] in *.
  assert (Hpu : last_used true A = true).
  { destruct (last_used true A); [reflexivity|].
    specialize (Hput eq_refl). discriminate. }
  rewrite Hpu in Hwt. rewrite ER in HwB. cbn [words] in HwB.
  destruct HwB as [Hwn HwR].
  assert (Hsz0 : 0 <= sz < 2 ^ 32) by lia.
  assert (Hnxs0 : 0 <= b_size nx < 2 ^ 32) by lia.
  set (h := heap pool) in *.
  set (h1 := set_size h (b_addr nx) (word (b_size nx) (b_used nx) true)).
  assert (Hw1t : get_size h1 t = word sz false true).
  { unfold h1. rewrite get_set_size_other by lia. exact Hwt. }
  set (h2 := set_size h1 t (word sz true true)).
  exists (with_heap pool h2).
  assert (Hms : malloc_split pool t al = (t + 8, with_heap pool h2)).
  { unfold malloc_split, split_block. fold h.
    rewrite (BLOCK_SIZE_word _ _ _ _ _ Hwt Hszm Hsz0).
    rewrite (u32_id (sz - al)) by lia.
    change ESTALLOC_MIN_MEMORY_BLOCK_SIZE with 32.
    destruct (Z.leb_spec (sz - al) 32) as [_|Hx]; [|lia].
    change (negb (NULL =? NULL)) with false. cbv iota.
    rewrite (PHYS_NEXT_word _ _ _ _ _ Hwt Hszm Hsz0). rewrite <- Hnxa.
    rewrite (SET_PREV_USED_word _ _ _ _ _ Hwn Hnxm). fold h1.
    cbn [heap with_heap].
    rewrite (SET_USED_word _ _ _ _ _ Hw1t Hszm). fold h2.
    reflexivity. }
  split; [exact Hms|]. split; [|split; reflexivity].
  assert (Hmid : forall c, In c L0 <-> In c A \/ c = mkblk t sz false \/ In c B)
    by (intros c; apply in_middle).
  assert (Hmid' : forall c, In c L0' <-> In c A \/ c = mkblk t sz true \/ In c B)
    by (intros c; apply in_middle).
  assert (HB : forall c, In c B -> b_addr nx <= b_addr c).
  { intros c Hin.
    assert (Hin' : In c (nx :: R))
      by (rewrite <- ER; apply in_or_app; left; exact Hin).
    destruct Hin' as [<-|Hin']; [lia|]. specialize (HR _ Hin'). lia. }
  constructor.
  - (* chain *)
    pose proof Hc as [H1 H2 H3 H4 H5 H6 H7 H8 H9 H10 H11 H12].
    constructor; auto.
    + unfold L0'. apply geo_app. apply geo_app in H5 as [H5a H5b].
      split; [exact H5a|]. exact H5b.
    + unfold L0'. rewrite chain_end_app. unfold L0 in H6.
      rewrite chain_end_app in H6. exact H6.
    + cbn [heap with_heap]. unfold L0'. rewrite <- app_assoc. cbn [app].
      apply words_app. split; [|rewrite Hpu; cbn [words b_addr b_size b_used];
                                 split].
      * apply (words_frame_before h _ _ _ t); [exact HwA| |].
        -- intros c Hin. specialize (HA _ Hin). lia.
        -- intros q Hq. unfold h2, h1. mem_simp. reflexivity.
      * unfold h2. apply get_set_word; lia.
      * rewrite ER. cbn [words]. split.
        -- unfold h2. rewrite get_set_size_other by lia. unfold h1.
           apply get_set_word; lia.
        -- apply (words_frame_after h _ _ _ (b_addr nx + b_size nx));
             [exact HwR| |].
           ++ intros c Hin. specialize (HR _ Hin). lia.
           ++ intros q Hq. unfold h2, h1. mem_simp. reflexivity.
    + unfold L0'. unfold L0 in H12. apply no_adj_app.
      apply no_adj_app in H12 as [Ha Hb]. split; [exact Ha|].
      cbn [no_adj b_used] in *. destruct Hb as [_ Hb]. split; [auto|].
      apply (no_adj_weaken false). exact Hb.
  - (* index *)
    assert (Hi2 : index_inv (with_heap pool h2) L0 F).
    { assert (Hi1 : index_inv (with_heap pool h1) L0 F).
      { apply (index_inv_hdr_store (BPOOL_TOP pool)); auto.
        apply (hdr_pos_chain pool L0 lst nx Hc).
        unfold L0. rewrite <- app_assoc. cbn [app]. rewrite ER.
        apply in_or_app. right. right. left. reflexivity. }
      apply (index_inv_hdr_store (BPOOL_TOP pool) L0 (with_heap pool h1) F t
               (word sz true true) Hg Hi1).
      apply (hdr_pos_block (BPOOL_TOP pool) L0 (mkblk t sz false));
        [apply Hg|]. apply Hmid. auto. }
    apply (index_inv_chain _ L0); [exact Hi2|].
    intros i a sza Ha Hb. apply Hmid'. apply Hmid in Hb as [Hb|[Hb|Hb]]; auto.
    exfalso. inversion Hb; subst a. exact (Hni _ Ha).
  - (* complete *)
    intros b Hb Hu. apply Hmid' in Hb.
    assert (Hb' : In b L0 /\ b_addr b <> t).
    { destruct Hb as [Hb|[->|Hb]].
      - split; [apply Hmid; auto|]. specialize (HA _ Hb). lia.
      - discriminate Hu.
      - split; [apply Hmid; auto|]. specialize (HB _ Hb). lia. }
    destruct Hb' as [Hb1 Hb2]. apply Hcm; assumption.
  - (* live *)
    intros p [<-|Hp].
    + exists sz. replace (t + 8 - 8) with t by lia. apply Hmid'. auto.
    + destruct (Hlv _ Hp) as (s & Hs). exists s. apply Hmid'.
      apply Hmid in Hs as [Hs|[Hs|Hs]]; auto. discriminate Hs.
Qed.

Lemma malloc_split_split pool A t sz B lst F live al :
  Inv_hole pool (A ++ mkblk t sz false :: B) lst F live t ->
  32 <= al <= sz -> al mod 8 = 0 -> 32 < sz - al ->
  exists pool' F',
    malloc_split pool t al = (t + 8, pool')
    /\ Inv pool' (A ++ mkblk t al true :: mkblk (t + al) (sz - al) false :: B)
           lst F' (t + 8 :: live)
    /\ pool_adrs pool' = pool_adrs pool /\ size pool' = size pool.
Proof.
  intros [Hc Hi Hni Hcm Hlv] Hal Halm Hsp.
  set (L0 := A ++ mkblk t sz false :: B) in *.
  set (r := t + al). set (rsz := sz - al).
  set (L0' := A ++ mkblk t al true :: mkblk r rsz false :: B).
  pose proof (chain_inv_geo_ok _ _ _ Hc) as Hg.
  destruct (chain_around _ _ _ _ _ Hc)
    as (nx & R & ER & Hnxa & Hnxs & Hnxm & Hnxe & HR & HA & Htop & Hsz & Hszm
        & Hpos & Hend & Hlen).
  cbn [b_addr b_size] in *.
  destruct (chain_inv_split _ _ _ _ _ Hc)
    as (Hwt & HwA & HwB & _ & HgA & Hta & HgB & Hla & HnA & Hput & HnB).
  cbn [b_addr b_size b_used] in *.
  assert (Hpu : last_used true A = true).
  { destruct (last_used true A); [reflexivity|].
    specialize (Hput eq_refl). discriminate. }
  rewrite Hpu in Hwt. rewrite ER in HwB. cbn [words] in HwB.
  destruct HwB as [Hwn HwR].
  assert (Hsz0 : 0 <= sz < 2 ^ 32) by lia.
  assert (Hrszm : rsz mod 8 = 0).
  { unfold rsz. rewrite Zminus_mod, Hszm, Halm. reflexivity. }
  assert (Hrsz0 : 0 <= rsz < 2 ^ 32) by (unfold rsz; lia).
  assert (Hal0 : 0 <= al < 2 ^ 32) by lia.
  set (h := heap pool) in *.
  set (h1 := set_size h r rsz).
  assert (Hw1t : get_size h1 t = word sz false true).
  { unfold h1, r. rewrite get_set_size_other by lia. exact Hwt. }
  set (h2 := set_size h1 t (word al false true)).
  assert (Hw2r : get_size h2 r = word rsz false false).
  { unfold h2, h1, r. rewrite get_set_size_other by lia.
    rewrite get_set_size_same. rewrite (u32_id rsz) by exact Hrsz0.
    unfold word, flags. lia. }
  set (h3 := set_size h2 r (word rsz false true)).
  assert (Hw3r : get_size h3 r = word rsz false true)
    by (unfold h3; apply get_set_word; assumption).
  assert (Hw3t : get_size h3 t = word al false true).
  { unfold h3, r. rewrite get_set_size_other by lia. unfold h2.
    apply get_set_word; assumption. }
  set (pool2 := add_free_block (with_heap pool h3) r).
  set (hF := set_size (heap pool2) t (word al true true)).
  assert (Hmid : forall c, In c L0 <-> In c A \/ c = mkblk t sz false \/ In c B)
    by (intros c; apply in_middle).
  assert (Hmid' : forall c, In c L0' <->
            In c A \/ c = mkblk t al true \/ c = mkblk r rsz false \/ In c B).
  { intros c. unfold L0'. rewrite in_app_iff. cbn.
    split; intros [H|[H|[H|H]]]; auto. }
  assert (HB : forall c, In c B -> b_addr nx <= b_addr c).
  { intros c Hin.
    assert (Hin' : In c (nx :: R))
      by (rewrite <- ER; apply in_or_app; left; exact Hin).
    destruct Hin' as [<-|Hin']; [lia|]. specialize (HR _ Hin'). lia. }
  (* the new chain *)
  pose proof Hc as [H1 H2 H3 H4 H5 H6 H7 H8 H9 H10 H11 H12].
  assert (Hgeo' : geo (BPOOL_TOP pool) L0').
  { unfold L0'. apply geo_app. apply geo_app in H5 as [H5a H5b].
    split; [exact H5a|]. cbn [geo b_addr b_size] in *.
    destruct H5b as (E1 & _ & _ & E2). unfold r, rsz.
    repeat split; auto; try lia.
    replace (chain_end (BPOOL_TOP pool) A + al + (sz - al))
      with (chain_end (BPOOL_TOP pool) A + sz) by lia. exact E2. }
  assert (Hend' : chain_end (BPOOL_TOP pool) L0'
                  = chain_end (BPOOL_TOP pool) L0).
  { unfold L0', L0. rewrite !chain_end_app. cbn [chain_end b_size].
    unfold rsz. f_equal. lia. }
  assert (Hg' : geo_ok (BPOOL_TOP pool) L0').
  { destruct Hg as [G1 G2 G3 G4]. constructor; auto; rewrite Hend'; auto. }
  assert (Hch : changed_in h h3 t (t + sz)).
  { unfold h3, h2, h1, r.
    apply (changed_in_trans _ (set_size (set_size h (t + al) rsz) t
                                 (word al false true))).
    - apply (changed_in_trans _ (set_size h (t + al) rsz)).
      + apply changed_in_set_size; lia.
      + apply changed_in_set_size; lia.
    - apply changed_in_set_size; lia. }
  assert (Hi3 : index_inv (with_heap pool h3) L0' F).
  { apply (index_inv_chain _ L0).
    - apply (index_inv_changed (BPOOL_TOP pool) L0 pool _ F t (t + sz));
        auto.
      intros i a sza Ha Hb.
      destruct (blk_sep _ _ _ _ _ _ _ _ Hg Hb
                  (proj2 (Hmid (mkblk t sz false)) (or_intror (or_introl eq_refl))))
        as [(E & _)|E].
      + exfalso. subst a. exact (Hni _ Ha).
      + lia.
    - intros i a sza Ha Hb. apply Hmid'.
      apply Hmid in Hb as [Hb|[Hb|Hb]]; auto.
      exfalso. inversion Hb; subst a. exact (Hni _ Ha). }
  assert (Hnr : forall i, ~ In r (F i)).
  { intros i Hin.
    destruct (li_member _ _ Hg _ _ _ _ (ii_lists _ _ _ Hi) Hin)
      as (_ & s & Hb & _ & _ & _ & _ & Hs & _).
    destruct (blk_sep _ _ _ _ _ _ _ _ Hg Hb
                (proj2 (Hmid (mkblk t sz false)) (or_intror (or_introl eq_refl))))
      as [(E & _)|E]; unfold r in *; lia. }
  destruct (add_free_block_spec (BPOOL_TOP pool) L0' Hg' (with_heap pool h3)
              F r rsz false true Hi3
              (proj2 (Hmid' (mkblk r rsz false))
                     (or_intror (or_intror (or_introl eq_refl))))
              Hnr Hw3r)
    as (Hi4 & Hw4r & Hfr4 & E1 & E2 & E3).
  fold pool2 in Hi4, Hw4r, Hfr4, E1, E2, E3. cbn [heap with_heap] in Hfr4.
  assert (Hpt : hdr_pos L0' t).
  { apply (hdr_pos_block (BPOOL_TOP pool) L0' (mkblk t al true));
      [exact Hgeo'|]. apply Hmid'. auto. }
  assert (Hw4t : get_size (heap pool2) t = word al false true).
  { rewrite Hfr4; [exact Hw3t|exact Hpt|unfold r; lia]. }
  exists (with_heap pool2 hF),
         (fl_set F (calc_index rsz) (r :: F (calc_index rsz))).
  assert (Hms : malloc_split pool t al = (t + 8, with_heap pool2 hF)).
  { unfold malloc_split, split_block. fold h.
    rewrite (BLOCK_SIZE_word _ _ _ _ _ Hwt Hszm Hsz0). fold rsz.
    rewrite (u32_id rsz) by exact Hrsz0.
    change ESTALLOC_MIN_MEMORY_BLOCK_SIZE with 32.
    destruct (Z.leb_spec rsz 32) as [Hx|_]; [unfold rsz in Hx; lia|].
    cbv beta zeta iota. fold r. fold h1.
    rewrite Hw1t, (word_resize sz false true Hszm al Halm ltac:(lia)).
    fold h2.
    destruct (Z.eqb_spec r NULL) as [Ez|_];
      [unfold r, NULL in Ez; unfold BPOOL_TOP in *; lia|].
    cbn [negb].
    rewrite (SET_PREV_USED_word _ _ _ _ _ Hw2r Hrszm). fold h3. fold pool2.
    cbn [heap with_heap].
    rewrite (SET_USED_word _ _ _ _ _ Hw4t Halm). fold hF.
    reflexivity. }
  split; [exact Hms|]. split; [|split; cbn [pool_adrs size with_heap];
                                  [rewrite E1|rewrite E2]; reflexivity].
  (* frames of the size words outside the split block *)
  assert (Hfr : forall q, hdr_pos L0' q -> q + 4 <= t \/ t + sz <= q ->
            get_size hF q = get_size h q).
  { intros q Hq Hout. unfold hF. rewrite get_set_size_other by lia.
    rewrite Hfr4; [|exact Hq|unfold r; lia].
    apply (get_size_changed h h3 t (t + sz)); [exact Hch|lia]. }
  assert (HposA : forall c, In c A -> hdr_pos L0' (b_addr c)).
  { intros c Hin. apply (hdr_pos_block (BPOOL_TOP pool)); [exact Hgeo'|].
    apply Hmid'. auto. }
  assert (HposR : forall c, In c (nx :: R) -> hdr_pos L0' (b_addr c)).
  { intros c Hin. rewrite <- ER in Hin. apply in_app_or in Hin as [Hin|Hin].
    - apply (hdr_pos_block (BPOOL_TOP pool)); [exact Hgeo'|].
      apply Hmid'. auto.
    - destruct Hin as [<-|[]].
      apply (hdr_pos_end (BPOOL_TOP pool)); [exact Hgeo'|].
      rewrite Hend', H6. lia. }
  constructor.
  - (* chain *)
    constructor; cbn [pool_adrs size heap with_heap]; unfold BPOOL_TOP,
      BPOOL_END in *; rewrite ?E1, ?E2; cbn [pool_adrs size heap with_heap];
      auto.
    + rewrite H6. symmetry. exact Hend'.
    + unfold L0'. rewrite <- app_assoc. cbn [app].
      apply words_app. split; [|rewrite Hpu; cbn [words b_addr b_size b_used];
                                 split; [|split]].
      * apply (words_frame h); [exact HwA|]. intros c Hin.
        apply Hfr; [apply HposA; exact Hin|]. specialize (HA _ Hin). lia.
      * unfold hF. apply get_set_word; assumption.
      * unfold hF, r. rewrite get_set_size_other by lia. exact Hw4r.
      * rewrite ER. cbn [words]. split.
        -- rewrite Hfr; [exact Hwn|apply HposR; left; reflexivity|lia].
        -- apply (words_frame h); [exact HwR|]. intros c Hin.
           apply Hfr; [apply HposR; right; exact Hin|].
           specialize (HR _ Hin). lia.
    + unfold L0'. unfold L0 in H12. apply no_adj_app.
      apply no_adj_app in H12 as [Ha Hb]. split; [exact Ha|].
      cbn [no_adj b_used] in *. destruct Hb as [_ Hb].
      split; [auto|]. split; [auto|exact Hb].
  - (* index *)
    split.
    + apply (lists_inv_hdr_store (BPOOL_TOP pool)); auto.
      apply Hi4.
    + apply (bitmap_inv_ext pool2); auto. apply Hi4.
  - (* complete *)
    intros b Hb Hu. apply Hmid' in Hb.
    destruct Hb as [Hb|[->|[->|Hb]]].
    + apply fl_set_cons_incl. apply Hcm; [apply Hmid; auto|exact Hu|].
      specialize (HA _ Hb). lia.
    + discriminate Hu.
    + cbn [b_addr b_size]. rewrite fl_set_same. left. reflexivity.
    + apply fl_set_cons_incl. apply Hcm; [apply Hmid; auto|exact Hu|].
      specialize (HB _ Hb). lia.
  - (* live *)
    intros p [<-|Hp].
    + exists al. replace (t + 8 - 8) with t by lia. apply Hmid'. auto.
    + destruct (Hlv _ Hp) as (s & Hs). exists s. apply Hmid'.
      apply Hmid in Hs as [Hs|[Hs|Hs]]; auto. discriminate Hs.
Qed.

Lemma malloc_split_spec pool A t sz B lst F live al :
  Inv_hole pool (A ++ mkblk t sz false :: B) lst F live t ->
  32 <= al <= sz -> al mod 8 = 0 ->
  exists pool' F',
    malloc_split pool t al = (t + 8, pool')
    /\ Inv pool' (malloc_chain A t sz al B) lst F' (t + 8 :: live)
    /\ pool_adrs pool' = pool_adrs pool /\ size pool' = size pool.
Proof.
  intros Hh Hal Hm. unfold malloc_chain.
  destruct (Z.leb_spec (sz - al) 32) as [Hle|Hgt].
  - destruct (malloc_split_nosplit pool A t sz B lst F live al Hh Hal Hle)
      as (pool' & H). exists pool', F. exact H.
  - apply (malloc_split_split pool A t sz B lst F live al); assumption.
Qed.

(** A listed block, seen in the chain. *)
Lemma member_block pool L0 lst F live idx t :
  Inv pool L0 lst F live -> In t (F idx) ->
  exists A sz B,
    L0 = A ++ mkblk t sz false :: B /\ calc_index sz = idx
    /\ BLOCK_SIZE (heap pool) t = sz /\ 32 <= sz < 2 ^ 32 /\ sz mod 8 = 0
    /\ 0 < t /\ 0 <= idx < 80.
Proof.
  intros [Hc Hi Hcm Hlv] Hin.
  pose proof (chain_inv_geo_ok _ _ _ Hc) as Hg.
  destruct (li_member _ _ Hg _ _ _ _ (ii_lists _ _ _ Hi) Hin)
    as (Hidx & sz & Hb & Hci & _ & Ht & _ & Hsz & Hszm).
  destruct (in_split _ _ Hb) as (A & B & E). exists A, sz, B.
  subst L0. destruct (chain_inv_split _ _ _ _ _ Hc) as (Hw & _).
  cbn [b_addr b_size b_used] in Hw.
  repeat split; auto; try lia.
  apply (BLOCK_SIZE_word _ _ _ _ _ Hw Hszm). lia.
Qed.

(** Taking the block [t], already off its list in [pool1], for a request
    of effective size [al]. *)
Lemma malloc_take pool pool1 L0 lst F live idx l1 t l2 al :
  Inv pool L0 lst F live -> F idx = l1 ++ t :: l2 ->
  index_inv pool1 L0 (fl_set F idx (l1 ++ l2)) ->
  (forall q, hdr_pos L0 q ->
     get_size (heap pool1) q = get_size (heap pool) q) ->
  pool_adrs pool1 = pool_adrs pool -> size pool1 = size pool ->
  32 <= al <= BLOCK_SIZE (heap pool) t -> al mod 8 = 0 ->
  exists A sz B pool' F',
    L0 = A ++ mkblk t sz false :: B /\ al <= sz
    /\ malloc_split pool1 t al = (t + 8, pool')
    /\ Inv pool' (malloc_chain A t sz al B) lst F' (t + 8 :: live)
    /\ pool_adrs pool' = pool_adrs pool /\ size pool' = size pool.
Proof.
  intros HI HF Hi1 Hfr E1 E2 Hal Halm.
  assert (Hin : In t (F idx))
    by (rewrite HF; apply in_or_app; right; left; reflexivity).
  destruct (member_block _ _ _ _ _ _ _ HI Hin)
    as (A & sz & B & EL & Hci & Hbs & Hsz & Hszm & Ht & Hidx).
  rewrite Hbs in Hal.
  pose proof (Inv_unlink _ _ _ _ _ _ _ _ _ _ HI HF Hi1 Hfr E1 E2) as Hh.
  rewrite EL in Hh.
  destruct (malloc_split_spec pool1 A t sz B lst _ live al Hh Hal Halm)
    as (pool' & F' & Hms & HI' & P1 & P2).
  exists A, sz, B, pool', F'.
  split; [exact EL|]. split; [lia|]. split; [exact Hms|].
  split; [exact HI'|]. split; congruence.
Qed.

(** ** The class arithmetic of [est_malloc] *)

Lemma FLI_SLI_div (c : Z) : 0 <= c -> FLI c = c / 8 /\ SLI c = c mod 8.
Proof.
  intros Hc. unfold FLI, SLI. change ESTALLOC_SLI_BIT_WIDTH with 3.
  change (Z.shiftl 1 3 - 1) with (Z.ones 3).
  rewrite Z.land_ones, Z.shiftr_div_pow2 by lia. auto.
Qed.

Lemma FLI_SLI_of (f s : Z) :
  0 <= f -> 0 <= s <= 7 ->
  Z.shiftl f ESTALLOC_SLI_BIT_WIDTH + s = 8 * f + s
  /\ FLI (8 * f + s) = f /\ SLI (8 * f + s) = s.
Proof.
  intros Hf Hs. destruct (FLI_SLI_div (8 * f + s) ltac:(lia)) as [E1 E2].
  rewrite E1, E2. change ESTALLOC_SLI_BIT_WIDTH with 3.
  rewrite Z.shiftl_mul_pow2 by lia. change (2 ^ 3) with 8.
  repeat split; try lia.
  - symmetry. apply Z.div_unique_pos with (r := s); lia.
  - symmetry. apply Z.mod_unique_pos with (q := f); lia.
Qed.

Lemma FLI_SLI_upto (c : Z) :
  0 <= c <= 80 -> 0 <= FLI c <= 10 /\ 0 <= SLI c <= 7 /\ c = 8 * FLI c + SLI c.
Proof.
  intros Hc. destruct (FLI_SLI_div c ltac:(lia)) as [-> ->].
  pose proof (Z.div_mod c 8 ltac:(lia)).
  pose proof (Z.mod_pos_bound c 8 ltac:(lia)).
  assert (0 <= c / 8) by (apply Z.div_pos; lia).
  assert (c / 8 < 11) by (apply Z.div_lt_upper_bound; lia).
  lia.
Qed.

Lemma testbit_land_ones (x k j : Z) :
  0 <= k -> 0 <= j ->
  Z.testbit (Z.land x (Z.ones k)) j = Z.testbit x j && (j <? k).
Proof.
  intros Hk Hj. rewrite Z.land_spec. f_equal.
  destruct (Z.ltb_spec j k).
  - apply Z.ones_spec_low. lia.
  - apply Z.ones_spec_high. lia.
Qed.

(** The probe of the second-level bitmap. *)
Lemma sli_probe pool F fli sli :
  bitmap_inv pool F -> 0 <= fli <= 10 -> 0 <= sli <= 7 ->
  let masked :=
    u16 (Z.land (arr_get (free_sli_bitmap pool) fli)
                (Z.shiftr MSB_BIT1_SLI sli - 1)) in
  masked <> 0 ->
  fli <= 9 /\ sli < nlz8 (u8 masked) <= 7
  /\ F (8 * fli + nlz8 (u8 masked)) <> [].
Proof.
  intros Hb Hf Hs masked Hne.
  set (x := arr_get (free_sli_bitmap pool) fli) in *.
  pose proof (bi_sli_range _ _ Hb fli) as Hx. fold x in Hx.
  assert (Em : masked = Z.land x (Z.ones (7 - sli))).
  { unfold masked. rewrite shiftr_sli_bit by lia.
    rewrite Z.ones_equiv, <- Z.sub_1_r.
    apply u16_id. rewrite Z.sub_1_r, <- Z.ones_equiv, Z.land_ones by lia.
    pose proof (Z.mod_pos_bound x (2 ^ (7 - sli))
                  ltac:(apply Z.pow_pos_nonneg; lia)).
    assert (2 ^ (7 - sli) <= 2 ^ 7) by (apply Z.pow_le_mono_r; lia).
    change (2 ^ 7) with 128 in *. lia. }
  assert (Hmr : 0 < masked < 256).
  { rewrite Em in *. rewrite Z.land_ones in * by lia.
    pose proof (Z.mod_pos_bound x (2 ^ (7 - sli))
                  ltac:(apply Z.pow_pos_nonneg; lia)).
    assert (2 ^ (7 - sli) <= 2 ^ 7) by (apply Z.pow_le_mono_r; lia).
    change (2 ^ 7) with 128 in *. lia. }
  rewrite (u8_id masked) by lia.
  destruct (nlz8_spec masked Hmr) as (Hn & Hbit & _).
  rewrite Em in Hbit at 1. rewrite testbit_land_ones in Hbit by lia.
  apply andb_true_iff in Hbit as [Hbx Hlt]. apply Z.ltb_lt in Hlt.
  assert (Hf9 : fli <= 9).
  { destruct (Z.eq_dec fli 10) as [->|]; [|lia]. exfalso.
    unfold x in Hbx. rewrite (bi_sli_sentinel _ _ Hb), Z.bits_0 in Hbx.
    discriminate. }
  split; [exact Hf9|]. split; [lia|].
  unfold x in Hbx. rewrite (bi_sli _ _ Hb) in Hbx by lia.
  destruct (F (8 * fli + nlz8 masked)); [discriminate|discriminate].
Qed.

(** The probe of the first-level bitmap. *)
Lemma fli_probe pool F fli :
  bitmap_inv pool F -> 0 <= fli <= 10 ->
  let masked :=
    u16 (Z.land (free_fli_bitmap pool) (Z.shiftr MSB_BIT1_FLI fli - 1)) in
  masked <> 0 ->
  let f := nlz16 masked in
  let s := nlz8 (arr_get (free_sli_bitmap pool) f) in
  fli < f <= 9 /\ 0 <= s <= 7 /\ F (8 * f + s) <> [].
Proof.
  intros Hb Hf masked Hne f s.
  set (x := free_fli_bitmap pool) in *.
  pose proof (bi_fli_range _ _ Hb) as Hx. fold x in Hx.
  assert (Em : masked = Z.land x (Z.ones (15 - fli))).
  { unfold masked. rewrite shiftr_fli_bit by lia.
    rewrite Z.ones_equiv, <- Z.sub_1_r.
    apply u16_id. rewrite Z.sub_1_r, <- Z.ones_equiv, Z.land_ones by lia.
    pose proof (Z.mod_pos_bound x (2 ^ (15 - fli))
                  ltac:(apply Z.pow_pos_nonneg; lia)).
    assert (2 ^ (15 - fli) <= 2 ^ 15) by (apply Z.pow_le_mono_r; lia).
    change (2 ^ 15) with 32768 in *. lia. }
  assert (Hmr : 0 < masked < 65536).
  { rewrite Em in *. rewrite Z.land_ones in * by lia.
    pose proof (Z.mod_pos_bound x (2 ^ (15 - fli))
                  ltac:(apply Z.pow_pos_nonneg; lia)).
    assert (2 ^ (15 - fli) <= 2 ^ 15) by (apply Z.pow_le_mono_r; lia).
    change (2 ^ 15) with 32768 in *. lia. }
  destruct (nlz16_spec masked Hmr) as (Hn & Hbit & _). fold f in Hn, Hbit.
  rewrite Em in Hbit at 1. rewrite testbit_land_ones in Hbit by lia.
  apply andb_true_iff in Hbit as [Hbx Hlt]. apply Z.ltb_lt in Hlt.
  assert (Hf9 : f <= 9).
  { destruct (Z_le_gt_dec f 9) as [|Hgt]; [assumption|exfalso].
    unfold x in Hbx. rewrite (bi_fli_low _ _ Hb) in Hbx by lia.
    discriminate. }
  unfold x in Hbx. rewrite (bi_fli _ _ Hb) in Hbx by lia.
  apply negb_true_iff in Hbx. apply Z.eqb_neq in Hbx.
  pose proof (bi_sli_range _ _ Hb f) as Hy.
  destruct (nlz8_spec (arr_get (free_sli_bitmap pool) f) ltac:(lia))
    as (Hs & Hsb & _). fold s in Hs, Hsb.
  rewrite (bi_sli _ _ Hb) in Hsb by lia.
  split; [lia|]. split; [lia|].
  destruct (F (8 * f + s)); [discriminate|discriminate].
Qed.

(** ** [est_malloc] keeps the invariant *)

(** What a successful allocation of effective size [al] leaves: a free
    block [t] of [L0] became the block handed out. *)
Definition malloc_post (pool : MEMORY_POOL) (L0 : list blk) (lst : blk)
    (live : list Z) (al : Z) (r : Z * MEMORY_POOL) : Prop :=
  exists A t sz B F',
    L0 = A ++ mkblk t sz false :: B /\ al <= sz
    /\ fst r = t + 8
    /\ Inv (snd r) (malloc_chain A t sz al B) lst F' (t + 8 :: live)
    /\ pool_adrs (snd r) = pool_adrs pool /\ size (snd r) = size pool.

Lemma list_head pool L0 F idx :
  lists_inv pool L0 F -> 0 <= idx < 80 ->
  arr_get (free_blocks pool) idx = hd NULL (F idx).
Proof.
  intros Hl Hidx. apply (dll_head (heap pool) NULL). apply (li_dll _ _ _ Hl).
  exact Hidx.
Qed.

Lemma found_target_spec pool L0 lst F live idx t l2 al :
  Inv pool L0 lst F live -> F idx = t :: l2 ->
  32 <= al <= BLOCK_SIZE (heap pool) t -> al mod 8 = 0 ->
  malloc_post pool L0 lst live al
    (malloc_found_target pool t al idx (FLI idx) (SLI idx)).
Proof.
  intros HI HF Hal Halm. unfold malloc_found_target.
  pose proof (chain_inv_geo_ok _ _ _ (inv_chain _ _ _ _ _ HI)) as Hg.
  destruct (malloc_unlink_spec _ _ Hg pool F idx t l2
              (inv_index _ _ _ _ _ HI) HF) as (Hi1 & Hfr & E1 & E2 & _).
  set (pool1 := malloc_unlink pool t idx (FLI idx) (SLI idx)) in *.
  destruct (malloc_take pool pool1 L0 lst F live idx [] t l2 al
              HI HF Hi1 Hfr E1 E2 Hal Halm)
    as (A & sz & B & pool' & F' & EL & Hsz & Hms & HI' & P1 & P2).
  exists A, t, sz, B, F'. rewrite Hms. cbn [fst snd].
  split; [exact EL|]. split; [exact Hsz|]. split; [reflexivity|].
  split; [exact HI'|]. split; assumption.
Qed.

Lemma found_fli_sli_spec pool L0 lst F live f s al :
  Inv pool L0 lst F live -> 0 <= f <= 9 -> 0 <= s <= 7 ->
  F (8 * f + s) <> [] -> calc_index al < 8 * f + s ->
  32 <= al -> al mod 8 = 0 ->
  malloc_post pool L0 lst live al (malloc_found_fli_sli pool al f s).
Proof.
  intros HI Hf Hs Hne Hlt Hal Halm. unfold malloc_found_fli_sli.
  destruct (FLI_SLI_of f s ltac:(lia) Hs) as (E & EF & ES).
  rewrite E. set (idx := 8 * f + s) in *.
  assert (Hidx : 0 <= idx < 80) by (unfold idx; lia).
  pose proof (ii_lists _ _ _ (inv_index _ _ _ _ _ HI)) as Hl.
  rewrite (list_head _ _ _ _ Hl Hidx).
  destruct (F idx) as [|t l2] eqn:HF; [congruence|]. cbn [hd].
  assert (Hin : In t (F idx)) by (rewrite HF; left; reflexivity).
  assert (Htn : t <> NULL).
  { apply (dll_nonnull _ _ _ _ _ (li_dll _ _ _ Hl idx Hidx)). exact Hin. }
  destruct (Z.eqb_spec t NULL) as [|_]; [contradiction|].
  destruct (member_block _ _ _ _ _ _ _ HI Hin)
    as (A & sz & B & EL & Hci & Hbs & Hsz & _).
  replace (malloc_found_target pool t al idx f s)
    with (malloc_found_target pool t al idx (FLI idx) (SLI idx))
    by (rewrite EF, ES; reflexivity).
  apply (found_target_spec pool L0 lst F live idx t l2 al HI HF); auto.
  rewrite Hbs. rewrite <- Hci in Hlt.
  pose proof (calc_index_lt_size al sz ltac:(lia) ltac:(lia) Hlt). lia.
Qed.

(** The first-fit walk over the rest [l2] of a list: it ends within
    [length l2 + 1] turns. *)
Lemma first_fit_spec pool L0 lst F live idx al :
  Inv pool L0 lst F live -> 32 <= al -> al mod 8 = 0 ->
  forall l2 l1 fuel,
  F idx = l1 ++ l2 -> (length l2 < fuel)%nat ->
  malloc_first_fit fuel pool (hd NULL l2) al = Some (NULL, pool)
  \/ exists r, malloc_first_fit fuel pool (hd NULL l2) al = Some r
               /\ malloc_post pool L0 lst live al r.
Proof.
  intros HI Hal Halm.
  pose proof (chain_inv_geo_ok _ _ _ (inv_chain _ _ _ _ _ HI)) as Hg.
  pose proof (ii_lists _ _ _ (inv_index _ _ _ _ _ HI)) as Hl.
  induction l2 as [|t l2 IH]; intros l1 fuel HF Hfuel.
  - destruct fuel as [|k]; [cbn in Hfuel; lia|]. left. reflexivity.
  - destruct fuel as [|k]; [cbn in Hfuel; lia|].
    cbn [length] in Hfuel. cbn [hd malloc_first_fit].
    assert (Hin : In t (F idx))
      by (rewrite HF; apply in_or_app; right; left; reflexivity).
    destruct (member_block _ _ _ _ _ _ _ HI Hin)
      as (A & sz & B & EL & Hci & Hbs & Hsz & Hszm & Ht & Hidx).
    pose proof (li_dll _ _ _ Hl idx Hidx) as Hd.
    assert (Htn : t <> NULL) by (apply (dll_nonnull _ _ _ _ _ Hd); exact Hin).
    destruct (Z.eqb_spec t NULL) as [|_]; [contradiction|].
    destruct (Z.geb_spec (BLOCK_SIZE (heap pool) t) al) as [Hge|Hlt].
    + right. eexists. split; [reflexivity|].
      assert (Hbt : In (mkblk t sz false) L0)
        by (rewrite EL; apply in_or_app; right; left; reflexivity).
      rewrite <- Hci in Hin.
      destruct (remove_free_block_spec _ _ Hg pool F t sz
                  (inv_index _ _ _ _ _ HI) Hbt Hin Hbs)
        as (k1 & k2 & HF' & Hi1 & Hfr & E1 & E2 & _).
      destruct (malloc_take pool (remove_free_block pool t) L0 lst F live
                  (calc_index sz) k1 t k2 al HI HF' Hi1 Hfr E1 E2
                  ltac:(lia) Halm)
        as (A' & sz' & B' & pool' & F' & EL' & Hsz' & Hms & HI' & P1 & P2).
      exists A', t, sz', B', F'. rewrite Hms. cbn [fst snd].
      split; [exact EL'|]. split; [exact Hsz'|]. split; [reflexivity|].
      split; [exact HI'|]. split; assumption.
    + rewrite HF in Hd. destruct (dll_links _ _ _ _ _ _ Hd) as [_ ->].
      apply (IH (l1 ++ [t]) k).
      * rewrite <- app_assoc. exact HF.
      * lia.
Qed.

Lemma list_length_le pool L0 lst F live idx :
  Inv pool L0 lst F live -> (length (F idx) <= length L0)%nat.
Proof.
  intros HI. rewrite <- (length_map b_addr L0).
  apply NoDup_incl_length.
  - apply (li_nodup _ _ _ (ii_lists _ _ _ (inv_index _ _ _ _ _ HI))).
  - intros t Hin.
    destruct (member_block _ _ _ _ _ _ _ HI Hin) as (A & sz & B & EL & _).
    rewrite EL, map_app. apply in_or_app. right. left. reflexivity.
Qed.

(** [est_malloc] on a consistent pool: with fuel beyond the number of
    blocks it returns, either NULL with the pool as it was, or the payload
    of a block that was free and is large enough, in a consistent pool. *)
Theorem est_malloc_spec pool L0 lst F live n fuel :
  Inv pool L0 lst F live -> (length L0 < fuel)%nat ->
  est_malloc fuel pool n = Some (NULL, pool)
  \/ exists r, est_malloc fuel pool n = Some r
               /\ malloc_post pool L0 lst live (alloc_size_of n) r.
Proof.
  intros HI Hfuel. unfold est_malloc.
  destruct (alloc_size_of_facts n) as (Hal & Halm).
  set (al := alloc_size_of n) in *.
  pose proof (calc_index_range al ltac:(lia)) as Hix.
  change SIZE_FREE_BLOCKS with 80 in Hix.
  set (idx := calc_index al) in *.
  pose proof (ii_lists _ _ _ (inv_index _ _ _ _ _ HI)) as Hl.
  pose proof (ii_bitmap _ _ _ (inv_index _ _ _ _ _ HI)) as Hb.
  cbv zeta.
  (* the list of the request's own class *)
  destruct (negb (arr_get (free_blocks pool) idx =? NULL)
            && (BLOCK_SIZE (heap pool) (arr_get (free_blocks pool) idx)
                >=? al)) eqn:E1.
  { right. eexists. split; [reflexivity|].
    apply andb_true_iff in E1 as [E1 E2].
    apply negb_true_iff in E1. apply Z.eqb_neq in E1.
    destruct (Z.geb_spec (BLOCK_SIZE (heap pool)
                (arr_get (free_blocks pool) idx)) al) as [Hge|]; [|discriminate].
    rewrite (list_head _ _ _ _ Hl Hix) in *.
    destruct (F idx) as [|t l2] eqn:HF; [cbn in E1; congruence|].
    cbn [hd] in *.
    apply (found_target_spec pool L0 lst F live idx t l2 al HI HF); auto.
    lia. }
  clear E1.
  destruct (FLI_SLI_upto (idx + 1) ltac:(lia)) as (Hf & Hs & Eidx).
  (* the list of the next class *)
  destruct (Z.eqb_spec (arr_get (free_blocks pool) (idx + 1)) NULL)
    as [Enull|Enn]; cbn [negb].
  2:{ right. eexists. split; [reflexivity|].
      assert (Hix1 : 0 <= idx + 1 < 80).
      { destruct (Z.eq_dec (idx + 1) 80) as [E80|]; [|lia].
        rewrite E80, (li_fb_sentinel _ _ _ Hl) in Enn. congruence. }
      rewrite (list_head _ _ _ _ Hl Hix1) in *.
      destruct (F (idx + 1)) as [|t l2] eqn:HF; [cbn in Enn; congruence|].
      cbn [hd] in *.
      assert (Hin : In t (F (idx + 1))) by (rewrite HF; left; reflexivity).
      destruct (member_block _ _ _ _ _ _ _ HI Hin)
        as (A & sz & B & EL & Hci & Hbs & Hsz & _).
      apply (found_target_spec pool L0 lst F live (idx + 1) t l2 al HI HF);
        auto.
      rewrite Hbs.
      pose proof (calc_index_lt_size al sz ltac:(lia) ltac:(lia)
                    ltac:(fold idx; lia)). lia. }
  (* the second-level bitmap, beyond the next class *)
  match goal with |- context [negb (?x =? 0)] =>
    destruct (Z.eqb_spec x 0) as [Em1|Em1] end; cbn [negb].
  2:{ right. eexists. split; [reflexivity|].
      destruct (sli_probe pool F _ _ Hb Hf Hs Em1) as (Hf9 & Hs' & Hne).
      apply (found_fli_sli_spec pool L0 lst F live); auto; try lia. }
  (* the first-level bitmap *)
  match goal with |- context [negb (?x =? 0)] =>
    destruct (Z.eqb_spec x 0) as [Em2|Em2] end; cbn [negb].
  2:{ right. eexists. split; [reflexivity|].
      destruct (fli_probe pool F _ Hb Hf Em2) as (Hf9 & Hs' & Hne).
      apply (found_fli_sli_spec pool L0 lst F live); auto; try lia. }
  (* first fit in the request's own class *)
  replace (idx + 1 - 1) with idx by lia.
  rewrite (list_head _ _ _ _ Hl Hix).
  apply (first_fit_spec pool L0 lst F live idx al HI ltac:(lia) Halm
           (F idx) [] fuel eq_refl).
  pose proof (list_length_le _ _ _ _ _ idx HI). lia.
Qed.

(** ** The geometry of the chain, apart from the memory *)

(** What [chain_inv] says of the addresses and sizes only; it holds
    throughout an operation, also where the size words are in flux. *)
Record chain_geo (pool : MEMORY_POOL) (L0 : list blk) (lst : blk)
  : Prop := mk_chain_geo {
  cg_base : 0 < pool_adrs pool;
  cg_align : pool_adrs pool mod 8 = 0;
  cg_end : BPOOL_END pool <= 2 ^ 64;
  cg_size : 0 <= size pool < 2 ^ 32;
  cg_geo : geo (BPOOL_TOP pool) L0;
  cg_lst_addr : b_addr lst = chain_end (BPOOL_TOP pool) L0;
  cg_lst_mod : b_size lst mod 8 = 0;
  cg_lst_min : 8 <= b_size lst;
  cg_lst_end : b_addr lst + b_size lst = BPOOL_END pool;
  cg_lst_used : b_used lst = true
}.

Lemma chain_inv_geo_part pool L0 lst :
  chain_inv pool L0 lst -> chain_geo pool L0 lst.
Proof. intros [H1 H2 H3 H4 H5 H6 H7 H8 H9 H10 H11 H12]. constructor; auto. Qed.

Lemma chain_geo_inv pool L0 lst :
  chain_geo pool L0 lst -> words (heap pool) true (L0 ++ [lst]) ->
  no_adj true L0 -> chain_inv pool L0 lst.
Proof. intros [H1 H2 H3 H4 H5 H6 H7 H8 H9 H10] Hw Hn. constructor; auto. Qed.

Lemma chain_geo_pool pool pool' L0 lst :
  chain_geo pool L0 lst ->
  pool_adrs pool' = pool_adrs pool -> size pool' = size pool ->
  chain_geo pool' L0 lst.
Proof.
  intros [H1 H2 H3 H4 H5 H6 H7 H8 H9 H10] E1 E2.
  unfold BPOOL_TOP, BPOOL_END in *.
  constructor; unfold BPOOL_TOP, BPOOL_END; rewrite ?E1, ?E2; auto.
Qed.

(** The geometry does not see the USED flags. *)
Lemma chain_geo_flag pool A t S u u' B lst :
  chain_geo pool (A ++ mkblk t S u :: B) lst ->
  chain_geo pool (A ++ mkblk t S u' :: B) lst.
Proof.
  intros [H1 H2 H3 H4 H5 H6 H7 H8 H9 H10]. constructor; auto.
  - apply geo_app. apply geo_app in H5 as [Ha Hb]. split; [exact Ha|].
    exact Hb.
  - rewrite H6, !chain_end_app. reflexivity.
Qed.

(** Two neighbours taken as one block. *)
Lemma chain_geo_merge pool A t S u n S' u' u'' B lst :
  chain_geo pool (A ++ mkblk t S u :: mkblk n S' u' :: B) lst ->
  chain_geo pool (A ++ mkblk t (S + S') u'' :: B) lst.
Proof.
  intros [H1 H2 H3 H4 H5 H6 H7 H8 H9 H10]. constructor; auto.
  - apply geo_app. apply geo_app in H5 as [Ha Hb]. split; [exact Ha|].
    cbn [geo b_addr b_size] in *.
    destruct Hb as (E1 & E2 & E3 & E4 & E5 & E6 & Hb).
    rewrite Z.add_assoc. repeat split; auto; try lia.
    rewrite Zplus_mod, E2, E5. reflexivity.
  - rewrite H6, !chain_end_app. cbn [chain_end b_size].
    rewrite Z.add_assoc. reflexivity.
Qed.

(** A block taken as two neighbours. *)
Lemma chain_geo_split pool A t S u S1 u1 u2 B lst :
  chain_geo pool (A ++ mkblk t S u :: B) lst ->
  32 <= S1 -> S1 mod 8 = 0 -> 32 <= S - S1 ->
  chain_geo pool (A ++ mkblk t S1 u1 :: mkblk (t + S1) (S - S1) u2 :: B) lst.
Proof.
  intros [H1 H2 H3 H4 H5 H6 H7 H8 H9 H10] G1 G2 G3. constructor; auto.
  - apply geo_app. apply geo_app in H5 as [Ha Hb]. split; [exact Ha|].
    cbn [geo b_addr b_size] in *. destruct Hb as (E1 & E2 & E3 & Hb).
    replace (chain_end (BPOOL_TOP pool) A + S1 + (S - S1))
      with (chain_end (BPOOL_TOP pool) A + S) by lia.
    repeat split; auto; try lia.
    rewrite Zminus_mod, E2, G2. reflexivity.
  - rewrite H6, !chain_end_app. cbn [chain_end b_size]. f_equal. lia.
Qed.

Lemma chain_geo_lay pool L0 lst :
  chain_geo pool L0 lst ->
  lay (BPOOL_TOP pool) (L0 ++ [lst])
  /\ chain_end (BPOOL_TOP pool) (L0 ++ [lst]) = BPOOL_END pool.
Proof.
  intros [H1 H2 H3 H4 H5 H6 H7 H8 H9 H10]. split.
  - apply lay_app. split; [apply geo_lay; exact H5|].
    cbn. rewrite <- H6. repeat split; auto.
  - rewrite chain_end_app. cbn. rewrite <- H6. exact H9.
Qed.

Section GeoFacts.
Variables (pool : MEMORY_POOL) (L0 : list blk) (lst : blk).
Hypothesis Hc : chain_geo pool L0 lst.

Lemma chain_geo_ok : geo_ok (BPOOL_TOP pool) L0.
Proof.
  pose proof Hc as [H1 H2 H3 H4 H5 H6 H7 H8 H9 H10].
  pose proof (chain_end_ge _ _ H5).
  unfold BPOOL_TOP, BPOOL_END, sizeof_MEMORY_POOL in *.
  constructor; auto; lia.
Qed.

Lemma chain_geo_blk b :
  In b L0 ->
  pool_adrs pool + 704 <= b_addr b
  /\ b_addr b + b_size b <= b_addr lst
  /\ b_addr lst + 8 <= pool_adrs pool + size pool
  /\ 32 <= b_size b < 2 ^ 32 /\ b_size b mod 8 = 0
  /\ 0 < b_addr b /\ b_addr b + b_size b + 8 <= 2 ^ 64.
Proof.
  intros Hin. pose proof (geo_ok_blk _ _ _ chain_geo_ok Hin).
  pose proof Hc as [H1 H2 H3 H4 H5 H6 H7 H8 H9 H10].
  unfold BPOOL_TOP, BPOOL_END, sizeof_MEMORY_POOL in *. lia.
Qed.

Lemma chain_geo_lst :
  pool_adrs pool + 704 <= b_addr lst
  /\ b_addr lst + b_size lst = pool_adrs pool + size pool
  /\ 8 <= b_size lst < 2 ^ 32 /\ b_size lst mod 8 = 0
  /\ 0 < b_addr lst /\ b_addr lst + b_size lst <= 2 ^ 64.
Proof.
  pose proof Hc as [H1 H2 H3 H4 H5 H6 H7 H8 H9 H10].
  pose proof (chain_end_ge _ _ H5).
  unfold BPOOL_TOP, BPOOL_END, sizeof_MEMORY_POOL in *. lia.
Qed.

Lemma chain_geo_hdr c : In c (L0 ++ [lst]) -> hdr_pos L0 (b_addr c).
Proof.
  intros Hin. apply in_app_or in Hin as [Hin|[<-|[]]].
  - apply (hdr_pos_block (BPOOL_TOP pool)); [apply Hc|exact Hin].
  - apply (hdr_pos_end (BPOOL_TOP pool)); [apply Hc|].
    rewrite (cg_lst_addr _ _ _ Hc). lia.
Qed.
End GeoFacts.

Lemma chain_geo_around pool A b B lst :
  chain_geo pool (A ++ b :: B) lst ->
  exists nx R,
    B ++ [lst] = nx :: R
    /\ b_addr nx = b_addr b + b_size b
    /\ 8 <= b_size nx < 2 ^ 32 /\ b_size nx mod 8 = 0
    /\ b_addr nx + b_size nx <= BPOOL_END pool
    /\ (forall c, In c R ->
          b_addr nx + b_size nx <= b_addr c /\ 8 <= b_size c
          /\ b_addr c + b_size c <= BPOOL_END pool)
    /\ (forall c, In c A ->
          BPOOL_TOP pool <= b_addr c /\ b_addr c + b_size c <= b_addr b
          /\ 32 <= b_size c)
    /\ BPOOL_TOP pool <= b_addr b /\ 32 <= b_size b < 2 ^ 32
    /\ b_size b mod 8 = 0
    /\ 0 < BPOOL_TOP pool /\ BPOOL_END pool <= 2 ^ 64
    /\ BPOOL_END pool - BPOOL_TOP pool < 2 ^ 32.
Proof.
  intros Hc. destruct (chain_geo_lay _ _ _ Hc) as [Hl He].
  pose proof (chain_geo_blk _ _ _ Hc b
                ltac:(apply in_or_app; right; left; reflexivity)) as Hb.
  pose proof (chain_geo_lst _ _ _ Hc) as Hlst.
  pose proof (cg_geo _ _ _ Hc) as Hg. apply geo_split in Hg
    as (HgA & Hab & _ & _ & HgB & HA & _).
  rewrite <- app_assoc in Hl, He. cbn [app] in Hl, He.
  apply lay_app in Hl as [_ Hl]. rewrite chain_end_app in He.
  rewrite <- Hab in Hl, He. cbn [lay chain_end] in Hl, He.
  destruct Hl as (_ & _ & _ & Hl).
  destruct (B ++ [lst]) as [|nx R] eqn:E.
  { destruct B; discriminate E. }
  exists nx, R. cbn [lay chain_end] in Hl, He.
  destruct Hl as (Hn1 & Hn2 & Hn3 & Hl).
  pose proof (lay_end_ge _ _ Hl) as Hge. rewrite Hn1 in *.
  pose proof (cg_base _ _ _ Hc). pose proof (cg_end _ _ _ Hc).
  pose proof (cg_size _ _ _ Hc).
  unfold BPOOL_TOP, BPOOL_END, sizeof_MEMORY_POOL in *.
  repeat split; auto; try lia.
  - pose proof (lay_bounds _ _ _ Hl H2). lia.
  - pose proof (lay_bounds _ _ _ Hl H2). lia.
  - pose proof (lay_bounds _ _ _ Hl H2). lia.
  - pose proof (HA _ H2). lia.
  - pose proof (HA _ H2). lia.
  - pose proof (HA _ H2). lia.
Qed.

(** ** Coalescing *)

(** The statements [if (IS_FREE_BLOCK(next)) { remove_free_block(pool, next);
    merge_block(target, next); } else { SET_PREV_FREE(next); }], which
    [est_free] and [est_realloc] both have. *)
Definition merge_next (pool : MEMORY_POOL) (target next : Z) : MEMORY_POOL :=
  if IS_FREE_BLOCK (heap pool) next then
    let pool := remove_free_block pool next in
    with_heap pool (merge_block (heap pool) target next)
  else with_heap pool (SET_PREV_FREE (heap pool) next).

(** The statements [if (IS_PREV_FREE(target)) { ... target = prev; }] of
    [est_free]: the pool and the block to put on a list. *)
Definition merge_prev (pool : MEMORY_POOL) (target : Z) : MEMORY_POOL * Z :=
  if IS_PREV_FREE (heap pool) target then
    let prev := load_ptr (heap pool) (target - sizeof_ptr) in
    let pool := remove_free_block pool prev in
    (with_heap pool (merge_block (heap pool) prev target), prev)
  else (pool, target).

Lemma est_free_phases pool ptr :
  est_free pool ptr =
  if ptr =? NULL then pool
  else
    let target := BLOCK_ADRS ptr in
    let pool := merge_next pool target (PHYS_NEXT (heap pool) target) in
    add_free_block (fst (merge_prev pool target))
                   (snd (merge_prev pool target)).
Proof.
  unfold est_free, merge_next, merge_prev.
  destruct (ptr =? NULL); [reflexivity|]. cbv zeta.
  destruct (IS_FREE_BLOCK (heap pool) _);
    match goal with |- context [IS_PREV_FREE ?m ?t] =>
      destruct (IS_PREV_FREE m t) end; reflexivity.
Qed.

(** A block of [S] bytes followed by the blocks [B], after the
    coalescing with the next block: its size and the blocks after it. *)
Definition next_merged (S : Z) (B : list blk) : Z * list blk :=
  match B with
  | nx :: B' => if b_used nx then (S, B) else (S + b_size nx, B')
  | [] => (S, [])
  end.

(** The state in the middle of a release: the block at [t], of [S] bytes,
    is being resized ([g] true) or released ([g] false) and not on a list.
    Its size word has the USED bit [u]; the block after it has the
    PREV_USED bit [pn]. *)
Record Pending (pool : MEMORY_POOL) (A : list blk) (t S : Z) (u g : bool)
    (B : list blk) (pn : bool) (lst : blk) (F : flists) (live : list Z)
  : Prop := mk_Pending {
  pd_geo : chain_geo pool (A ++ mkblk t S true :: B) lst;
  pd_wA : words (heap pool) true A;
  pd_wt : get_size (heap pool) t = word S u (last_used true A);
  pd_wB : words (heap pool) pn (B ++ [lst]);
  pd_nA : no_adj true A;
  pd_nB : no_adj pn B;
  pd_index : index_inv pool (A ++ mkblk t S true :: B) F;
  pd_complete : complete (A ++ mkblk t S true :: B) F;
  pd_live : live_ok (A ++ mkblk t S g :: B) live
}.

Lemma next_split B lst nx R :
  B ++ [lst] = nx :: R -> b_used lst = true ->
  (b_used nx = true /\ forall S, next_merged S B = (S, B))
  \/ (b_used nx = false
      /\ exists B', B = nx :: B' /\ R = B' ++ [lst]
                    /\ forall S, next_merged S B = (S + b_size nx, B')).
Proof.
  intros E Hl. destruct B as [|b B'].
  - cbn in E. inversion E; subst. left. split; auto.
  - cbn in E. inversion E; subst. destruct (b_used nx) eqn:Hu.
    + left. split; auto. intros S. cbn. rewrite Hu. reflexivity.
    + right. split; auto. exists B'. split; [reflexivity|].
      split; [reflexivity|]. intros S. cbn. rewrite Hu. reflexivity.
Qed.

Lemma word_add (sz : Z) u pu (n : Z) : word sz u pu + n = word (sz + n) u pu.
Proof. unfold word. lia. Qed.

Lemma Inv_pending pool A t S B lst F live :
  Inv pool (A ++ mkblk t S true :: B) lst F live ->
  Pending pool A t S true false B true lst F (remove Z.eq_dec (t + 8) live).
Proof.
  intros [Hc Hi Hcm Hlv].
  destruct (chain_inv_split _ _ _ _ _ Hc)
    as (Hwt & HwA & HwB & _ & _ & _ & _ & _ & HnA & _ & HnB).
  cbn [b_addr b_size b_used] in *.
  constructor; auto.
  - apply chain_inv_geo_part. exact Hc.
  - intros q Hq. apply in_remove in Hq as [Hq Hne].
    destruct (Hlv _ Hq) as (s & Hs). exists s.
    apply in_middle. apply in_middle in Hs as [Hs|[Hs|Hs]]; auto.
    inversion Hs. lia.
Qed.

Lemma Inv_resizing pool A t S B lst F live :
  Inv pool (A ++ mkblk t S true :: B) lst F live ->
  Pending pool A t S true true B true lst F live.
Proof.
  intros [Hc Hi Hcm Hlv].
  destruct (chain_inv_split _ _ _ _ _ Hc)
    as (Hwt & HwA & HwB & _ & _ & _ & _ & _ & HnA & _ & HnB).
  cbn [b_addr b_size b_used] in *.
  constructor; auto.
  apply chain_inv_geo_part. exact Hc.
Qed.

(** The coalescing with the next block. *)
Lemma merge_next_spec pool A t S u g B pn lst F live :
  Pending pool A t S u g B pn lst F live ->
  exists F',
    Pending (merge_next pool t (t + S)) A t (fst (next_merged S B)) u g
            (snd (next_merged S B)) false lst F' live
    /\ pool_adrs (merge_next pool t (t + S)) = pool_adrs pool
    /\ size (merge_next pool t (t + S)) = size pool
    /\ est (merge_next pool t (t + S)) = est pool.
Proof.
  intros [Hg HwA Hwt HwB HnA HnB Hi Hcm Hlv].
  set (Lu := A ++ mkblk t S true :: B) in *.
  pose proof (chain_geo_ok _ _ _ Hg) as Hok.
  destruct (chain_geo_around _ _ _ _ _ Hg)
    as (nx & R & ER & Hnxa & Hnxs & Hnxm & Hnxe & HR & HA & Htop & Hsz & Hszm
        & Hpos & Hend & Hlen).
  cbn [b_addr b_size] in *.
  pose proof HwB as HwB0.
  rewrite ER in HwB. cbn [words] in HwB. destruct HwB as [Hwn HwR].
  rewrite Hnxa in Hwn.
  set (h := heap pool) in *.
  assert (Hposn : hdr_pos Lu (t + S)).
  { rewrite <- Hnxa. apply (chain_geo_hdr _ _ _ Hg). unfold Lu.
    rewrite <- app_assoc. cbn [app]. rewrite ER.
    apply in_or_app. right. right. left. reflexivity. }
  assert (Hpost : hdr_pos Lu t).
  { apply (hdr_pos_block (BPOOL_TOP pool) Lu (mkblk t S true));
      [apply Hg|]. apply in_middle. auto. }
  assert (HposA : forall c, In c A -> hdr_pos Lu (b_addr c)).
  { intros c Hc. apply (hdr_pos_block (BPOOL_TOP pool)); [apply Hg|].
    apply in_middle. auto. }
  assert (HposR : forall c, In c R -> hdr_pos Lu (b_addr c)).
  { intros c Hc. apply (chain_geo_hdr _ _ _ Hg). unfold Lu.
    rewrite <- app_assoc. cbn [app]. rewrite ER.
    apply in_or_app. right. right. right. exact Hc. }
  unfold merge_next. fold h.
  rewrite (IS_FREE_word _ _ _ _ _ Hwn Hnxm).
  destruct (next_split _ _ _ _ ER (cg_lst_used _ _ _ Hg))
    as [[Hu Hnm]|[Hu (B' & EB & ERR & Hnm)]]; rewrite Hu, Hnm;
    cbn [negb fst snd].
  - (* the next block is in use *)
    rewrite (SET_PREV_FREE_word _ _ _ _ _ Hwn Hnxm ltac:(lia)).
    rewrite Hu in *.
    set (h1 := set_size h (t + S) (word (b_size nx) true false)).
    exists F. split; [|cbn; auto].
    constructor; cbn [heap with_heap].
    + apply (chain_geo_pool pool); auto.
    + apply (words_frame h); [exact HwA|]. intros c Hc. unfold h1.
      apply get_set_size_other. specialize (HA _ Hc). lia.
    + unfold h1. rewrite get_set_size_other by lia. exact Hwt.
    + rewrite ER. cbn [words]. split.
      * rewrite Hnxa, Hu. unfold h1. apply get_set_word; [exact Hnxm|lia].
      * rewrite Hu. apply (words_frame h); [exact HwR|]. intros c Hc.
        unfold h1. apply get_set_size_other. specialize (HR _ Hc). lia.
    + exact HnA.
    + destruct B as [|b B'']; [exact I|]. cbn in ER. inversion ER; subst b.
      cbn [no_adj] in *. split; [intros _; exact Hu|apply HnB].
    + apply (index_inv_hdr_store (BPOOL_TOP pool)); assumption.
    + exact Hcm.
    + exact Hlv.
  - (* the next block is free *)
    destruct nx as [n nsz nu]. cbn [b_addr b_size b_used] in *. subst nu n.
    assert (Hbn : In (mkblk (t + S) nsz false) Lu).
    { apply in_middle. right. right. rewrite EB. left. reflexivity. }
    assert (Hbs : BLOCK_SIZE h (t + S) = nsz)
      by (apply (BLOCK_SIZE_word _ _ _ _ _ Hwn Hnxm); lia).
    pose proof (Hcm _ Hbn eq_refl) as HinF. cbn [b_addr b_size] in HinF.
    destruct (remove_free_block_spec _ _ Hok pool F (t + S) nsz Hi Hbn HinF
                Hbs) as (l1 & l2 & HF & Hi1 & Hfr & E1 & E2 & E3).
    set (pool1 := remove_free_block pool (t + S)) in *.
    set (F1 := fl_set F (calc_index nsz) (l1 ++ l2)) in *.
    destruct (unlinked_facts _ _ _ _ _ _ _ _ Hok (ii_lists _ _ _ Hi) HF)
      as (U1 & U2 & U3). fold F1 in U1, U2, U3.
    set (h1 := heap pool1) in *.
    assert (Hw1t : get_size h1 t = word S u (last_used true A))
      by (unfold h1; rewrite Hfr by exact Hpost; exact Hwt).
    assert (Hw1n : get_size h1 (t + S) = word nsz false pn)
      by (unfold h1; rewrite Hfr by exact Hposn; exact Hwn).
    assert (Hsum : 0 <= S + nsz < 2 ^ 32)
      by (unfold BPOOL_TOP, BPOOL_END in *; lia).
    assert (Hsumm : (S + nsz) mod 8 = 0)
      by (rewrite Zplus_mod, Hszm, Hnxm; reflexivity).
    assert (Em : merge_block h1 t (t + S)
                 = set_size h1 t (word (S + nsz) u (last_used true A))).
    { unfold merge_block.
      rewrite (BLOCK_SIZE_word _ _ _ _ _ Hw1n Hnxm) by lia.
      rewrite Hw1t, word_add, u32_id; [reflexivity|].
      apply word_range; assumption. }
    rewrite Em. set (h2 := set_size h1 t (word (S + nsz) u (last_used true A))).
    exists F1. split; [|cbn [pool_adrs size est with_heap]; auto].
    assert (Hmid : forall c, In c Lu <->
              In c A \/ c = mkblk t S true \/ c = mkblk (t + S) nsz false
              \/ In c B').
    { intros c. unfold Lu. rewrite EB, in_middle. cbn [In].
      split; intros [H|[H|[H|H]]]; auto. }
    constructor; cbn [heap with_heap].
    + apply (chain_geo_pool pool); auto.
      apply (chain_geo_merge pool A t S true (t + S) nsz false).
      rewrite <- EB. exact Hg.
    + apply (words_frame h); [exact HwA|]. intros c Hc. unfold h2.
      rewrite get_set_size_other by (specialize (HA _ Hc); lia).
      apply Hfr. apply HposA. exact Hc.
    + unfold h2. apply get_set_word; assumption.
    + rewrite <- ERR. apply (words_frame h); [exact HwR|]. intros c Hc.
      unfold h2.
      rewrite get_set_size_other by (specialize (HR _ Hc); lia).
      apply Hfr. apply HposR. exact Hc.
    + exact HnA.
    + rewrite EB in HnB. cbn [no_adj b_used] in HnB. apply HnB.
    + apply (index_inv_chain _ Lu).
      * apply (index_inv_hdr_store (BPOOL_TOP pool)); assumption.
      * intros i a sza Ha Hb. apply in_middle. apply Hmid in Hb.
        destruct Hb as [Hb|[Hb|[Hb|Hb]]]; auto.
        -- discriminate Hb.
        -- inversion Hb; subst a. exfalso. exact (U1 _ Ha).
    + intros b Hb Hub. apply in_middle in Hb.
      assert (Hb' : In b Lu)
        by (apply Hmid; destruct Hb as [Hb|[->|Hb]]; [auto|discriminate|auto]).
      apply U2; [apply Hcm; assumption|].
      intros E. destruct b as [a sa ua]. cbn in E, Hub. subst a ua.
      destruct (blk_sep _ _ _ _ _ _ _ _ Hok Hb' Hbn) as [(_ & E & _)|E].
      * subst sa. destruct Hb as [Hb|[Hb|Hb]].
        -- specialize (HA _ Hb). cbn in HA. lia.
        -- discriminate Hb.
        -- assert (Hc : In (mkblk (t + S) nsz false) R)
             by (rewrite ERR; apply in_or_app; left; exact Hb).
           specialize (HR _ Hc). cbn in HR. lia.
      * pose proof (geo_ok_blk _ _ _ Hok Hb') as Hk. cbn in Hk. lia.
    + intros q Hq. destruct (Hlv _ Hq) as (s & Hs).
      apply in_middle in Hs. rewrite EB in Hs.
      destruct Hs as [Hs|[Hs|[Hs|Hs]]].
      * exists s. apply in_middle. auto.
      * exists (S + nsz). apply in_middle. right. left.
        inversion Hs. reflexivity.
      * discriminate Hs.
      * exists s. apply in_middle. auto.
Qed.

(** A block at [t] of [S] bytes that follows the blocks [A], after the
    coalescing with the block before it: the blocks before, its address
    and its size. *)
Definition prev_merged (A : list blk) (t S : Z) : list blk * (Z * Z) :=
  if last_used true A then (A, (t, S))
  else
    let pb := last A (mkblk 0 0 true) in
    (removelast A, (b_addr pb, b_size pb + S)).

Lemma last_used_false A :
  last_used true A = false ->
  exists A' pb, A = A' ++ [pb] /\ b_used pb = false.
Proof.
  intros H. destruct A as [|a A0]; [discriminate H|].
  destruct (@exists_last _ (a :: A0) ltac:(discriminate)) as (A' & pb & E).
  exists A', pb. split; [exact E|]. rewrite E, last_used_app in H. exact H.
Qed.

(** The coalescing with the block before. *)
Lemma merge_prev_spec pool A t S u B lst F live :
  Pending pool A t S u false B false lst F live ->
  exists F' u',
    Pending (fst (merge_prev pool t)) (fst (prev_merged A t S))
            (fst (snd (prev_merged A t S))) (snd (snd (prev_merged A t S)))
            u' false B false lst F' live
    /\ snd (merge_prev pool t) = fst (snd (prev_merged A t S))
    /\ last_used true (fst (prev_merged A t S)) = true
    /\ pool_adrs (fst (merge_prev pool t)) = pool_adrs pool
    /\ size (fst (merge_prev pool t)) = size pool
    /\ est (fst (merge_prev pool t)) = est pool.
Proof.
  intros Hp. pose proof Hp as [Hg HwA Hwt HwB HnA HnB Hi Hcm Hlv].
  set (Lu := A ++ mkblk t S true :: B) in *.
  pose proof (chain_geo_ok _ _ _ Hg) as Hok.
  destruct (chain_geo_around _ _ _ _ _ Hg)
    as (nx & R & ER & Hnxa & Hnxs & Hnxm & Hnxe & HR & HA & Htop & Hsz & Hszm
        & Hpos & Hend & Hlen).
  cbn [b_addr b_size] in *.
  set (h := heap pool) in *.
  unfold merge_prev, prev_merged. fold h.
  rewrite (IS_PREV_FREE_word _ _ _ _ _ Hwt Hszm).
  destruct (last_used true A) eqn:Hpu; cbn [negb fst snd].
  { exists F, u. split; [exact Hp|]. repeat split; auto. }
  destruct (last_used_false _ Hpu) as (A' & pb & EA & Hpb).
  destruct pb as [pt psz pbu]. cbn [b_used] in Hpb. subst pbu.
  rewrite EA, last_last, removelast_last. cbn [b_addr b_size].
  assert (ELu : Lu = A' ++ mkblk pt psz false :: mkblk t S true :: B).
  { unfold Lu. rewrite EA, <- app_assoc. reflexivity. }
  pose proof Hg as Hg'. rewrite ELu in Hg'.
  destruct (chain_geo_around _ _ _ _ _ Hg')
    as (nx' & R' & ER' & Hpa & _ & _ & _ & _ & HA' & Htop' & Hpsz & Hpszm & _).
  cbn [b_addr b_size app] in *. inversion ER'; subst nx' R'. clear ER'.
  cbn [b_addr] in Hpa.
  rewrite EA in HwA, HnA. apply words_app in HwA as [HwA' Hwp].
  cbn [words b_addr b_size b_used] in Hwp. destruct Hwp as [Hwp _].
  apply no_adj_app in HnA as [HnA' Hnp]. cbn [no_adj b_used] in Hnp.
  assert (Hpu' : last_used true A' = true).
  { destruct (last_used true A'); [reflexivity|].
    destruct Hnp as [Hnp _]. specialize (Hnp eq_refl). discriminate. }
  rewrite Hpu' in Hwp.
  assert (Hbp : In (mkblk pt psz false) Lu).
  { rewrite ELu. apply in_middle. auto. }
  pose proof (Hcm _ Hbp eq_refl) as HinF. cbn [b_addr b_size] in HinF.
  destruct (li_member _ _ Hok _ _ _ _ (ii_lists _ _ _ Hi) HinF)
    as (_ & s & Hbs & _ & Htag & _).
  assert (s = psz).
  { destruct (blk_sep _ _ _ _ _ _ _ _ Hok Hbs Hbp) as [(_ & E & _)|E];
      [exact E|].
    pose proof (geo_ok_blk _ _ _ Hok Hbs) as Hk. cbn in Hk. lia. }
  subst s. fold h in Htag.
  change sizeof_ptr with 8.
  replace (t - 8) with (pt + psz - 8) by lia. rewrite Htag.
  assert (Hbsz : BLOCK_SIZE h pt = psz)
    by (apply (BLOCK_SIZE_word _ _ _ _ _ Hwp Hpszm); lia).
  destruct (remove_free_block_spec _ _ Hok pool F pt psz Hi Hbp HinF Hbsz)
    as (l1 & l2 & HF & Hi1 & Hfr & E1 & E2 & E3).
  set (pool1 := remove_free_block pool pt) in *.
  set (F1 := fl_set F (calc_index psz) (l1 ++ l2)) in *.
  destruct (unlinked_facts _ _ _ _ _ _ _ _ Hok (ii_lists _ _ _ Hi) HF)
    as (U1 & U2 & U3). fold F1 in U1, U2, U3.
  set (h1 := heap pool1) in *.
  assert (Hpost : hdr_pos Lu t).
  { apply (hdr_pos_block (BPOOL_TOP pool) Lu (mkblk t S true));
      [apply Hg|]. apply in_middle. auto. }
  assert (Hposp : hdr_pos Lu pt).
  { apply (hdr_pos_block (BPOOL_TOP pool) Lu (mkblk pt psz false));
      [apply Hg|]. exact Hbp. }
  assert (Hw1t : get_size h1 t = word S u false)
    by (unfold h1; rewrite Hfr by exact Hpost; exact Hwt).
  assert (Hw1p : get_size h1 pt = word psz false true)
    by (unfold h1; rewrite Hfr by exact Hposp; exact Hwp).
  assert (Hsum : 0 <= psz + S < 2 ^ 32)
    by (unfold BPOOL_TOP, BPOOL_END in *; lia).
  assert (Hsumm : (psz + S) mod 8 = 0)
    by (rewrite Zplus_mod, Hszm, Hpszm; reflexivity).
  assert (Em : merge_block h1 pt t
               = set_size h1 pt (word (psz + S) false true)).
  { unfold merge_block.
    rewrite (BLOCK_SIZE_word _ _ _ _ _ Hw1t Hszm) by lia.
    rewrite Hw1p, word_add, u32_id; [reflexivity|].
    apply word_range; assumption. }
  rewrite Em. set (h2 := set_size h1 pt (word (psz + S) false true)).
  exists F1, false.
  split; [|cbn [pool_adrs size est with_heap]; auto].
  assert (Hmid : forall c, In c Lu <->
            In c A' \/ c = mkblk pt psz false \/ c = mkblk t S true
            \/ In c B).
  { intros c. rewrite ELu, in_middle. cbn [In].
    split; intros [H|[H|[H|H]]]; auto. }
  assert (HB : forall c, In c (B ++ [lst]) -> t + S <= b_addr c).
  { intros c Hc. rewrite ER in Hc. destruct Hc as [<-|Hc]; [lia|].
    specialize (HR _ Hc). lia. }
  constructor; cbn [heap with_heap].
  - apply (chain_geo_pool pool); auto.
    apply (chain_geo_merge pool A' pt psz false t S true). exact Hg'.
  - apply (words_frame h); [exact HwA'|]. intros c Hc. unfold h2.
    rewrite get_set_size_other by (specialize (HA' _ Hc); lia).
    apply Hfr. apply (hdr_pos_block (BPOOL_TOP pool)); [apply Hg|].
    apply Hmid. auto.
  - rewrite Hpu'. unfold h2. apply get_set_word; assumption.
  - apply (words_frame h); [exact HwB|]. intros c Hc. unfold h2.
    rewrite get_set_size_other by (specialize (HB _ Hc); lia).
    apply Hfr. apply (chain_geo_hdr _ _ _ Hg). unfold Lu.
    rewrite <- app_assoc. cbn [app]. apply in_or_app. right. right.
    exact Hc.
  - exact HnA'.
  - exact HnB.
  - apply (index_inv_chain _ Lu).
    + apply (index_inv_hdr_store (BPOOL_TOP pool)); assumption.
    + intros i a sza Ha Hb. apply in_middle. apply Hmid in Hb.
      destruct Hb as [Hb|[Hb|[Hb|Hb]]]; auto.
      * inversion Hb; subst a. exfalso. exact (U1 _ Ha).
      * discriminate Hb.
  - intros b Hb Hub. apply in_middle in Hb.
    assert (Hb' : In b Lu)
      by (apply Hmid; destruct Hb as [Hb|[->|Hb]]; [auto|discriminate|auto]).
    apply U2; [apply Hcm; assumption|].
    intros E. destruct b as [a sa ua]. cbn in E, Hub. subst a ua.
    pose proof (geo_ok_blk _ _ _ Hok Hb') as Hk. cbn in Hk.
    destruct Hb as [Hb|[Hb|Hb]].
    + specialize (HA' _ Hb). cbn in HA'. lia.
    + discriminate Hb.
    + assert (Hc : In (mkblk pt sa false) (B ++ [lst]))
        by (apply in_or_app; left; exact Hb).
      specialize (HB _ Hc). cbn in HB. lia.
  - intros q Hq. destruct (Hlv _ Hq) as (s & Hs). exists s.
    apply in_middle. apply in_middle in Hs. rewrite EA in Hs.
    destruct Hs as [Hs|[Hs|Hs]]; auto; [|discriminate Hs].
    apply in_app_or in Hs as [Hs|[Hs|[]]]; auto. discriminate Hs.
Qed.

(** The end of a release: the block is put on the list of its class. *)
Lemma add_pending_spec pool A t S u B lst F live :
  Pending pool A t S u false B false lst F live -> last_used true A = true ->
  exists F',
    Inv (add_free_block pool t) (A ++ mkblk t S false :: B) lst F' live
    /\ pool_adrs (add_free_block pool t) = pool_adrs pool
    /\ size (add_free_block pool t) = size pool
    /\ est (add_free_block pool t) = est pool.
Proof.
  intros [Hg HwA Hwt HwB HnA HnB Hi Hcm Hlv] Hpu.
  set (Lu := A ++ mkblk t S true :: B) in *.
  set (Lf := A ++ mkblk t S false :: B) in *.
  assert (Hgf : chain_geo pool Lf lst)
    by (apply (chain_geo_flag pool A t S true false); exact Hg).
  pose proof (chain_geo_ok _ _ _ Hgf) as Hok.
  pose proof (chain_geo_ok _ _ _ Hg) as Hoku.
  destruct (chain_geo_around _ _ _ _ _ Hg)
    as (nx & R & ER & Hnxa & Hnxs & Hnxm & Hnxe & HR & HA & Htop & Hsz & Hszm
        & Hpos & Hend & Hlen).
  cbn [b_addr b_size] in *. rewrite Hpu in Hwt.
  assert (Hnin : forall i, ~ In t (F i)).
  { intros i Hin.
    destruct (li_member _ _ Hoku _ _ _ _ (ii_lists _ _ _ Hi) Hin)
      as (_ & s & Hb & _).
    assert (Hbt : In (mkblk t S true) Lu) by (apply in_middle; auto).
    pose proof (geo_addr_inj _ _ _ _ (cg_geo _ _ _ Hg) Hb Hbt eq_refl) as X.
    discriminate X. }
  assert (Hif : index_inv pool Lf F).
  { apply (index_inv_chain _ Lu); [exact Hi|].
    intros i a sza Ha Hb. apply in_middle. apply in_middle in Hb.
    destruct Hb as [Hb|[Hb|Hb]]; auto. discriminate Hb. }
  assert (Hbf : In (mkblk t S false) Lf) by (apply in_middle; auto).
  destruct (add_free_block_spec _ _ Hok pool F t S u true Hif Hbf Hnin Hwt)
    as (Hi' & Hw't & Hfr & E1 & E2 & E3).
  set (pool' := add_free_block pool t) in *.
  exists (fl_set F (calc_index S) (t :: F (calc_index S))).
  split; [|auto].
  constructor.
  - apply chain_geo_inv.
    + apply (chain_geo_pool pool); auto.
    + unfold Lf. rewrite <- app_assoc. cbn [app]. apply words_app.
      split; [|cbn [words b_addr b_size b_used]; split].
      * apply (words_frame (heap pool)); [exact HwA|]. intros c Hc.
        apply Hfr; [|specialize (HA _ Hc); lia].
        apply (hdr_pos_block (BPOOL_TOP pool)); [apply Hgf|].
        apply in_middle. auto.
      * rewrite Hpu. exact Hw't.
      * apply (words_frame (heap pool)); [exact HwB|]. intros c Hc.
        assert (t + S <= b_addr c).
        { rewrite ER in Hc. destruct Hc as [<-|Hc]; [lia|].
          specialize (HR _ Hc). lia. }
        apply Hfr; [|lia].
        apply (chain_geo_hdr _ _ _ Hgf). unfold Lf.
        rewrite <- app_assoc. cbn [app]. apply in_or_app. right. right.
        exact Hc.
    + unfold Lf. apply no_adj_app. split; [exact HnA|].
      cbn [no_adj b_used]. split; [|exact HnB].
      rewrite Hpu. discriminate.
  - exact Hi'.
  - intros b Hb Hub. apply in_middle in Hb. destruct Hb as [Hb|[->|Hb]].
    + apply fl_set_cons_incl. apply Hcm; [apply in_middle; auto|exact Hub].
    + cbn [b_addr b_size]. rewrite fl_set_same. left. reflexivity.
    + apply fl_set_cons_incl. apply Hcm; [apply in_middle; auto|exact Hub].
  - exact Hlv.
Qed.

(** The chain after the release of the block at [t]: coalesced with the
    next block and with the block before where these are free. *)
Definition free_chain (A : list blk) (t S : Z) (B : list blk) : list blk :=
  let S1 := fst (next_merged S B) in
  let B1 := snd (next_merged S B) in
  fst (prev_merged A t S1)
  ++ mkblk (fst (snd (prev_merged A t S1))) (snd (snd (prev_merged A t S1)))
           false
     :: B1.

(** [est_free] of the payload of a block in use keeps the invariant: the
    block, coalesced with its free neighbours, is a free block of the
    chain. *)
Lemma est_free_at pool A t S B lst F live :
  Inv pool (A ++ mkblk t S true :: B) lst F live ->
  exists F',
    Inv (est_free pool (t + 8)) (free_chain A t S B) lst F'
        (remove Z.eq_dec (t + 8) live)
    /\ pool_adrs (est_free pool (t + 8)) = pool_adrs pool
    /\ size (est_free pool (t + 8)) = size pool
    /\ est (est_free pool (t + 8)) = est pool.
Proof.
  intros HI.
  pose proof (Inv_pending _ _ _ _ _ _ _ _ HI) as Hpd.
  pose proof (chain_inv_split _ _ _ _ _ (inv_chain _ _ _ _ _ HI))
    as (Hwt & _).
  destruct (chain_around _ _ _ _ _ (inv_chain _ _ _ _ _ HI))
    as (_ & _ & _ & _ & _ & _ & _ & _ & _ & Htop & Hsz & Hszm & Hpos & _).
  cbn [b_addr b_size b_used] in *.
  rewrite est_free_phases.
  destruct (Z.eqb_spec (t + 8) NULL) as [E|_];
    [unfold NULL, BPOOL_TOP in *; lia|].
  cbv zeta.
  replace (BLOCK_ADRS (t + 8)) with t
    by (unfold BLOCK_ADRS; change sizeof_USED_BLOCK with 8; lia).
  rewrite (PHYS_NEXT_word _ _ _ _ _ Hwt Hszm) by lia.
  destruct (merge_next_spec _ _ _ _ _ _ _ _ _ _ _ Hpd)
    as (F1 & Hpd1 & E1 & E2 & E3).
  set (pool1 := merge_next pool t (t + S)) in *.
  destruct (merge_prev_spec _ _ _ _ _ _ _ _ _ Hpd1)
    as (F2 & u2 & Hpd2 & Et & Hpu & E4 & E5 & E6).
  rewrite Et.
  destruct (add_pending_spec _ _ _ _ _ _ _ _ _ Hpd2 Hpu)
    as (F3 & HI3 & E7 & E8 & E9).
  exists F3. split; [exact HI3|].
  repeat split; congruence.
Qed.

(** [est_free] of a live pointer. *)
Theorem est_free_spec pool L0 lst F live p :
  Inv pool L0 lst F live -> In p live ->
  exists A S B F',
    L0 = A ++ mkblk (p - 8) S true :: B
    /\ Inv (est_free pool p) (free_chain A (p - 8) S B) lst F'
           (remove Z.eq_dec p live)
    /\ pool_adrs (est_free pool p) = pool_adrs pool
    /\ size (est_free pool p) = size pool
    /\ est (est_free pool p) = est pool.
Proof.
  intros HI Hp. destruct (inv_live _ _ _ _ _ HI _ Hp) as (S & Hb).
  destruct (in_split _ _ Hb) as (A & B & EL). exists A, S, B.
  rewrite EL in HI. destruct (est_free_at _ _ _ _ _ _ _ _ HI) as (F' & H).
  replace (p - 8 + 8) with p in H by lia.
  exists F'. split; [exact EL|exact H].
Qed.

Lemma est_free_null pool : est_free pool NULL = pool.
Proof. reflexivity. Qed.

(** ** [est_realloc] in place *)

Lemma realloc_shrink_phases pool ptr target alloc_size :
  realloc_shrink pool ptr target alloc_size =
  let next := PHYS_NEXT (heap pool) target in
  if snd (split_block (heap pool) target alloc_size) =? NULL then
    (ptr, with_heap pool
            (SET_PREV_USED (fst (split_block (heap pool) target alloc_size))
                           next))
  else
    let release := snd (split_block (heap pool) target alloc_size) in
    let pool :=
      with_heap pool
        (SET_PREV_USED (fst (split_block (heap pool) target alloc_size))
                       release) in
    (ptr, add_free_block (merge_next pool release next) release).
Proof.
  unfold realloc_shrink, merge_next.
  destruct (split_block (heap pool) target alloc_size) as [m release].
  cbn [fst snd]. cbv zeta.
  destruct (release =? NULL); [reflexivity|].
  match goal with |- context [IS_FREE_BLOCK ?m ?t] =>
    destruct (IS_FREE_BLOCK m t) end; reflexivity.
Qed.

(** The chain after a block of [S] bytes was cut to [al] bytes. *)
Definition shrink_chain (A : list blk) (t S al : Z) (B : list blk)
  : list blk :=
  if S - al <=? 32 then A ++ mkblk t S true :: B
  else
    (A ++ [mkblk t al true])
    ++ mkblk (t + al) (fst (next_merged (S - al) B)) false
       :: snd (next_merged (S - al) B).

Lemma realloc_shrink_spec pool A t S B pn lst F live ptr al :
  Pending pool A t S true true B pn lst F live ->
  32 <= al <= S -> al mod 8 = 0 ->
  exists F',
    fst (realloc_shrink pool ptr t al) = ptr
    /\ Inv (snd (realloc_shrink pool ptr t al)) (shrink_chain A t S al B)
           lst F' live
    /\ pool_adrs (snd (realloc_shrink pool ptr t al)) = pool_adrs pool
    /\ size (snd (realloc_shrink pool ptr t al)) = size pool
    /\ est (snd (realloc_shrink pool ptr t al)) = est pool.
Proof.
  intros [Hg HwA Hwt HwB HnA HnB Hi Hcm Hlv] Hal Halm.
  set (Lu := A ++ mkblk t S true :: B) in *.
  pose proof (chain_geo_ok _ _ _ Hg) as Hok.
  destruct (chain_geo_around _ _ _ _ _ Hg)
    as (nx & R & ER & Hnxa & Hnxs & Hnxm & Hnxe & HR & HA & Htop & Hsz & Hszm
        & Hpos & Hend & Hlen).
  cbn [b_addr b_size] in *.
  pose proof HwB as HwB0.
  rewrite ER in HwB. cbn [words] in HwB. destruct HwB as [Hwn HwR].
  rewrite Hnxa in Hwn.
  set (h := heap pool) in *.
  assert (HB : forall c, In c (B ++ [lst]) -> t + S <= b_addr c).
  { intros c Hc. rewrite ER in Hc. destruct Hc as [<-|Hc]; [lia|].
    specialize (HR _ Hc). lia. }
  rewrite realloc_shrink_phases. fold h. cbv zeta.
  rewrite (PHYS_NEXT_word _ _ _ _ _ Hwt Hszm) by lia.
  unfold split_block, shrink_chain.
  rewrite (BLOCK_SIZE_word _ _ _ _ _ Hwt Hszm) by lia.
  set (rsz := S - al) in *.
  assert (Hrsz0 : 0 <= rsz < 2 ^ 32) by (unfold rsz; lia).
  rewrite (u32_id rsz) by exact Hrsz0.
  change ESTALLOC_MIN_MEMORY_BLOCK_SIZE with 32.
  destruct (Z.leb_spec rsz 32) as [Hle|Hgt]; cbn [fst snd].
  - (* no split *)
    change (NULL =? NULL) with true. cbv iota. cbn [fst snd].
    rewrite (SET_PREV_USED_word _ _ _ _ _ Hwn Hnxm).
    set (h1 := set_size h (t + S) (word (b_size nx) (b_used nx) true)).
    exists F. split; [reflexivity|]. split; [|cbn; auto].
    constructor.
    + apply chain_geo_inv; cbn [heap with_heap].
      * apply (chain_geo_pool pool); auto.
      * unfold Lu. rewrite <- app_assoc. cbn [app]. apply words_app.
        split; [|cbn [words b_addr b_size b_used]; split].
        -- apply (words_frame h); [exact HwA|]. intros c Hc. unfold h1.
           apply get_set_size_other. specialize (HA _ Hc). lia.
        -- unfold h1. rewrite get_set_size_other by lia. exact Hwt.
        -- rewrite ER. cbn [words]. split.
           ++ rewrite Hnxa. unfold h1. apply get_set_word; [exact Hnxm|lia].
           ++ apply (words_frame h); [exact HwR|]. intros c Hc.
              unfold h1. apply get_set_size_other. specialize (HR _ Hc). lia.
      * unfold Lu. apply no_adj_app. split; [exact HnA|].
        cbn [no_adj b_used]. split; [auto|].
        apply (no_adj_weaken pn). exact HnB.
    + apply (index_inv_hdr_store (BPOOL_TOP pool)); [assumption..|].
      rewrite <- Hnxa. apply (chain_geo_hdr _ _ _ Hg). unfold Lu.
      rewrite <- app_assoc. cbn [app]. rewrite ER.
      apply in_or_app. right. right. left. reflexivity.
    + exact Hcm.
    + exact Hlv.
  - (* split: the rest is released *)
    set (r := t + al) in *.
    assert (Hrszm : rsz mod 8 = 0).
    { unfold rsz. rewrite Zminus_mod, Hszm, Halm. reflexivity. }
    set (h1 := set_size h r rsz).
    assert (Hw1t : get_size h1 t = word S true (last_used true A)).
    { unfold h1, r. rewrite get_set_size_other by lia. exact Hwt. }
    rewrite Hw1t, (word_resize S true _ Hszm al Halm ltac:(lia)).
    set (h2 := set_size h1 t (word al true (last_used true A))).
    destruct (Z.eqb_spec r NULL) as [Ez|_];
      [unfold r, NULL in Ez; unfold BPOOL_TOP in *; lia|].
    cbn [fst snd].
    assert (Hw2r : get_size h2 r = word rsz false false).
    { unfold h2, h1, r. rewrite get_set_size_other by lia.
      rewrite get_set_size_same. rewrite (u32_id rsz) by exact Hrsz0.
      unfold word, flags. lia. }
    rewrite (SET_PREV_USED_word _ _ _ _ _ Hw2r Hrszm).
    set (h3 := set_size h2 r (word rsz false true)).
    assert (Hw3r : get_size h3 r = word rsz false true)
      by (unfold h3; apply get_set_word; assumption).
    assert (Hw3t : get_size h3 t = word al true (last_used true A)).
    { unfold h3, r. rewrite get_set_size_other by lia. unfold h2.
      apply get_set_word; [assumption|lia]. }
    assert (Hch : changed_in h h3 t (t + S)).
    { unfold h3, h2, h1, r.
      apply (changed_in_trans _ (set_size (set_size h (t + al) rsz) t
                                   (word al true (last_used true A)))).
      - apply (changed_in_trans _ (set_size h (t + al) rsz)).
        + apply changed_in_set_size; lia.
        + apply changed_in_set_size; lia.
      - apply changed_in_set_size; lia. }
    set (pool2 := with_heap pool h3).
    set (A2 := A ++ [mkblk t al true]).
    set (L2 := A2 ++ mkblk r rsz true :: B).
    assert (EL2 : L2 = A ++ mkblk t al true :: mkblk r rsz true :: B).
    { unfold L2, A2. rewrite <- app_assoc. reflexivity. }
    assert (Hmid2 : forall c, In c L2 <->
              In c A \/ c = mkblk t al true \/ c = mkblk r rsz true
              \/ In c B).
    { intros c. rewrite EL2, in_middle. cbn [In].
      split; intros [H|[H|[H|H]]]; auto. }
    assert (Hpd : Pending pool2 A2 r rsz false false B pn lst F live).
    { constructor; cbn [heap with_heap pool2].
      - fold L2. rewrite EL2. apply (chain_geo_pool pool); auto.
        apply (chain_geo_split pool A t S true); auto; unfold rsz in *; lia.
      - unfold A2. apply words_app. split.
        + apply (words_frame h); [exact HwA|]. intros c Hc.
          apply (get_size_changed h h3 t (t + S)); [exact Hch|].
          specialize (HA _ Hc). lia.
        + cbn [words b_addr b_size b_used]. split; [exact Hw3t|exact I].
      - unfold A2. rewrite last_used_app. cbn [last_used b_used].
        exact Hw3r.
      - apply (words_frame h); [exact HwB0|]. intros c Hc.
        apply (get_size_changed h h3 t (t + S)); [exact Hch|].
        specialize (HB _ Hc). lia.
      - unfold A2. apply no_adj_app. split; [exact HnA|].
        cbn [no_adj b_used]. auto.
      - exact HnB.
      - fold L2. apply (index_inv_chain _ Lu).
        + apply (index_inv_changed (BPOOL_TOP pool) Lu pool _ F t (t + S));
            auto.
          intros i a sza Ha Hb.
          assert (Hbt : In (mkblk t S true) Lu) by (apply in_middle; auto).
          pose proof (geo_ok_blk _ _ _ Hok Hb) as Hk. cbn in Hk.
          destruct (blk_sep _ _ _ _ _ _ _ _ Hok Hb Hbt) as [(_ & _ & E)|E];
            [discriminate E|lia].
        + intros i a sza Ha Hb. apply Hmid2. apply in_middle in Hb.
          destruct Hb as [Hb|[Hb|Hb]]; auto. discriminate Hb.
      - fold L2. intros b Hb Hub. apply Hmid2 in Hb.
        destruct Hb as [Hb|[->|[->|Hb]]]; try discriminate Hub.
        + apply Hcm; [apply in_middle; auto|exact Hub].
        + apply Hcm; [apply in_middle; auto|exact Hub].
      - intros q Hq. destruct (Hlv _ Hq) as (s & Hs).
        apply in_middle in Hs. destruct Hs as [Hs|[Hs|Hs]].
        + exists s. apply in_middle. left. unfold A2. apply in_or_app. auto.
        + exists al. inversion Hs as [[Eq Es]]. rewrite Eq.
          apply in_middle. left. unfold A2.
          apply in_or_app. right. left. reflexivity.
        + exists s. apply in_middle. auto. }
    replace (t + S) with (r + rsz) by (unfold r, rsz; lia).
    destruct (merge_next_spec _ _ _ _ _ _ _ _ _ _ _ Hpd)
      as (F1 & Hpd1 & E1 & E2 & E3).
    set (pool3 := merge_next pool2 r (r + rsz)) in *.
    assert (Hpu : last_used true A2 = true)
      by (unfold A2; rewrite last_used_app; reflexivity).
    destruct (add_pending_spec _ _ _ _ _ _ _ _ _ Hpd1 Hpu)
      as (F2 & HI2 & E4 & E5 & E6).
    exists F2. split; [reflexivity|]. split; [exact HI2|].
    cbn [pool_adrs size est with_heap pool2] in *.
    repeat split; congruence.
Qed.

(** ** Stores outside the allocator's own data *)

(** Bytes changed in a range that holds no size word and no free block
    leave the invariant as it is. *)
Lemma Inv_changed pool L0 lst F live m lo hi :
  Inv pool L0 lst F live ->
  changed_in (heap pool) m lo hi ->
  (forall b, In b (L0 ++ [lst]) -> b_addr b + 4 <= lo \/ hi <= b_addr b) ->
  (forall b, In b L0 -> b_used b = false ->
     hi <= b_addr b \/ b_addr b + b_size b <= lo) ->
  Inv (with_heap pool m) L0 lst F live.
Proof.
  intros [Hc Hi Hcm Hlv] Hch Hhdr Hfree.
  pose proof (chain_inv_geo_ok _ _ _ Hc) as Hok.
  constructor; auto.
  - apply chain_geo_inv; cbn [heap with_heap].
    + apply (chain_geo_pool pool); auto. apply chain_inv_geo_part. exact Hc.
    + apply (words_frame (heap pool)); [apply Hc|]. intros b Hb.
      apply (get_size_changed _ _ lo hi); [exact Hch|]. apply Hhdr. exact Hb.
    + apply Hc.
  - apply (index_inv_changed (BPOOL_TOP pool) L0 pool _ F lo hi); auto.
    intros i a sza Ha Hb. specialize (Hfree _ Hb eq_refl). cbn in Hfree. lia.
Qed.

(** Stores into the payload of a block in use. *)
Lemma Inv_payload pool L0 lst F live t S m :
  Inv pool L0 lst F live -> In (mkblk t S true) L0 ->
  changed_in (heap pool) m (t + 8) (t + S) ->
  Inv (with_heap pool m) L0 lst F live.
Proof.
  intros HI Hb Hch. pose proof (inv_chain _ _ _ _ _ HI) as Hc.
  pose proof (chain_inv_geo_ok _ _ _ Hc) as Hok.
  pose proof (chain_inv_blk _ _ _ Hc _ Hb) as Hk. cbn in Hk.
  apply (Inv_changed pool L0 lst F live m (t + 8) (t + S)); auto.
  - intros b Hin. apply in_app_or in Hin as [Hin|[<-|[]]].
    + destruct b as [a sa ua].
      pose proof (geo_ok_blk _ _ _ Hok Hin) as Hk'. cbn in Hk'.
      destruct (blk_sep _ _ _ _ _ _ _ _ Hok Hin Hb) as [(E & _)|E]; cbn; lia.
    + lia.
  - intros b Hin Hu. destruct b as [a sa ua]. cbn in Hu. subst ua.
    destruct (blk_sep _ _ _ _ _ _ _ _ Hok Hin Hb) as [(_ & _ & E)|E];
      [discriminate E|cbn; lia].
Qed.

(** Stores into the payload of the last block, where [est_permalloc]
    allocates. *)
Lemma Inv_payload_last pool L0 lst F live m :
  Inv pool L0 lst F live ->
  changed_in (heap pool) m (b_addr lst + 8) (BPOOL_END pool) ->
  Inv (with_heap pool m) L0 lst F live.
Proof.
  intros HI Hch. pose proof (inv_chain _ _ _ _ _ HI) as Hc.
  apply (Inv_changed pool L0 lst F live m (b_addr lst + 8) (BPOOL_END pool));
    auto.
  - intros b Hin. apply in_app_or in Hin as [Hin|[<-|[]]]; [|lia].
    pose proof (chain_inv_blk _ _ _ Hc _ Hin). lia.
  - intros b Hin _. pose proof (chain_inv_blk _ _ _ Hc _ Hin). lia.
Qed.

Lemma Inv_live pool L0 lst F live live' :
  Inv pool L0 lst F live -> (forall q, In q live' -> In q live) ->
  Inv pool L0 lst F live'.
Proof.
  intros [Hc Hi Hcm Hlv] Hsub. constructor; auto.
  intros q Hq. apply Hlv. apply Hsub. exact Hq.
Qed.

Lemma geo_length a L : geo a L -> 32 * Z.of_nat (length L) <= chain_end a L - a.
Proof.
  revert a. induction L as [|b L IH]; intros a H; [cbn; lia|].
  cbn [geo] in H. destruct H as (_ & _ & Hs & Hg). specialize (IH _ Hg).
  cbn [length chain_end]. lia.
Qed.

Lemma chain_length pool L0 lst :
  chain_inv pool L0 lst -> Z.of_nat (length L0) < size pool.
Proof.
  intros Hc. pose proof (geo_length _ _ (ci_geo _ _ _ Hc)) as Hl.
  pose proof (chain_inv_lst _ _ _ Hc) as Hk.
  rewrite <- (ci_lst_addr _ _ _ Hc) in Hl. unfold BPOOL_TOP in Hl.
  change sizeof_MEMORY_POOL with 704 in Hl. lia.
Qed.

(** ** [est_realloc] *)

(** The copy loop ends, and stores into the new payload only. *)
Lemma realloc_copy_spec m target S u pu new_ptr ptr :
  get_size m target = word S u pu -> S mod 8 = 0 -> 8 <= S < 2 ^ 32 ->
  target + 4 <= new_ptr \/ new_ptr + (S - 8) <= target ->
  forall (k : nat) i fuel m',
  k = Z.to_nat (S - 8 - i) -> 0 <= i <= S - 8 ->
  changed_in m m' new_ptr (new_ptr + (S - 8)) -> (k < fuel)%nat ->
  exists m'',
    realloc_copy fuel m' target new_ptr ptr i = Some m''
    /\ changed_in m m'' new_ptr (new_ptr + (S - 8)).
Proof.
  intros Hw Hm Hs Hsep. induction k as [|k IH]; intros i fuel m' Hk Hi Hch Hf.
  - destruct fuel as [|f]; [lia|]. cbn [realloc_copy].
    assert (Hw' : get_size m' target = word S u pu)
      by (rewrite (get_size_changed _ _ _ _ _ Hch) by lia; exact Hw).
    rewrite (BLOCK_SIZE_word _ _ _ _ _ Hw' Hm) by lia.
    change sizeof_USED_BLOCK with 8. rewrite u64_id by lia.
    destruct (Z.ltb_spec i (S - 8)) as [Hlt|_]; [lia|].
    exists m'. split; [reflexivity|exact Hch].
  - destruct fuel as [|f]; [lia|]. cbn [realloc_copy].
    assert (Hw' : get_size m' target = word S u pu)
      by (rewrite (get_size_changed _ _ _ _ _ Hch) by lia; exact Hw).
    rewrite (BLOCK_SIZE_word _ _ _ _ _ Hw' Hm) by lia.
    change sizeof_USED_BLOCK with 8. rewrite u64_id by lia.
    destruct (Z.ltb_spec i (S - 8)) as [Hlt|Hge]; [|lia].
    rewrite u32_id by lia.
    apply IH; try lia.
    apply (changed_in_trans _ m'); [exact Hch|].
    apply changed_in_upd. lia.
Qed.

(** What a successful [est_realloc] of the live pointer [p] leaves. *)
Definition realloc_post (pool : MEMORY_POOL) (lst : blk) (live : list Z)
    (p : Z) (r : Z * MEMORY_POOL) : Prop :=
  fst r <> NULL
  /\ exists L' F',
       Inv (snd r) L' lst F' (fst r :: remove Z.eq_dec p live)
       /\ pool_adrs (snd r) = pool_adrs pool /\ size (snd r) = size pool.

Lemma malloc_chain_keeps A t sz al B b :
  In b (A ++ mkblk t sz false :: B) -> b_addr b <> t ->
  In b (malloc_chain A t sz al B).
Proof.
  intros Hb Hne. unfold malloc_chain. apply in_middle in Hb.
  destruct Hb as [Hb|[->|Hb]]; [|cbn in Hne; lia|];
    destruct (sz - al <=? 32); apply in_middle; auto.
  right. right. right. exact Hb.
Qed.

Lemma malloc_chain_new A t sz al B :
  al <= sz ->
  exists S', al <= S' /\ In (mkblk t S' true) (malloc_chain A t sz al B).
Proof.
  intros Hal. unfold malloc_chain. destruct (sz - al <=? 32).
  - exists sz. split; [lia|]. apply in_middle. auto.
  - exists al. split; [lia|]. apply in_middle. auto.
Qed.

Lemma alloc_and_copy_spec pool A S B lst F live p n fuel :
  Inv pool (A ++ mkblk (p - 8) S true :: B) lst F live -> In p live ->
  S < alloc_size_of n -> size pool < Z.of_nat fuel ->
  exists r,
    realloc_alloc_and_copy fuel pool p (p - 8) n = Some r
    /\ (r = (NULL, pool) \/ realloc_post pool lst live p r).
Proof.
  intros HI Hp Hlt Hfuel. set (t := p - 8) in *.
  set (L0 := A ++ mkblk t S true :: B) in *.
  pose proof (inv_chain _ _ _ _ _ HI) as Hc.
  pose proof (chain_length _ _ _ Hc) as Hlen.
  assert (Hbt : In (mkblk t S true) L0) by (apply in_middle; auto).
  pose proof (chain_inv_blk _ _ _ Hc _ Hbt) as Hkt. cbn in Hkt.
  pose proof (chain_inv_lst _ _ _ Hc) as Hkl.
  unfold realloc_alloc_and_copy.
  destruct (est_malloc_spec pool L0 lst F live n fuel HI ltac:(lia))
    as [Em|(r1 & Em & Hpost)]; rewrite Em.
  { exists (NULL, pool). split; [reflexivity|]. left. reflexivity. }
  destruct r1 as [q pool1].
  destruct Hpost as (A1 & t1 & sz1 & B1 & F1 & EL1 & Hsz1 & Hq & HI1 & P1 & P2).
  cbn [fst snd] in *. subst q.
  assert (Hb1 : In (mkblk t1 sz1 false) L0)
    by (rewrite EL1; apply in_middle; auto).
  pose proof (chain_inv_blk _ _ _ Hc _ Hb1) as Hk1. cbn in Hk1.
  destruct (Z.eqb_spec (t1 + 8) NULL) as [E|_]; [unfold NULL in E; lia|].
  set (L1 := malloc_chain A1 t1 sz1 (alloc_size_of n) B1) in *.
  pose proof (inv_chain _ _ _ _ _ HI1) as Hc1.
  assert (Hne : t <> t1)
    by (apply (used_free_neq _ _ _ _ _ _ (ci_geo _ _ _ Hc) Hbt Hb1)).
  assert (Hbt1 : In (mkblk t S true) L1).
  { apply malloc_chain_keeps; [rewrite <- EL1; exact Hbt|exact Hne]. }
  destruct (in_split _ _ Hbt1) as (A2 & B2 & EL2).
  pose proof Hc1 as Hc1'. rewrite EL2 in Hc1'.
  destruct (chain_inv_split _ _ _ _ _ Hc1') as (Hwt & _).
  cbn [b_addr b_size b_used] in Hwt.
  assert (Hsep : t + 4 <= t1 + 8 \/ t1 + 8 + (S - 8) <= t).
  { destruct (blk_sep _ _ _ _ _ _ _ _ (chain_inv_geo_ok _ _ _ Hc) Hbt Hb1)
      as [(E & _)|E]; lia. }
  destruct (realloc_copy_spec (heap pool1) t S true _ (t1 + 8) p Hwt
              ltac:(lia) ltac:(lia) Hsep (Z.to_nat (S - 8 - 0)) 0 fuel
              (heap pool1) eq_refl ltac:(lia) (changed_in_refl _ _ _)
              ltac:(lia))
    as (m2 & Ecp & Hch).
  rewrite Ecp. eexists. split; [reflexivity|]. right.
  destruct (malloc_chain_new A1 t1 sz1 (alloc_size_of n) B1 Hsz1)
    as (S1 & HS1 & Hbn). fold L1 in Hbn.
  assert (HI2 : Inv (with_heap pool1 m2) L1 lst F1 (t1 + 8 :: live)).
  { apply (Inv_payload pool1 L1 lst F1 _ t1 S1); auto.
    apply (changed_in_weaken _ _ _ _ _ _ Hch); lia. }
  destruct (est_free_spec _ _ _ _ _ p HI2 ltac:(right; exact Hp))
    as (A3 & S3 & B3 & F3 & _ & HI3 & E1 & E2 & _).
  cbn [remove] in HI3.
  destruct (Z.eq_dec p (t1 + 8)) as [E|_]; [unfold t in Hne; lia|].
  split; cbn [fst snd]; [unfold NULL; lia|].
  eexists. exists F3. split; [exact HI3|].
  cbn [pool_adrs size with_heap] in E1, E2. split; congruence.
Qed.

(** [est_realloc] of a live pointer: with enough fuel it returns; either
    NULL with the pool as it was, or a pointer that is live in a
    consistent pool, in the place of [p]. *)
Theorem est_realloc_spec pool L0 lst F live p n fuel :
  Inv pool L0 lst F live -> In p live -> size pool < Z.of_nat fuel ->
  exists r,
    est_realloc fuel pool p n = Some r
    /\ (r = (NULL, pool) \/ realloc_post pool lst live p r).
Proof.
  intros HI Hp Hfuel.
  destruct (inv_live _ _ _ _ _ HI _ Hp) as (S & Hb).
  destruct (in_split _ _ Hb) as (A & B & EL). rewrite EL in HI.
  set (t := p - 8) in *.
  pose proof (inv_chain _ _ _ _ _ HI) as Hc.
  destruct (chain_inv_split _ _ _ _ _ Hc) as (Hwt & _ & HwB & _).
  destruct (chain_around _ _ _ _ _ Hc)
    as (nx & R & ER & Hnxa & Hnxs & Hnxm & Hnxe & HR & HA & Htop & Hsz & Hszm
        & Hpos & Hend & Hlen).
  cbn [b_addr b_size b_used] in *.
  rewrite ER in HwB. cbn [words] in HwB. destruct HwB as [Hwn _].
  rewrite Hnxa in Hwn.
  destruct (alloc_size_of_facts n) as (Hal & Halm).
  unfold est_realloc.
  destruct (Z.eqb_spec p NULL) as [E|Hpn];
    [unfold NULL, BPOOL_TOP, t in *; lia|].
  cbv zeta. change (BLOCK_ADRS p) with t.
  rewrite (BLOCK_SIZE_word _ _ _ _ _ Hwt Hszm) by lia.
  assert (Hin_place : forall pool' A' S' B' pn F',
            Pending pool' A' t S' true true B' pn lst F' live ->
            alloc_size_of n <= S' ->
            pool_adrs pool' = pool_adrs pool -> size pool' = size pool ->
            realloc_post pool lst live p
              (realloc_shrink pool' p t (alloc_size_of n))).
  { intros pool' A' S' B' pn F' Hpd Hle P1 P2.
    destruct (realloc_shrink_spec _ _ _ _ _ _ _ _ _ p (alloc_size_of n) Hpd
                ltac:(lia) Halm) as (F2 & Hf & HI2 & E1 & E2 & _).
    split; [rewrite Hf; exact Hpn|]. eexists. exists F2.
    rewrite Hf. split; [|split; congruence].
    apply (Inv_live _ _ _ _ live); [exact HI2|].
    intros q [<-|Hq]; [exact Hp|]. apply in_remove in Hq. apply Hq. }
  destruct (Z.gtb_spec (alloc_size_of n) S) as [Hgt|Hle].
  2:{ eexists. split; [reflexivity|]. right.
      apply (Hin_place pool A S B true F); auto.
      apply Inv_resizing. exact HI. }
  rewrite (PHYS_NEXT_word _ _ _ _ _ Hwt Hszm) by lia.
  rewrite (IS_USED_word _ _ _ _ _ Hwn Hnxm).
  destruct (b_used nx) eqn:Hu.
  { apply (alloc_and_copy_spec pool A S B lst F live p n fuel); auto; lia. }
  rewrite (BLOCK_SIZE_word _ _ _ _ _ Hwn Hnxm) by lia.
  assert (Hsum : 0 <= S + b_size nx < 2 ^ 32)
    by (unfold BPOOL_TOP, BPOOL_END in *; lia).
  rewrite u32_id by exact Hsum.
  destruct (Z.ltb_spec (S + b_size nx) (alloc_size_of n)) as [Hlt|Hge].
  { apply (alloc_and_copy_spec pool A S B lst F live p n fuel); auto; lia. }
  eexists. split; [reflexivity|]. right.
  pose proof (Inv_resizing _ _ _ _ _ _ _ _ HI) as Hpd.
  destruct (merge_next_spec _ _ _ _ _ _ _ _ _ _ _ Hpd)
    as (F1 & Hpd1 & E1 & E2 & _).
  assert (Emn : merge_next pool t (t + S)
                = with_heap (remove_free_block pool (t + S))
                    (merge_block (heap (remove_free_block pool (t + S))) t
                                 (t + S))).
  { unfold merge_next. rewrite (IS_FREE_word _ _ _ _ _ Hwn Hnxm).
    reflexivity. }
  rewrite <- Emn.
  destruct (next_split _ _ _ _ ER (ci_lst_used _ _ _ Hc))
    as [[Hu' _]|[_ (B' & EB & ERR & Hnm)]]; [congruence|].
  rewrite Hnm in Hpd1. cbn [fst snd] in Hpd1.
  apply (Hin_place _ A (S + b_size nx) B' false F1); auto.
Qed.

(** ** [est_permalloc] *)

Lemma BLOCK_SIZE_nonneg m p : 0 <= BLOCK_SIZE m p.
Proof.
  unfold BLOCK_SIZE. apply Z.land_nonneg. left.
  pose proof (get_size_range m p). lia.
Qed.

(** The walk to the tail over a chain of at least two blocks ends with the
    last two. *)
Lemma find_tail_spec m bpool_end :
  forall L a pu b lst fuel,
  lay a (L ++ [b; lst]) -> words m pu (L ++ [b; lst]) ->
  chain_end a (L ++ [b; lst]) = bpool_end -> 0 <= a ->
  bpool_end - a < 2 ^ 32 -> (length L < fuel)%nat ->
  find_tail fuel m a bpool_end = Some (b_addr b, b_addr lst).
Proof.
  induction L as [|c L IH]; intros a pu b lst fuel Hl Hw He Ha Hr Hf.
  - destruct fuel as [|k]; [cbn in Hf; lia|].
    cbn [app lay words chain_end] in *.
    destruct Hl as (Hb1 & Hb2 & Hb3 & Hl1 & Hl2 & Hl3 & _).
    destruct Hw as (Hwb & Hwl & _).
    cbn [find_tail]. cbv zeta. rewrite <- Hb1.
    rewrite (PHYS_NEXT_word _ _ _ _ _ Hwb Hb2) by lia.
    replace (b_addr b + b_size b) with (b_addr lst) by lia.
    rewrite (PHYS_NEXT_word _ _ _ _ _ Hwl Hl2) by lia.
    destruct (Z.ltb_spec (b_addr lst + b_size lst) bpool_end); [lia|].
    reflexivity.
  - destruct fuel as [|k]; [cbn in Hf; lia|].
    cbn [length] in Hf.
    cbn [app lay words chain_end] in Hl, Hw, He.
    destruct Hl as (Hc1 & Hc2 & Hc3 & Hl). destruct Hw as (Hwc & Hw).
    pose proof (lay_end_ge _ _ Hl) as Hge. rewrite He in Hge.
    cbn [find_tail]. cbv zeta. subst a.
    rewrite (PHYS_NEXT_word _ _ _ _ _ Hwc Hc2) by lia.
    assert (Hnext : PHYS_NEXT m (b_addr c + b_size c) < bpool_end).
    { destruct L as [|d L'].
      - cbn [app lay words chain_end] in *.
        destruct Hl as (Hb1 & Hb2 & Hb3 & Hl1 & Hl2 & Hl3 & _).
        destruct Hw as (Hwb & _). rewrite <- Hb1.
        rewrite (PHYS_NEXT_word _ _ _ _ _ Hwb Hb2) by lia. lia.
      - cbn [app lay words chain_end] in *.
        destruct Hl as (Hd1 & Hd2 & Hd3 & Hl). destruct Hw as (Hwd & _).
        pose proof (lay_end_ge _ _ Hl) as Hge'. rewrite He in Hge'.
        assert (Hin : In lst (L' ++ [b; lst]))
          by (apply in_or_app; right; right; left; reflexivity).
        pose proof (lay_bounds _ _ _ Hl Hin) as Hk. rewrite He in Hk.
        rewrite <- Hd1.
        rewrite (PHYS_NEXT_word _ _ _ _ _ Hwd Hd2) by lia. lia. }
    destruct (Z.ltb_spec (PHYS_NEXT m (b_addr c + b_size c)) bpool_end);
      [|lia].
    apply (IH (b_addr c + b_size c) (b_used c)); auto; lia.
Qed.

(** On a pool that is one block the walk stops at once. *)
Lemma find_tail_single m a sz u pu fuel :
  get_size m a = word sz u pu -> sz mod 8 = 0 -> 0 <= sz < 2 ^ 32 ->
  (0 < fuel)%nat ->
  find_tail fuel m a (a + sz) = Some (a, a + sz).
Proof.
  intros Hw Hm Hr Hf. destruct fuel as [|k]; [lia|].
  cbn [find_tail]. cbv zeta. rewrite (PHYS_NEXT_word _ _ _ _ _ Hw Hm Hr).
  unfold PHYS_NEXT at 1. pose proof (BLOCK_SIZE_nonneg m (a + sz)).
  destruct (Z.ltb_spec (a + sz + BLOCK_SIZE m (a + sz)) (a + sz)); [lia|].
  reflexivity.
Qed.

(** The size [est_permalloc] carves: the request rounded up to the
    alignment, in the 32-bit type. *)
Definition permalloc_size (n : Z) : Z :=
  u32 (n + Z.land (- n) ALIGNMENT_MASK).

Lemma permalloc_size_facts (n : Z) :
  0 <= permalloc_size n < 2 ^ 32 /\ permalloc_size n mod 8 = 0.
Proof.
  unfold permalloc_size. change ALIGNMENT_MASK with (Z.ones 3).
  rewrite Z.land_ones by lia. change (2 ^ 3) with 8.
  split; [apply u32_range|]. unfold u32.
  rewrite Z.mod_mod_divide by (exists (2 ^ 29); reflexivity).
  rewrite Z.add_mod_idemp_r by lia. rewrite Z.add_opp_diag_r. reflexivity.
Qed.

Lemma permalloc_size_ge (n : Z) :
  0 <= n -> n + 7 < 2 ^ 32 -> n <= permalloc_size n.
Proof.
  intros H0 H1. unfold permalloc_size. change ALIGNMENT_MASK with (Z.ones 3).
  rewrite Z.land_ones by lia. change (2 ^ 3) with 8.
  pose proof (Z.mod_pos_bound (- n) 8 ltac:(lia)).
  rewrite u32_id by lia. lia.
Qed.

(** What an allocation carved from the tail leaves: the last block of
    the pool starts lower and the returned region is its payload's
    beginning. *)
Definition tail_post (pool : MEMORY_POOL) (lst : blk) (live : list Z)
    (al : Z) (r : Z * MEMORY_POOL) : Prop :=
  exists L' lst' F',
    Inv (snd r) L' lst' F' live
    /\ b_addr lst' <= b_addr lst
    /\ fst r = b_addr lst' + 8
    /\ fst r + al <= BPOOL_END pool
    /\ pool_adrs (snd r) = pool_adrs pool /\ size (snd r) = size pool.

Lemma permalloc_tail_spec pool A pt psz lst F live al :
  Inv pool (A ++ [mkblk pt psz false]) lst F live ->
  0 <= al <= psz - 8 -> al mod 8 = 0 ->
  tail_post pool lst live al (permalloc_tail pool pt (b_addr lst) al).
Proof.
  intros [Hc Hi Hcm Hlv] Hal Halm.
  set (L0 := A ++ [mkblk pt psz false]) in *.
  pose proof (chain_inv_geo_ok _ _ _ Hc) as Hok.
  destruct (chain_around _ _ _ _ _ Hc)
    as (nx & R & ER & Hnxa & Hnxs & Hnxm & Hnxe & HR & HA & Htop & Hsz & Hszm
        & Hpos & Hend & Hlen).
  cbn [app] in ER. inversion ER; subst nx R. clear ER HR.
  destruct (chain_inv_split _ _ _ _ _ Hc)
    as (Hwp & HwA & HwB & _ & HgA & Hpa & _ & _ & HnA & Hput & _).
  cbn [b_addr b_size b_used app words] in *. destruct HwB as [Hwl _].
  rewrite (ci_lst_used _ _ _ Hc) in Hwl.
  assert (Hpu : last_used true A = true).
  { destruct (last_used true A); [reflexivity|].
    specialize (Hput eq_refl). discriminate. }
  rewrite Hpu in Hwp.
  pose proof (ci_lst_end _ _ _ Hc) as Hle.
  set (l := b_addr lst) in *. set (lsz := b_size lst) in *.
  assert (Hbp : In (mkblk pt psz false) L0) by (apply in_middle; auto).
  pose proof (Hcm _ Hbp eq_refl) as HinF. cbn [b_addr b_size] in HinF.
  assert (Hbsz : BLOCK_SIZE (heap pool) pt = psz)
    by (apply (BLOCK_SIZE_word _ _ _ _ _ Hwp Hszm); lia).
  destruct (remove_free_block_spec _ _ Hok pool F pt psz Hi Hbp HinF Hbsz)
    as (l1 & l2 & HF & Hi1 & Hfr & E1 & E2 & E3).
  set (pool1 := remove_free_block pool pt) in *.
  set (F1 := fl_set F (calc_index psz) (l1 ++ l2)) in *.
  destruct (unlinked_facts _ _ _ _ _ _ _ _ Hok (ii_lists _ _ _ Hi) HF)
    as (U1 & U2 & U3). fold F1 in U1, U2, U3.
  set (h1 := heap pool1) in *.
  assert (Hposp : hdr_pos L0 pt).
  { apply (hdr_pos_block (BPOOL_TOP pool) L0 (mkblk pt psz false));
      [apply Hc|exact Hbp]. }
  assert (Hposl : hdr_pos L0 l) by (apply (chain_inv_hdr_lst pool); exact Hc).
  assert (HposA : forall c, In c A -> hdr_pos L0 (b_addr c)).
  { intros c Hin. apply (hdr_pos_block (BPOOL_TOP pool)); [apply Hc|].
    apply in_middle. auto. }
  assert (Hw1p : get_size h1 pt = word psz false true)
    by (unfold h1; rewrite Hfr by exact Hposp; exact Hwp).
  assert (Hw1l : get_size h1 l = word lsz true false)
    by (unfold h1; rewrite Hfr by exact Hposl; exact Hwl).
  assert (HAfree : forall i a sza, In a (F1 i) -> In (mkblk a sza false) L0 ->
            In (mkblk a sza false) A /\ a + sza <= pt).
  { intros i a sza Ha Hb. apply in_middle in Hb.
    destruct Hb as [Hb|[Hb|[]]].
    - split; [exact Hb|]. specialize (HA _ Hb). cbn in HA. lia.
    - inversion Hb; subst a. exfalso. exact (U1 _ Ha). }
  assert (HcmA : forall b, In b A -> b_used b = false ->
            In (b_addr b) (F1 (calc_index (b_size b)))).
  { intros b Hb Hub.
    apply U2; [apply Hcm; [apply in_middle; auto|exact Hub]|].
    specialize (HA _ Hb). lia. }
  assert (HlvA : forall g S', live_ok (A ++ [mkblk pt S' g]) live
                              /\ live_ok A live).
  { intros g S'. split; intros q Hq; destruct (Hlv _ Hq) as (s & Hs);
      exists s; apply in_middle in Hs; destruct Hs as [Hs|[Hs|[]]];
      try discriminate Hs; [apply in_middle; auto|exact Hs]. }
  unfold permalloc_tail. fold pool1. cbv zeta. fold h1.
  rewrite (BLOCK_SIZE_word _ _ _ _ _ Hw1p Hszm) by lia.
  rewrite (u32_id (psz - al)) by lia.
  change ESTALLOC_MIN_MEMORY_BLOCK_SIZE with 32.
  change sizeof_USED_BLOCK with 8.
  destruct (Z.leb_spec (psz - al) 32) as [Hle32|Hgt32].
  - (* the whole block is used *)
    rewrite (BLOCK_SIZE_word _ _ _ _ _ Hw1l Hnxm) by lia.
    assert (Hsum : 0 <= psz + lsz < 2 ^ 32)
      by (unfold BPOOL_TOP, BPOOL_END in *; lia).
    assert (Hsumm : (psz + lsz) mod 8 = 0)
      by (rewrite Zplus_mod, Hszm, Hnxm; reflexivity).
    rewrite Hw1p, word_add, u32_id by (apply word_range; assumption).
    set (m1 := set_size h1 pt (word (psz + lsz) false true)).
    assert (Hwm1 : get_size m1 pt = word (psz + lsz) false true)
      by (unfold m1; apply get_set_word; assumption).
    rewrite (SET_USED_word _ _ _ _ _ Hwm1 Hsumm).
    set (m2 := set_size m1 pt (word (psz + lsz) true true)).
    exists A, (mkblk pt (psz + lsz) true), F1. cbn [fst snd b_addr].
    split; [|cbn [pool_adrs size with_heap];
             unfold BPOOL_END, BPOOL_TOP in *; repeat split; lia].
    assert (Hws : words m2 true (A ++ [mkblk pt (psz + lsz) true])).
    { apply words_app. split.
      * apply (words_frame (heap pool)); [exact HwA|]. intros c Hin.
        unfold m2, m1.
        rewrite !get_set_size_other by (specialize (HA _ Hin); lia).
        apply Hfr. apply HposA. exact Hin.
      * cbn [words b_addr b_size b_used]. split; [|exact I].
        rewrite Hpu. unfold m2. apply get_set_word; assumption. }
    constructor.
    + pose proof Hc as [H1 H2 H3 H4 H5 H6 H7 H8 H9 H10 H11 H12].
      constructor; unfold BPOOL_TOP, BPOOL_END in *;
        cbn [pool_adrs size heap with_heap b_addr b_size b_used];
        rewrite ?E1, ?E2; auto; lia.
    + apply (index_inv_chain _ L0).
      * pose proof (index_inv_hdr_store (BPOOL_TOP pool) L0 pool1 F1 pt
                      (word (psz + lsz) false true) Hok Hi1 Hposp) as X.
        fold h1 in X. fold m1 in X.
        apply (index_inv_hdr_store (BPOOL_TOP pool) L0 _ F1 pt
                 (word (psz + lsz) true true) Hok X Hposp).
      * intros i a sza Ha Hb. apply (HAfree i a sza Ha Hb).
    + exact HcmA.
    + apply (HlvA false 0).
  - (* the end of the block is carved *)
    assert (Hsum : 0 <= lsz + al < 2 ^ 32)
      by (unfold BPOOL_TOP, BPOOL_END in *; lia).
    assert (Hsumm : (lsz + al) mod 8 = 0)
      by (rewrite Zplus_mod, Halm, Hnxm; reflexivity).
    rewrite Hw1l, word_add, u32_id by (apply word_range; assumption).
    set (t' := l - al).
    set (m1 := set_size h1 t' (word (lsz + al) true false)).
    assert (Hwm1 : get_size m1 pt = word psz false true).
    { unfold m1, t'. rewrite get_set_size_other by lia. exact Hw1p. }
    assert (Hrm : (psz - al) mod 8 = 0)
      by (rewrite Zminus_mod, Hszm, Halm; reflexivity).
    rewrite Hwm1.
    replace (word psz false true - al) with (word (psz - al) false true)
      by (unfold word; lia).
    rewrite u32_id by (apply word_range; [assumption|lia]).
    set (m2 := set_size m1 pt (word (psz - al) false true)).
    set (pool2 := with_heap pool1 m2).
    set (lst' := mkblk t' (lsz + al) true).
    assert (Hpd : Pending pool2 A pt (psz - al) false false [] false lst' F1
                          live).
    { constructor; unfold pool2; cbn [heap with_heap app].
      - pose proof Hc as [H1 H2 H3 H4 H5 H6 H7 H8 H9 H10 H11 H12].
        assert (Hg2 : geo (pool_adrs pool + sizeof_MEMORY_POOL)
                          (A ++ [mkblk pt (psz - al) true])).
        { apply geo_app. split; [exact HgA|].
          cbn [geo b_addr b_size]. repeat split; auto; lia. }
        assert (He2 : t' = chain_end (pool_adrs pool + sizeof_MEMORY_POOL)
                                     (A ++ [mkblk pt (psz - al) true])).
        { rewrite chain_end_app. cbn [chain_end b_size].
          unfold t', BPOOL_TOP in *. lia. }
        constructor; unfold BPOOL_TOP, BPOOL_END in *;
          cbn [pool_adrs size heap with_heap b_addr b_size b_used lst'];
          rewrite ?E1, ?E2; auto; unfold t'; lia.
      - apply (words_frame (heap pool)); [exact HwA|]. intros c Hin.
        unfold m2, m1, t'.
        rewrite !get_set_size_other by (specialize (HA _ Hin); lia).
        apply Hfr. apply HposA. exact Hin.
      - rewrite Hpu. unfold m2. apply get_set_word; [assumption|lia].
      - cbn [words lst' b_addr b_size b_used]. split; [|exact I].
        unfold m2, t'. rewrite get_set_size_other by lia.
        unfold m1. apply get_set_word; assumption.
      - exact HnA.
      - exact I.
      - apply (index_inv_chain _ L0).
        + apply (index_inv_changed (BPOOL_TOP pool) L0 pool1 _ F1 pt (l + 4));
            auto.
          * cbn [heap with_heap]. fold h1. unfold m2, m1, t'.
            apply (changed_in_trans _ (set_size h1 (l - al)
                                         (word (lsz + al) true false))).
            -- apply changed_in_set_size; lia.
            -- apply changed_in_set_size; lia.
          * intros i a sza Ha Hb. destruct (HAfree i a sza Ha Hb). lia.
        + intros i a sza Ha Hb. apply in_middle. left.
          apply (HAfree i a sza Ha Hb).
      - intros b Hb Hub. apply in_middle in Hb.
        destruct Hb as [Hb|[->|[]]]; [|discriminate Hub].
        apply HcmA; assumption.
      - apply (HlvA false (psz - al)). }
    destruct (add_pending_spec _ _ _ _ _ _ _ _ _ Hpd Hpu)
      as (F2 & HI2 & E4 & E5 & E6).
    exists (A ++ [mkblk pt (psz - al) false]), lst', F2.
    cbn [fst snd b_addr lst'].
    split; [exact HI2|].
    cbn [pool_adrs size with_heap pool2] in E4, E5.
    unfold BPOOL_END, BPOOL_TOP, t' in *. repeat split; try lia; congruence.
Qed.

(** Whether [est_permalloc] passes its two [goto FALLBACK] tests, so that
    the request is carved from the tail. *)
Definition permalloc_from_tail (fuel : nat) (pool : MEMORY_POOL) (n : Z)
  : bool :=
  match find_tail fuel (heap pool) (BPOOL_TOP pool) (BPOOL_END pool) with
  | None => false
  | Some (prev, tail) =>
      negb (IS_USED_BLOCK (heap pool) prev)
      && negb (u64 (BLOCK_SIZE (heap pool) prev - sizeof_USED_BLOCK)
               <? permalloc_size n)
  end.

(** [est_permalloc] on a consistent pool: it returns; either as
    [est_malloc] does, or with a region at the beginning of the payload of
    the last block, which then starts lower. *)
Theorem est_permalloc_spec pool L0 lst F live n fuel :
  Inv pool L0 lst F live -> size pool < Z.of_nat fuel ->
  exists r,
    est_permalloc fuel pool n = Some r
    /\ ((permalloc_from_tail fuel pool n = false
         /\ (r = (NULL, pool)
             \/ malloc_post pool L0 lst live (alloc_size_of n) r))
        \/ (permalloc_from_tail fuel pool n = true
            /\ tail_post pool lst live (permalloc_size n) r)).
Proof.
  intros HI Hfuel. pose proof (inv_chain _ _ _ _ _ HI) as Hc.
  pose proof (chain_length _ _ _ Hc) as Hlen.
  assert (Hmalloc : exists r,
            est_malloc fuel pool n = Some r
            /\ (r = (NULL, pool)
                \/ malloc_post pool L0 lst live (alloc_size_of n) r)).
  { destruct (est_malloc_spec pool L0 lst F live n fuel HI ltac:(lia))
      as [Em|(r & Em & Hpost)].
    - exists (NULL, pool). auto.
    - exists r. auto. }
  destruct (permalloc_size_facts n) as (Hal & Halm).
  unfold est_permalloc, permalloc_from_tail. cbv zeta.
  fold (permalloc_size n).
  pose proof (chain_inv_lst _ _ _ Hc) as Hkl.
  pose proof (chain_inv_lst_word _ _ _ Hc) as Hwl.
  destruct L0 as [|b0 L0'].
  - (* the pool is one block *)
    cbn [last_used] in Hwl.
    pose proof (ci_lst_addr _ _ _ Hc) as Ea. cbn [chain_end] in Ea.
    pose proof (ci_lst_end _ _ _ Hc) as Ee. rewrite <- Ee, <- Ea.
    rewrite (find_tail_single _ _ _ _ _ fuel Hwl) by lia.
    rewrite (IS_USED_word _ _ _ _ _ Hwl) by lia. cbn [negb andb].
    destruct Hmalloc as (r & Em & Hr). exists r. auto.
  - destruct (@exists_last _ (b0 :: L0') ltac:(discriminate))
      as (A & pb & EL).
    rewrite EL in *. clear EL b0 L0'.
    destruct (chain_inv_lay _ _ _ Hc) as [Hl He].
    rewrite <- app_assoc in Hl, He. cbn [app] in Hl, He.
    pose proof (ci_words _ _ _ Hc) as Hw.
    rewrite <- app_assoc in Hw. cbn [app] in Hw.
    destruct (chain_around _ _ _ _ _ Hc)
      as (nx & R & ER & Hnxa & Hnxs & Hnxm & Hnxe & HR & HA & Htop & Hsz
          & Hszm & Hpos & Hend & Hlen').
    rewrite length_app in Hlen. cbn [length] in Hlen.
    rewrite (find_tail_spec _ _ A _ true pb lst fuel Hl Hw He) by lia.
    destruct (chain_inv_split _ _ _ _ _ Hc) as (Hwp & _).
    rewrite (IS_USED_word _ _ _ _ _ Hwp Hszm).
    destruct (b_used pb) eqn:Hu; cbn [negb andb].
    { destruct Hmalloc as (r & Em & Hr). exists r. auto. }
    rewrite (BLOCK_SIZE_word _ _ _ _ _ Hwp Hszm) by lia.
    change sizeof_USED_BLOCK with 8. rewrite u64_id by lia.
    destruct (Z.ltb_spec (b_size pb - 8) (permalloc_size n)) as [Hlt|Hge];
      cbn [negb].
    { destruct Hmalloc as (r & Em & Hr). exists r. auto. }
    eexists. split; [reflexivity|]. right. split; [reflexivity|].
    destruct pb as [pt psz pu]. cbn [b_addr b_size b_used] in *. subst pu.
    apply (permalloc_tail_spec pool A pt psz lst F live); auto. lia.
Qed.

(** ** [est_calloc] *)

Lemma zero_fill_changed (n : nat) :
  forall m p, changed_in m (zero_fill n m p) p (p + Z.of_nat n).
Proof.
  induction n as [|k IH]; intros m p.
  - apply changed_in_refl.
  - cbn [zero_fill]. apply (changed_in_trans _ (upd m p 0)).
    + apply changed_in_upd. lia.
    + apply (changed_in_weaken _ _ (p + 1) (p + 1 + Z.of_nat k)); [apply IH|lia..].
Qed.

Lemma zero_fill_zero (n : nat) :
  forall m p i, 0 <= i < Z.of_nat n -> zero_fill n m p (p + i) = 0.
Proof.
  induction n as [|k IH]; intros m p i Hi; [lia|].
  cbn [zero_fill]. destruct (Z.eq_dec i 0) as [->|Hne].
  - rewrite (zero_fill_changed k (upd m p 0) (p + 1)) by lia.
    rewrite Z.add_0_r. apply upd_same.
  - replace (p + i) with (p + 1 + (i - 1)) by lia. apply IH. lia.
Qed.

(** What a successful allocation leaves, whatever block was taken. *)
Definition alloc_post (pool : MEMORY_POOL) (lst : blk) (live : list Z)
    (r : Z * MEMORY_POOL) : Prop :=
  fst r <> NULL
  /\ exists L' F',
       Inv (snd r) L' lst F' (fst r :: live)
       /\ pool_adrs (snd r) = pool_adrs pool /\ size (snd r) = size pool.

Lemma geo_end_mod a L : geo a L -> a mod 8 = 0 -> chain_end a L mod 8 = 0.
Proof.
  revert a. induction L as [|b L IH]; intros a Hg Ha; [exact Ha|].
  cbn [geo chain_end] in *. destruct Hg as (_ & Hbm & _ & Hg).
  apply IH; [exact Hg|]. rewrite Zplus_mod, Ha, Hbm. reflexivity.
Qed.

Lemma Inv_live_pos pool L0 lst F live p :
  Inv pool L0 lst F live -> In p live ->
  0 < p - 8 /\ p mod 8 = 0 /\ p <> NULL.
Proof.
  intros HI Hp. destruct (inv_live _ _ _ _ _ HI _ Hp) as (s & Hs).
  pose proof (inv_chain _ _ _ _ _ HI) as Hc.
  pose proof (chain_inv_blk _ _ _ Hc _ Hs) as Hk. cbn in Hk.
  destruct (in_split _ _ Hs) as (A & B & EL). rewrite EL in Hc.
  destruct (chain_inv_split _ _ _ _ _ Hc)
    as (_ & _ & _ & _ & HgA & Hta & _).
  cbn [b_addr] in Hta.
  assert (Hm : (p - 8) mod 8 = 0).
  { rewrite Hta. apply geo_end_mod; [exact HgA|].
    unfold BPOOL_TOP. change sizeof_MEMORY_POOL with 704.
    rewrite Zplus_mod, (ci_align _ _ _ Hc). reflexivity. }
  split; [lia|]. split; [|unfold NULL; lia].
  replace p with (p - 8 + 8) by lia. rewrite Zplus_mod, Hm. reflexivity.
Qed.

Lemma malloc_alloc_post pool L0 lst live al r :
  malloc_post pool L0 lst live al r -> alloc_post pool lst live r.
Proof.
  intros (A & t & sz & B & F' & EL & Hsz & Hf & HI & P1 & P2).
  split.
  - apply (Inv_live_pos _ _ _ _ _ _ HI). rewrite Hf. left. reflexivity.
  - eexists. exists F'. rewrite Hf. split; [exact HI|]. split; assumption.
Qed.

(** The block behind a pointer handed out by [est_malloc]. *)
Lemma malloc_post_usable pool L0 lst F live al r :
  Inv pool L0 lst F live -> malloc_post pool L0 lst live al r ->
  al - 8 <= est_usable_size (snd r) (fst r)
  /\ est_usable_size (snd r) (fst r) mod 8 = 0
  /\ ~ In (fst r) live
  /\ fst r mod 8 = 0.
Proof.
  intros HI0 (A & t & sz & B & F' & EL & Hsz & Hf & HI & P1 & P2).
  pose proof (inv_chain _ _ _ _ _ HI) as Hc.
  destruct (malloc_chain_new A t sz al B Hsz) as (S1 & HS1 & Hbn).
  destruct (in_split _ _ Hbn) as (A2 & B2 & E2).
  pose proof Hc as Hc'. rewrite E2 in Hc'.
  destruct (chain_inv_split _ _ _ _ _ Hc') as (Hw & _).
  pose proof (chain_inv_blk _ _ _ Hc _ Hbn) as Hk.
  cbn [b_addr b_size b_used] in *.
  unfold est_usable_size, BLOCK_ADRS. change sizeof_USED_BLOCK with 8.
  rewrite Hf. replace (t + 8 - 8) with t by lia.
  rewrite (BLOCK_SIZE_word _ _ _ _ _ Hw) by lia.
  rewrite u32_id by lia.
  split; [lia|]. split; [|split].
  - rewrite Zminus_mod. replace (S1 mod 8) with 0 by lia. reflexivity.
  - intros Hin. destruct (inv_live _ _ _ _ _ HI0 _ Hin) as (s & Hs).
    replace (t + 8 - 8) with t in Hs by lia.
    assert (Hbt : In (mkblk t sz false) L0)
      by (rewrite EL; apply in_middle; auto).
    exact (used_free_neq _ _ _ _ _ _
             (ci_geo _ _ _ (inv_chain _ _ _ _ _ HI0)) Hs Hbt eq_refl).
  - apply (Inv_live_pos _ _ _ _ _ _ HI). left. reflexivity.
Qed.

(** [est_calloc] of a total that fits the 32-bit type: it returns; either
    NULL with the pool as it was, or a zeroed payload in a consistent
    pool. *)
Theorem est_calloc_spec pool L0 lst F live nmemb sz fuel :
  Inv pool L0 lst F live -> size pool < Z.of_nat fuel ->
  0 <= nmemb * sz -> nmemb * sz + 15 < 2 ^ 32 ->
  exists r,
    est_calloc fuel pool nmemb sz = Some r
    /\ (r = (NULL, pool)
        \/ (alloc_post pool lst live r
            /\ ~ In (fst r) live
            /\ forall i, 0 <= i < nmemb * sz ->
                 heap (snd r) (fst r + i) = 0)).
Proof.
  intros HI Hfuel H0 H1. pose proof (inv_chain _ _ _ _ _ HI) as Hc.
  pose proof (chain_length _ _ _ Hc) as Hlen.
  unfold est_calloc. cbv zeta. rewrite (u32_id (nmemb * sz)) by lia.
  set (n := nmemb * sz) in *.
  destruct (est_malloc_spec pool L0 lst F live n fuel HI ltac:(lia))
    as [Em|(r1 & Em & Hpost)]; rewrite Em.
  { exists (NULL, pool). split; [reflexivity|]. left. reflexivity. }
  destruct (malloc_post_usable _ _ _ _ _ _ _ HI Hpost)
    as (Hus & _ & Hnl & _).
  pose proof (malloc_alloc_post _ _ _ _ _ _ Hpost) as (Hnn & L' & F' & HI1
                                                        & P1 & P2).
  pose proof (alloc_size_of_ge n H0 H1) as Hge.
  destruct r1 as [q pool1]. cbn [fst snd] in *.
  destruct (Z.eqb_spec q NULL) as [E|_]; [contradiction|]. cbn [negb].
  eexists. split; [reflexivity|]. right. cbn [fst snd heap with_heap].
  split; [|split; [exact Hnl|]].
  - split; [exact Hnn|]. exists L', F'. cbn [fst snd pool_adrs size with_heap].
    split; [|auto].
    destruct (inv_live _ _ _ _ _ HI1 q ltac:(left; reflexivity)) as (S1 & Hb).
    pose proof (inv_chain _ _ _ _ _ HI1) as Hc1.
    destruct (in_split _ _ Hb) as (A2 & B2 & E2).
    pose proof Hc1 as Hc1'. rewrite E2 in Hc1'.
    destruct (chain_inv_split _ _ _ _ _ Hc1') as (Hw & _).
    pose proof (chain_inv_blk _ _ _ Hc1 _ Hb) as Hk.
    cbn [b_addr b_size b_used] in *.
    unfold est_usable_size, BLOCK_ADRS in Hus.
    change sizeof_USED_BLOCK with 8 in Hus.
    rewrite (BLOCK_SIZE_word _ _ _ _ _ Hw) in Hus by lia.
    rewrite u32_id in Hus by lia.
    apply (Inv_payload pool1 L' lst F' _ (q - 8) S1); auto.
    apply (changed_in_weaken _ _ q (q + Z.of_nat (Z.to_nat n)));
      [apply zero_fill_changed|lia..].
  - intros i Hi. apply zero_fill_zero. lia.
Qed.

(** ** The allocator and its client as a transition system *)

(** A state: the pool, the pointers the client may pass to [est_free] and
    [est_realloc], and the regions it got from the tail by
    [est_permalloc]. *)
Record state : Type := mkstate {
  st_pool : MEMORY_POOL;
  st_live : list Z;
  st_perm : list (Z * Z)
}.

Definition add_live (p : Z) (live : list Z) : list Z :=
  if p =? NULL then live else p :: live.

(** One call of the interface, or one store of the client into memory it
    owns.  The calls run with fuel beyond the pool size, with which every
    loop of the model ends.  [est_free] and [est_realloc] get NULL or a
    live pointer; the total of [est_calloc] fits its type. *)
Inductive step (s : state) : state -> Prop :=
| step_malloc fuel n p pool' :
    size (st_pool s) < Z.of_nat fuel ->
    est_malloc fuel (st_pool s) n = Some (p, pool') ->
    step s (mkstate pool' (add_live p (st_live s)) (st_perm s))
| step_calloc fuel nmemb sz p pool' :
    size (st_pool s) < Z.of_nat fuel ->
    0 <= nmemb * sz -> nmemb * sz + 15 < 2 ^ 32 ->
    est_calloc fuel (st_pool s) nmemb sz = Some (p, pool') ->
    step s (mkstate pool' (add_live p (st_live s)) (st_perm s))
| step_realloc fuel p n q pool' :
    size (st_pool s) < Z.of_nat fuel ->
    In p (st_live s) ->
    est_realloc fuel (st_pool s) p n = Some (q, pool') ->
    step s (mkstate pool'
              (if q =? NULL then st_live s
               else q :: remove Z.eq_dec p (st_live s))
              (st_perm s))
| step_realloc_null fuel n q pool' :
    size (st_pool s) < Z.of_nat fuel ->
    est_realloc fuel (st_pool s) NULL n = Some (q, pool') ->
    step s (mkstate pool' (add_live q (st_live s)) (st_perm s))
| step_free p :
    In p (st_live s) ->
    step s (mkstate (est_free (st_pool s) p)
                    (remove Z.eq_dec p (st_live s)) (st_perm s))
| step_free_null :
    step s (mkstate (est_free (st_pool s) NULL) (st_live s) (st_perm s))
| step_permalloc fuel n p pool' :
    size (st_pool s) < Z.of_nat fuel ->
    est_permalloc fuel (st_pool s) n = Some (p, pool') ->
    step s (if permalloc_from_tail fuel (st_pool s) n
            then mkstate pool' (st_live s)
                         ((p, permalloc_size n) :: st_perm s)
            else mkstate pool' (add_live p (st_live s)) (st_perm s))
| step_store p i v :
    In p (st_live s) -> 0 <= i < est_usable_size (st_pool s) p ->
    step s (mkstate (with_heap (st_pool s)
                       (upd (heap (st_pool s)) (p + i) v))
                    (st_live s) (st_perm s))
| step_store_perm p al i v :
    In (p, al) (st_perm s) -> 0 <= i < al ->
    step s (mkstate (with_heap (st_pool s)
                       (upd (heap (st_pool s)) (p + i) v))
                    (st_live s) (st_perm s)).

(** The states reached from [est_init(ptr, bytes)]. *)
Inductive reachable (ptr bytes : Z) : state -> Prop :=
| reach_init m :
    init_ok ptr bytes ->
    reachable ptr bytes (mkstate (est_init m ptr bytes) [] [])
| reach_step s s' :
    reachable ptr bytes s -> step s s' -> reachable ptr bytes s'.

(** The regions carved from the tail lie in the payload of the last
    block. *)
Definition perm_ok (pool : MEMORY_POOL) (lst : blk) (perm : list (Z * Z))
  : Prop :=
  forall p al, In (p, al) perm ->
  b_addr lst + 8 <= p /\ 0 <= al /\ p + al <= BPOOL_END pool.

(** The invariant of a state, with the chain [L0], the last block [lst]
    and the free lists [F] it holds for. *)
Definition Valid_with (s : state) (L0 : list blk) (lst : blk) (F : flists)
  : Prop :=
  Inv (st_pool s) L0 lst F (st_live s) /\ perm_ok (st_pool s) lst (st_perm s).

Definition Valid (s : state) : Prop :=
  exists L0 lst F, Valid_with s L0 lst F.

Lemma perm_ok_down pool pool' lst lst' perm :
  perm_ok pool lst perm -> b_addr lst' <= b_addr lst ->
  pool_adrs pool' = pool_adrs pool -> size pool' = size pool ->
  perm_ok pool' lst' perm.
Proof.
  intros H Hle E1 E2 p al Hin. specialize (H p al Hin).
  unfold BPOOL_END in *. rewrite E1, E2. lia.
Qed.

Lemma alloc_post_valid s lst perm r :
  alloc_post (st_pool s) lst (st_live s) r ->
  perm_ok (st_pool s) lst perm ->
  Valid (mkstate (snd r) (add_live (fst r) (st_live s)) perm).
Proof.
  intros (Hnn & L' & F' & HI & P1 & P2) Hp. exists L', lst, F'.
  unfold add_live. destruct (Z.eqb_spec (fst r) NULL) as [E|_];
    [contradiction|].
  split; cbn [st_pool st_live st_perm]; [exact HI|].
  apply (perm_ok_down (st_pool s) _ lst); auto. lia.
Qed.

Lemma unchanged_valid s pool' live' :
  Valid s -> pool' = st_pool s -> live' = st_live s ->
  Valid (mkstate pool' live' (st_perm s)).
Proof. intros H -> ->. destruct s. exact H. Qed.

Lemma usable_size_live pool L0 lst F live p :
  Inv pool L0 lst F live -> In p live ->
  exists S, In (mkblk (p - 8) S true) L0
            /\ est_usable_size pool p = S - 8
            /\ 32 <= S < 2 ^ 32 /\ S mod 8 = 0
            /\ BLOCK_SIZE (heap pool) (p - 8) = S.
Proof.
  intros HI Hp. destruct (inv_live _ _ _ _ _ HI _ Hp) as (S & Hb).
  pose proof (inv_chain _ _ _ _ _ HI) as Hc.
  pose proof (chain_inv_blk _ _ _ Hc _ Hb) as Hk. cbn in Hk.
  destruct (in_split _ _ Hb) as (A & B & EL).
  pose proof Hc as Hc'. rewrite EL in Hc'.
  destruct (chain_inv_split _ _ _ _ _ Hc') as (Hw & _).
  cbn [b_addr b_size b_used] in Hw.
  assert (Hbs : BLOCK_SIZE (heap pool) (p - 8) = S)
    by (apply (BLOCK_SIZE_word _ _ _ _ _ Hw); lia).
  exists S. split; [exact Hb|]. split; [|split; [lia|split; [lia|exact Hbs]]].
  unfold est_usable_size, BLOCK_ADRS. change sizeof_USED_BLOCK with 8.
  rewrite Hbs. apply u32_id. lia.
Qed.

(** Every step keeps the invariant, and the place and the size of the
    pool. *)
Theorem step_valid s s' :
  Valid s -> step s s' ->
  Valid s'
  /\ pool_adrs (st_pool s') = pool_adrs (st_pool s)
  /\ size (st_pool s') = size (st_pool s).
Proof.
  intros (L0 & lst & F & HI & Hperm) Hstep.
  assert (Hv : Valid s) by (exists L0, lst, F; split; assumption).
  destruct Hstep as [fuel n p pool' Hfuel Hm
                    |fuel nmemb sz p pool' Hfuel H0 H1 Hm
                    |fuel p n q pool' Hfuel Hp Hm
                    |fuel n q pool' Hfuel Hm
                    |p Hp
                    |
                    |fuel n p pool' Hfuel Hm
                    |p i v Hp Hi
                    |p al i v Hp Hi].
  - (* est_malloc *)
    pose proof (chain_length _ _ _ (inv_chain _ _ _ _ _ HI)) as Hlen.
    destruct (est_malloc_spec _ _ _ _ _ n fuel HI ltac:(lia))
      as [Em|(r & Em & Hpost)]; rewrite Em in Hm; inversion Hm; subst.
    + split; [|auto]. apply unchanged_valid; auto.
    + apply malloc_alloc_post in Hpost.
      split; [apply (alloc_post_valid s lst _ (p, pool')); assumption|].
      destruct Hpost as (_ & _ & _ & _ & P1 & P2). auto.
  - (* est_calloc *)
    destruct (est_calloc_spec _ _ _ _ _ nmemb sz fuel HI Hfuel H0 H1)
      as (r & Em & [->|(Hpost & _)]); rewrite Em in Hm; inversion Hm; subst.
    + split; [|auto]. apply unchanged_valid; auto.
    + split; [apply (alloc_post_valid s lst _ (p, pool')); assumption|].
      destruct Hpost as (_ & _ & _ & _ & P1 & P2). auto.
  - (* est_realloc *)
    destruct (est_realloc_spec _ _ _ _ _ p n fuel HI Hp Hfuel)
      as (r & Em & [->|Hpost]); rewrite Em in Hm; inversion Hm; subst.
    + split; [|auto]. apply unchanged_valid; auto.
    + destruct Hpost as (Hnn & L' & F' & HI' & P1 & P2).
      cbn [fst snd] in *.
      destruct (Z.eqb_spec q NULL) as [E|_]; [contradiction|].
      split; [|auto]. exists L', lst, F'. split; [exact HI'|].
      apply (perm_ok_down (st_pool s) _ lst); auto. lia.
  - (* est_realloc of NULL *)
    change (est_realloc fuel (st_pool s) NULL n)
      with (est_malloc fuel (st_pool s) n) in Hm.
    pose proof (chain_length _ _ _ (inv_chain _ _ _ _ _ HI)) as Hlen.
    destruct (est_malloc_spec _ _ _ _ _ n fuel HI ltac:(lia))
      as [Em|(r & Em & Hpost)]; rewrite Em in Hm; inversion Hm; subst.
    + split; [|auto]. apply unchanged_valid; auto.
    + apply malloc_alloc_post in Hpost.
      split; [apply (alloc_post_valid s lst _ (q, pool')); assumption|].
      destruct Hpost as (_ & _ & _ & _ & P1 & P2). auto.
  - (* est_free *)
    destruct (est_free_spec _ _ _ _ _ p HI Hp)
      as (A & S & B & F' & _ & HI' & P1 & P2 & _).
    split; [|auto]. eexists. exists lst, F'. split; [exact HI'|].
    apply (perm_ok_down (st_pool s) _ lst); auto. lia.
  - (* est_free of NULL *)
    split; [|auto]. apply unchanged_valid; auto.
  - (* est_permalloc *)
    destruct (est_permalloc_spec _ _ _ _ _ n fuel HI Hfuel)
      as (r & Em & [(Eft & Hr)|(Eft & Hpost)]); rewrite Em in Hm;
      inversion Hm; subst; rewrite Eft.
    + destruct Hr as [Hr|Hpost].
      * inversion Hr; subst. split; [|auto]. apply unchanged_valid; auto.
      * apply malloc_alloc_post in Hpost.
        split; [apply (alloc_post_valid s lst _ (p, pool')); assumption|].
        destruct Hpost as (_ & _ & _ & _ & P1 & P2). auto.
    + destruct Hpost as (L' & lst' & F' & HI' & Hle & Hf & He & P1 & P2).
      cbn [fst snd] in *. split; [|auto].
      exists L', lst', F'. split; [exact HI'|].
      intros p0 al0 [E|Hin].
      * inversion E; subst p0 al0.
        destruct (permalloc_size_facts n) as (Hal & _).
        unfold BPOOL_END in *. cbn [st_pool]. rewrite P1, P2. lia.
      * apply (perm_ok_down (st_pool s) _ lst _ _ Hperm Hle P1 P2).
        exact Hin.
  - (* a store into a live payload *)
    destruct (usable_size_live _ _ _ _ _ _ HI Hp)
      as (S & Hb & Hus & Hs & _).
    split; [|auto]. exists L0, lst, F. split; [|exact Hperm].
    apply (Inv_payload _ _ _ _ _ (p - 8) S); auto.
    apply changed_in_upd. lia.
  - (* a store into a region from the tail *)
    split; [|auto]. exists L0, lst, F. split; [|exact Hperm].
    apply Inv_payload_last; auto.
    apply changed_in_upd. specialize (Hperm _ _ Hp). cbn [st_pool]. lia.
Qed.

(** Every reachable state satisfies the invariant. *)
Theorem reachable_valid ptr bytes s :
  reachable ptr bytes s ->
  Valid s
  /\ pool_adrs (st_pool s) = ptr
  /\ size (st_pool s) = Z.land bytes (u32 (Z.lnot ALIGNMENT_MASK)).
Proof.
  induction 1 as [m Hok|s s' Hr IH Hs].
  - split; [|split; reflexivity].
    exists (init_chain ptr bytes), (init_last ptr bytes),
           (init_flists ptr bytes).
    split; [apply est_init_spec; exact Hok|]. intros p al [].
  - destruct IH as (Hv & E1 & E2).
    destruct (step_valid _ _ Hv Hs) as (Hv' & P1 & P2).
    split; [exact Hv'|]. split; congruence.
Qed.

(** * What a client can observe of a pool *)

(** The addresses of the blocks met from [block] up to [bpool_end], as
    the loops of [est_take_statistics] and [take_profile] walk them. *)
Fixpoint phys_blocks (fuel : nat) (m : mem) (block bpool_end : Z)
  : option (list Z) :=
  match fuel with
  | O => None
  | S k =>
      if block <? bpool_end then
        match phys_blocks k m (PHYS_NEXT m block) bpool_end with
        | Some l => Some (block :: l)
        | None => None
        end
      else Some []
  end.

(** Whether two neighbours in a list of block addresses are both free. *)
Fixpoint adjacent_free (m : mem) (l : list Z) : bool :=
  match l with
  | [] => false
  | a :: l' =>
      match l' with
      | [] => false
      | b :: _ =>
          (IS_FREE_BLOCK m a && IS_FREE_BLOCK m b) || adjacent_free m l'
      end
  end.

(** The sum of [BLOCK_SIZE] over the blocks from [block] up to
    [bpool_end]. *)
Fixpoint chain_sum (fuel : nat) (m : mem) (block bpool_end : Z)
  : option Z :=
  match fuel with
  | O => None
  | S k =>
      if block <? bpool_end then
        match chain_sum k m (PHYS_NEXT m block) bpool_end with
        | Some t => Some (BLOCK_SIZE m block + t)
        | None => None
        end
      else Some 0
  end.

(** The blocks met from [head] along [next_free]. *)
Fixpoint list_walk (fuel : nat) (m : mem) (head : Z) : list Z :=
  match fuel with
  | O => []
  | S k =>
      if head =? NULL then []
      else head :: list_walk k m (next_free m head)
  end.

Section Walks.
Variables (m : mem) (bpool_end : Z).

Lemma walk_step a pu b M :
  lay a (b :: M) -> words m pu (b :: M) ->
  chain_end a (b :: M) = bpool_end -> bpool_end - a < 2 ^ 32 ->
  a = b_addr b /\ a < bpool_end /\ BLOCK_SIZE m a = b_size b
  /\ PHYS_NEXT m a = a + b_size b
  /\ IS_USED_BLOCK m a = b_used b
  /\ lay (a + b_size b) M /\ words m (b_used b) M
  /\ chain_end (a + b_size b) M = bpool_end
  /\ bpool_end - (a + b_size b) < 2 ^ 32.
Proof.
  intros Hl Hw He Hr. cbn [lay words chain_end] in *.
  destruct Hl as (Ha & Hm & Hs & Hl). destruct Hw as (Hw & Hws).
  pose proof (lay_end_ge _ _ Hl) as Hge. rewrite He in Hge. subst a.
  assert (Hrange : 0 <= b_size b < 2 ^ 32) by lia.
  rewrite (PHYS_NEXT_word _ _ _ _ _ Hw Hm Hrange).
  rewrite (BLOCK_SIZE_word _ _ _ _ _ Hw Hm Hrange).
  rewrite (IS_USED_word _ _ _ _ _ Hw Hm).
  repeat split; auto; lia.
Qed.

Lemma phys_blocks_spec :
  forall M a pu fuel,
  lay a M -> words m pu M -> chain_end a M = bpool_end ->
  bpool_end - a < 2 ^ 32 -> (length M < fuel)%nat ->
  phys_blocks fuel m a bpool_end = Some (map b_addr M).
Proof.
  induction M as [|b M IH]; intros a pu fuel Hl Hw He Hr Hf;
    (destruct fuel as [|k]; [cbn in Hf; lia|]); cbn [phys_blocks].
  - cbn in He. destruct (Z.ltb_spec a bpool_end); [lia|]. reflexivity.
  - destruct (walk_step _ _ _ _ Hl Hw He Hr)
      as (Ha & Hlt & _ & Hn & _ & Hl' & Hw' & He' & Hr').
    destruct (Z.ltb_spec a bpool_end); [|lia].
    rewrite Hn. cbn [length] in Hf.
    rewrite (IH _ _ k Hl' Hw' He' Hr') by lia.
    cbn [map]. rewrite Ha. reflexivity.
Qed.

Lemma chain_sum_spec :
  forall M a pu fuel,
  lay a M -> words m pu M -> chain_end a M = bpool_end ->
  bpool_end - a < 2 ^ 32 -> (length M < fuel)%nat ->
  chain_sum fuel m a bpool_end = Some (bpool_end - a).
Proof.
  induction M as [|b M IH]; intros a pu fuel Hl Hw He Hr Hf;
    (destruct fuel as [|k]; [cbn in Hf; lia|]); cbn [chain_sum].
  - cbn in He. destruct (Z.ltb_spec a bpool_end); [lia|].
    f_equal. lia.
  - destruct (walk_step _ _ _ _ Hl Hw He Hr)
      as (Ha & Hlt & Hbs & Hn & _ & Hl' & Hw' & He' & Hr').
    destruct (Z.ltb_spec a bpool_end); [|lia].
    rewrite Hn, Hbs. cbn [length] in Hf.
    rewrite (IH _ _ k Hl' Hw' He' Hr') by lia.
    f_equal. lia.
Qed.

Lemma adjacent_free_spec :
  forall M a pu,
  lay a M -> words m pu M -> no_adj true M ->
  adjacent_free m (map b_addr M) = false.
Proof.
  induction M as [|b M IH]; intros a pu Hl Hw Hn; [reflexivity|].
  destruct M as [|c M']; [reflexivity|].
  cbn [lay words no_adj] in Hl, Hw, Hn.
  destruct Hl as (Ha & Hbm & Hbs & Hc & Hcm & Hcs & Hl).
  destruct Hw as (Hwb & Hwc & Hw). destruct Hn as (_ & Hbc & Hn).
  change (adjacent_free m (map b_addr (b :: c :: M')))
    with ((IS_FREE_BLOCK m (b_addr b) && IS_FREE_BLOCK m (b_addr c))
          || adjacent_free m (map b_addr (c :: M'))).
  rewrite (IS_FREE_word _ _ _ _ _ Hwb Hbm), (IS_FREE_word _ _ _ _ _ Hwc Hcm).
  rewrite (IH (a + b_size b) (b_used b)).
  - destruct (b_used b); [reflexivity|]. rewrite Hbc by reflexivity.
    reflexivity.
  - cbn [lay]. auto.
  - cbn [words]. auto.
  - cbn [no_adj]. split; [discriminate|exact Hn].
Qed.
End Walks.

Lemma list_walk_incl m :
  forall l prev head fuel,
  dll m prev l head -> incl (list_walk fuel m head) l.
Proof.
  induction l as [|a l IH]; intros prev head fuel Hd;
    (destruct fuel as [|k]; [intros x []|]); cbn [list_walk].
  - cbn in Hd. rewrite Hd. intros x [].
  - cbn [dll] in Hd. destruct Hd as (-> & Hn & _ & Hd).
    destruct (Z.eqb_spec a NULL) as [|_]; [contradiction|].
    intros x [<-|Hx]; [left; reflexivity|].
    right. exact (IH _ _ _ Hd x Hx).
Qed.

Lemma no_adj_last L lst :
  no_adj true L -> b_used lst = true -> no_adj true (L ++ [lst]).
Proof.
  intros Hn Hu. apply no_adj_app. split; [exact Hn|].
  cbn [no_adj]. auto.
Qed.

(** The walks over a consistent pool. *)
Lemma Inv_walks pool L0 lst F live fuel :
  Inv pool L0 lst F live -> size pool < Z.of_nat fuel ->
  phys_blocks fuel (heap pool) (BPOOL_TOP pool) (BPOOL_END pool)
  = Some (map b_addr (L0 ++ [lst]))
  /\ adjacent_free (heap pool) (map b_addr (L0 ++ [lst])) = false
  /\ chain_sum fuel (heap pool) (BPOOL_TOP pool) (BPOOL_END pool)
     = Some (size pool - sizeof_MEMORY_POOL).
Proof.
  intros HI Hfuel. pose proof (inv_chain _ _ _ _ _ HI) as Hc.
  destruct (chain_inv_lay _ _ _ Hc) as [Hl He].
  pose proof (ci_words _ _ _ Hc) as Hw.
  pose proof (chain_length _ _ _ Hc) as Hlen.
  pose proof (chain_inv_lst _ _ _ Hc) as Hk.
  assert (Hr : BPOOL_END pool - BPOOL_TOP pool < 2 ^ 32).
  { unfold BPOOL_END, BPOOL_TOP. pose proof (ci_size _ _ _ Hc).
    change sizeof_MEMORY_POOL with 704. lia. }
  assert (Hf : (length (L0 ++ [lst]) < fuel)%nat).
  { rewrite length_app. cbn [length]. lia. }
  split; [|split].
  - apply (phys_blocks_spec _ _ _ _ true); assumption.
  - apply (adjacent_free_spec _ _ (BPOOL_TOP pool) true); auto.
    apply no_adj_last; [apply Hc|apply Hc].
  - rewrite (chain_sum_spec _ _ _ _ true fuel Hl Hw He Hr Hf).
    f_equal. unfold BPOOL_END, BPOOL_TOP. lia.
Qed.

(** ** The statistics *)

(** The counters of [est_take_statistics] over a chain of blocks. *)
Fixpoint stat_fold (M : list blk) (flag_used_free : bool)
    (st : ESTALLOC_STAT) : ESTALLOC_STAT :=
  match M with
  | [] => st
  | b :: M' =>
      let st :=
        if negb (b_used b)
        then mkSTAT (stat_total st) (stat_used st)
                    (u32 (stat_free st + b_size b)) (stat_frag st)
        else mkSTAT (stat_total st) (u32 (stat_used st + b_size b))
                    (stat_free st) (stat_frag st) in
      if negb (Bool.eqb flag_used_free (b_used b))
      then stat_fold M' (b_used b)
             (mkSTAT (stat_total st) (stat_used st) (stat_free st)
                     (u32 (stat_frag st + 1)))
      else stat_fold M' flag_used_free st
  end.

Lemma stat_walk_spec m bpool_end :
  forall M a pu fuel flag st,
  lay a M -> words m pu M -> chain_end a M = bpool_end ->
  bpool_end - a < 2 ^ 32 -> (length M < fuel)%nat ->
  stat_walk fuel m a bpool_end flag st = Some (stat_fold M flag st).
Proof.
  induction M as [|b M IH]; intros a pu fuel flag st Hl Hw He Hr Hf;
    (destruct fuel as [|k]; [cbn in Hf; lia|]); cbn [stat_walk stat_fold].
  - cbn in He. destruct (Z.ltb_spec a bpool_end); [lia|]. reflexivity.
  - destruct (walk_step _ _ _ _ _ _ Hl Hw He Hr)
      as (Ha & Hlt & Hbs & Hn & Hu & Hl' & Hw' & He' & Hr').
    destruct (Z.ltb_spec a bpool_end); [|lia].
    unfold IS_FREE_BLOCK. rewrite Hn, Hbs, Hu. cbn [length] in Hf.
    cbv zeta.
    destruct (negb (b_used b)); destruct (negb (Bool.eqb flag (b_used b)));
      apply (IH _ _ k _ _ Hl' Hw' He' Hr'); lia.
Qed.

(** The statistics of a pool of [total] bytes whose chain is [M]. *)
Definition stats_of (total : Z) (M : list blk) : ESTALLOC_STAT :=
  stat_fold M (b_used (hd (mkblk 0 0 true) M)) (mkSTAT total 0 0 (u32 (-1))).

Lemma Inv_statistics pool L0 lst F live fuel :
  Inv pool L0 lst F live -> size pool < Z.of_nat fuel ->
  est_take_statistics sizeof_MEMORY_POOL fuel pool
  = Some (with_est pool
            (mkEST (stats_of (size pool) (L0 ++ [lst])) (prof (est pool))
                   (error_message (est pool)))).
Proof.
  intros HI Hfuel. pose proof (inv_chain _ _ _ _ _ HI) as Hc.
  destruct (chain_inv_lay _ _ _ Hc) as [Hl He].
  pose proof (ci_words _ _ _ Hc) as Hw.
  pose proof (chain_length _ _ _ Hc) as Hlen.
  assert (Hr : BPOOL_END pool - BPOOL_TOP pool < 2 ^ 32).
  { unfold BPOOL_END, BPOOL_TOP. pose proof (ci_size _ _ _ Hc).
    change sizeof_MEMORY_POOL with 704. lia. }
  assert (Hf : (length (L0 ++ [lst]) < fuel)%nat).
  { rewrite length_app. cbn [length]. lia. }
  unfold est_take_statistics. cbv zeta.
  change (pool_adrs pool + sizeof_MEMORY_POOL) with (BPOOL_TOP pool).
  rewrite (stat_walk_spec _ _ _ _ true fuel _ _ Hl Hw He Hr Hf).
  unfold stats_of.
  destruct (L0 ++ [lst]) as [|b M] eqn:E; [destruct L0; discriminate E|].
  destruct (walk_step _ _ _ _ _ _ Hl Hw He Hr)
    as (Ha & _ & _ & _ & Hu & _).
  rewrite Hu. reflexivity.
Qed.

(** * The claims of the specification *)

(** ** Size classes *)

Lemma land_ones3_le (x : Z) : Z.land x (Z.ones 3) <= 7.
Proof.
  rewrite Z.land_ones by lia.
  pose proof (Z.mod_pos_bound x (2 ^ 3) ltac:(lia)) as H.
  change (2 ^ 3) with 8 in *. lia.
Qed.

Lemma calc_index_asserts_hold (s : Z) : 0 <= s -> calc_index_asserts s = true.
Proof.
  intros Hs. unfold calc_index_asserts.
  change (ESTALLOC_FLI_BIT_WIDTH + ESTALLOC_SLI_BIT_WIDTH
          + ESTALLOC_IGNORE_LSBS) with 17.
  change (ESTALLOC_SLI_BIT_WIDTH + ESTALLOC_IGNORE_LSBS) with 8.
  change (Z.shiftl 1 ESTALLOC_SLI_BIT_WIDTH - 1) with (Z.ones 3).
  change ESTALLOC_FLI_BIT_WIDTH with 9.
  destruct (Z.eqb_spec (Z.shiftr s 17) 0) as [E|E]; cbn [negb];
    [|reflexivity].
  cbv zeta. apply andb_true_iff. split.
  - apply Z.leb_le.
    assert (Hlt : s < 2 ^ 17).
    { rewrite Z.shiftr_div_pow2 in E by lia.
      destruct (Z_lt_le_dec s (2 ^ 17)) as [|Hge]; [assumption|].
      assert (1 <= s / 2 ^ 17) by (apply Z.div_le_lower_bound; lia). lia. }
    assert (Hx : 0 <= Z.shiftr s 8 < 2 ^ 9).
    { rewrite Z.shiftr_div_pow2 by lia. split; [apply Z.div_pos; lia|].
      apply Z.div_lt_upper_bound; [lia|].
      change (2 ^ 8 * 2 ^ 9) with (2 ^ 17). exact Hlt. }
    rewrite (u16_id (Z.shiftr s 8)) by lia.
    set (x := Z.shiftr s 8) in *.
    destruct (Z.eq_dec x 0) as [->|Hne]; [vm_compute; discriminate|].
    destruct (nlz16_spec x ltac:(lia)) as (Hn & Hbit & _).
    assert (Hb : 15 - nlz16 x < 9).
    { destruct (Z_lt_le_dec (15 - nlz16 x) 9) as [|Hge]; [assumption|].
      exfalso. rewrite (Z.bits_above_log2 x (15 - nlz16 x)) in Hbit;
        [discriminate|lia|].
      apply Z.log2_lt_pow2; [lia|].
      apply Z.lt_le_trans with (2 ^ 9); [lia|].
      apply Z.pow_le_mono_r; lia. }
    lia.
  - apply Z.leb_le. apply land_ones3_le.
Qed.

(** C10: for every size [s], zero and the sizes past the overflow clamp
    included, [calc_index s] is below [SIZE_FREE_BLOCKS], which is
    [(FLI_BITS + 1) * 2^SLI_BITS]; so the index into [free_blocks]
    ([SIZE_FREE_BLOCKS + 1] entries), the row [FLI] into
    [free_sli_bitmap] ([FLI_BITS + 2] entries) and the bit positions
    [FLI] and [SLI] used by [add_free_block] and [remove_free_block] are
    within bounds, and the assertions of [calc_index] and of
    [add_free_block] hold. *)
Theorem calc_index_in_bounds (s : Z) :
  0 <= s ->
  0 <= calc_index s < SIZE_FREE_BLOCKS
  /\ SIZE_FREE_BLOCKS
     = (ESTALLOC_FLI_BIT_WIDTH + 1) * 2 ^ ESTALLOC_SLI_BIT_WIDTH
  /\ calc_index s < SIZE_FREE_BLOCKS + 1
  /\ 0 <= FLI (calc_index s) < ESTALLOC_FLI_BIT_WIDTH + 1 + 1
  /\ 0 <= FLI (calc_index s) < 16
  /\ 0 <= SLI (calc_index s) < 8
  /\ calc_index_asserts s = true
  /\ (forall m target, add_free_block_assert m target = true).
Proof.
  intros Hs. pose proof (calc_index_range s Hs) as Hr.
  destruct (FLI_SLI_range _ Hr) as (Hf & Hl & _).
  change (Z.shiftl 1 ESTALLOC_SLI_BIT_WIDTH - 1) with 7 in Hl.
  change ESTALLOC_FLI_BIT_WIDTH with 9 in *.
  split; [exact Hr|]. split; [reflexivity|].
  split; [lia|]. split; [lia|]. split; [lia|]. split; [lia|].
  split; [apply calc_index_asserts_hold; exact Hs|].
  intros m target. unfold add_free_block_assert. cbv zeta. apply Z.ltb_lt.
  apply calc_index_range. apply BLOCK_SIZE_nonneg.
Qed.

Lemma calc_index_in_bounds_witness :
  0 <= calc_index (2 ^ 31) < SIZE_FREE_BLOCKS
  /\ SIZE_FREE_BLOCKS
     = (ESTALLOC_FLI_BIT_WIDTH + 1) * 2 ^ ESTALLOC_SLI_BIT_WIDTH
  /\ calc_index (2 ^ 31) < SIZE_FREE_BLOCKS + 1
  /\ 0 <= FLI (calc_index (2 ^ 31)) < ESTALLOC_FLI_BIT_WIDTH + 1 + 1
  /\ 0 <= FLI (calc_index (2 ^ 31)) < 16
  /\ 0 <= SLI (calc_index (2 ^ 31)) < 8
  /\ calc_index_asserts (2 ^ 31) = true
  /\ (forall m target, add_free_block_assert m target = true).
Proof. apply (calc_index_in_bounds (2 ^ 31)). lia. Defined.

(** C5: [calc_index] is monotone non-decreasing; every size is at least
    the nominal minimum of its class; hence a block on the list of a
    class, of size [s2], is large enough for every request whose
    effective size [s1] maps to a class strictly below. *)
Theorem calc_index_monotone (s1 s2 : Z) :
  0 <= s1 -> 0 <= s2 ->
  (s1 <= s2 -> calc_index s1 <= calc_index s2)
  /\ class_min (calc_index s2) <= s2
  /\ (calc_index s1 < calc_index s2 -> s1 <= s2).
Proof.
  intros H1 H2. split; [|split].
  - intros Hle. apply calc_index_mono. lia.
  - apply class_min_calc_index. exact H2.
  - intros Hlt. pose proof (calc_index_lt_size s1 s2 H1 H2 Hlt). lia.
Qed.

Lemma calc_index_monotone_witness :
  (100 <= 4000 -> calc_index 100 <= calc_index 4000)
  /\ class_min (calc_index 4000) <= 4000
  /\ (calc_index 100 < calc_index 4000 -> 100 <= 4000).
Proof. apply (calc_index_monotone 100 4000); lia. Defined.

(** ** Concrete pools *)

(** A buffer of zero bytes, and the pools [est_init] makes of 4096 and of
    728 bytes of it at address 4096. *)
Definition demo_mem : mem := fun _ => 0.
Definition demo_pool : MEMORY_POOL := est_init demo_mem 4096 4096.
Definition demo_state : state := mkstate demo_pool [] [].
Definition tiny_pool : MEMORY_POOL := est_init demo_mem 4096 728.

Lemma demo_init_ok : init_ok 4096 4096.
Proof. unfold init_ok. repeat split; vm_compute; congruence. Qed.

Lemma demo_reachable : reachable 4096 4096 demo_state.
Proof. apply reach_init. exact demo_init_ok. Qed.

Lemma reachable_init_ok ptr bytes s : reachable ptr bytes s -> init_ok ptr bytes.
Proof. induction 1; assumption. Qed.

(** ** Allocation *)

Lemma malloc_post_block pool L0 lst F live al r :
  Inv pool L0 lst F live -> malloc_post pool L0 lst live al r ->
  exists t sz,
    In (mkblk t sz false) L0 /\ fst r = t + 8
    /\ est_usable_size (snd r) (fst r) <= sz - 8.
Proof.
  intros HI0 (A & t & sz & B & F' & EL & Hsz & Hf & HI & P1 & P2).
  exists t, sz. split; [rewrite EL; apply in_middle; auto|].
  split; [exact Hf|].
  destruct (usable_size_live _ _ _ _ _ _ HI ltac:(left; reflexivity))
    as (S1 & Hb & Hus & _).
  rewrite Hf in *. rewrite Hus.
  replace (t + 8 - 8) with t in Hb by lia.
  pose proof (ci_geo _ _ _ (inv_chain _ _ _ _ _ HI0)) as Hg.
  rewrite EL in Hg.
  apply geo_split in Hg as (_ & _ & _ & Hsz32 & _ & HA & HB).
  cbn [b_addr b_size] in *.
  unfold malloc_chain in Hb.
  destruct (sz - al <=? 32); apply in_middle in Hb.
  - destruct Hb as [Hb|[Hb|Hb]].
    + specialize (HA _ Hb). cbn in HA. lia.
    + inversion Hb. lia.
    + specialize (HB _ Hb). cbn in HB. lia.
  - destruct Hb as [Hb|[Hb|[Hb|Hb]]].
    + specialize (HA _ Hb). cbn in HA. lia.
    + inversion Hb. lia.
    + discriminate Hb.
    + specialize (HB _ Hb). cbn in HB. lia.
Qed.

(** C1 (amended): in a reachable state, for a request [n] with
    [n + 15 < 2^32] (so that the effective size does not wrap),
    [est_malloc] returns, either NULL or a pointer that is aligned, whose
    usable size is at least [n] and a multiple of the alignment, and that
    is no live pointer and lies below every region carved from the tail. *)
Theorem malloc_returns_block ptr bytes s n fuel :
  reachable ptr bytes s -> size (st_pool s) < Z.of_nat fuel ->
  0 <= n -> n + 15 < 2 ^ 32 ->
  exists p pool',
    est_malloc fuel (st_pool s) n = Some (p, pool')
    /\ (p = NULL
        \/ (p mod ESTALLOC_ALIGNMENT = 0
            /\ n <= est_usable_size pool' p
            /\ est_usable_size pool' p mod ESTALLOC_ALIGNMENT = 0
            /\ ~ In p (st_live s)
            /\ forall q al, In (q, al) (st_perm s) ->
                 p + est_usable_size pool' p <= q)).
Proof.
  intros Hr Hfuel H0 H1.
  destruct (reachable_valid _ _ _ Hr) as ((L0 & lst & F & HI & Hperm) & _).
  pose proof (chain_length _ _ _ (inv_chain _ _ _ _ _ HI)) as Hlen.
  destruct (est_malloc_spec _ _ _ _ _ n fuel HI ltac:(lia))
    as [Em|([p pool'] & Em & Hpost)].
  - exists NULL, (st_pool s). split; [exact Em|]. left. reflexivity.
  - exists p, pool'. split; [exact Em|]. right.
    destruct (malloc_post_usable _ _ _ _ _ _ _ HI Hpost)
      as (Hus & Hum & Hnl & Hpm).
    destruct (malloc_post_block _ _ _ _ _ _ _ HI Hpost)
      as (t & sz & Hb & Hf & Hle).
    pose proof (alloc_size_of_ge n H0 H1) as Hge.
    cbn [fst snd] in *. change ESTALLOC_ALIGNMENT with 8.
    repeat split; auto; try lia.
    intros q al Hq. specialize (Hperm _ _ Hq).
    pose proof (chain_inv_blk _ _ _ (inv_chain _ _ _ _ _ HI) _ Hb) as Hk.
    cbn in Hk. lia.
Qed.

Lemma malloc_returns_block_witness :
  exists p pool',
    est_malloc 4097 (st_pool demo_state) 100 = Some (p, pool')
    /\ (p = NULL
        \/ (p mod ESTALLOC_ALIGNMENT = 0
            /\ 100 <= est_usable_size pool' p
            /\ est_usable_size pool' p mod ESTALLOC_ALIGNMENT = 0
            /\ ~ In p (st_live demo_state)
            /\ forall q al, In (q, al) (st_perm demo_state) ->
                 p + est_usable_size pool' p <= q)).
Proof.
  apply (malloc_returns_block 4096 4096 demo_state 100 4097).
  - apply reach_init. unfold init_ok. repeat split; vm_compute; congruence.
  - vm_compute. reflexivity.
  - lia.
  - lia.
Defined.

(** The request [2^32 - 1] on the 4096-byte pool: the effective size
    wraps to the minimum and the block handed out has 24 usable bytes. *)
Lemma malloc_wraps_request :
  match est_malloc 4097 demo_pool (2 ^ 32 - 1) with
  | Some (p, pool') =>
      p <> NULL /\ est_usable_size pool' p = 24 /\ 24 < 2 ^ 32 - 1
  | None => False
  end.
Proof. vm_compute. repeat split; congruence. Qed.

(** C2: in a reachable state each of [est_malloc], [est_calloc],
    [est_realloc] (of NULL or a live pointer) and [est_permalloc] returns,
    and when it returns NULL the pool it leaves is the pool it got: no
    field of the header and no byte of the buffer differs, so the block
    and the payload of a pointer given to [est_realloc] are as before. *)
Theorem null_return_keeps_pool ptr bytes s fuel :
  reachable ptr bytes s -> size (st_pool s) < Z.of_nat fuel ->
  (forall n, exists r,
     est_malloc fuel (st_pool s) n = Some r
     /\ (fst r = NULL -> snd r = st_pool s))
  /\ (forall nmemb sz, exists r,
        est_calloc fuel (st_pool s) nmemb sz = Some r
        /\ (fst r = NULL -> snd r = st_pool s))
  /\ (forall p n, p = NULL \/ In p (st_live s) -> exists r,
        est_realloc fuel (st_pool s) p n = Some r
        /\ (fst r = NULL -> snd r = st_pool s))
  /\ (forall n, exists r,
        est_permalloc fuel (st_pool s) n = Some r
        /\ (fst r = NULL -> snd r = st_pool s)).
Proof.
  intros Hr Hfuel.
  destruct (reachable_valid _ _ _ Hr) as ((L0 & lst & F & HI & Hperm) & _).
  pose proof (chain_length _ _ _ (inv_chain _ _ _ _ _ HI)) as Hlen.
  assert (Hmal : forall n, exists r,
            est_malloc fuel (st_pool s) n = Some r
            /\ (r = (NULL, st_pool s) \/ fst r <> NULL)).
  { intros n. destruct (est_malloc_spec _ _ _ _ _ n fuel HI ltac:(lia))
      as [Em|(r & Em & Hpost)].
    - exists (NULL, st_pool s). auto.
    - exists r. split; [exact Em|]. right.
      apply (malloc_alloc_post _ _ _ _ _ _ Hpost). }
  split; [|split; [|split]].
  - intros n. destruct (Hmal n) as (r & Em & [->|Hnn]); exists r || eexists;
      (split; [exact Em|]); [reflexivity|contradiction].
  - intros nmemb sz. unfold est_calloc. cbv zeta.
    destruct (Hmal (u32 (nmemb * sz))) as (r & Em & [->|Hnn]); rewrite Em.
    + eexists. split; [reflexivity|]. reflexivity.
    + destruct r as [q pool1]. cbn [fst] in Hnn.
      destruct (Z.eqb_spec q NULL) as [|_]; [contradiction|].
      eexists. split; [reflexivity|]. cbn [fst]. contradiction.
  - intros p n [->|Hp].
    + change (est_realloc fuel (st_pool s) NULL n)
        with (est_malloc fuel (st_pool s) n).
      destruct (Hmal n) as (r & Em & [->|Hnn]); eexists;
        (split; [exact Em|]); [reflexivity|contradiction].
    + destruct (est_realloc_spec _ _ _ _ _ p n fuel HI Hp Hfuel)
        as (r & Em & [->|(Hnn & _)]); eexists; (split; [exact Em|]);
        [reflexivity|contradiction].
  - intros n.
    destruct (est_permalloc_spec _ _ _ _ _ n fuel HI Hfuel)
      as (r & Em & [(_ & [->|Hpost])|(_ & Hpost)]); eexists;
      (split; [exact Em|]).
    + reflexivity.
    + intros E. exfalso.
      exact (proj1 (malloc_alloc_post _ _ _ _ _ _ Hpost) E).
    + intros E. exfalso.
      destruct Hpost as (L' & lst' & F' & HI' & _ & Hf & _).
      pose proof (chain_inv_lst _ _ _ (inv_chain _ _ _ _ _ HI')).
      unfold NULL in E. lia.
Qed.

Lemma null_return_keeps_pool_witness :
  (forall n, exists r,
     est_malloc 4097 (st_pool demo_state) n = Some r
     /\ (fst r = NULL -> snd r = st_pool demo_state))
  /\ (forall nmemb sz, exists r,
        est_calloc 4097 (st_pool demo_state) nmemb sz = Some r
        /\ (fst r = NULL -> snd r = st_pool demo_state))
  /\ (forall p n, p = NULL \/ In p (st_live demo_state) -> exists r,
        est_realloc 4097 (st_pool demo_state) p n = Some r
        /\ (fst r = NULL -> snd r = st_pool demo_state))
  /\ (forall n, exists r,
        est_permalloc 4097 (st_pool demo_state) n = Some r
        /\ (fst r = NULL -> snd r = st_pool demo_state)).
Proof.
  apply (null_return_keeps_pool 4096 4096 demo_state 4097).
  - apply reach_init. unfold init_ok. repeat split; vm_compute; congruence.
  - vm_compute. reflexivity.
Defined.

(** ** The block chain *)

(** C3 (amended): in every state reached from an [est_init] whose buffer
    has room for the header, a minimal block and the sentinel, by calls in
    which [est_free] and [est_realloc] get NULL or a live pointer and the
    total of [est_calloc] fits its type, the walk over the physical blocks
    ends at the end of the pool and no two neighbours are both free. *)
Theorem no_adjacent_free_blocks ptr bytes s fuel :
  reachable ptr bytes s -> size (st_pool s) < Z.of_nat fuel ->
  exists chain,
    phys_blocks fuel (heap (st_pool s)) (BPOOL_TOP (st_pool s))
                (BPOOL_END (st_pool s)) = Some chain
    /\ adjacent_free (heap (st_pool s)) chain = false.
Proof.
  intros Hr Hfuel.
  destruct (reachable_valid _ _ _ Hr) as ((L0 & lst & F & HI & Hperm) & _).
  destruct (Inv_walks _ _ _ _ _ fuel HI Hfuel) as (Hp & Ha & _).
  exists (map b_addr (L0 ++ [lst])). split; assumption.
Qed.

Lemma no_adjacent_free_blocks_witness :
  exists chain,
    phys_blocks 4097 (heap (st_pool demo_state))
                (BPOOL_TOP (st_pool demo_state))
                (BPOOL_END (st_pool demo_state)) = Some chain
    /\ adjacent_free (heap (st_pool demo_state)) chain = false.
Proof.
  apply (no_adjacent_free_blocks 4096 4096 demo_state 4097).
  - apply reach_init. unfold init_ok. repeat split; vm_compute; congruence.
  - vm_compute. reflexivity.
Defined.

(** [est_init] of 728 bytes passes its assertions and leaves a first
    block that is free, followed inside the pool by a block that is free
    too (its size word was overwritten by the list links of the first). *)
Lemma tiny_pool_adjacent_free :
  est_init_asserts 4096 728 = true
  /\ IS_FREE_BLOCK (heap tiny_pool) (BPOOL_TOP tiny_pool) = true
  /\ PHYS_NEXT (heap tiny_pool) (BPOOL_TOP tiny_pool) < BPOOL_END tiny_pool
  /\ IS_FREE_BLOCK (heap tiny_pool)
       (PHYS_NEXT (heap tiny_pool) (BPOOL_TOP tiny_pool)) = true
  /\ adjacent_free (heap tiny_pool)
       [BPOOL_TOP tiny_pool;
        PHYS_NEXT (heap tiny_pool) (BPOOL_TOP tiny_pool)] = true.
Proof. vm_compute. repeat split; congruence. Qed.

(** C4 (amended): in every such state the size words of the blocks from
    the first through the last sum to the pool size minus the size of the
    pool header, the pool size being the size given to [est_init] rounded
    down to the alignment. *)
Theorem chain_tiles_pool ptr bytes s fuel :
  reachable ptr bytes s -> size (st_pool s) < Z.of_nat fuel ->
  chain_sum fuel (heap (st_pool s)) (BPOOL_TOP (st_pool s))
            (BPOOL_END (st_pool s))
  = Some (bytes - bytes mod ESTALLOC_ALIGNMENT - sizeof_MEMORY_POOL)
  /\ size (st_pool s) = bytes - bytes mod ESTALLOC_ALIGNMENT.
Proof.
  intros Hr Hfuel.
  destruct (reachable_valid _ _ _ Hr)
    as ((L0 & lst & F & HI & Hperm) & _ & Es).
  destruct (Inv_walks _ _ _ _ _ fuel HI Hfuel) as (_ & _ & Hs).
  destruct (reachable_init_ok _ _ _ Hr) as (Ha & _ & _ & Hmin).
  assert (Hb : 0 <= bytes < 2 ^ 32).
  { unfold est_init_asserts in Ha.
    repeat (apply andb_true_iff in Ha as [Ha ?]).
    change (u32 (Z.lnot 0)) with (2 ^ 32 - 1) in *.
    change sizeof_MEMORY_POOL with 704 in Hmin.
    change ESTALLOC_MIN_MEMORY_BLOCK_SIZE with 32 in Hmin.
    change sizeof_USED_BLOCK with 8 in Hmin. lia. }
  rewrite (round_down_8 bytes Hb) in Es. change ESTALLOC_ALIGNMENT with 8.
  pose proof (Z.div_mod bytes 8 ltac:(lia)).
  replace (bytes - bytes mod 8) with (8 * (bytes / 8)) by lia.
  rewrite <- Es. split; [exact Hs|reflexivity].
Qed.

Lemma chain_tiles_pool_witness :
  chain_sum 4097 (heap (st_pool demo_state)) (BPOOL_TOP (st_pool demo_state))
            (BPOOL_END (st_pool demo_state))
  = Some (4096 - 4096 mod ESTALLOC_ALIGNMENT - sizeof_MEMORY_POOL)
  /\ size (st_pool demo_state) = 4096 - 4096 mod ESTALLOC_ALIGNMENT.
Proof.
  apply (chain_tiles_pool 4096 4096 demo_state 4097).
  - apply reach_init. unfold init_ok. repeat split; vm_compute; congruence.
  - vm_compute. reflexivity.
Defined.

Lemma tiny_pool_walk_stuck (fuel : nat) :
  chain_sum fuel (heap tiny_pool) (BPOOL_TOP tiny_pool + 16)
            (BPOOL_END tiny_pool) = None.
Proof.
  induction fuel as [|k IH]; [reflexivity|].
  cbn [chain_sum].
  replace (BPOOL_TOP tiny_pool + 16 <? BPOOL_END tiny_pool) with true
    by (vm_compute; reflexivity).
  replace (PHYS_NEXT (heap tiny_pool) (BPOOL_TOP tiny_pool + 16))
    with (BPOOL_TOP tiny_pool + 16) by (vm_compute; reflexivity).
  rewrite IH. reflexivity.
Qed.

(** On the 728-byte pool, whose [est_init] passes its assertions, the
    walk from the first block never reaches the end of the pool: the sum
    of the block sizes is not the 24 bytes behind the header, with any
    number of steps. *)
Lemma tiny_pool_not_tiled :
  est_init_asserts 4096 728 = true
  /\ forall fuel,
       chain_sum fuel (heap tiny_pool) (BPOOL_TOP tiny_pool)
                 (BPOOL_END tiny_pool)
       <> Some (728 - 728 mod ESTALLOC_ALIGNMENT - sizeof_MEMORY_POOL).
Proof.
  split; [vm_compute; reflexivity|].
  intros [|k]; [discriminate|].
  cbn [chain_sum].
  replace (BPOOL_TOP tiny_pool <? BPOOL_END tiny_pool) with true
    by (vm_compute; reflexivity).
  replace (PHYS_NEXT (heap tiny_pool) (BPOOL_TOP tiny_pool))
    with (BPOOL_TOP tiny_pool + 16) by (vm_compute; reflexivity).
  rewrite tiny_pool_walk_stuck. discriminate.
Qed.

(** ** Reallocation in place *)

Lemma alloc_size_of_le (n S : Z) :
  0 <= n -> n + 8 <= S -> 32 <= S < 2 ^ 32 -> S mod 8 = 0 ->
  alloc_size_of n <= S.
Proof.
  intros H0 H1 H2 H3. unfold alloc_size_of.
  change ESTALLOC_MIN_MEMORY_BLOCK_SIZE with 32.
  change sizeof_USED_BLOCK with 8. change ALIGNMENT_MASK with (Z.ones 3).
  rewrite (u32_id (n + 8)) by lia.
  rewrite Z.land_ones by lia. change (2 ^ 3) with 8.
  set (y := n + 8 + (- (n + 8)) mod 8).
  assert (Hy : y mod 8 = 0).
  { unfold y. rewrite Z.add_mod_idemp_r by lia.
    rewrite Z.add_opp_diag_r. reflexivity. }
  pose proof (Z.mod_pos_bound (- (n + 8)) 8 ltac:(lia)) as Hb.
  pose proof (Z.div_mod y 8 ltac:(lia)) as Dy.
  pose proof (Z.div_mod S 8 ltac:(lia)) as DS.
  assert (y <= S) by (unfold y in *; lia).
  rewrite (u32_id y) by (unfold y in *; lia).
  cbv zeta. destruct (Z.ltb_spec y 32); lia.
Qed.

(** A second state: the 4096-byte pool after [est_malloc] of 100 bytes. *)
Definition demo_alloc : Z * MEMORY_POOL :=
  match est_malloc 4097 demo_pool 100 with
  | Some r => r
  | None => (NULL, demo_pool)
  end.
Definition demo_state1 : state :=
  mkstate (snd demo_alloc) (add_live (fst demo_alloc) []) [].

(** ** Profiling *)

(** C9 (the code does otherwise): [est_start_profiling] and
    [take_profile] work on a local copy of [est->prof] and never store it
    back.  For every pool [est_start_profiling] returns with the pool as
    it was, so the profiling flag is not set and the recorded counts do
    not change; [take_profile] leaves the pool as it was too. *)
Theorem start_profiling_keeps_pool (fuel : nat) (pool : MEMORY_POOL) :
  (exists local, est_start_profiling fuel pool = Some (pool, local))
  /\ match take_profile fuel pool with
     | Some (pool', _) => pool' = pool
     | None => True
     end
  /\ match est_start_profiling fuel pool with
     | Some (pool', _) =>
         prof_profiling (prof (est pool'))
         = prof_profiling (prof (est pool))
     | None => False
     end.
Proof.
  assert (H : exists local, est_start_profiling fuel pool = Some (pool, local)).
  { unfold est_start_profiling. cbv zeta.
    destruct (prof_profiling (prof (est pool)) =? 0) eqn:E; cbn [negb].
    - unfold PROFILE. rewrite E. cbn [negb]. eexists. reflexivity.
    - eexists. reflexivity. }
  split; [exact H|]. split.
  - unfold take_profile. cbv zeta.
    destruct (used_walk fuel (heap pool) (BPOOL_TOP pool) (BPOOL_END pool) 0);
      [reflexivity|exact I].
  - destruct H as (local & ->). reflexivity.
Qed.

(** On the 4096-byte pool, whose flag is clear, the flag is clear after
    [est_start_profiling]. *)
Lemma start_profiling_flag_clear :
  prof_profiling (prof (est demo_pool)) = 0
  /\ match est_start_profiling 4097 demo_pool with
     | Some (pool', _) => prof_profiling (prof (est pool')) = 0
     | None => False
     end.
Proof. vm_compute. split; reflexivity. Qed.

(** ** Allocation followed by release *)

Lemma words_agree m m' :
  forall M pu, words m pu M -> words m' pu M ->
  forall a, In a (map b_addr M) -> get_size m' a = get_size m a.
Proof.
  induction M as [|b M IH]; intros pu Hw Hw' a Ha; [destruct Ha|].
  cbn [words map] in *. destruct Hw as [H1 Hw], Hw' as [H1' Hw'].
  destruct Ha as [<-|Ha]; [congruence|]. exact (IH _ Hw Hw' a Ha).
Qed.

(** Releasing the block just allocated gives the chain back. *)
Lemma free_malloc_chain pool1 A t sz al B lst F1 live :
  32 <= al <= sz -> last_used true A = true -> no_adj false B ->
  Inv pool1 (malloc_chain A t sz al B) lst F1 live ->
  exists F2,
    Inv (est_free pool1 (t + 8)) (A ++ mkblk t sz false :: B) lst F2
        (remove Z.eq_dec (t + 8) live)
    /\ pool_adrs (est_free pool1 (t + 8)) = pool_adrs pool1
    /\ size (est_free pool1 (t + 8)) = size pool1
    /\ est (est_free pool1 (t + 8)) = est pool1.
Proof.
  intros Hal Hpu HnB HI. unfold malloc_chain in HI.
  assert (Hnm : next_merged sz B = (sz, B)).
  { destruct B as [|b B']; [reflexivity|]. cbn [no_adj] in HnB.
    destruct HnB as [Hb _]. cbn [next_merged]. rewrite Hb by reflexivity.
    reflexivity. }
  destruct (sz - al <=? 32).
  - destruct (est_free_at _ _ _ _ _ _ _ _ HI) as (F2 & HI2 & E).
    exists F2. split; [|exact E].
    unfold free_chain, prev_merged in HI2. rewrite Hnm in HI2.
    cbn [fst snd] in HI2. rewrite Hpu in HI2. exact HI2.
  - destruct (est_free_at _ _ _ _ _ _ _ _ HI) as (F2 & HI2 & E).
    exists F2. split; [|exact E].
    unfold free_chain, prev_merged in HI2.
    cbn [next_merged b_used b_size fst snd] in HI2.
    rewrite Hpu in HI2. cbn [fst snd] in HI2.
    replace (al + (sz - al)) with sz in HI2 by lia. exact HI2.
Qed.

(** C6 (amended): in a reachable state, [est_malloc] that succeeds
    followed by [est_free] of the pointer gives back the block chain: the
    same blocks are walked, every block has the size word it had, and the
    statistics taken before and after are the same.  (The bytes need not
    be the same: see [round_trip_changes_bytes].)  The statistics are
    counted from the [BPOOL_TOP] of the embedded configuration. *)
Theorem malloc_free_round_trip ptr bytes s n fuel p pool1 :
  reachable ptr bytes s -> size (st_pool s) < Z.of_nat fuel ->
  est_malloc fuel (st_pool s) n = Some (p, pool1) -> p <> NULL ->
  exists chain st,
    phys_blocks fuel (heap (st_pool s)) (BPOOL_TOP (st_pool s))
                (BPOOL_END (st_pool s)) = Some chain
    /\ phys_blocks fuel (heap (est_free pool1 p))
                   (BPOOL_TOP (est_free pool1 p))
                   (BPOOL_END (est_free pool1 p)) = Some chain
    /\ (forall a, In a chain ->
          get_size (heap (est_free pool1 p)) a
          = get_size (heap (st_pool s)) a)
    /\ option_map (fun q => stat (est q))
                  (est_take_statistics sizeof_MEMORY_POOL fuel (st_pool s))
       = Some st
    /\ option_map (fun q => stat (est q))
                  (est_take_statistics sizeof_MEMORY_POOL fuel
                     (est_free pool1 p))
       = Some st.
Proof.
  intros Hr Hfuel Hm Hnn.
  destruct (reachable_valid _ _ _ Hr) as ((L0 & lst & F & HI & Hperm) & _).
  pose proof (inv_chain _ _ _ _ _ HI) as Hc.
  pose proof (chain_length _ _ _ Hc) as Hlen.
  destruct (est_malloc_spec _ _ _ _ _ n fuel HI ltac:(lia))
    as [Em|(r & Em & Hpost)]; rewrite Em in Hm; inversion Hm; subst;
    [contradiction|].
  destruct Hpost as (A & t & sz & B & F1 & EL & Hsz & Hf & HI1 & P1 & P2).
  cbn [fst snd] in *. subst p.
  pose proof Hc as Hc'. rewrite EL in Hc'.
  destruct (chain_inv_split _ _ _ _ _ Hc')
    as (_ & _ & _ & _ & _ & _ & _ & _ & _ & Hput & HnB).
  cbn [b_used] in *.
  assert (Hpu : last_used true A = true).
  { destruct (last_used true A); [reflexivity|].
    specialize (Hput eq_refl). discriminate. }
  destruct (alloc_size_of_facts n) as (Hal & _).
  destruct (free_malloc_chain pool1 A t sz (alloc_size_of n) B lst F1 _
              ltac:(lia) Hpu HnB HI1)
    as (F2 & HI2 & E1 & E2 & E3).
  rewrite <- EL in HI2.
  set (pool2 := est_free pool1 (t + 8)) in *.
  assert (Es : size pool2 = size (st_pool s)) by congruence.
  assert (Ea : pool_adrs pool2 = pool_adrs (st_pool s)) by congruence.
  destruct (Inv_walks _ _ _ _ _ fuel HI Hfuel) as (Hw1 & _ & _).
  destruct (Inv_walks _ _ _ _ _ fuel HI2 ltac:(lia)) as (Hw2 & _ & _).
  exists (map b_addr (L0 ++ [lst])), (stats_of (size (st_pool s)) (L0 ++ [lst])).
  split; [exact Hw1|]. split; [exact Hw2|]. split; [|split].
  - apply (words_agree _ _ _ true); [apply Hc|].
    apply (inv_chain _ _ _ _ _ HI2).
  - rewrite (Inv_statistics _ _ _ _ _ fuel HI Hfuel). reflexivity.
  - rewrite (Inv_statistics _ _ _ _ _ fuel HI2 ltac:(lia)).
    cbn [option_map stat est with_est]. rewrite Es. reflexivity.
Qed.

Lemma malloc_free_round_trip_witness :
  exists chain st,
    phys_blocks 4097 (heap (st_pool demo_state))
                (BPOOL_TOP (st_pool demo_state))
                (BPOOL_END (st_pool demo_state)) = Some chain
    /\ phys_blocks 4097 (heap (est_free (snd demo_alloc) (fst demo_alloc)))
                   (BPOOL_TOP (est_free (snd demo_alloc) (fst demo_alloc)))
                   (BPOOL_END (est_free (snd demo_alloc) (fst demo_alloc)))
       = Some chain
    /\ (forall a, In a chain ->
          get_size (heap (est_free (snd demo_alloc) (fst demo_alloc))) a
          = get_size (heap (st_pool demo_state)) a)
    /\ option_map (fun q => stat (est q))
                  (est_take_statistics sizeof_MEMORY_POOL 4097
                     (st_pool demo_state))
       = Some st
    /\ option_map (fun q => stat (est q))
                  (est_take_statistics sizeof_MEMORY_POOL 4097
                     (est_free (snd demo_alloc) (fst demo_alloc)))
       = Some st.
Proof.
  apply (malloc_free_round_trip 4096 4096 demo_state 100 4097
           (fst demo_alloc) (snd demo_alloc)).
  - apply reach_init. unfold init_ok. repeat split; vm_compute; congruence.
  - vm_compute. reflexivity.
  - vm_compute. reflexivity.
  - vm_compute. congruence.
Defined.

(** On the 4096-byte pool of zero bytes, [est_malloc] of 100 bytes cuts a
    block of 112 bytes and writes the size word of the rest 104 bytes
    behind the pointer; [est_free] merges the two blocks again and leaves
    that byte as written. *)
Lemma round_trip_changes_bytes :
  match est_malloc 4097 demo_pool 100 with
  | Some (p, pool1) =>
      p <> NULL
      /\ heap (est_free pool1 p) (p + 104) <> heap demo_pool (p + 104)
  | None => False
  end.
Proof. vm_compute. split; congruence. Qed.

(** ** Regions carved from the tail *)

(** Any number of steps. *)
Inductive steps (s : state) : state -> Prop :=
| steps_refl : steps s s
| steps_step s' s'' : steps s s' -> step s' s'' -> steps s s''.

Lemma step_perm s s' x : step s s' -> In x (st_perm s) -> In x (st_perm s').
Proof.
  intros Hs Hx. destruct Hs; cbn [st_perm]; try exact Hx.
  destruct (permalloc_from_tail fuel (st_pool s) n); cbn [st_perm];
    [right|]; exact Hx.
Qed.

Lemma steps_valid s s' x :
  Valid s -> In x (st_perm s) -> steps s s' ->
  Valid s' /\ In x (st_perm s').
Proof.
  intros Hv Hx Hs. induction Hs as [|s' s'' Hs IH Hst]; [auto|].
  destruct IH as (Hv' & Hx'). split.
  - apply (step_valid _ _ Hv' Hst).
  - apply (step_perm _ _ _ Hst Hx').
Qed.

(** The state after [est_permalloc] has served a request of 256 bytes
    from the tail of the 4096-byte pool. *)
Definition demo_perm : Z * MEMORY_POOL :=
  match est_permalloc 4097 demo_pool 256 with
  | Some r => r
  | None => (NULL, demo_pool)
  end.

Definition demo_state2 : state :=
  mkstate (snd demo_perm) (st_live demo_state)
          ((fst demo_perm, permalloc_size 256) :: st_perm demo_state).

(** C8: after an [est_permalloc] that was served from the tail, in
    every state reached later no block on a free list overlaps the region
    returned (all of them end before it), and every block [est_malloc]
    hands out ends before it. *)
Theorem permalloc_region_reserved ptr bytes s fuel n p pool' s2 :
  reachable ptr bytes s -> size (st_pool s) < Z.of_nat fuel ->
  est_permalloc fuel (st_pool s) n = Some (p, pool') ->
  permalloc_from_tail fuel (st_pool s) n = true ->
  steps (mkstate pool' (st_live s) ((p, permalloc_size n) :: st_perm s)) s2 ->
  (forall i k a,
     0 <= i < SIZE_FREE_BLOCKS ->
     In a (list_walk k (heap (st_pool s2))
                     (arr_get (free_blocks (st_pool s2)) i)) ->
     a + BLOCK_SIZE (heap (st_pool s2)) a <= p)
  /\ (forall fuel2 n2 q pool3,
        size (st_pool s2) < Z.of_nat fuel2 ->
        est_malloc fuel2 (st_pool s2) n2 = Some (q, pool3) -> q <> NULL ->
        q + est_usable_size pool3 q <= p)
  /\ p <> NULL
  /\ p + permalloc_size n <= BPOOL_END (st_pool s2).
Proof.
  intros Hr Hfuel Hm Hft Hsteps.
  destruct (reachable_valid _ _ _ Hr) as (Hv & _).
  assert (Hst : step s (mkstate pool' (st_live s)
                          ((p, permalloc_size n) :: st_perm s))).
  { pose proof (step_permalloc s fuel n p pool' Hfuel Hm) as X.
    rewrite Hft in X. exact X. }
  destruct (step_valid _ _ Hv Hst) as (Hv1 & _).
  destruct (steps_valid _ _ (p, permalloc_size n) Hv1
              ltac:(left; reflexivity) Hsteps)
    as ((L0 & lst & F & HI & Hperm) & Hin).
  pose proof (inv_chain _ _ _ _ _ HI) as Hc.
  pose proof (chain_inv_lst _ _ _ Hc) as Hkl.
  destruct (Hperm _ _ Hin) as (Hlo & Hal & Hhi).
  split; [|split; [|split]].
  - intros i k a Hi Ha.
    pose proof (li_dll _ _ _ (ii_lists _ _ _ (inv_index _ _ _ _ _ HI)) i Hi)
      as Hd.
    apply (list_walk_incl _ _ _ _ k Hd) in Ha.
    destruct (member_block _ _ _ _ _ _ _ HI Ha)
      as (A & sz & B & EL & _ & Hbs & _).
    assert (Hb : In (mkblk a sz false) L0)
      by (rewrite EL; apply in_middle; auto).
    pose proof (chain_inv_blk _ _ _ Hc _ Hb) as Hk. cbn in Hk.
    rewrite Hbs. lia.
  - intros fuel2 n2 q pool3 Hf2 Hm2 Hq.
    pose proof (chain_length _ _ _ Hc) as Hlen.
    destruct (est_malloc_spec _ _ _ _ _ n2 fuel2 HI ltac:(lia))
      as [Em|(r & Em & Hpost)]; rewrite Em in Hm2; inversion Hm2; subst;
      [contradiction|].
    destruct (malloc_post_block _ _ _ _ _ _ _ HI Hpost)
      as (t & sz & Hb & Hf & Hle).
    pose proof (chain_inv_blk _ _ _ Hc _ Hb) as Hk.
    cbn [fst snd b_addr b_size] in *. lia.
  - unfold NULL. lia.
  - exact Hhi.
Qed.

Lemma permalloc_region_reserved_witness :
  (forall i k a,
     0 <= i < SIZE_FREE_BLOCKS ->
     In a (list_walk k (heap (st_pool demo_state2))
                     (arr_get (free_blocks (st_pool demo_state2)) i)) ->
     a + BLOCK_SIZE (heap (st_pool demo_state2)) a <= fst demo_perm)
  /\ (forall fuel2 n2 q pool3,
        size (st_pool demo_state2) < Z.of_nat fuel2 ->
        est_malloc fuel2 (st_pool demo_state2) n2 = Some (q, pool3) ->
        q <> NULL ->
        q + est_usable_size pool3 q <= fst demo_perm)
  /\ fst demo_perm <> NULL
  /\ fst demo_perm + permalloc_size 256 <= BPOOL_END (st_pool demo_state2).
Proof.
  apply (permalloc_region_reserved 4096 4096 demo_state 4097 256
           (fst demo_perm) (snd demo_perm) demo_state2).
  - apply reach_init. unfold init_ok. repeat split; vm_compute; congruence.
  - vm_compute. reflexivity.
  - vm_compute. reflexivity.
  - vm_compute. reflexivity.
  - apply steps_refl.
Defined.

(** * Further properties of the code *)

(** ** Leading zeros *)

Lemma highest_bit (x n w : Z) :
  0 < x < 2 ^ w -> 0 <= n < w ->
  Z.testbit x (w - 1 - n) = true ->
  (forall j, 0 <= j < n -> Z.testbit x (w - 1 - j) = false) ->
  Z.log2 x = w - 1 - n.
Proof.
  intros Hx Hn Hb Hz.
  assert (Hl : 0 <= Z.log2 x < w).
  { split; [apply Z.log2_nonneg|]. apply Z.log2_lt_pow2; lia. }
  pose proof (Z.bit_log2 x ltac:(lia)) as Hlog.
  destruct (Z_lt_le_dec (Z.log2 x) (w - 1 - n)) as [Hlt|Hge].
  - rewrite Z.bits_above_log2 in Hb by lia. discriminate.
  - destruct (Z.eq_dec (Z.log2 x) (w - 1 - n)) as [E|Hne]; [exact E|].
    exfalso. specialize (Hz (w - 1 - Z.log2 x) ltac:(lia)).
    replace (w - 1 - (w - 1 - Z.log2 x)) with (Z.log2 x) in Hz by lia.
    congruence.
Qed.

(** [nlz16] counts the leading zero bits of a 16-bit value: 16 for zero,
    otherwise 15 minus the position of the highest bit set. *)
Theorem nlz16_counts (x : Z) :
  0 <= x < 2 ^ 16 ->
  nlz16 x = if x =? 0 then 16 else 15 - Z.log2 x.
Proof.
  intros Hx. destruct (Z.eqb_spec x 0) as [->|Hne]; [reflexivity|].
  change (2 ^ 16) with 65536 in Hx.
  destruct (nlz16_spec x ltac:(lia)) as (Hn & Hb & Hz).
  rewrite (highest_bit x (nlz16 x) 16); [lia|change (2 ^ 16) with 65536; lia
                                        |lia|exact Hb|exact Hz].
Qed.

Lemma nlz16_counts_witness :
  nlz16 300 = if 300 =? 0 then 16 else 15 - Z.log2 300.
Proof. apply (nlz16_counts 300). vm_compute. split; congruence. Defined.

(** [nlz8] counts the leading zero bits of an 8-bit value. *)
Theorem nlz8_counts (x : Z) :
  0 <= x < 2 ^ 8 ->
  nlz8 x = if x =? 0 then 8 else 7 - Z.log2 x.
Proof.
  intros Hx. destruct (Z.eqb_spec x 0) as [->|Hne]; [reflexivity|].
  change (2 ^ 8) with 256 in Hx.
  destruct (nlz8_spec x ltac:(lia)) as (Hn & Hb & Hz).
  rewrite (highest_bit x (nlz8 x) 8); [lia|change (2 ^ 8) with 256; lia
                                      |lia|exact Hb|exact Hz].
Qed.

Lemma nlz8_counts_witness :
  nlz8 20 = if 20 =? 0 then 8 else 7 - Z.log2 20.
Proof. apply (nlz8_counts 20). vm_compute. split; congruence. Defined.

(** ** The size classes, exactly *)

Definition class_check (q : Z) : bool :=
  32 * q + 32 <=? class_min (calc_index (32 * q) + 1).

Lemma class_checked : forall_below 4096 class_check = true.
Proof. vm_compute. reflexivity. Qed.

Definition class_min_check (c : Z) : bool := class_min c <=? class_min (c + 1).

Lemma class_min_checked : forall_below 80 class_min_check = true.
Proof. vm_compute. reflexivity. Qed.

Lemma class_min_mono (c1 c2 : Z) :
  0 <= c1 <= c2 -> c2 <= 80 -> class_min c1 <= class_min c2.
Proof.
  intros H1 H2.
  replace c2 with (c1 + Z.of_nat (Z.to_nat (c2 - c1))) in * by lia.
  induction (Z.to_nat (c2 - c1)) as [|k IH]; [rewrite Z.add_0_r; lia|].
  specialize (IH ltac:(lia) ltac:(lia)).
  pose proof (forall_below_spec _ _ class_min_checked
                (c1 + Z.of_nat k) ltac:(lia)) as H.
  unfold class_min_check in H. apply Z.leb_le in H.
  replace (c1 + Z.of_nat (S k)) with (c1 + Z.of_nat k + 1) by lia. lia.
Qed.

Lemma class_upper (s : Z) :
  0 <= s < 2 ^ 17 -> s < class_min (calc_index s + 1).
Proof.
  intros Hs.
  assert (Hq : 0 <= s / 32 < 4096).
  { split; [apply Z.div_pos; lia|].
    apply Z.div_lt_upper_bound; [lia|]. change (32 * 4096) with (2 ^ 17). lia. }
  pose proof (forall_below_spec _ _ class_checked _ Hq) as H.
  unfold class_check in H. rewrite (calc_index_floor32 s) in H by lia.
  apply Z.leb_le in H.
  pose proof (Z.div_mod s 32 ltac:(lia)).
  pose proof (Z.mod_pos_bound s 32 ltac:(lia)). lia.
Qed.

(** Below the overflow clamp the classes are intervals: a size is in
    class [c] exactly when it is at least the nominal minimum of [c] and
    below that of [c + 1]. *)
Theorem calc_index_class (s c : Z) :
  0 <= s < 2 ^ 17 -> 0 <= c < SIZE_FREE_BLOCKS ->
  (calc_index s = c <-> class_min c <= s < class_min (c + 1)).
Proof.
  intros Hs Hc. change SIZE_FREE_BLOCKS with 80 in Hc.
  pose proof (calc_index_range s ltac:(lia)) as Hr.
  change SIZE_FREE_BLOCKS with 80 in Hr.
  pose proof (class_min_calc_index s ltac:(lia)) as Hlo.
  pose proof (class_upper s Hs) as Hhi.
  split.
  - intros <-. lia.
  - intros [H1 H2].
    destruct (Z_lt_le_dec (calc_index s) c) as [Hlt|Hge].
    + pose proof (class_min_mono (calc_index s + 1) c ltac:(lia) ltac:(lia)).
      lia.
    + destruct (Z.eq_dec (calc_index s) c) as [E|Hne]; [exact E|].
      pose proof (class_min_mono (c + 1) (calc_index s) ltac:(lia)
                    ltac:(lia)). lia.
Qed.

Lemma calc_index_class_witness :
  calc_index 1000 = 23 <-> class_min 23 <= 1000 < class_min (23 + 1).
Proof.
  apply (calc_index_class 1000 23); vm_compute; split; congruence.
Defined.

(** ** [est_malloc] fails only when no free block is large enough *)

Lemma sli_probe_zero pool F fli sli :
  bitmap_inv pool F -> 0 <= fli <= 9 -> 0 <= sli <= 7 ->
  u16 (Z.land (arr_get (free_sli_bitmap pool) fli)
              (Z.shiftr MSB_BIT1_SLI sli - 1)) = 0 ->
  forall s', sli < s' <= 7 -> F (8 * fli + s') = [].
Proof.
  intros Hb Hf Hs Hz s' Hs'.
  set (x := arr_get (free_sli_bitmap pool) fli) in *.
  pose proof (bi_sli_range _ _ Hb fli) as Hx. fold x in Hx.
  rewrite shiftr_sli_bit in Hz by lia.
  replace (2 ^ (7 - sli) - 1) with (Z.ones (7 - sli)) in Hz
    by (rewrite Z.ones_equiv, Z.sub_1_r; reflexivity).
  assert (Hm : Z.land x (Z.ones (7 - sli)) = 0).
  { rewrite <- Hz. symmetry. apply u16_id.
    rewrite Z.land_ones by lia.
    pose proof (Z.mod_pos_bound x (2 ^ (7 - sli))
                  ltac:(apply Z.pow_pos_nonneg; lia)).
    assert (2 ^ (7 - sli) <= 2 ^ 7) by (apply Z.pow_le_mono_r; lia).
    change (2 ^ 7) with 128 in *. lia. }
  assert (Hbit : Z.testbit (Z.land x (Z.ones (7 - sli))) (7 - s') = false)
    by (rewrite Hm; apply Z.bits_0).
  rewrite testbit_land_ones in Hbit by lia.
  destruct (Z.ltb_spec (7 - s') (7 - sli)); [|lia].
  rewrite andb_true_r in Hbit. unfold x in Hbit.
  rewrite (bi_sli _ _ Hb) in Hbit by lia.
  destruct (F (8 * fli + s')); [reflexivity|discriminate].
Qed.

Lemma fli_probe_zero pool F fli :
  bitmap_inv pool F -> 0 <= fli <= 10 ->
  u16 (Z.land (free_fli_bitmap pool) (Z.shiftr MSB_BIT1_FLI fli - 1)) = 0 ->
  forall f' s', fli < f' <= 9 -> 0 <= s' <= 7 -> F (8 * f' + s') = [].
Proof.
  intros Hb Hf Hz f' s' Hf' Hs'.
  set (x := free_fli_bitmap pool) in *.
  pose proof (bi_fli_range _ _ Hb) as Hx. fold x in Hx.
  rewrite shiftr_fli_bit in Hz by lia.
  replace (2 ^ (15 - fli) - 1) with (Z.ones (15 - fli)) in Hz
    by (rewrite Z.ones_equiv, Z.sub_1_r; reflexivity).
  assert (Hm : Z.land x (Z.ones (15 - fli)) = 0).
  { rewrite <- Hz. symmetry. apply u16_id.
    rewrite Z.land_ones by lia.
    pose proof (Z.mod_pos_bound x (2 ^ (15 - fli))
                  ltac:(apply Z.pow_pos_nonneg; lia)).
    assert (2 ^ (15 - fli) <= 2 ^ 15) by (apply Z.pow_le_mono_r; lia).
    change (2 ^ 15) with 32768 in *. lia. }
  assert (Hbit : Z.testbit (Z.land x (Z.ones (15 - fli))) (15 - f') = false)
    by (rewrite Hm; apply Z.bits_0).
  rewrite testbit_land_ones in Hbit by lia.
  destruct (Z.ltb_spec (15 - f') (15 - fli)); [|lia].
  rewrite andb_true_r in Hbit. unfold x in Hbit.
  rewrite (bi_fli _ _ Hb) in Hbit by lia.
  apply negb_false_iff in Hbit. apply Z.eqb_eq in Hbit.
  pose proof (bi_sli _ _ Hb f' s' ltac:(lia) Hs') as Hs.
  rewrite Hbit, Z.bits_0 in Hs.
  destruct (F (8 * f' + s')); [reflexivity|discriminate].
Qed.

Lemma malloc_split_fst pool t al : fst (malloc_split pool t al) = t + 8.
Proof.
  unfold malloc_split. destruct (split_block (heap pool) t al) as [m r].
  reflexivity.
Qed.

(** The first-fit walk that ends with NULL met no block large enough. *)
Lemma first_fit_null pool L0 lst F live idx al :
  Inv pool L0 lst F live ->
  forall l2 l1 fuel pool',
  F idx = l1 ++ l2 ->
  malloc_first_fit fuel pool (hd NULL l2) al = Some (NULL, pool') ->
  forall t, In t l2 -> BLOCK_SIZE (heap pool) t < al.
Proof.
  intros HI.
  pose proof (ii_lists _ _ _ (inv_index _ _ _ _ _ HI)) as Hl.
  induction l2 as [|t l2 IH]; intros l1 fuel pool' HF Hm x Hx;
    [destruct Hx|].
  destruct fuel as [|k]; [discriminate Hm|].
  cbn [hd malloc_first_fit] in Hm.
  assert (Hin : In t (F idx))
    by (rewrite HF; apply in_or_app; right; left; reflexivity).
  destruct (member_block _ _ _ _ _ _ _ HI Hin)
    as (A & sz & B & EL & Hci & Hbs & Hsz & Hszm & Ht & Hidx).
  pose proof (li_dll _ _ _ Hl idx Hidx) as Hd.
  destruct (Z.eqb_spec t NULL) as [E|_]; [unfold NULL in E; lia|].
  destruct (Z.geb_spec (BLOCK_SIZE (heap pool) t) al) as [Hge|Hlt].
  - exfalso.
    pose proof (malloc_split_fst (remove_free_block pool t) t al) as X.
    inversion Hm as [Y]. rewrite Y in X. cbn [fst] in X.
    unfold NULL in X. lia.
  - destruct Hx as [<-|Hx]; [lia|].
    rewrite HF in Hd. destruct (dll_links _ _ _ _ _ _ Hd) as [_ En].
    rewrite En in Hm.
    apply (IH (l1 ++ [t]) k pool'); auto.
    rewrite <- app_assoc. exact HF.
Qed.

Lemma malloc_post_nonnull pool L0 lst live al r pool' :
  malloc_post pool L0 lst live al r -> r = (NULL, pool') -> False.
Proof.
  intros Hp ->. exact (proj1 (malloc_alloc_post _ _ _ _ _ _ Hp) eq_refl).
Qed.

Lemma head_null_nil pool L0 F idx :
  lists_inv pool L0 F -> 0 <= idx < 80 ->
  arr_get (free_blocks pool) idx = NULL -> F idx = [].
Proof.
  intros Hl Hidx E. rewrite (list_head _ _ _ _ Hl Hidx) in E.
  destruct (F idx) as [|t l] eqn:HF; [reflexivity|]. exfalso.
  cbn [hd] in E.
  apply (dll_nonnull _ _ _ _ t (li_dll _ _ _ Hl idx Hidx));
    [rewrite HF; left; reflexivity|exact E].
Qed.

Lemma some_eq {A : Type} (a b : A) : Some a = Some b -> a = b.
Proof. intros H. congruence. Qed.

Lemma est_malloc_null_small pool L0 lst F live n fuel pool' :
  Inv pool L0 lst F live -> (length L0 < fuel)%nat ->
  est_malloc fuel pool n = Some (NULL, pool') ->
  forall b, In b L0 -> b_used b = false -> b_size b < alloc_size_of n.
Proof.
  intros HI Hfuel Hm. unfold est_malloc in Hm.
  destruct (alloc_size_of_facts n) as (Hal & Halm).
  set (al := alloc_size_of n) in *.
  pose proof (calc_index_range al ltac:(lia)) as Hix.
  change SIZE_FREE_BLOCKS with 80 in Hix.
  set (idx := calc_index al) in *.
  pose proof (ii_lists _ _ _ (inv_index _ _ _ _ _ HI)) as Hl.
  pose proof (ii_bitmap _ _ _ (inv_index _ _ _ _ _ HI)) as Hb.
  cbv zeta in Hm.
  destruct (negb (arr_get (free_blocks pool) idx =? NULL)
            && (BLOCK_SIZE (heap pool) (arr_get (free_blocks pool) idx)
                >=? al)) eqn:E1.
  { exfalso. pose proof (some_eq _ _ Hm) as Hr.
    apply andb_true_iff in E1 as [E1 E2].
    apply negb_true_iff in E1. apply Z.eqb_neq in E1.
    destruct (Z.geb_spec (BLOCK_SIZE (heap pool)
                (arr_get (free_blocks pool) idx)) al) as [Hge|]; [|discriminate].
    rewrite (list_head _ _ _ _ Hl Hix) in *.
    destruct (F idx) as [|t l2] eqn:HF; [cbn in E1; congruence|].
    cbn [hd] in *.
    refine (malloc_post_nonnull _ _ _ _ _ _ _
              (found_target_spec pool L0 lst F live idx t l2 al HI HF
                 ltac:(lia) Halm) Hr). }
  clear E1.
  destruct (FLI_SLI_upto (idx + 1) ltac:(lia)) as (Hf & Hs & Eidx).
  destruct (Z.eqb_spec (arr_get (free_blocks pool) (idx + 1)) NULL)
    as [Enull|Enn]; cbn [negb] in Hm.
  2:{ exfalso. pose proof (some_eq _ _ Hm) as Hr.
      assert (Hix1 : 0 <= idx + 1 < 80).
      { destruct (Z.eq_dec (idx + 1) 80) as [E80|]; [|lia].
        rewrite E80, (li_fb_sentinel _ _ _ Hl) in Enn. congruence. }
      rewrite (list_head _ _ _ _ Hl Hix1) in *.
      destruct (F (idx + 1)) as [|t l2] eqn:HF; [cbn in Enn; congruence|].
      cbn [hd] in *.
      assert (Hin : In t (F (idx + 1))) by (rewrite HF; left; reflexivity).
      destruct (member_block _ _ _ _ _ _ _ HI Hin)
        as (A & sz & B & EL & Hci & Hbs & Hsz & _).
      pose proof (calc_index_lt_size al sz ltac:(lia) ltac:(lia)
                    ltac:(fold idx; lia)).
      refine (malloc_post_nonnull _ _ _ _ _ _ _
                (found_target_spec pool L0 lst F live (idx + 1) t l2 al HI HF
                   ltac:(lia) Halm) Hr). }
  match type of Hm with context [negb (?x =? 0)] =>
    destruct (Z.eqb_spec x 0) as [Em1|Em1] end; cbn [negb] in Hm.
  2:{ exfalso. pose proof (some_eq _ _ Hm) as Hr.
      destruct (sli_probe pool F _ _ Hb Hf Hs Em1) as (Hf9 & Hs' & Hne).
      match type of Hr with malloc_found_fli_sli _ _ ?f ?s = _ =>
        apply (malloc_post_nonnull _ _ _ _ _ _ _
                 (found_fli_sli_spec pool L0 lst F live f s al HI
                    ltac:(lia) ltac:(lia) Hne ltac:(fold idx; lia)
                    ltac:(lia) Halm) Hr)
      end. }
  match type of Hm with context [negb (?x =? 0)] =>
    destruct (Z.eqb_spec x 0) as [Em2|Em2] end; cbn [negb] in Hm.
  2:{ exfalso. pose proof (some_eq _ _ Hm) as Hr.
      destruct (fli_probe pool F _ Hb Hf Em2) as (Hf9 & Hs' & Hne).
      match type of Hr with malloc_found_fli_sli _ _ ?f ?s = _ =>
        apply (malloc_post_nonnull _ _ _ _ _ _ _
                 (found_fli_sli_spec pool L0 lst F live f s al HI
                    ltac:(lia) ltac:(lia) Hne ltac:(fold idx; lia)
                    ltac:(lia) Halm) Hr)
      end. }
  replace (idx + 1 - 1) with idx in Hm by lia.
  rewrite (list_head _ _ _ _ Hl Hix) in Hm.
  pose proof (first_fit_null pool L0 lst F live idx al HI (F idx) [] fuel
                pool' eq_refl Hm) as Hff.
  intros b Hb0 Hub.
  destruct (Z_lt_le_dec (b_size b) al) as [|Hge]; [assumption|exfalso].
  pose proof (inv_complete _ _ _ _ _ HI b Hb0 Hub) as Hin.
  destruct (member_block _ _ _ _ _ _ _ HI Hin)
    as (A & sz & B & EL & Hci & Hbs & Hsz & _ & _ & Hcr).
  pose proof (chain_inv_blk _ _ _ (inv_chain _ _ _ _ _ HI) _ Hb0) as Hk.
  assert (Esz : sz = b_size b).
  { pose proof (geo_addr_inj _ _ (mkblk (b_addr b) sz false) b
                  (ci_geo _ _ _ (inv_chain _ _ _ _ _ HI))
                  ltac:(rewrite EL; apply in_middle; auto) Hb0 eq_refl) as X.
    rewrite <- X. reflexivity. }
  subst sz. set (c := calc_index (b_size b)) in *.
  pose proof (calc_index_mono al (b_size b) ltac:(lia)) as Hmono.
  fold idx in Hmono. fold c in Hmono.
  destruct (Z.eq_dec c idx) as [Ec|Hne].
  - rewrite Ec in Hin. specialize (Hff _ Hin). lia.
  - assert (Hnil : F c = []); [|rewrite Hnil in Hin; destruct Hin].
    destruct (FLI_SLI_upto c ltac:(lia)) as (Hcf & Hcs & Ec).
    destruct (Z.eq_dec c (idx + 1)) as [E1|Hne1].
    + rewrite E1. apply (head_null_nil _ _ _ _ Hl); [lia|exact Enull].
    + rewrite Ec.
      destruct (Z_lt_le_dec (FLI (idx + 1)) (FLI c)) as [Hlt|Hle].
      * apply (fli_probe_zero pool F (FLI (idx + 1)) Hb Hf Em2); lia.
      * assert (FLI c = FLI (idx + 1)) as -> by lia.
        apply (sli_probe_zero pool F (FLI (idx + 1)) (SLI (idx + 1)) Hb
                 ltac:(lia) Hs Em1).
        lia.
Qed.
Lemma words_block m :
  forall M pu b, words m pu M -> In b M ->
  exists pu', get_size m (b_addr b) = word (b_size b) (b_used b) pu'.
Proof.
  induction M as [|c M IH]; intros pu b Hw Hb; [destruct Hb|].
  cbn [words] in Hw. destruct Hw as [Hc Hw].
  destruct Hb as [<-|Hb]; [exists pu; exact Hc|]. exact (IH _ _ Hw Hb).
Qed.

(** What the size word at a block of the chain says. *)
Lemma chain_block_facts pool L0 lst F live a :
  Inv pool L0 lst F live -> In a (map b_addr (L0 ++ [lst])) ->
  exists b,
    In b (L0 ++ [lst]) /\ b_addr b = a
    /\ IS_USED_BLOCK (heap pool) a = b_used b
    /\ IS_FREE_BLOCK (heap pool) a = negb (b_used b)
    /\ BLOCK_SIZE (heap pool) a = b_size b
    /\ 8 <= b_size b < 2 ^ 32 /\ b_size b mod 8 = 0.
Proof.
  intros HI Ha. pose proof (inv_chain _ _ _ _ _ HI) as Hc.
  apply in_map_iff in Ha as (b & Eb & Hb). exists b.
  destruct (words_block _ _ _ _ (ci_words _ _ _ Hc) Hb) as (pu' & Hw).
  assert (Hk : 8 <= b_size b < 2 ^ 32 /\ b_size b mod 8 = 0).
  { apply in_app_or in Hb as [Hb|[<-|[]]].
    - pose proof (chain_inv_blk _ _ _ Hc _ Hb). lia.
    - pose proof (chain_inv_lst _ _ _ Hc). lia. }
  rewrite <- Eb.
  rewrite (IS_USED_word _ _ _ _ _ Hw), (IS_FREE_word _ _ _ _ _ Hw),
    (BLOCK_SIZE_word _ _ _ _ _ Hw) by lia.
  repeat split; auto; lia.
Qed.

(** In a reachable state [est_malloc] returns a block whenever the chain
    holds a free block at least as large as the effective size of the
    request: no large-enough block is missed by the two-level search. *)
Theorem est_malloc_finds_block ptr bytes s n fuel a chain :
  reachable ptr bytes s -> size (st_pool s) < Z.of_nat fuel ->
  phys_blocks fuel (heap (st_pool s)) (BPOOL_TOP (st_pool s))
              (BPOOL_END (st_pool s)) = Some chain ->
  In a chain -> IS_FREE_BLOCK (heap (st_pool s)) a = true ->
  alloc_size_of n <= BLOCK_SIZE (heap (st_pool s)) a ->
  exists p pool', est_malloc fuel (st_pool s) n = Some (p, pool')
                  /\ p <> NULL.
Proof.
  intros Hr Hfuel Hch Ha Hfree Hsz.
  destruct (reachable_valid _ _ _ Hr) as ((L0 & lst & F & HI & _) & _).
  pose proof (inv_chain _ _ _ _ _ HI) as Hc.
  pose proof (chain_length _ _ _ Hc) as Hlen.
  destruct (Inv_walks _ _ _ _ _ fuel HI Hfuel) as (Hw & _).
  rewrite Hw in Hch. inversion Hch; subst chain.
  destruct (chain_block_facts _ _ _ _ _ _ HI Ha)
    as (b & Hb & Eb & _ & Hf & Hbs & _).
  rewrite Hf in Hfree. apply negb_true_iff in Hfree.
  apply in_app_or in Hb as [Hb|[<-|[]]];
    [|rewrite (ci_lst_used _ _ _ Hc) in Hfree; discriminate].
  destruct (est_malloc_spec _ _ _ _ _ n fuel HI ltac:(lia))
    as [Em|([p pool'] & Em & Hpost)].
  - pose proof (est_malloc_null_small (st_pool s) L0 lst F (st_live s) n fuel
                  (st_pool s) HI ltac:(lia) Em b Hb Hfree). lia.
  - exists p, pool'. split; [exact Em|].
    apply (malloc_alloc_post _ _ _ _ _ _ Hpost).
Qed.

Lemma est_malloc_finds_block_witness :
  exists p pool', est_malloc 4097 (st_pool demo_state) 3000 = Some (p, pool')
                  /\ p <> NULL.
Proof.
  apply (est_malloc_finds_block 4096 4096 demo_state 3000 4097 4800
           [4800; 8184]).
  - apply reach_init. unfold init_ok. repeat split; vm_compute; congruence.
  - vm_compute. reflexivity.
  - vm_compute. reflexivity.
  - left. reflexivity.
  - vm_compute. reflexivity.
  - vm_compute. congruence.
Defined.

(** ** Release, then allocation *)

Lemma next_merged_ge a S B :
  geo a B -> S <= fst (next_merged S B).
Proof.
  intros Hg. destruct B as [|nx B']; [cbn; lia|].
  cbn [geo] in Hg. destruct Hg as (_ & _ & Hs & _).
  cbn [next_merged]. destruct (b_used nx); cbn [fst]; lia.
Qed.

Lemma prev_merged_ge a A t S :
  geo a A -> S <= snd (snd (prev_merged A t S)).
Proof.
  intros Hg. unfold prev_merged.
  destruct (last_used true A) eqn:Hpu; cbn [snd]; [lia|].
  destruct (last_used_false _ Hpu) as (A' & pb & EA & _).
  rewrite EA, last_last. rewrite EA in Hg.
  apply geo_app in Hg as [_ Hg]. cbn [geo] in Hg. lia.
Qed.

(** In a reachable state, after [est_free] of a live pointer an
    [est_malloc] of any size up to the usable size of the released
    allocation succeeds. *)
Theorem malloc_after_free ptr bytes s p n fuel :
  reachable ptr bytes s -> In p (st_live s) ->
  0 <= n <= est_usable_size (st_pool s) p ->
  size (st_pool s) < Z.of_nat fuel ->
  exists q pool',
    est_malloc fuel (est_free (st_pool s) p) n = Some (q, pool')
    /\ q <> NULL.
Proof.
  intros Hr Hp Hn Hfuel.
  destruct (reachable_valid _ _ _ Hr) as ((L0 & lst & F & HI & _) & _).
  destruct (usable_size_live _ _ _ _ _ _ HI Hp)
    as (S & _ & Hus & Hs & Hsm & _).
  destruct (est_free_spec _ _ _ _ _ p HI Hp)
    as (A & S' & B & F' & EL & HI' & _ & Es & _).
  pose proof (inv_chain _ _ _ _ _ HI) as Hc. rewrite EL in Hc.
  destruct (chain_inv_split _ _ _ _ _ Hc)
    as (Hw & _ & _ & _ & HgA & _ & HgB & _).
  cbn [b_addr b_size b_used] in *.
  assert (S' = S).
  { destruct (inv_live _ _ _ _ _ HI _ Hp) as (S2 & Hb2).
    destruct (usable_size_live _ _ _ _ _ _ HI Hp) as (S3 & Hb3 & Hus3 & _).
    pose proof (geo_addr_inj _ _ (mkblk (p - 8) S' true) (mkblk (p - 8) S3 true)
                  (ci_geo _ _ _ (inv_chain _ _ _ _ _ HI))
                  ltac:(rewrite EL; apply in_middle; auto) Hb3 eq_refl) as X.
    inversion X. lia. }
  subst S'.
  pose proof (alloc_size_of_le n S ltac:(lia) ltac:(lia) Hs Hsm) as Hle.
  set (pool1 := est_free (st_pool s) p) in *.
  pose proof (chain_length _ _ _ (inv_chain _ _ _ _ _ HI')) as Hlen.
  destruct (est_malloc_spec _ _ _ _ _ n fuel HI' ltac:(lia))
    as [Em|([q pool'] & Em & Hpost)].
  - exfalso. unfold free_chain in *.
    set (S1 := fst (next_merged S B)) in *.
    set (b := mkblk (fst (snd (prev_merged A (p - 8) S1)))
                    (snd (snd (prev_merged A (p - 8) S1))) false).
    assert (Hbin : In b (free_chain A (p - 8) S B))
      by (unfold free_chain; apply in_middle; auto).
    pose proof (est_malloc_null_small pool1 _ lst F' (remove Z.eq_dec p (st_live s)) n fuel
                  pool1 HI' ltac:(lia) Em b Hbin eq_refl) as Hsmall.
    cbn [b_size b] in Hsmall.
    pose proof (next_merged_ge _ S B HgB). fold S1 in H.
    pose proof (prev_merged_ge _ A (p - 8) S1 HgA). lia.
  - exists q, pool'. split; [exact Em|].
    apply (malloc_alloc_post _ _ _ _ _ _ Hpost).
Qed.

Lemma malloc_after_free_witness :
  exists q pool',
    est_malloc 4097 (est_free (st_pool demo_state1) (fst demo_alloc)) 100
    = Some (q, pool')
    /\ q <> NULL.
Proof.
  apply (malloc_after_free 4096 4096 demo_state1 (fst demo_alloc) 100 4097).
  - apply (reach_step 4096 4096 demo_state).
    + apply reach_init. unfold init_ok. repeat split; vm_compute; congruence.
    + apply (step_malloc demo_state 4097 100 (fst demo_alloc)
               (snd demo_alloc)).
      * vm_compute. reflexivity.
      * vm_compute. reflexivity.
  - vm_compute. left. reflexivity.
  - vm_compute. split; congruence.
  - vm_compute. reflexivity.
Defined.

(** ** The statistics add up *)

Lemma stat_fold_sum :
  forall M a flag st,
  lay a M -> 0 <= stat_used st -> 0 <= stat_free st ->
  stat_used st + stat_free st + (chain_end a M - a) < 2 ^ 32 ->
  stat_total (stat_fold M flag st) = stat_total st
  /\ stat_used st <= stat_used (stat_fold M flag st)
  /\ stat_free st <= stat_free (stat_fold M flag st)
  /\ stat_used (stat_fold M flag st) + stat_free (stat_fold M flag st)
     = stat_used st + stat_free st + (chain_end a M - a).
Proof.
  induction M as [|b M IH]; intros a flag st Hl Hu Hf Hs.
  - cbn [stat_fold chain_end]. repeat split; lia.
  - cbn [lay chain_end] in Hl, Hs. destruct Hl as (Ha & Hm & Hb & Hl).
    pose proof (lay_end_ge _ _ Hl) as Hge.
    cbn [stat_fold chain_end]. cbv zeta.
    destruct (b_used b), flag;
      cbn [negb Bool.eqb stat_used stat_free stat_total stat_frag];
      rewrite ?(u32_id (stat_free st + b_size b)),
        ?(u32_id (stat_used st + b_size b)) by lia;
      match goal with |- context [stat_fold M ?f ?st'] =>
        destruct (IH (a + b_size b) f st' Hl) as (H1 & H2 & H3 & H4);
        cbn [stat_used stat_free stat_total]; try lia;
        cbn [stat_used stat_free stat_total] in H1, H2, H3, H4;
        repeat split; try assumption; lia
      end.
Qed.

(** ** [est_calloc] *)

(** [est_calloc] sees only the product of its arguments reduced to the
    32-bit [unsigned int]. *)
Lemma est_calloc_wrapped fuel pool nmemb sz :
  est_calloc fuel pool nmemb sz = est_calloc fuel pool (u32 (nmemb * sz)) 1.
Proof.
  unfold est_calloc. cbv zeta. rewrite Z.mul_1_r.
  assert (E : u32 (u32 (nmemb * sz)) = u32 (nmemb * sz))
    by (unfold u32; apply Z.mod_mod; lia).
  rewrite E. reflexivity.
Qed.

(** In a reachable state [est_calloc] returns; a non-NULL result is a new
    allocation whose first [nmemb * size] bytes, the product taken modulo
    2^32 as the C code computes it, are zero and lie within its usable
    size.  A NULL result leaves the pool as it was. *)
Theorem calloc_zeroed ptr bytes s nmemb sz fuel :
  reachable ptr bytes s -> size (st_pool s) < Z.of_nat fuel ->
  u32 (nmemb * sz) + 15 < 2 ^ 32 ->
  exists p pool',
    est_calloc fuel (st_pool s) nmemb sz = Some (p, pool')
    /\ ((p = NULL /\ pool' = st_pool s)
        \/ (p <> NULL /\ ~ In p (st_live s)
            /\ u32 (nmemb * sz) <= est_usable_size pool' p
            /\ forall i, 0 <= i < u32 (nmemb * sz) ->
                 heap pool' (p + i) = 0)).
Proof.
  intros Hr Hfuel Hn.
  destruct (reachable_valid _ _ _ Hr) as ((L0 & lst & F & HI & _) & _).
  pose proof (inv_chain _ _ _ _ _ HI) as Hc.
  pose proof (chain_length _ _ _ Hc) as Hlen.
  assert (H0 : 0 <= u32 (nmemb * sz)) by (unfold u32; apply Z.mod_pos_bound; lia).
  unfold est_calloc. cbv zeta.
  set (n := u32 (nmemb * sz)) in *.
  destruct (est_malloc_spec (st_pool s) L0 lst F (st_live s) n fuel HI
              ltac:(lia)) as [Em|([q pool1] & Em & Hpost)]; rewrite Em.
  { exists NULL, (st_pool s). rewrite Z.eqb_refl. cbn [negb].
    split; [reflexivity|]. left. split; reflexivity. }
  destruct (malloc_post_usable _ _ _ _ _ _ _ HI Hpost)
    as (Hus & _ & Hnl & _).
  pose proof (malloc_alloc_post _ _ _ _ _ _ Hpost) as (Hnn & _).
  pose proof (alloc_size_of_ge n H0 Hn) as Hge.
  cbn [fst snd] in *.
  destruct (Z.eqb_spec q NULL) as [E|_]; [contradiction|]. cbn [negb].
  eexists. eexists. split; [reflexivity|]. right.
  split; [exact Hnn|]. split; [exact Hnl|]. split.
  - unfold est_usable_size in *. cbn [heap with_heap].
    unfold BLOCK_SIZE in *.
    rewrite (get_size_changed (heap pool1)
               (zero_fill (Z.to_nat n) (heap pool1) q)
               q (q + Z.of_nat (Z.to_nat n)) (BLOCK_ADRS q)
               (zero_fill_changed _ _ _)).
    + lia.
    + unfold BLOCK_ADRS. change sizeof_USED_BLOCK with 8. lia.
  - intros i Hi. cbn [heap with_heap]. apply zero_fill_zero. lia.
Qed.

Lemma calloc_zeroed_witness :
  exists p pool',
    est_calloc 4097 (st_pool demo_state) 2147483698 2 = Some (p, pool')
    /\ ((p = NULL /\ pool' = st_pool demo_state)
        \/ (p <> NULL /\ ~ In p (st_live demo_state)
            /\ u32 (2147483698 * 2) <= est_usable_size pool' p
            /\ forall i, 0 <= i < u32 (2147483698 * 2) ->
                 heap pool' (p + i) = 0)).
Proof.
  apply (calloc_zeroed 4096 4096 demo_state 2147483698 2 4097).
  - apply reach_init. unfold init_ok. repeat split; vm_compute; congruence.
  - vm_compute. reflexivity.
  - vm_compute. reflexivity.
Defined.

(** ** The sanity check *)

Lemma block_size_aligned m p : Z.land (BLOCK_SIZE m p) ALIGNMENT_MASK = 0.
Proof.
  unfold BLOCK_SIZE. rewrite <- Z.land_assoc.
  replace (Z.land (u32 (Z.lnot ALIGNMENT_MASK)) ALIGNMENT_MASK) with 0
    by reflexivity.
  apply Z.land_0_r.
Qed.

Lemma lor_bit0 e k :
  Z.testbit e 0 = false -> Z.testbit k 0 = false ->
  Z.testbit (Z.lor e k) 0 = false.
Proof. intros He Hk. rewrite Z.lor_spec, He, Hk. reflexivity. Qed.

Lemma sanity_walk_bit0 pool :
  forall fuel block prev_block e r,
  Z.testbit e 0 = false ->
  sanity_walk fuel pool block prev_block e = Some r ->
  Z.testbit r 0 = false.
Proof.
  induction fuel as [|k IH]; intros block prev_block e r He Hw;
    [discriminate|].
  cbn [sanity_walk] in Hw. cbv zeta in Hw.
  destruct (block <? BPOOL_END pool); [|inversion Hw; subst; exact He].
  rewrite block_size_aligned in Hw. cbn [Z.eqb negb] in Hw.
  apply IH in Hw; [exact Hw|].
  repeat match goal with
         | |- context [if ?c then _ else _] => destruct c
         end;
    repeat (apply lor_bit0; [|reflexivity]); exact He.
Qed.

(** [est_sanity_check] never reports the alignment error 0x01 for a pool
    it walks: the size it tests has gone through [BLOCK_SIZE], which
    clears the bits under test.  Bit 0 of the result is set only by the
    early return for a NULL or empty pool, whatever the bytes of the
    pool are. *)
Theorem sanity_check_alignment_bit hdr fuel pool e :
  est_sanity_check hdr fuel pool = Some e ->
  pool_adrs pool <> NULL -> size pool <> 0 ->
  Z.testbit e 0 = false.
Proof.
  unfold est_sanity_check. intros He Hp Hs.
  destruct (Z.eqb_spec (pool_adrs pool) NULL); [contradiction|].
  destruct (Z.eqb_spec (size pool) 0); [contradiction|].
  cbn [orb] in He.
  apply (sanity_walk_bit0 pool fuel (pool_adrs pool + hdr) NULL 0 e);
    [reflexivity|exact He].
Qed.

(** A pool of the debug build, 4112 bytes at address 4080: behind its
    header of 720 bytes lie one free block, from 4800, and the last block,
    at 8184.  The size word of the last block is overwritten by 11: size
    8, used, previous block used, although the block before it is free. *)
Definition demo_broken : MEMORY_POOL :=
  mkPOOL 4080 (est demo_pool) 4112 (free_fli_bitmap demo_pool)
         (free_sli_bitmap demo_pool) (free_blocks demo_pool)
         (set_size (heap demo_pool) 8184 11).

Lemma sanity_check_alignment_bit_witness :
  est_sanity_check sizeof_MEMORY_POOL_DEBUG 4097 demo_broken = Some 16
  /\ Z.testbit 16 0 = false.
Proof.
  assert (H : est_sanity_check sizeof_MEMORY_POOL_DEBUG 4097 demo_broken
              = Some 16)
    by (vm_compute; reflexivity).
  split; [exact H|].
  apply (sanity_check_alignment_bit sizeof_MEMORY_POOL_DEBUG 4097
           demo_broken 16 H);
    vm_compute; congruence.
Defined.

Lemma sanity_walk_ok pool :
  forall M a pu fuel prev_block,
  lay a M -> words (heap pool) pu M -> chain_end a M = BPOOL_END pool ->
  BPOOL_END pool - a <= size pool < 2 ^ 32 ->
  (length M < fuel)%nat ->
  prev_block = NULL \/ IS_USED_BLOCK (heap pool) prev_block = pu ->
  sanity_walk fuel pool a prev_block 0 = Some 0.
Proof.
  induction M as [|b M IH]; intros a pu fuel prev_block Hl Hw He Hr Hf Hp;
    (destruct fuel as [|k]; [cbn in Hf; lia|]); cbn [sanity_walk]; cbv zeta.
  - cbn in He. destruct (Z.ltb_spec a (BPOOL_END pool)); [lia|]. reflexivity.
  - destruct (walk_step (heap pool) (BPOOL_END pool) _ _ _ _ Hl Hw He
                ltac:(lia))
      as (Ha & Hlt & Hbs & Hn & Hu & Hl' & Hw' & He' & Hr').
    pose proof (lay_end_ge _ _ Hl') as Hge. rewrite He' in Hge.
    cbn [lay words] in Hl, Hw. destruct Hl as (_ & Hm & Hs & _).
    destruct Hw as (Hwd & _).
    destruct (Z.ltb_spec a (BPOOL_END pool)); [|lia].
    rewrite block_size_aligned. cbn [Z.eqb negb].
    rewrite Hn, Hbs.
    destruct (Z.ltb_spec (size pool) (b_size b)); [lia|].
    destruct (Z.ltb_spec (a + b_size b) a); [lia|].
    destruct (Z.ltb_spec (BPOOL_END pool) (a + b_size b)); [lia|].
    cbn [orb].
    assert (Hpu : IS_PREV_USED (heap pool) a = pu).
    { rewrite Ha. exact (IS_PREV_USED_word _ _ _ _ _ Hwd Hm). }
    assert (Ee : (if negb (prev_block =? NULL)
                  then
                    if IS_FREE_BLOCK (heap pool) prev_block
                       && IS_PREV_USED (heap pool) a
                    then Z.lor
                           (if IS_USED_BLOCK (heap pool) prev_block
                               && negb (IS_PREV_USED (heap pool) a)
                            then Z.lor 0 8 else 0) 16
                    else
                      if IS_USED_BLOCK (heap pool) prev_block
                         && negb (IS_PREV_USED (heap pool) a)
                      then Z.lor 0 8 else 0
                  else 0) = 0).
    { destruct Hp as [->|Hp]; [reflexivity|].
      unfold IS_FREE_BLOCK. rewrite Hp, Hpu.
      destruct (negb (prev_block =? NULL)); [|reflexivity].
      destruct pu; reflexivity. }
    rewrite Ee. cbn [length] in Hf.
    apply (IH (a + b_size b) (b_used b) k a Hl' Hw' He'); [lia|lia|].
    right. exact Hu.
Qed.

(** ** How much [est_malloc] hands out *)

(** The two sample states are reachable. *)
Ltac demo_reach :=
  apply reach_init; unfold init_ok; repeat split; vm_compute; congruence.

Ltac demo_reach1 :=
  apply (reach_step 4096 4096 demo_state);
  [demo_reach
  |apply (step_malloc demo_state 4097 100 (fst demo_alloc) (snd demo_alloc));
   vm_compute; reflexivity].

Lemma malloc_chain_taken A t sz al B :
  al <= sz ->
  exists S', al <= S' <= al + 32
             /\ In (mkblk t S' true) (malloc_chain A t sz al B).
Proof.
  intros Hal. unfold malloc_chain. destruct (Z.leb_spec (sz - al) 32).
  - exists sz. split; [lia|]. apply in_middle. auto.
  - exists al. split; [lia|]. apply in_middle. auto.
Qed.

(** The block behind a non-NULL result of [est_malloc] is at most 32
    bytes larger than the effective size of the request: a larger
    remainder is always split off and put back on a free list. *)
Theorem malloc_waste_bounded ptr bytes s n fuel p pool' :
  reachable ptr bytes s -> size (st_pool s) < Z.of_nat fuel ->
  est_malloc fuel (st_pool s) n = Some (p, pool') -> p <> NULL ->
  alloc_size_of n - sizeof_USED_BLOCK <= est_usable_size pool' p
  /\ est_usable_size pool' p
     <= alloc_size_of n - sizeof_USED_BLOCK + ESTALLOC_MIN_MEMORY_BLOCK_SIZE.
Proof.
  intros Hr Hfuel Em Hp.
  destruct (reachable_valid _ _ _ Hr) as ((L0 & lst & F & HI & _) & _).
  pose proof (chain_length _ _ _ (inv_chain _ _ _ _ _ HI)) as Hlen.
  destruct (est_malloc_spec (st_pool s) L0 lst F (st_live s) n fuel HI
              ltac:(lia)) as [En|(r & Er & Hpost)].
  { rewrite En in Em. inversion Em. congruence. }
  rewrite Er in Em. apply some_eq in Em. subst r.
  destruct Hpost as (A & t & sz & B & F' & EL & Hsz & Hf & HI' & _).
  cbn [fst snd] in *. subst p.
  pose proof (inv_chain _ _ _ _ _ HI') as Hc.
  destruct (malloc_chain_taken A t sz (alloc_size_of n) B Hsz)
    as (S1 & HS1 & Hbn).
  destruct (in_split _ _ Hbn) as (A2 & B2 & E2).
  pose proof Hc as Hc'. rewrite E2 in Hc'.
  destruct (chain_inv_split _ _ _ _ _ Hc') as (Hw & _).
  pose proof (chain_inv_blk _ _ _ Hc _ Hbn) as Hk.
  cbn [b_addr b_size b_used] in *.
  unfold est_usable_size, BLOCK_ADRS. change sizeof_USED_BLOCK with 8.
  change ESTALLOC_MIN_MEMORY_BLOCK_SIZE with 32.
  replace (t + 8 - 8) with t by lia.
  rewrite (BLOCK_SIZE_word _ _ _ _ _ Hw) by lia.
  rewrite u32_id by lia. lia.
Qed.

Lemma malloc_waste_bounded_witness :
  alloc_size_of 100 - sizeof_USED_BLOCK
  <= est_usable_size (snd demo_alloc) (fst demo_alloc)
  /\ est_usable_size (snd demo_alloc) (fst demo_alloc)
     <= alloc_size_of 100 - sizeof_USED_BLOCK + ESTALLOC_MIN_MEMORY_BLOCK_SIZE.
Proof.
  apply (malloc_waste_bounded 4096 4096 demo_state 100 4097
           (fst demo_alloc) (snd demo_alloc)).
  - demo_reach.
  - vm_compute. reflexivity.
  - vm_compute. reflexivity.
  - vm_compute. congruence.
Defined.

(** The first [est_malloc] on a pool fresh from [est_init] succeeds
    exactly when the effective size of the request fits the one free block
    [est_init] laid out, the buffer less the pool header and the sentinel;
    its result is then the first payload address behind the header. *)
Theorem first_malloc_capacity m ptr bytes n fuel :
  init_ok ptr bytes -> bytes < Z.of_nat fuel ->
  exists p pool',
    est_malloc fuel (est_init m ptr bytes) n = Some (p, pool')
    /\ (alloc_size_of n <= init_free_size bytes ->
        p = ptr + sizeof_MEMORY_POOL + sizeof_USED_BLOCK)
    /\ (init_free_size bytes < alloc_size_of n ->
        p = NULL /\ pool' = est_init m ptr bytes).
Proof.
  intros Hok Hfuel.
  pose proof (est_init_spec m ptr bytes Hok) as HI.
  set (pool := est_init m ptr bytes) in *.
  pose proof (inv_chain _ _ _ _ _ HI) as Hc.
  pose proof (chain_length _ _ _ Hc) as Hlen.
  assert (Hsize : size pool <= bytes).
  { change (size pool) with (Z.land bytes (u32 (Z.lnot ALIGNMENT_MASK))).
    destruct Hok as (Ha & _ & _ & Hs).
    unfold est_init_asserts in Ha.
    repeat (apply andb_true_iff in Ha as [Ha ?]).
    change sizeof_MEMORY_POOL with 704 in Hs.
    change ESTALLOC_MIN_MEMORY_BLOCK_SIZE with 32 in Hs.
    change sizeof_USED_BLOCK with 8 in Hs.
    change (u32 (Z.lnot 0)) with (2 ^ 32 - 1) in *.
    rewrite round_down_8 by lia.
    pose proof (Z.div_mod bytes 8 ltac:(lia)).
    pose proof (Z.mod_pos_bound bytes 8 ltac:(lia)). lia. }
  destruct (est_malloc_spec pool _ _ _ _ n fuel HI ltac:(lia))
    as [En|([p pool'] & Er & Hpost)].
  - exists NULL, pool. split; [exact En|]. split; [|auto].
    intros Hfit. exfalso.
    pose proof (est_malloc_null_small pool (init_chain ptr bytes)
                  (init_last ptr bytes) (init_flists ptr bytes) [] n fuel
                  pool HI ltac:(lia) En
                  (mkblk (ptr + 704) (init_free_size bytes) false)
                  ltac:(left; reflexivity) eq_refl) as X.
    cbn [b_size] in X. lia.
  - exists p, pool'. split; [exact Er|].
    destruct Hpost as (A & t & sz & B & F' & EL & Hsz & Hf & _).
    cbn [fst snd] in *.
    unfold init_chain in EL.
    destruct A as [|a A'].
    + cbn [app] in EL. inversion EL as [[Et Es EB]]. subst t sz.
      split; [intros _; rewrite Hf; change sizeof_MEMORY_POOL with 704;
              change sizeof_USED_BLOCK with 8; reflexivity|].
      intros Hlt. lia.
    + exfalso. cbn [app] in EL. inversion EL as [[Ea EA]].
      destruct A'; discriminate EA.
Qed.

Lemma first_malloc_capacity_witness :
  exists p pool',
    est_malloc 4097 (est_init demo_mem 4096 4096) 3376 = Some (p, pool')
    /\ (alloc_size_of 3376 <= init_free_size 4096 ->
        p = 4096 + sizeof_MEMORY_POOL + sizeof_USED_BLOCK)
    /\ (init_free_size 4096 < alloc_size_of 3376 ->
        p = NULL /\ pool' = est_init demo_mem 4096 4096).
Proof.
  apply (first_malloc_capacity demo_mem 4096 4096 3376 4097).
  - exact demo_init_ok.
  - vm_compute. reflexivity.
Defined.

(** ** The free-block index *)

Lemma list_walk_all m :
  forall l prev head fuel,
  dll m prev l head -> (length l < fuel)%nat -> list_walk fuel m head = l.
Proof.
  induction l as [|a l IH]; intros prev head fuel Hd Hf;
    (destruct fuel as [|k]; [cbn in Hf; lia|]); cbn [list_walk].
  - cbn in Hd. rewrite Hd. reflexivity.
  - cbn [dll] in Hd. destruct Hd as (-> & Hn & _ & Hd).
    destruct (Z.eqb_spec a NULL) as [|_]; [contradiction|].
    cbn [length] in Hf. rewrite (IH _ _ k Hd) by lia. reflexivity.
Qed.

(** In a reachable state the two bitmaps mirror the table of list heads:
    bit [7 - SLI] of row [FLI] of the second-level bitmap is set exactly
    when the list of that class is not empty, and bit [15 - f] of the
    first-level bitmap exactly when row [f] is not zero. *)
Theorem bitmaps_mirror_lists ptr bytes s :
  reachable ptr bytes s ->
  (forall idx, 0 <= idx < SIZE_FREE_BLOCKS ->
     Z.testbit (arr_get (free_sli_bitmap (st_pool s)) (FLI idx))
               (7 - SLI idx)
     = negb (arr_get (free_blocks (st_pool s)) idx =? NULL))
  /\ (forall f, 0 <= f <= ESTALLOC_FLI_BIT_WIDTH ->
        Z.testbit (free_fli_bitmap (st_pool s)) (15 - f)
        = negb (arr_get (free_sli_bitmap (st_pool s)) f =? 0))
  /\ arr_get (free_blocks (st_pool s)) SIZE_FREE_BLOCKS = NULL.
Proof.
  intros Hr.
  destruct (reachable_valid _ _ _ Hr) as ((L0 & lst & F & HI & _) & _).
  pose proof (ii_lists _ _ _ (inv_index _ _ _ _ _ HI)) as Hl.
  pose proof (ii_bitmap _ _ _ (inv_index _ _ _ _ _ HI)) as Hb.
  change SIZE_FREE_BLOCKS with 80. change ESTALLOC_FLI_BIT_WIDTH with 9.
  split; [|split].
  - intros idx Hidx.
    destruct (FLI_SLI_upto idx ltac:(lia)) as (Hf & Hs & E).
    rewrite (bi_sli _ _ Hb (FLI idx) (SLI idx)) by lia.
    rewrite <- E.
    destruct (Z.eqb_spec (arr_get (free_blocks (st_pool s)) idx) NULL)
      as [En|En].
    + rewrite (head_null_nil _ _ _ _ Hl Hidx En). reflexivity.
    + rewrite (list_head _ _ _ _ Hl Hidx) in En.
      destruct (F idx); [contradiction|reflexivity].
  - intros f Hf. apply (bi_fli _ _ Hb f Hf).
  - apply (li_fb_sentinel _ _ _ Hl).
Qed.

Lemma bitmaps_mirror_lists_witness :
  (forall idx, 0 <= idx < SIZE_FREE_BLOCKS ->
     Z.testbit (arr_get (free_sli_bitmap (st_pool demo_state1)) (FLI idx))
               (7 - SLI idx)
     = negb (arr_get (free_blocks (st_pool demo_state1)) idx =? NULL))
  /\ (forall f, 0 <= f <= ESTALLOC_FLI_BIT_WIDTH ->
        Z.testbit (free_fli_bitmap (st_pool demo_state1)) (15 - f)
        = negb (arr_get (free_sli_bitmap (st_pool demo_state1)) f =? 0))
  /\ arr_get (free_blocks (st_pool demo_state1)) SIZE_FREE_BLOCKS = NULL.
Proof.
  apply (bitmaps_mirror_lists 4096 4096 demo_state1). demo_reach1.
Defined.

(** In a reachable state the free lists hold exactly the free blocks of
    the physical chain, each on the list of the class of its size: what
    [next_free] links from head [idx] are free blocks of the chain whose
    size has class [idx] and whose last word points back to the block, no
    block twice, and every free block of the chain is met on the list of
    its class. *)
Theorem free_lists_exact ptr bytes s fuel chain :
  reachable ptr bytes s -> size (st_pool s) < Z.of_nat fuel ->
  phys_blocks fuel (heap (st_pool s)) (BPOOL_TOP (st_pool s))
              (BPOOL_END (st_pool s)) = Some chain ->
  let m := heap (st_pool s) in
  let on_list idx :=
    list_walk fuel m (arr_get (free_blocks (st_pool s)) idx) in
  (forall idx a, 0 <= idx < SIZE_FREE_BLOCKS -> In a (on_list idx) ->
     In a chain /\ IS_FREE_BLOCK m a = true
     /\ calc_index (BLOCK_SIZE m a) = idx
     /\ load_ptr m (PHYS_NEXT m a - sizeof_ptr) = a)
  /\ (forall idx, 0 <= idx < SIZE_FREE_BLOCKS -> NoDup (on_list idx))
  /\ (forall a, In a chain -> IS_FREE_BLOCK m a = true ->
        In a (on_list (calc_index (BLOCK_SIZE m a)))).
Proof.
  intros Hr Hfuel Hch m on_list.
  destruct (reachable_valid _ _ _ Hr) as ((L0 & lst & F & HI & _) & _).
  pose proof (inv_chain _ _ _ _ _ HI) as Hc.
  pose proof (chain_length _ _ _ Hc) as Hlen.
  pose proof (ii_lists _ _ _ (inv_index _ _ _ _ _ HI)) as Hl.
  destruct (Inv_walks _ _ _ _ _ fuel HI Hfuel) as (Hw & _).
  rewrite Hw in Hch. apply some_eq in Hch. subst chain.
  change SIZE_FREE_BLOCKS with 80.
  assert (Eon : forall idx, 0 <= idx < 80 -> on_list idx = F idx).
  { intros idx Hidx. unfold on_list.
    apply (list_walk_all m (F idx) NULL); [apply (li_dll _ _ _ Hl idx Hidx)|].
    pose proof (list_length_le _ _ _ _ _ idx HI). lia. }
  split; [|split].
  - intros idx a Hidx Ha. rewrite (Eon idx Hidx) in Ha.
    destruct (li_mem _ _ _ Hl idx a Ha) as (_ & sz & Hb & Hci & Htag).
    assert (Hin : In a (map b_addr (L0 ++ [lst]))).
    { apply in_map_iff. exists (mkblk a sz false). split; [reflexivity|].
      apply in_or_app. left. exact Hb. }
    split; [exact Hin|].
    pose proof (chain_inv_blk _ _ _ Hc _ Hb) as Hk.
    destruct (in_split _ _ Hb) as (A & B & EL).
    pose proof Hc as Hc'. rewrite EL in Hc'.
    destruct (chain_inv_split _ _ _ _ _ Hc') as (Hwd & _).
    cbn [b_addr b_size b_used] in *.
    unfold m, PHYS_NEXT.
    rewrite (IS_FREE_word _ _ _ _ _ Hwd), (BLOCK_SIZE_word _ _ _ _ _ Hwd)
      by lia.
    change sizeof_ptr with 8.
    split; [reflexivity|]. split; [exact Hci|exact Htag].
  - intros idx Hidx. rewrite (Eon idx Hidx). apply (li_nodup _ _ _ Hl).
  - intros a Ha Hfree.
    destruct (chain_block_facts _ _ _ _ _ _ HI Ha)
      as (b & Hb & Eb & _ & Hf & Hbs & Hk).
    fold m in Hf, Hbs. rewrite Hf in Hfree. apply negb_true_iff in Hfree.
    apply in_app_or in Hb as [Hb|[<-|[]]];
      [|rewrite (ci_lst_used _ _ _ Hc) in Hfree; discriminate].
    pose proof (inv_complete _ _ _ _ _ HI b Hb Hfree) as Hin.
    rewrite Hbs.
    pose proof (chain_inv_blk _ _ _ Hc _ Hb) as Hkb.
    rewrite (Eon _ (calc_index_range (b_size b) ltac:(lia))).
    rewrite <- Eb. exact Hin.
Qed.

Lemma free_lists_exact_witness :
  let s := demo_state1 in
  let m := heap (st_pool s) in
  let on_list idx :=
    list_walk 4097 m (arr_get (free_blocks (st_pool s)) idx) in
  (forall idx a, 0 <= idx < SIZE_FREE_BLOCKS -> In a (on_list idx) ->
     In a [4800; 4912; 8184] /\ IS_FREE_BLOCK m a = true
     /\ calc_index (BLOCK_SIZE m a) = idx
     /\ load_ptr m (PHYS_NEXT m a - sizeof_ptr) = a)
  /\ (forall idx, 0 <= idx < SIZE_FREE_BLOCKS -> NoDup (on_list idx))
  /\ (forall a, In a [4800; 4912; 8184] -> IS_FREE_BLOCK m a = true ->
        In a (on_list (calc_index (BLOCK_SIZE m a)))).
Proof.
  apply (free_lists_exact 4096 4096 demo_state1 4097 [4800; 4912; 8184]).
  - demo_reach1.
  - vm_compute. reflexivity.
  - vm_compute. reflexivity.
Defined.

(** ** Regions carved by [est_permalloc] *)

Lemma permalloc_tail_fst pool prev tail al :
  fst (permalloc_tail pool prev tail al) = prev + 8
  \/ fst (permalloc_tail pool prev tail al) = tail - al + 8.
Proof.
  unfold permalloc_tail. cbv zeta.
  match goal with |- context [if ?c then _ else _] => destruct c end;
    cbn [fst]; change sizeof_USED_BLOCK with 8; auto.
Qed.

(** A region carved from the tail ends where the payload of the last
    block began before the call. *)
Lemma est_permalloc_tail_bound pool L0 lst F live n fuel r :
  Inv pool L0 lst F live -> size pool < Z.of_nat fuel ->
  permalloc_from_tail fuel pool n = true ->
  est_permalloc fuel pool n = Some r ->
  fst r + permalloc_size n <= b_addr lst + 8.
Proof.
  intros HI Hfuel Hft Hm. pose proof (inv_chain _ _ _ _ _ HI) as Hc.
  pose proof (chain_length _ _ _ Hc) as Hlen.
  destruct (permalloc_size_facts n) as (Hal & Halm).
  unfold est_permalloc in Hm. unfold permalloc_from_tail in Hft.
  cbv zeta in Hm. fold (permalloc_size n) in Hm.
  pose proof (chain_inv_lst _ _ _ Hc) as Hkl.
  pose proof (chain_inv_lst_word _ _ _ Hc) as Hwl.
  destruct L0 as [|b0 L0'].
  - exfalso. cbn [last_used] in Hwl.
    pose proof (ci_lst_addr _ _ _ Hc) as Ea. cbn [chain_end] in Ea.
    pose proof (ci_lst_end _ _ _ Hc) as Ee. rewrite <- Ee, <- Ea in Hft.
    rewrite (find_tail_single _ _ _ _ _ fuel Hwl) in Hft by lia.
    rewrite (IS_USED_word _ _ _ _ _ Hwl) in Hft by lia.
    discriminate Hft.
  - destruct (@exists_last _ (b0 :: L0') ltac:(discriminate))
      as (A & pb & EL).
    rewrite EL in *. clear EL b0 L0'.
    destruct (chain_inv_lay _ _ _ Hc) as [Hl He].
    rewrite <- app_assoc in Hl, He. cbn [app] in Hl, He.
    pose proof (ci_words _ _ _ Hc) as Hw.
    rewrite <- app_assoc in Hw. cbn [app] in Hw.
    destruct (chain_around _ _ _ _ _ Hc)
      as (nx & R & ER & Hnxa & Hnxs & Hnxm & Hnxe & HR & HA & Htop & Hsz
          & Hszm & Hpos & Hend & Hlen').
    cbn [app] in ER. inversion ER; subst nx R.
    rewrite length_app in Hlen. cbn [length] in Hlen.
    rewrite (find_tail_spec _ _ A _ true pb lst fuel Hl Hw He) in Hm, Hft
      by lia.
    destruct (chain_inv_split _ _ _ _ _ Hc) as (Hwp & _).
    rewrite (IS_USED_word _ _ _ _ _ Hwp Hszm) in Hm, Hft.
    destruct (b_used pb) eqn:Hu; cbn [negb andb] in Hft; [discriminate|].
    rewrite (BLOCK_SIZE_word _ _ _ _ _ Hwp Hszm) in Hm, Hft by lia.
    change sizeof_USED_BLOCK with 8 in Hm, Hft.
    rewrite u64_id in Hm, Hft by lia.
    destruct (Z.ltb_spec (b_size pb - 8) (permalloc_size n)) as [Hlt|Hge];
      cbn [negb] in Hft; [discriminate|].
    apply some_eq in Hm. subst r.
    destruct (permalloc_tail_fst pool (b_addr pb) (b_addr lst)
                (permalloc_size n)) as [E|E]; rewrite E; lia.
Qed.

(** [perm] lists regions from the newest to the oldest; each region ends
    at or before the start of every older one. *)
Fixpoint perm_apart (perm : list (Z * Z)) : Prop :=
  match perm with
  | [] => True
  | r :: rest =>
      (forall q al, In (q, al) rest -> fst r + snd r <= q)
      /\ perm_apart rest
  end.

Lemma step_perm_apart s s' L0 lst F :
  Valid_with s L0 lst F -> step s s' ->
  perm_apart (st_perm s) -> perm_apart (st_perm s').
Proof.
  intros (HI & Hperm) Hstep Hap.
  destruct Hstep as [fuel n p pool' Hfuel Hm
                    |fuel nmemb sz p pool' Hfuel H0 H1 Hm
                    |fuel p n q pool' Hfuel Hp Hm
                    |fuel n q pool' Hfuel Hm
                    |p Hp
                    |
                    |fuel n p pool' Hfuel Hm
                    |p i v Hp Hi
                    |p al i v Hp Hi]; cbn [st_perm]; try exact Hap.
  destruct (permalloc_from_tail fuel (st_pool s) n) eqn:Hft;
    cbn [st_perm]; [|exact Hap].
  cbn [perm_apart fst snd]. split; [|exact Hap].
  intros q al Hq.
  pose proof (est_permalloc_tail_bound _ _ _ _ _ n fuel (p, pool') HI Hfuel
                Hft Hm) as Hb.
  cbn [fst] in Hb. destruct (Hperm q al Hq) as (Hq1 & _). lia.
Qed.

(** The regions [est_permalloc] has carved from the tail never overlap:
    in a reachable state each one ends at or before the start of every
    region carved earlier, and each begins behind the usable bytes of
    every live allocation and ends inside the pool. *)
Theorem permalloc_regions_apart ptr bytes s :
  reachable ptr bytes s ->
  perm_apart (st_perm s)
  /\ (forall q al p, In (q, al) (st_perm s) -> In p (st_live s) ->
        p + est_usable_size (st_pool s) p < q)
  /\ (forall q al, In (q, al) (st_perm s) ->
        0 <= al /\ q + al <= BPOOL_END (st_pool s)).
Proof.
  intros Hr. split.
  - induction Hr as [m Hok|s s' Hr IH Hs]; [exact I|].
    destruct (reachable_valid _ _ _ Hr) as ((L0 & lst & F & Hv) & _).
    exact (step_perm_apart s s' L0 lst F Hv Hs IH).
  - destruct (reachable_valid _ _ _ Hr) as ((L0 & lst & F & HI & Hperm) & _).
    split.
    + intros q al p Hq Hp.
      destruct (usable_size_live _ _ _ _ _ _ HI Hp)
        as (S & Hb & Hus & Hs & _).
      pose proof (chain_inv_blk _ _ _ (inv_chain _ _ _ _ _ HI) _ Hb) as Hk.
      cbn [b_addr b_size] in Hk.
      destruct (Hperm q al Hq) as (Hq1 & _). lia.
    + intros q al Hq. destruct (Hperm q al Hq) as (_ & H1 & H2). auto.
Qed.

(** A state with one live allocation and two regions carved from the
    tail, of 256 and then of 64 bytes. *)
Definition demo_perm1 : Z * MEMORY_POOL :=
  match est_permalloc 4097 (snd demo_alloc) 256 with
  | Some r => r
  | None => (NULL, snd demo_alloc)
  end.

Definition demo_perm2 : Z * MEMORY_POOL :=
  match est_permalloc 4097 (snd demo_perm1) 64 with
  | Some r => r
  | None => (NULL, snd demo_perm1)
  end.

Definition demo_state3 : state :=
  mkstate (snd demo_perm1) (st_live demo_state1)
          [(fst demo_perm1, permalloc_size 256)].

Definition demo_state4 : state :=
  mkstate (snd demo_perm2) (st_live demo_state1)
          [(fst demo_perm2, permalloc_size 64);
           (fst demo_perm1, permalloc_size 256)].

Lemma permalloc_regions_apart_witness :
  perm_apart (st_perm demo_state4)
  /\ (forall q al p, In (q, al) (st_perm demo_state4) ->
        In p (st_live demo_state4) ->
        p + est_usable_size (st_pool demo_state4) p < q)
  /\ (forall q al, In (q, al) (st_perm demo_state4) ->
        0 <= al /\ q + al <= BPOOL_END (st_pool demo_state4)).
Proof.
  apply (permalloc_regions_apart 4096 4096 demo_state4).
  apply (reach_step 4096 4096 demo_state3).
  - apply (reach_step 4096 4096 demo_state1); [demo_reach1|].
    exact (step_permalloc demo_state1 4097 256 (fst demo_perm1)
             (snd demo_perm1)
             ltac:(vm_compute; reflexivity) ltac:(vm_compute; reflexivity)).
  - exact (step_permalloc demo_state3 4097 64 (fst demo_perm2)
             (snd demo_perm2)
             ltac:(vm_compute; reflexivity) ltac:(vm_compute; reflexivity)).
Defined.

(** ** Accounting *)

(** The bytes of the blocks in use of a chain. *)
Fixpoint used_bytes (M : list blk) : Z :=
  match M with
  | [] => 0
  | b :: M' => (if b_used b then b_size b else 0) + used_bytes M'
  end.

Lemma used_bytes_app M1 M2 :
  used_bytes (M1 ++ M2) = used_bytes M1 + used_bytes M2.
Proof.
  induction M1 as [|b M1 IH]; [reflexivity|]. cbn [app used_bytes].
  rewrite IH. lia.
Qed.

Lemma stat_fold_used_bytes :
  forall M a flag st,
  lay a M -> 0 <= stat_used st -> 0 <= stat_free st ->
  stat_used st + stat_free st + (chain_end a M - a) < 2 ^ 32 ->
  stat_used (stat_fold M flag st) = stat_used st + used_bytes M
  /\ 0 <= used_bytes M <= chain_end a M - a.
Proof.
  induction M as [|b M IH]; intros a flag st Hl Hu Hf Hs.
  - cbn [stat_fold used_bytes chain_end]. lia.
  - cbn [lay chain_end] in Hl, Hs. destruct Hl as (Ha & Hm & Hb & Hl).
    pose proof (lay_end_ge _ _ Hl) as Hge.
    cbn [stat_fold used_bytes chain_end]. cbv zeta.
    destruct (b_used b), flag;
      cbn [negb Bool.eqb stat_used stat_free stat_total stat_frag];
      rewrite ?(u32_id (stat_free st + b_size b)),
        ?(u32_id (stat_used st + b_size b)) by lia;
      match goal with |- context [stat_fold M ?f ?st'] =>
        destruct (IH (a + b_size b) f st' Hl) as (H1 & H2);
        cbn [stat_used stat_free stat_total]; try lia;
        cbn [stat_used stat_free stat_total] in H1; lia
      end.
Qed.

(** What [est_take_statistics] reports on a consistent pool. *)
Lemma Inv_stat_counts pool L0 lst F live fuel :
  Inv pool L0 lst F live -> size pool < Z.of_nat fuel ->
  exists pool',
    est_take_statistics sizeof_MEMORY_POOL fuel pool = Some pool'
    /\ stat_used (stat (est pool')) = used_bytes L0 + b_size lst
    /\ stat_free (stat (est pool'))
       = size pool - sizeof_MEMORY_POOL - used_bytes L0 - b_size lst.
Proof.
  intros HI Hfuel. pose proof (inv_chain _ _ _ _ _ HI) as Hc.
  rewrite (Inv_statistics _ _ _ _ _ fuel HI Hfuel).
  eexists. split; [reflexivity|]. cbn [stat est with_est].
  destruct (chain_inv_lay _ _ _ Hc) as [Hl He].
  pose proof (chain_inv_lst _ _ _ Hc) as Hk.
  pose proof (ci_size _ _ _ Hc) as Hsz.
  unfold stats_of.
  set (flag := b_used (hd (mkblk 0 0 true) (L0 ++ [lst]))).
  set (st0 := mkSTAT (size pool) 0 0 (u32 (-1))).
  assert (Hb : stat_used st0 + stat_free st0
               + (chain_end (BPOOL_TOP pool) (L0 ++ [lst])
                  - BPOOL_TOP pool) < 2 ^ 32).
  { rewrite He. unfold BPOOL_END, BPOOL_TOP, st0. cbn [stat_used stat_free].
    change sizeof_MEMORY_POOL with 704. lia. }
  destruct (stat_fold_sum (L0 ++ [lst]) (BPOOL_TOP pool) flag st0 Hl
              ltac:(cbn; lia) ltac:(cbn; lia) Hb) as (_ & _ & _ & H4).
  destruct (stat_fold_used_bytes (L0 ++ [lst]) (BPOOL_TOP pool) flag st0 Hl
              ltac:(cbn; lia) ltac:(cbn; lia) Hb) as (H5 & _).
  cbn [stat_used stat_free st0] in H4, H5.
  rewrite used_bytes_app in H5. cbn [used_bytes] in H5.
  rewrite (ci_lst_used _ _ _ Hc) in H5.
  rewrite He in H4. unfold BPOOL_END, BPOOL_TOP in H4. lia.
Qed.

Lemma used_bytes_free_chain A t S B :
  used_bytes (free_chain A t S B) = used_bytes (A ++ mkblk t S true :: B) - S.
Proof.
  unfold free_chain. cbv zeta.
  rewrite !used_bytes_app. cbn [used_bytes b_used b_size].
  assert (E1 : used_bytes (snd (next_merged S B)) = used_bytes B).
  { destruct B as [|nx B']; [reflexivity|]. cbn [next_merged].
    destruct (b_used nx) eqn:Hu; cbn [snd used_bytes]; rewrite ?Hu; lia. }
  assert (E2 : forall S1, used_bytes (fst (prev_merged A t S1)) = used_bytes A).
  { intros S1. unfold prev_merged.
    destruct (last_used true A) eqn:Hpu; cbn [fst]; [reflexivity|].
    destruct (last_used_false _ Hpu) as (A' & pb & EA & Hub).
    rewrite EA, removelast_last, used_bytes_app. cbn [used_bytes].
    rewrite Hub. lia. }
  rewrite E1, E2. lia.
Qed.

Lemma used_bytes_malloc_chain A t sz al B :
  exists S', In (mkblk t S' true) (malloc_chain A t sz al B)
             /\ used_bytes (malloc_chain A t sz al B)
                = used_bytes (A ++ mkblk t sz false :: B) + S'.
Proof.
  unfold malloc_chain. destruct (sz - al <=? 32).
  - exists sz. split; [apply in_middle; auto|].
    rewrite !used_bytes_app. cbn [used_bytes b_used b_size]. lia.
  - exists al. split; [apply in_middle; auto|].
    rewrite !used_bytes_app. cbn [used_bytes b_used b_size]. lia.
Qed.

(** [est_free] of a live pointer moves exactly the bytes of its block,
    header included, from the used to the free count of
    [est_take_statistics], counted from the [BPOOL_TOP] of the embedded
    configuration. *)
Theorem free_accounting ptr bytes s p fuel :
  reachable ptr bytes s -> In p (st_live s) ->
  size (st_pool s) < Z.of_nat fuel ->
  exists pool1 pool2,
    est_take_statistics sizeof_MEMORY_POOL fuel (st_pool s) = Some pool1
    /\ est_take_statistics sizeof_MEMORY_POOL fuel (est_free (st_pool s) p)
       = Some pool2
    /\ stat_used (stat (est pool2))
       = stat_used (stat (est pool1))
         - (est_usable_size (st_pool s) p + sizeof_USED_BLOCK)
    /\ stat_free (stat (est pool2))
       = stat_free (stat (est pool1))
         + (est_usable_size (st_pool s) p + sizeof_USED_BLOCK).
Proof.
  intros Hr Hp Hfuel.
  destruct (reachable_valid _ _ _ Hr) as ((L0 & lst & F & HI & _) & _).
  destruct (usable_size_live _ _ _ _ _ _ HI Hp)
    as (S & Hb & Hus & Hs & Hsm & _).
  destruct (est_free_spec _ _ _ _ _ p HI Hp)
    as (A & S' & B & F' & EL & HI' & _ & Es & _).
  assert (S' = S).
  { pose proof (geo_addr_inj _ _ (mkblk (p - 8) S' true) (mkblk (p - 8) S true)
                  (ci_geo _ _ _ (inv_chain _ _ _ _ _ HI))
                  ltac:(rewrite EL; apply in_middle; auto) Hb eq_refl) as X.
    inversion X. lia. }
  subst S'.
  destruct (Inv_stat_counts _ _ _ _ _ fuel HI Hfuel) as (pool1 & E1 & U1 & F1).
  destruct (Inv_stat_counts _ _ _ _ _ fuel HI' ltac:(lia))
    as (pool2 & E2 & U2 & F2).
  exists pool1, pool2. split; [exact E1|]. split; [exact E2|].
  rewrite used_bytes_free_chain, <- EL in U2, F2.
  change sizeof_USED_BLOCK with 8. lia.
Qed.

Lemma free_accounting_witness :
  exists pool1 pool2,
    est_take_statistics sizeof_MEMORY_POOL 4097 (st_pool demo_state1)
    = Some pool1
    /\ est_take_statistics sizeof_MEMORY_POOL 4097
         (est_free (st_pool demo_state1) (fst demo_alloc)) = Some pool2
    /\ stat_used (stat (est pool2))
       = stat_used (stat (est pool1))
         - (est_usable_size (st_pool demo_state1) (fst demo_alloc)
            + sizeof_USED_BLOCK)
    /\ stat_free (stat (est pool2))
       = stat_free (stat (est pool1))
         + (est_usable_size (st_pool demo_state1) (fst demo_alloc)
            + sizeof_USED_BLOCK).
Proof.
  apply (free_accounting 4096 4096 demo_state1 (fst demo_alloc) 4097).
  - demo_reach1.
  - vm_compute. left. reflexivity.
  - vm_compute. reflexivity.
Defined.

(** A successful [est_malloc] moves exactly the bytes of the block it
    hands out, header included, from the free to the used count of
    [est_take_statistics], counted from the [BPOOL_TOP] of the embedded
    configuration. *)
Theorem malloc_accounting ptr bytes s n fuel p pool' :
  reachable ptr bytes s -> size (st_pool s) < Z.of_nat fuel ->
  est_malloc fuel (st_pool s) n = Some (p, pool') -> p <> NULL ->
  exists pool1 pool2,
    est_take_statistics sizeof_MEMORY_POOL fuel (st_pool s) = Some pool1
    /\ est_take_statistics sizeof_MEMORY_POOL fuel pool' = Some pool2
    /\ stat_used (stat (est pool2))
       = stat_used (stat (est pool1))
         + (est_usable_size pool' p + sizeof_USED_BLOCK)
    /\ stat_free (stat (est pool2))
       = stat_free (stat (est pool1))
         - (est_usable_size pool' p + sizeof_USED_BLOCK).
Proof.
  intros Hr Hfuel Em Hp.
  destruct (reachable_valid _ _ _ Hr) as ((L0 & lst & F & HI & _) & _).
  pose proof (chain_length _ _ _ (inv_chain _ _ _ _ _ HI)) as Hlen.
  destruct (est_malloc_spec (st_pool s) L0 lst F (st_live s) n fuel HI
              ltac:(lia)) as [En|(r & Er & Hpost)].
  { rewrite En in Em. inversion Em. congruence. }
  rewrite Er in Em. apply some_eq in Em. subst r.
  destruct Hpost as (A & t & sz & B & F' & EL & Hsz & Hf & HI' & _ & Es).
  cbn [fst snd] in *. subst p.
  pose proof (inv_chain _ _ _ _ _ HI') as Hc.
  destruct (used_bytes_malloc_chain A t sz (alloc_size_of n) B)
    as (S1 & Hbn & Hub).
  destruct (in_split _ _ Hbn) as (A2 & B2 & E2).
  pose proof Hc as Hc'. rewrite E2 in Hc'.
  destruct (chain_inv_split _ _ _ _ _ Hc') as (Hw & _).
  pose proof (chain_inv_blk _ _ _ Hc _ Hbn) as Hk.
  cbn [b_addr b_size b_used] in *.
  assert (Hus : est_usable_size pool' (t + 8) = S1 - 8).
  { unfold est_usable_size, BLOCK_ADRS. change sizeof_USED_BLOCK with 8.
    replace (t + 8 - 8) with t by lia.
    rewrite (BLOCK_SIZE_word _ _ _ _ _ Hw) by lia.
    apply u32_id. lia. }
  destruct (Inv_stat_counts _ _ _ _ _ fuel HI Hfuel) as (pool1 & E1 & U1 & F1).
  destruct (Inv_stat_counts _ _ _ _ _ fuel HI' ltac:(lia))
    as (pool2 & E2' & U2 & F2).
  exists pool1, pool2. split; [exact E1|]. split; [exact E2'|].
  rewrite Hub, <- EL in U2, F2. rewrite Hus.
  change sizeof_USED_BLOCK with 8. lia.
Qed.

Lemma malloc_accounting_witness :
  exists pool1 pool2,
    est_take_statistics sizeof_MEMORY_POOL 4097 (st_pool demo_state)
    = Some pool1
    /\ est_take_statistics sizeof_MEMORY_POOL 4097 (snd demo_alloc)
       = Some pool2
    /\ stat_used (stat (est pool2))
       = stat_used (stat (est pool1))
         + (est_usable_size (snd demo_alloc) (fst demo_alloc)
            + sizeof_USED_BLOCK)
    /\ stat_free (stat (est pool2))
       = stat_free (stat (est pool1))
         - (est_usable_size (snd demo_alloc) (fst demo_alloc)
            + sizeof_USED_BLOCK).
Proof.
  apply (malloc_accounting 4096 4096 demo_state 100 4097 (fst demo_alloc)
           (snd demo_alloc)).
  - demo_reach.
  - vm_compute. reflexivity.
  - vm_compute. reflexivity.
  - vm_compute. congruence.
Defined.

(** ** What the operations leave untouched *)

(** The bytes of [lo, hi) are the same in [m'] as in [m]. *)
Definition kept (m m' : mem) (lo hi : Z) : Prop :=
  forall x, lo <= x < hi -> m' x = m x.

Lemma kept_refl m lo hi : kept m m lo hi.
Proof. intros x _. reflexivity. Qed.

Lemma kept_trans m1 m2 m3 lo hi :
  kept m1 m2 lo hi -> kept m2 m3 lo hi -> kept m1 m3 lo hi.
Proof. intros H1 H2 x Hx. rewrite (H2 x Hx). apply H1. exact Hx. Qed.

Lemma kept_store (n : nat) m a v lo hi :
  a + Z.of_nat n <= lo \/ hi <= a -> kept m (store_bytes n m a v) lo hi.
Proof. intros H x Hx. apply store_bytes_outside. lia. Qed.

Lemma kept_set_size m a v lo hi :
  a + 4 <= lo \/ hi <= a -> kept m (set_size m a v) lo hi.
Proof.
  intros H x Hx. apply (changed_in_set_size m a v a (a + 4)); lia.
Qed.

Lemma kept_store_ptr m a v lo hi :
  a + 8 <= lo \/ hi <= a -> kept m (store_ptr m a v) lo hi.
Proof.
  intros H x Hx. apply (changed_in_store_ptr m a v a (a + 8)); lia.
Qed.

Lemma kept_changed m m' a b lo hi :
  changed_in m m' a b -> b <= lo \/ hi <= a -> kept m m' lo hi.
Proof. intros H Hs x Hx. apply H. lia. Qed.

Lemma kept_narrow m m' lo hi lo' hi' :
  kept m m' lo hi -> lo <= lo' -> hi' <= hi -> kept m m' lo' hi'.
Proof. intros H H1 H2 x Hx. apply H. lia. Qed.

(** No free block of [L] meets [lo, hi). *)
Definition sep_free (L : list blk) (lo hi : Z) : Prop :=
  forall b, In b L -> b_used b = false ->
  b_addr b + b_size b <= lo \/ hi <= b_addr b.

(** No block of [L] has its header in [lo, hi). *)
Definition sep_hdr (L : list blk) (lo hi : Z) : Prop :=
  forall b, In b L -> b_addr b + 8 <= lo \/ hi <= b_addr b.

Section FrameOps.
Variables (a0 : Z) (L0 : list blk).
Hypothesis Hgeo : geo_ok a0 L0.
Variables (lo hi : Z).
Hypothesis Hsep : sep_free L0 lo hi.

Lemma member_sep pool F i a :
  lists_inv pool L0 F -> In a (F i) -> a + 32 <= lo \/ hi <= a.
Proof.
  intros Hl Ha.
  destruct (li_member _ _ Hgeo _ _ _ _ Hl Ha) as (_ & sz & Hb & _ & _ & _ & _
                                                  & Hsz & _).
  specialize (Hsep _ Hb eq_refl). cbn [b_addr b_size] in Hsep. lia.
Qed.

Lemma malloc_unlink_keeps pool F idx t l2 fli sli :
  lists_inv pool L0 F -> F idx = t :: l2 ->
  kept (heap pool) (heap (malloc_unlink pool t idx fli sli)) lo hi.
Proof.
  intros Hl HF.
  assert (Ht : In t (F idx)) by (rewrite HF; left; reflexivity).
  destruct (li_member _ _ Hgeo _ _ _ _ Hl Ht) as (Hidx & _).
  pose proof (li_dll _ _ _ Hl idx Hidx) as Hd. rewrite HF in Hd.
  unfold malloc_unlink. cbv zeta. cbn [heap with_free_blocks].
  set (n := next_free (heap pool) t) in *.
  assert (Hn : n = hd NULL l2).
  { cbn in Hd. destruct Hd as (_ & _ & _ & Hd). apply dll_head in Hd.
    exact Hd. }
  destruct (Z.eqb_spec n NULL) as [En|En].
  - destruct (clear_bitmap_fields (with_free_blocks pool idx n) fli sli)
      as (_ & _ & _ & _ & C5).
    rewrite C5. apply kept_refl.
  - cbn [heap with_heap]. unfold set_prev_free, offsetof_prev_free.
    assert (Hin : In n (F idx)).
    { rewrite HF. right. rewrite Hn in *.
      destruct l2; cbn in *; [congruence|auto]. }
    pose proof (member_sep _ _ _ _ Hl Hin).
    apply kept_store_ptr. lia.
Qed.

Lemma remove_free_block_keeps pool F t sz :
  lists_inv pool L0 F ->
  In (mkblk t sz false) L0 -> In t (F (calc_index sz)) ->
  BLOCK_SIZE (heap pool) t = sz ->
  kept (heap pool) (heap (remove_free_block pool t)) lo hi.
Proof.
  intros Hl Hbt Hin Hbs.
  set (idx := calc_index sz) in *.
  destruct (in_split _ _ Hin) as (l1 & l2 & HF).
  destruct (li_member _ _ Hgeo _ _ _ _ Hl Hin) as (Hidx & _).
  pose proof (li_dll _ _ _ Hl idx Hidx) as Hd. rewrite HF in Hd.
  destruct (dll_links _ _ _ _ _ _ Hd) as [Hpv Hnx].
  set (n := next_free (heap pool) t) in *.
  assert (Hnin : n <> NULL -> In n (F idx)).
  { intros En. rewrite HF. apply in_or_app. right. right.
    rewrite Hnx in *. destruct l2; cbn in *; [congruence|auto]. }
  destruct (exists_last_or_nil l1) as [->|(l1' & p & ->)].
  - cbn in Hpv. unfold remove_free_block.
    rewrite Hpv, Hbs. change (NULL =? NULL) with true. cbv iota.
    fold idx. cbn [heap with_free_blocks]. fold n.
    destruct (clear_bitmap_fields (with_free_blocks pool idx n)
                (FLI idx) (SLI idx)) as (_ & _ & _ & _ & C5).
    destruct (Z.eqb_spec n NULL) as [En|En].
    + rewrite C5. cbn [heap with_free_blocks]. fold n.
      destruct (Z.eqb_spec n NULL); [|contradiction].
      rewrite C5. apply kept_refl.
    + cbn [heap with_free_blocks with_heap]. fold n.
      destruct (Z.eqb_spec n NULL); [contradiction|].
      cbn [heap with_heap].
      pose proof (member_sep _ _ _ _ Hl (Hnin En)).
      unfold set_prev_free, offsetof_prev_free. apply kept_store_ptr. lia.
  - rewrite last_last in Hpv. rewrite <- app_assoc in HF. cbn in HF.
    assert (Hp : In p (F idx))
      by (rewrite HF; apply in_or_app; right; left; reflexivity).
    destruct (li_member _ _ Hgeo _ _ _ _ Hl Hp)
      as (_ & szp & Hbp & _ & _ & Hp1 & Hp2 & _).
    pose proof (geo_ok_blk _ _ _ Hgeo Hbt) as Hkt. cbn in Hkt.
    assert (Hpt : p + 32 <= t \/ t + 32 <= p).
    { pose proof (li_apart _ _ Hgeo _ _ idx Hl) as Hap. rewrite HF in Hap.
      apply apart_app in Hap as (_ & [Hap _] & _).
      specialize (Hap t (or_introl eq_refl)). exact Hap. }
    set (m1 := set_next_free (heap pool) p n).
    assert (Hn1 : next_free m1 t = n)
      by (unfold m1, n; mem_simp; reflexivity).
    assert (Hk1 : kept (heap pool) m1 lo hi).
    { pose proof (member_sep _ _ _ _ Hl Hp).
      unfold m1, set_next_free, offsetof_next_free.
      apply kept_store_ptr. lia. }
    unfold remove_free_block. rewrite Hpv.
    destruct (Z.eqb_spec p NULL) as [Ez|_]; [unfold NULL in Ez; lia|].
    fold n. fold m1. cbn [heap with_heap]. rewrite Hn1.
    destruct (Z.eqb_spec n NULL) as [En|En]; cbn [heap with_heap];
      [exact Hk1|].
    apply (kept_trans _ m1); [exact Hk1|].
    pose proof (member_sep _ _ _ _ Hl (Hnin En)).
    unfold set_prev_free, offsetof_prev_free. apply kept_store_ptr. lia.
Qed.

Lemma add_free_block_keeps pool F t sz u pu :
  lists_inv pool L0 F ->
  get_size (heap pool) t = word sz u pu ->
  sz mod 8 = 0 -> 32 <= sz < 2 ^ 32 ->
  t + sz <= lo \/ hi <= t ->
  kept (heap pool) (heap (add_free_block pool t)) lo hi.
Proof.
  intros Hl Hw Hmod Hr Hts.
  set (idx := calc_index sz) in *.
  assert (Hidx : 0 <= idx < 80) by (apply calc_index_range; lia).
  set (ma := set_size (heap pool) t (word sz false pu)).
  assert (Hwa : get_size ma t = word sz false pu)
    by (apply get_set_word; [assumption|lia]).
  set (mb := store_ptr ma (t + sz - 8) t).
  assert (Hwb : get_size mb t = word sz false pu)
    by (unfold mb; mem_simp; exact Hwa).
  set (head := arr_get (free_blocks pool) idx).
  set (m1 := set_prev_free mb t NULL).
  set (m2 := set_next_free m1 t head).
  set (m3 := if next_free m2 t =? NULL then m2
             else set_prev_free m2 (next_free m2 t) t).
  assert (E : heap (add_free_block pool t) = m3).
  { unfold add_free_block.
    rewrite (SET_FREE_word _ _ _ _ _ Hw Hmod ltac:(lia)). fold ma.
    rewrite (BLOCK_SIZE_word _ _ _ _ _ Hwa Hmod ltac:(lia)).
    change sizeof_ptr with 8. fold mb.
    rewrite (BLOCK_SIZE_word _ _ _ _ _ Hwb Hmod ltac:(lia)). fold idx.
    reflexivity. }
  rewrite E.
  assert (Hhead : head = NULL \/ In head (F idx)).
  { pose proof (li_dll _ _ _ Hl idx Hidx) as Hd. fold head in Hd.
    apply dll_head in Hd. rewrite Hd.
    destruct (F idx); cbn; [left; reflexivity|right; auto]. }
  assert (Hhr : 0 <= head < 2 ^ 64).
  { destruct Hhead as [->|Hh]; [unfold NULL; lia|].
    destruct (li_addr_ok _ _ Hgeo _ _ _ _ Hl Hh). lia. }
  assert (Hnf : next_free m2 t = head).
  { unfold m2, m1. mem_simp. apply u64_id. exact Hhr. }
  assert (Hk2 : kept (heap pool) m2 lo hi).
  { unfold m2, m1, mb, ma, set_next_free, set_prev_free,
      offsetof_next_free, offsetof_prev_free.
    repeat (eapply kept_trans;
            [|first [apply kept_store_ptr|apply kept_set_size]; lia]).
    apply kept_refl. }
  unfold m3. rewrite Hnf.
  destruct (Z.eqb_spec head NULL) as [En|En]; [exact Hk2|].
  destruct Hhead as [Hh|Hh]; [contradiction|].
  pose proof (member_sep _ _ _ _ Hl Hh).
  apply (kept_trans _ m2); [exact Hk2|].
  unfold set_prev_free, offsetof_prev_free. apply kept_store_ptr. lia.
Qed.
End FrameOps.

(** The bytes of [lo, hi), away from the free blocks and from the
    headers, through the taking of the free block [t]. *)
Lemma malloc_split_keeps pool A t sz B lst F live al lo hi :
  Inv_hole pool (A ++ mkblk t sz false :: B) lst F live t ->
  32 <= al <= sz -> al mod 8 = 0 ->
  sep_free (A ++ mkblk t sz false :: B) lo hi ->
  sep_hdr ((A ++ mkblk t sz false :: B) ++ [lst]) lo hi ->
  kept (heap pool) (heap (snd (malloc_split pool t al))) lo hi.
Proof.
  intros [Hc Hi Hni Hcm Hlv] Hal Halm Hsf Hsh.
  set (L0 := A ++ mkblk t sz false :: B) in *.
  pose proof (chain_inv_geo_ok _ _ _ Hc) as Hg.
  destruct (chain_around _ _ _ _ _ Hc)
    as (nx & R & ER & Hnxa & Hnxs & Hnxm & Hnxe & HR & HA & Htop & Hsz & Hszm
        & Hpos & Hend & Hlen).
  cbn [b_addr b_size] in *.
  destruct (chain_inv_split _ _ _ _ _ Hc)
    as (Hwt & HwA & HwB & _ & HgA & Hta & HgB & Hla & HnA & Hput & HnB).
  cbn [b_addr b_size b_used] in *.
  assert (Hpu : last_used true A = true).
  { destruct (last_used true A); [reflexivity|].
    specialize (Hput eq_refl). discriminate. }
  rewrite Hpu in Hwt. rewrite ER in HwB. cbn [words] in HwB.
  destruct HwB as [Hwn HwR].
  assert (Hsz0 : 0 <= sz < 2 ^ 32) by lia.
  assert (Hmid : forall c, In c L0 <-> In c A \/ c = mkblk t sz false \/ In c B)
    by (intros c; apply in_middle).
  assert (Hbt : In (mkblk t sz false) L0) by (apply Hmid; auto).
  assert (Hst : t + sz <= lo \/ hi <= t).
  { specialize (Hsf _ Hbt eq_refl). exact Hsf. }
  assert (Hsn : b_addr nx + 8 <= lo \/ hi <= b_addr nx).
  { apply Hsh. unfold L0. rewrite <- app_assoc. cbn [app]. rewrite ER.
    apply in_or_app. right. right. left. reflexivity. }
  set (h := heap pool) in *.
  destruct (Z.leb_spec (sz - al) 32) as [Hns|Hsp].
  - (* the whole block is taken *)
    set (h1 := set_size h (b_addr nx) (word (b_size nx) (b_used nx) true)).
    assert (Hw1t : get_size h1 t = word sz false true).
    { unfold h1. rewrite get_set_size_other by lia. exact Hwt. }
    set (h2 := set_size h1 t (word sz true true)).
    assert (Hms : malloc_split pool t al = (t + 8, with_heap pool h2)).
    { unfold malloc_split, split_block. fold h.
      rewrite (BLOCK_SIZE_word _ _ _ _ _ Hwt Hszm Hsz0).
      rewrite (u32_id (sz - al)) by lia.
      change ESTALLOC_MIN_MEMORY_BLOCK_SIZE with 32.
      destruct (Z.leb_spec (sz - al) 32) as [_|Hx]; [|lia].
      change (negb (NULL =? NULL)) with false. cbv iota.
      rewrite (PHYS_NEXT_word _ _ _ _ _ Hwt Hszm Hsz0). rewrite <- Hnxa.
      rewrite (SET_PREV_USED_word _ _ _ _ _ Hwn Hnxm). fold h1.
      cbn [heap with_heap].
      rewrite (SET_USED_word _ _ _ _ _ Hw1t Hszm). fold h2.
      reflexivity. }
    rewrite Hms. cbn [snd heap with_heap]. unfold h2, h1.
    apply (kept_trans _ (set_size h (b_addr nx)
                           (word (b_size nx) (b_used nx) true)));
      apply kept_set_size; lia.
  - (* the rest is split off *)
    set (r := t + al). set (rsz := sz - al).
    set (L0' := A ++ mkblk t al true :: mkblk r rsz false :: B).
    assert (Hrszm : rsz mod 8 = 0).
    { unfold rsz. rewrite Zminus_mod, Hszm, Halm. reflexivity. }
    assert (Hrsz0 : 0 <= rsz < 2 ^ 32) by (unfold rsz; lia).
    assert (Hal0 : 0 <= al < 2 ^ 32) by lia.
    set (h1 := set_size h r rsz).
    assert (Hw1t : get_size h1 t = word sz false true).
    { unfold h1, r. rewrite get_set_size_other by lia. exact Hwt. }
    set (h2 := set_size h1 t (word al false true)).
    assert (Hw2r : get_size h2 r = word rsz false false).
    { unfold h2, h1, r. rewrite get_set_size_other by lia.
      rewrite get_set_size_same. rewrite (u32_id rsz) by exact Hrsz0.
      unfold word, flags. lia. }
    set (h3 := set_size h2 r (word rsz false true)).
    assert (Hw3r : get_size h3 r = word rsz false true)
      by (unfold h3; apply get_set_word; assumption).
    assert (Hw3t : get_size h3 t = word al false true).
    { unfold h3, r. rewrite get_set_size_other by lia. unfold h2.
      apply get_set_word; assumption. }
    set (pool2 := add_free_block (with_heap pool h3) r).
    set (hF := set_size (heap pool2) t (word al true true)).
    assert (Hmid' : forall c, In c L0' <->
              In c A \/ c = mkblk t al true \/ c = mkblk r rsz false
              \/ In c B).
    { intros c. unfold L0'. rewrite in_app_iff. cbn.
      split; intros [H|[H|[H|H]]]; auto. }
    pose proof Hc as [H1 H2 H3 H4 H5 H6 H7 H8 H9 H10 H11 H12].
    assert (Hgeo' : geo (BPOOL_TOP pool) L0').
    { unfold L0'. apply geo_app. apply geo_app in H5 as [H5a H5b].
      split; [exact H5a|]. cbn [geo b_addr b_size] in *.
      destruct H5b as (E1 & _ & _ & E2). unfold r, rsz.
      repeat split; auto; try lia.
      replace (chain_end (BPOOL_TOP pool) A + al + (sz - al))
        with (chain_end (BPOOL_TOP pool) A + sz) by lia. exact E2. }
    assert (Hend' : chain_end (BPOOL_TOP pool) L0'
                    = chain_end (BPOOL_TOP pool) L0).
    { unfold L0', L0. rewrite !chain_end_app. cbn [chain_end b_size].
      unfold rsz. f_equal. lia. }
    assert (Hg' : geo_ok (BPOOL_TOP pool) L0').
    { destruct Hg as [G1 G2 G3 G4]. constructor; auto; rewrite Hend'; auto. }
    assert (Hch : changed_in h h3 t (t + sz)).
    { unfold h3, h2, h1, r.
      apply (changed_in_trans _ (set_size (set_size h (t + al) rsz) t
                                   (word al false true))).
      - apply (changed_in_trans _ (set_size h (t + al) rsz)).
        + apply changed_in_set_size; lia.
        + apply changed_in_set_size; lia.
      - apply changed_in_set_size; lia. }
    assert (Hi3 : index_inv (with_heap pool h3) L0' F).
    { apply (index_inv_chain _ L0).
      - apply (index_inv_changed (BPOOL_TOP pool) L0 pool _ F t (t + sz));
          auto.
        intros i a sza Ha Hb.
        destruct (blk_sep _ _ _ _ _ _ _ _ Hg Hb Hbt) as [(E & _)|E].
        + exfalso. subst a. exact (Hni _ Ha).
        + lia.
      - intros i a sza Ha Hb. apply Hmid'.
        apply Hmid in Hb as [Hb|[Hb|Hb]]; auto.
        exfalso. inversion Hb; subst a. exact (Hni _ Ha). }
    assert (Hnr : forall i, ~ In r (F i)).
    { intros i Hin.
      destruct (li_member _ _ Hg _ _ _ _ (ii_lists _ _ _ Hi) Hin)
        as (_ & s & Hb & _ & _ & _ & _ & Hs & _).
      destruct (blk_sep _ _ _ _ _ _ _ _ Hg Hb Hbt)
        as [(E & _)|E]; unfold r in *; lia. }
    destruct (add_free_block_spec (BPOOL_TOP pool) L0' Hg' (with_heap pool h3)
                F r rsz false true Hi3
                (proj2 (Hmid' (mkblk r rsz false))
                       (or_intror (or_intror (or_introl eq_refl))))
                Hnr Hw3r)
      as (Hi4 & Hw4r & Hfr4 & E1 & E2 & E3).
    fold pool2 in Hi4, Hw4r, Hfr4, E1, E2, E3. cbn [heap with_heap] in Hfr4.
    assert (Hpt : hdr_pos L0' t).
    { apply (hdr_pos_block (BPOOL_TOP pool) L0' (mkblk t al true));
        [exact Hgeo'|]. apply Hmid'. auto. }
    assert (Hw4t : get_size (heap pool2) t = word al false true).
    { rewrite Hfr4; [exact Hw3t|exact Hpt|unfold r; lia]. }
    assert (Hms : malloc_split pool t al = (t + 8, with_heap pool2 hF)).
    { unfold malloc_split, split_block. fold h.
      rewrite (BLOCK_SIZE_word _ _ _ _ _ Hwt Hszm Hsz0). fold rsz.
      rewrite (u32_id rsz) by exact Hrsz0.
      change ESTALLOC_MIN_MEMORY_BLOCK_SIZE with 32.
      destruct (Z.leb_spec rsz 32) as [Hx|_]; [unfold rsz in Hx; lia|].
      cbv beta zeta iota. fold r. fold h1.
      rewrite Hw1t, (word_resize sz false true Hszm al Halm ltac:(lia)).
      fold h2.
      destruct (Z.eqb_spec r NULL) as [Ez|_];
        [unfold r, NULL in Ez; unfold BPOOL_TOP in *; lia|].
      cbn [negb].
      rewrite (SET_PREV_USED_word _ _ _ _ _ Hw2r Hrszm). fold h3. fold pool2.
      cbn [heap with_heap].
      rewrite (SET_USED_word _ _ _ _ _ Hw4t Halm). fold hF.
      reflexivity. }
    rewrite Hms. cbn [snd heap with_heap].
    assert (Hsf' : sep_free L0' lo hi).
    { intros b Hb Hu. apply Hmid' in Hb.
      destruct Hb as [Hb|[->|[->|Hb]]].
      - apply Hsf; [apply Hmid; auto|exact Hu].
      - discriminate Hu.
      - cbn [b_addr b_size]. unfold r, rsz. lia.
      - apply Hsf; [apply Hmid; auto|exact Hu]. }
    assert (Hk3 : kept h h3 lo hi)
      by (apply (kept_changed h h3 t (t + sz) lo hi Hch); lia).
    assert (Hk4 : kept h3 (heap pool2) lo hi).
    { apply (add_free_block_keeps (BPOOL_TOP pool) L0' Hg' lo hi Hsf'
               (with_heap pool h3) F r rsz false true (ii_lists _ _ _ Hi3)
               Hw3r Hrszm); unfold r, rsz in *; lia. }
    unfold hF.
    apply (kept_trans _ (heap pool2)); [apply (kept_trans _ h3); assumption|].
    apply kept_set_size. lia.
Qed.

Lemma malloc_take_keeps pool pool1 L0 lst F live idx l1 t l2 al lo hi :
  Inv pool L0 lst F live -> F idx = l1 ++ t :: l2 ->
  index_inv pool1 L0 (fl_set F idx (l1 ++ l2)) ->
  (forall q, hdr_pos L0 q ->
     get_size (heap pool1) q = get_size (heap pool) q) ->
  pool_adrs pool1 = pool_adrs pool -> size pool1 = size pool ->
  32 <= al <= BLOCK_SIZE (heap pool) t -> al mod 8 = 0 ->
  sep_free L0 lo hi -> sep_hdr (L0 ++ [lst]) lo hi ->
  kept (heap pool) (heap pool1) lo hi ->
  kept (heap pool) (heap (snd (malloc_split pool1 t al))) lo hi.
Proof.
  intros HI HF Hi1 Hfr E1 E2 Hal Halm Hsf Hsh Hk1.
  assert (Hin : In t (F idx))
    by (rewrite HF; apply in_or_app; right; left; reflexivity).
  destruct (member_block _ _ _ _ _ _ _ HI Hin)
    as (A & sz & B & EL & Hci & Hbs & Hsz & Hszm & Ht & Hidx).
  rewrite Hbs in Hal.
  pose proof (Inv_unlink _ _ _ _ _ _ _ _ _ _ HI HF Hi1 Hfr E1 E2) as Hh.
  rewrite EL in Hh, Hsf, Hsh.
  apply (kept_trans _ (heap pool1)); [exact Hk1|].
  apply (malloc_split_keeps pool1 A t sz B lst _ live al lo hi Hh Hal Halm
           Hsf Hsh).
Qed.

Lemma found_target_keeps pool L0 lst F live idx t l2 al lo hi :
  Inv pool L0 lst F live -> F idx = t :: l2 ->
  32 <= al <= BLOCK_SIZE (heap pool) t -> al mod 8 = 0 ->
  sep_free L0 lo hi -> sep_hdr (L0 ++ [lst]) lo hi ->
  kept (heap pool)
       (heap (snd (malloc_found_target pool t al idx (FLI idx) (SLI idx))))
       lo hi.
Proof.
  intros HI HF Hal Halm Hsf Hsh. unfold malloc_found_target.
  pose proof (chain_inv_geo_ok _ _ _ (inv_chain _ _ _ _ _ HI)) as Hg.
  destruct (malloc_unlink_spec _ _ Hg pool F idx t l2
              (inv_index _ _ _ _ _ HI) HF) as (Hi1 & Hfr & E1 & E2 & _).
  apply (malloc_take_keeps pool _ L0 lst F live idx [] t l2 al lo hi
           HI HF Hi1 Hfr E1 E2 Hal Halm Hsf Hsh).
  apply (malloc_unlink_keeps _ _ Hg lo hi Hsf pool F idx t l2 _ _
           (ii_lists _ _ _ (inv_index _ _ _ _ _ HI)) HF).
Qed.

Lemma found_fli_sli_keeps pool L0 lst F live f s al lo hi :
  Inv pool L0 lst F live -> 0 <= f <= 9 -> 0 <= s <= 7 ->
  F (8 * f + s) <> [] -> calc_index al < 8 * f + s ->
  32 <= al -> al mod 8 = 0 ->
  sep_free L0 lo hi -> sep_hdr (L0 ++ [lst]) lo hi ->
  kept (heap pool) (heap (snd (malloc_found_fli_sli pool al f s))) lo hi.
Proof.
  intros HI Hf Hs Hne Hlt Hal Halm Hsf Hsh. unfold malloc_found_fli_sli.
  destruct (FLI_SLI_of f s ltac:(lia) Hs) as (E & EF & ES).
  rewrite E. set (idx := 8 * f + s) in *.
  assert (Hidx : 0 <= idx < 80) by (unfold idx; lia).
  pose proof (ii_lists _ _ _ (inv_index _ _ _ _ _ HI)) as Hl.
  rewrite (list_head _ _ _ _ Hl Hidx).
  destruct (F idx) as [|t l2] eqn:HF; [congruence|]. cbn [hd].
  assert (Hin : In t (F idx)) by (rewrite HF; left; reflexivity).
  assert (Htn : t <> NULL).
  { apply (dll_nonnull _ _ _ _ _ (li_dll _ _ _ Hl idx Hidx)). exact Hin. }
  destruct (Z.eqb_spec t NULL) as [|_]; [contradiction|].
  destruct (member_block _ _ _ _ _ _ _ HI Hin)
    as (A & sz & B & EL & Hci & Hbs & Hsz & _).
  replace (malloc_found_target pool t al idx f s)
    with (malloc_found_target pool t al idx (FLI idx) (SLI idx))
    by (rewrite EF, ES; reflexivity).
  apply (found_target_keeps pool L0 lst F live idx t l2 al lo hi HI HF);
    auto.
  rewrite Hbs. rewrite <- Hci in Hlt.
  pose proof (calc_index_lt_size al sz ltac:(lia) ltac:(lia) Hlt). lia.
Qed.

Lemma first_fit_keeps pool L0 lst F live idx al lo hi :
  Inv pool L0 lst F live -> 32 <= al -> al mod 8 = 0 ->
  sep_free L0 lo hi -> sep_hdr (L0 ++ [lst]) lo hi ->
  forall l2 l1 fuel r,
  F idx = l1 ++ l2 ->
  malloc_first_fit fuel pool (hd NULL l2) al = Some r ->
  kept (heap pool) (heap (snd r)) lo hi.
Proof.
  intros HI Hal Halm Hsf Hsh.
  pose proof (chain_inv_geo_ok _ _ _ (inv_chain _ _ _ _ _ HI)) as Hg.
  pose proof (ii_lists _ _ _ (inv_index _ _ _ _ _ HI)) as Hl.
  induction l2 as [|t l2 IH]; intros l1 fuel r HF Hm.
  - destruct fuel as [|k]; [discriminate Hm|].
    cbn [hd malloc_first_fit] in Hm. rewrite Z.eqb_refl in Hm.
    apply some_eq in Hm. subst r. apply kept_refl.
  - destruct fuel as [|k]; [discriminate Hm|].
    cbn [hd malloc_first_fit] in Hm.
    assert (Hin : In t (F idx))
      by (rewrite HF; apply in_or_app; right; left; reflexivity).
    destruct (member_block _ _ _ _ _ _ _ HI Hin)
      as (A & sz & B & EL & Hci & Hbs & Hsz & Hszm & Ht & Hidx).
    pose proof (li_dll _ _ _ Hl idx Hidx) as Hd.
    assert (Htn : t <> NULL) by (apply (dll_nonnull _ _ _ _ _ Hd); exact Hin).
    destruct (Z.eqb_spec t NULL) as [|_]; [contradiction|].
    destruct (Z.geb_spec (BLOCK_SIZE (heap pool) t) al) as [Hge|Hlt].
    + apply some_eq in Hm. subst r.
      assert (Hbt : In (mkblk t sz false) L0)
        by (rewrite EL; apply in_or_app; right; left; reflexivity).
      rewrite <- Hci in Hin.
      destruct (remove_free_block_spec _ _ Hg pool F t sz
                  (inv_index _ _ _ _ _ HI) Hbt Hin Hbs)
        as (k1 & k2 & HF' & Hi1 & Hfr & E1 & E2 & _).
      apply (malloc_take_keeps pool (remove_free_block pool t) L0 lst F live
               (calc_index sz) k1 t k2 al lo hi HI HF' Hi1 Hfr E1 E2
               ltac:(lia) Halm Hsf Hsh).
      apply (remove_free_block_keeps _ _ Hg lo hi Hsf pool F t sz Hl Hbt Hin
               Hbs).
    + rewrite HF in Hd. destruct (dll_links _ _ _ _ _ _ Hd) as [_ E].
      rewrite E in Hm.
      apply (IH (l1 ++ [t]) k r); [rewrite <- app_assoc; exact HF|exact Hm].
Qed.

(** [est_malloc] writes neither into [lo, hi) when that range is away
    from the free blocks and from the headers of the chain. *)
Lemma est_malloc_keeps pool L0 lst F live n fuel r lo hi :
  Inv pool L0 lst F live ->
  est_malloc fuel pool n = Some r ->
  sep_free L0 lo hi -> sep_hdr (L0 ++ [lst]) lo hi ->
  kept (heap pool) (heap (snd r)) lo hi.
Proof.
  intros HI Hm Hsf Hsh. unfold est_malloc in Hm.
  destruct (alloc_size_of_facts n) as (Hal & Halm).
  set (al := alloc_size_of n) in *.
  pose proof (calc_index_range al ltac:(lia)) as Hix.
  change SIZE_FREE_BLOCKS with 80 in Hix.
  set (idx := calc_index al) in *.
  pose proof (ii_lists _ _ _ (inv_index _ _ _ _ _ HI)) as Hl.
  pose proof (ii_bitmap _ _ _ (inv_index _ _ _ _ _ HI)) as Hb.
  cbv zeta in Hm.
  destruct (negb (arr_get (free_blocks pool) idx =? NULL)
            && (BLOCK_SIZE (heap pool) (arr_get (free_blocks pool) idx)
                >=? al)) eqn:E1.
  { apply some_eq in Hm. subst r.
    apply andb_true_iff in E1 as [E1 E2].
    apply negb_true_iff in E1. apply Z.eqb_neq in E1.
    destruct (Z.geb_spec (BLOCK_SIZE (heap pool)
                (arr_get (free_blocks pool) idx)) al) as [Hge|]; [|discriminate].
    rewrite (list_head _ _ _ _ Hl Hix) in *.
    destruct (F idx) as [|t l2] eqn:HF; [cbn in E1; congruence|].
    cbn [hd] in *.
    apply (found_target_keeps pool L0 lst F live idx t l2 al lo hi HI HF);
      auto. lia. }
  clear E1.
  destruct (FLI_SLI_upto (idx + 1) ltac:(lia)) as (Hf & Hs & Eidx).
  destruct (Z.eqb_spec (arr_get (free_blocks pool) (idx + 1)) NULL)
    as [Enull|Enn]; cbn [negb] in Hm.
  2:{ apply some_eq in Hm. subst r.
      assert (Hix1 : 0 <= idx + 1 < 80).
      { destruct (Z.eq_dec (idx + 1) 80) as [E80|]; [|lia].
        rewrite E80, (li_fb_sentinel _ _ _ Hl) in Enn. congruence. }
      rewrite (list_head _ _ _ _ Hl Hix1) in *.
      destruct (F (idx + 1)) as [|t l2] eqn:HF; [cbn in Enn; congruence|].
      cbn [hd] in *.
      assert (Hin : In t (F (idx + 1))) by (rewrite HF; left; reflexivity).
      destruct (member_block _ _ _ _ _ _ _ HI Hin)
        as (A & sz & B & EL & Hci & Hbs & Hsz & _).
      apply (found_target_keeps pool L0 lst F live (idx + 1) t l2 al lo hi
               HI HF); auto.
      rewrite Hbs.
      pose proof (calc_index_lt_size al sz ltac:(lia) ltac:(lia)
                    ltac:(fold idx; lia)). lia. }
  match type of Hm with context [negb (?x =? 0)] =>
    destruct (Z.eqb_spec x 0) as [Em1|Em1] end; cbn [negb] in Hm.
  2:{ apply some_eq in Hm. subst r.
      destruct (sli_probe pool F _ _ Hb Hf Hs Em1) as (Hf9 & Hs' & Hne).
      apply (found_fli_sli_keeps pool L0 lst F live); auto; try lia. }
  match type of Hm with context [negb (?x =? 0)] =>
    destruct (Z.eqb_spec x 0) as [Em2|Em2] end; cbn [negb] in Hm.
  2:{ apply some_eq in Hm. subst r.
      destruct (fli_probe pool F _ Hb Hf Em2) as (Hf9 & Hs' & Hne).
      apply (found_fli_sli_keeps pool L0 lst F live); auto; try lia. }
  replace (idx + 1 - 1) with idx in Hm by lia.
  rewrite (list_head _ _ _ _ Hl Hix) in Hm.
  apply (first_fit_keeps pool L0 lst F live idx al lo hi HI ltac:(lia) Halm
           Hsf Hsh (F idx) [] fuel r eq_refl Hm).
Qed.

Lemma lay_sep a L b1 b2 :
  lay a L -> In b1 L -> In b2 L ->
  b1 = b2 \/ b_addr b1 + b_size b1 <= b_addr b2
  \/ b_addr b2 + b_size b2 <= b_addr b1.
Proof.
  revert a. induction L as [|c L IH]; intros a H H1 H2; [destruct H1|].
  cbn in H. destruct H as (Ha & Hm & Hs & Hg).
  destruct H1 as [->|H1], H2 as [->|H2].
  - left. reflexivity.
  - right. left. pose proof (lay_bounds _ _ _ Hg H2). lia.
  - right. right. pose proof (lay_bounds _ _ _ Hg H1). lia.
  - eapply IH; eassumption.
Qed.

(** A range inside the payload of a block in use is away from the free
    blocks and from all headers. *)
Lemma used_payload_sep pool L0 lst c lo hi :
  chain_inv pool L0 lst -> In c (L0 ++ [lst]) -> b_used c = true ->
  b_addr c + 8 <= lo -> hi <= b_addr c + b_size c ->
  sep_free L0 lo hi /\ sep_hdr (L0 ++ [lst]) lo hi.
Proof.
  intros Hc Hin Hu Hlo Hhi.
  destruct (chain_inv_lay _ _ _ Hc) as [Hl _].
  split.
  - intros b Hb Hbu.
    assert (Hb' : In b (L0 ++ [lst])) by (apply in_or_app; left; exact Hb).
    destruct (lay_sep _ _ _ _ Hl Hb' Hin) as [E|E]; [|lia].
    subst b. congruence.
  - intros b Hb.
    destruct (lay_sep _ _ _ _ Hl Hb Hin) as [E|E]; [subst b; lia|].
    pose proof (lay_bounds _ _ _ Hl Hb). lia.
Qed.

Lemma live_payload_sep pool L0 lst F live q lo hi :
  Inv pool L0 lst F live -> In q live ->
  q <= lo -> hi <= q + est_usable_size pool q ->
  sep_free L0 lo hi /\ sep_hdr (L0 ++ [lst]) lo hi.
Proof.
  intros HI Hq Hlo Hhi.
  destruct (usable_size_live _ _ _ _ _ _ HI Hq) as (S & Hb & Hus & _).
  apply (used_payload_sep pool L0 lst (mkblk (q - 8) S true)
           lo hi (inv_chain _ _ _ _ _ HI));
    [apply in_or_app; left; exact Hb|reflexivity|cbn; lia|cbn; lia].
Qed.

Lemma perm_region_sep pool L0 lst F live perm q al lo hi :
  Inv pool L0 lst F live -> perm_ok pool lst perm -> In (q, al) perm ->
  q <= lo -> hi <= q + al ->
  sep_free L0 lo hi /\ sep_hdr (L0 ++ [lst]) lo hi.
Proof.
  intros HI Hperm Hq Hlo Hhi.
  destruct (Hperm q al Hq) as (H1 & H2 & H3).
  pose proof (inv_chain _ _ _ _ _ HI) as Hc.
  pose proof (ci_lst_end _ _ _ Hc).
  apply (used_payload_sep pool L0 lst lst lo hi Hc);
    [apply in_or_app; right; left; reflexivity|apply (ci_lst_used _ _ _ Hc)
    |lia|lia].
Qed.

(** [est_malloc] in a reachable state, whatever it returns, leaves every
    usable byte of every live allocation and every byte of the regions
    carved by [est_permalloc] as it was. *)
Theorem malloc_keeps_allocations ptr bytes s n fuel p pool' :
  reachable ptr bytes s ->
  est_malloc fuel (st_pool s) n = Some (p, pool') ->
  (forall q i, In q (st_live s) ->
     0 <= i < est_usable_size (st_pool s) q ->
     heap pool' (q + i) = heap (st_pool s) (q + i))
  /\ (forall q al i, In (q, al) (st_perm s) -> 0 <= i < al ->
        heap pool' (q + i) = heap (st_pool s) (q + i)).
Proof.
  intros Hr Hm.
  destruct (reachable_valid _ _ _ Hr) as ((L0 & lst & F & HI & Hperm) & _).
  split.
  - intros q i Hq Hi.
    destruct (live_payload_sep _ _ _ _ _ q (q + i) (q + i + 1) HI Hq
                ltac:(lia) ltac:(lia)) as (Hsf & Hsh).
    apply (est_malloc_keeps _ _ _ _ _ n fuel (p, pool') (q + i) (q + i + 1)
             HI Hm Hsf Hsh). lia.
  - intros q al i Hq Hi.
    destruct (perm_region_sep _ _ _ _ _ _ q al (q + i) (q + i + 1) HI Hperm
                Hq ltac:(lia) ltac:(lia)) as (Hsf & Hsh).
    apply (est_malloc_keeps _ _ _ _ _ n fuel (p, pool') (q + i) (q + i + 1)
             HI Hm Hsf Hsh). lia.
Qed.

(** One allocation of 100 bytes, then a byte stored into it. *)
Definition demo_state5 : state :=
  mkstate (with_heap (st_pool demo_state1)
             (upd (heap (st_pool demo_state1)) (fst demo_alloc + 3) 77))
          (st_live demo_state1) (st_perm demo_state1).

Definition demo_alloc5 : Z * MEMORY_POOL :=
  match est_malloc 4097 (st_pool demo_state5) 200 with
  | Some r => r
  | None => (NULL, st_pool demo_state5)
  end.

Ltac demo_reach5 :=
  apply (reach_step 4096 4096 demo_state1);
  [demo_reach1
  |apply (step_store demo_state1 (fst demo_alloc) 3 77);
   [vm_compute; left; reflexivity|vm_compute; split; congruence]].

Lemma malloc_keeps_allocations_witness :
  (forall q i, In q (st_live demo_state5) ->
     0 <= i < est_usable_size (st_pool demo_state5) q ->
     heap (snd demo_alloc5) (q + i) = heap (st_pool demo_state5) (q + i))
  /\ (forall q al i, In (q, al) (st_perm demo_state5) -> 0 <= i < al ->
        heap (snd demo_alloc5) (q + i) = heap (st_pool demo_state5) (q + i)).
Proof.
  apply (malloc_keeps_allocations 4096 4096 demo_state5 200 4097
           (fst demo_alloc5) (snd demo_alloc5)).
  - demo_reach5.
  - vm_compute. reflexivity.
Defined.

(** *** The release *)

Lemma sep_free_incl L L' lo hi :
  (forall b, In b L' -> b_used b = false -> In b L) ->
  sep_free L lo hi -> sep_free L' lo hi.
Proof. intros Hi Hs b Hb Hu. apply Hs; [apply Hi; assumption|exact Hu]. Qed.

Lemma sep_hdr_incl L L' lo hi :
  (forall b, In b L' -> exists c, In c L /\ b_addr c = b_addr b) ->
  sep_hdr L lo hi -> sep_hdr L' lo hi.
Proof.
  intros Hi Hs b Hb. destruct (Hi b Hb) as (c & Hc & E).
  rewrite <- E. apply Hs. exact Hc.
Qed.

Lemma next_merged_incl S B c :
  In c (snd (next_merged S B)) -> In c B.
Proof.
  destruct B as [|nx B']; [auto|]. cbn [next_merged].
  destruct (b_used nx); cbn [snd]; [auto|]. intros H. right. exact H.
Qed.

Lemma sep_next_merged A t S B lst lo hi :
  sep_free (A ++ mkblk t S true :: B) lo hi ->
  sep_hdr ((A ++ mkblk t S true :: B) ++ [lst]) lo hi ->
  sep_free (A ++ mkblk t (fst (next_merged S B)) true
              :: snd (next_merged S B)) lo hi
  /\ sep_hdr ((A ++ mkblk t (fst (next_merged S B)) true
                 :: snd (next_merged S B)) ++ [lst]) lo hi.
Proof.
  intros Hsf Hsh. split.
  - refine (sep_free_incl _ _ _ _ _ Hsf).
    intros b Hb Hu. apply in_middle. apply in_middle in Hb.
    destruct Hb as [Hb|[->|Hb]]; [auto|discriminate Hu|].
    right. right. apply (next_merged_incl S). exact Hb.
  - refine (sep_hdr_incl _ _ _ _ _ Hsh).
    intros b Hb. apply in_app_or in Hb as [Hb|Hb].
    + apply in_middle in Hb. destruct Hb as [Hb|[->|Hb]].
      * exists b. split; [|reflexivity]. apply in_or_app. left.
        apply in_middle. auto.
      * exists (mkblk t S true). split; [|reflexivity]. apply in_or_app.
        left. apply in_middle. auto.
      * exists b. split; [|reflexivity]. apply in_or_app. left.
        apply in_middle. right. right. apply (next_merged_incl S). exact Hb.
    + exists b. split; [|reflexivity]. apply in_or_app. right. exact Hb.
Qed.

Lemma merge_next_keeps pool A t S u g B pn lst F live lo hi :
  Pending pool A t S u g B pn lst F live ->
  sep_free (A ++ mkblk t S true :: B) lo hi ->
  sep_hdr ((A ++ mkblk t S true :: B) ++ [lst]) lo hi ->
  kept (heap pool) (heap (merge_next pool t (t + S))) lo hi.
Proof.
  intros [Hg HwA Hwt HwB HnA HnB Hi Hcm Hlv] Hsf Hsh.
  set (Lu := A ++ mkblk t S true :: B) in *.
  pose proof (chain_geo_ok _ _ _ Hg) as Hok.
  destruct (chain_geo_around _ _ _ _ _ Hg)
    as (nx & R & ER & Hnxa & Hnxs & Hnxm & Hnxe & HR & HA & Htop & Hsz & Hszm
        & Hpos & Hend & Hlen).
  cbn [b_addr b_size] in *.
  rewrite ER in HwB. cbn [words] in HwB. destruct HwB as [Hwn HwR].
  rewrite Hnxa in Hwn.
  set (h := heap pool) in *.
  assert (Hsn : t + S + 8 <= lo \/ hi <= t + S).
  { rewrite <- Hnxa. apply Hsh. unfold Lu. rewrite <- app_assoc.
    cbn [app]. rewrite ER. apply in_or_app. right. right. left.
    reflexivity. }
  assert (Hst : t + 8 <= lo \/ hi <= t).
  { apply (Hsh (mkblk t S true)). apply in_or_app. left. apply in_middle.
    auto. }
  unfold merge_next. fold h.
  rewrite (IS_FREE_word _ _ _ _ _ Hwn Hnxm).
  destruct (next_split _ _ _ _ ER (cg_lst_used _ _ _ Hg))
    as [[Hu Hnm]|[Hu (B' & EB & ERR & Hnm)]]; rewrite Hu;
    cbn [negb fst snd heap with_heap].
  - rewrite (SET_PREV_FREE_word _ _ _ _ _ Hwn Hnxm ltac:(lia)).
    apply kept_set_size. lia.
  - destruct nx as [n nsz nu]. cbn [b_addr b_size b_used] in *. subst nu n.
    assert (Hbn : In (mkblk (t + S) nsz false) Lu).
    { apply in_middle. right. right. rewrite EB. left. reflexivity. }
    assert (Hbs : BLOCK_SIZE h (t + S) = nsz)
      by (apply (BLOCK_SIZE_word _ _ _ _ _ Hwn Hnxm); lia).
    pose proof (Hcm _ Hbn eq_refl) as HinF. cbn [b_addr b_size] in HinF.
    pose proof (remove_free_block_keeps _ _ Hok lo hi Hsf pool F (t + S) nsz
                  (ii_lists _ _ _ Hi) Hbn HinF Hbs) as Hk1.
    apply (kept_trans _ _ _ _ _ Hk1).
    unfold merge_block. apply kept_set_size. lia.
Qed.

Lemma sep_prev_merged A t S B lst lo hi :
  sep_free (A ++ mkblk t S true :: B) lo hi ->
  sep_hdr ((A ++ mkblk t S true :: B) ++ [lst]) lo hi ->
  sep_free (fst (prev_merged A t S)
            ++ mkblk (fst (snd (prev_merged A t S)))
                     (snd (snd (prev_merged A t S))) true :: B) lo hi
  /\ sep_hdr ((fst (prev_merged A t S)
               ++ mkblk (fst (snd (prev_merged A t S)))
                        (snd (snd (prev_merged A t S))) true :: B)
              ++ [lst]) lo hi.
Proof.
  intros Hsf Hsh. unfold prev_merged.
  destruct (last_used true A) eqn:Hpu; cbn [fst snd]; [auto|].
  destruct (last_used_false _ Hpu) as (A' & pb & EA & Hpb).
  rewrite EA, last_last, removelast_last in *.
  split.
  - refine (sep_free_incl _ _ _ _ _ Hsf).
    intros b Hb Hu. apply in_middle. apply in_middle in Hb.
    destruct Hb as [Hb|[->|Hb]]; [|discriminate Hu|auto].
    left. apply in_or_app. left. exact Hb.
  - refine (sep_hdr_incl _ _ _ _ _ Hsh).
    intros b Hb. apply in_app_or in Hb as [Hb|Hb].
    + apply in_middle in Hb. destruct Hb as [Hb|[->|Hb]].
      * exists b. split; [|reflexivity]. apply in_or_app. left.
        apply in_middle. left. apply in_or_app. left. exact Hb.
      * exists pb. split; [|reflexivity]. apply in_or_app. left.
        apply in_middle. left. apply in_or_app. right. left. reflexivity.
      * exists b. split; [|reflexivity]. apply in_or_app. left.
        apply in_middle. auto.
    + exists b. split; [|reflexivity]. apply in_or_app. right. exact Hb.
Qed.

Lemma merge_prev_keeps pool A t S u B lst F live lo hi :
  Pending pool A t S u false B false lst F live ->
  sep_free (A ++ mkblk t S true :: B) lo hi ->
  sep_hdr ((A ++ mkblk t S true :: B) ++ [lst]) lo hi ->
  kept (heap pool) (heap (fst (merge_prev pool t))) lo hi.
Proof.
  intros Hp Hsf Hsh. pose proof Hp as [Hg HwA Hwt HwB HnA HnB Hi Hcm Hlv].
  set (Lu := A ++ mkblk t S true :: B) in *.
  pose proof (chain_geo_ok _ _ _ Hg) as Hok.
  destruct (chain_geo_around _ _ _ _ _ Hg)
    as (nx & R & ER & Hnxa & Hnxs & Hnxm & Hnxe & HR & HA & Htop & Hsz & Hszm
        & Hpos & Hend & Hlen).
  cbn [b_addr b_size] in *.
  set (h := heap pool) in *.
  unfold merge_prev. fold h.
  rewrite (IS_PREV_FREE_word _ _ _ _ _ Hwt Hszm).
  destruct (last_used true A) eqn:Hpu; cbn [negb fst snd];
    [apply kept_refl|].
  destruct (last_used_false _ Hpu) as (A' & pb & EA & Hpb).
  destruct pb as [pt psz pbu]. cbn [b_used] in Hpb. subst pbu.
  assert (ELu : Lu = A' ++ mkblk pt psz false :: mkblk t S true :: B).
  { unfold Lu. rewrite EA, <- app_assoc. reflexivity. }
  pose proof Hg as Hg'. rewrite ELu in Hg'.
  destruct (chain_geo_around _ _ _ _ _ Hg')
    as (nx' & R' & ER' & Hpa & _ & _ & _ & _ & HA' & Htop' & Hpsz & Hpszm & _).
  cbn [b_addr b_size app] in *. inversion ER'; subst nx' R'. clear ER'.
  cbn [b_addr] in Hpa.
  rewrite EA in HwA, HnA. apply words_app in HwA as [HwA' Hwp].
  cbn [words b_addr b_size b_used] in Hwp. destruct Hwp as [Hwp _].
  assert (Hbp : In (mkblk pt psz false) Lu).
  { rewrite ELu. apply in_middle. auto. }
  pose proof (Hcm _ Hbp eq_refl) as HinF. cbn [b_addr b_size] in HinF.
  destruct (li_member _ _ Hok _ _ _ _ (ii_lists _ _ _ Hi) HinF)
    as (_ & s & Hbs & _ & Htag & _).
  assert (s = psz).
  { destruct (blk_sep _ _ _ _ _ _ _ _ Hok Hbs Hbp) as [(_ & E & _)|E];
      [exact E|].
    pose proof (geo_ok_blk _ _ _ Hok Hbs) as Hk. cbn in Hk. lia. }
  subst s. fold h in Htag.
  change sizeof_ptr with 8.
  replace (t - 8) with (pt + psz - 8) by lia. rewrite Htag.
  assert (Hbsz : BLOCK_SIZE h pt = psz)
    by (apply (BLOCK_SIZE_word _ _ _ _ _ Hwp Hpszm); lia).
  pose proof (remove_free_block_keeps _ _ Hok lo hi Hsf pool F pt psz
                (ii_lists _ _ _ Hi) Hbp HinF Hbsz) as Hk1.
  cbn [heap with_heap].
  apply (kept_trans _ _ _ _ _ Hk1).
  unfold merge_block. apply kept_set_size.
  specialize (Hsf _ Hbp eq_refl). cbn [b_addr b_size] in Hsf. lia.
Qed.

Lemma add_pending_keeps pool A t S u B lst F live lo hi :
  Pending pool A t S u false B false lst F live ->
  sep_free (A ++ mkblk t S true :: B) lo hi ->
  t + S <= lo \/ hi <= t ->
  kept (heap pool) (heap (add_free_block pool t)) lo hi.
Proof.
  intros [Hg HwA Hwt HwB HnA HnB Hi Hcm Hlv] Hsf Hst.
  pose proof (chain_geo_ok _ _ _ Hg) as Hoku.
  destruct (chain_geo_around _ _ _ _ _ Hg)
    as (nx & R & ER & Hnxa & Hnxs & Hnxm & Hnxe & HR & HA & Htop & Hsz & Hszm
        & Hpos & Hend & Hlen).
  cbn [b_addr b_size] in *.
  apply (add_free_block_keeps _ _ Hoku lo hi Hsf pool F t S u
           (last_used true A) (ii_lists _ _ _ Hi) Hwt Hszm); lia.
Qed.

(** The sizes coalescing gives to a block away from [lo, hi) keep it
    away. *)
Lemma next_merged_away pool A t S B lst lo hi :
  chain_geo pool (A ++ mkblk t S true :: B) lst -> lo < hi ->
  sep_free (A ++ mkblk t S true :: B) lo hi ->
  t + S <= lo \/ hi <= t ->
  t + fst (next_merged S B) <= lo \/ hi <= t.
Proof.
  intros Hg Hlt Hsf Hst.
  destruct B as [|nx B']; [exact Hst|]. cbn [next_merged].
  destruct (b_used nx) eqn:Hu; cbn [fst]; [exact Hst|].
  pose proof (cg_geo _ _ _ Hg) as Hgeo. apply geo_app in Hgeo as [_ Hgeo].
  cbn [geo b_addr b_size] in Hgeo. destruct Hgeo as (Et & _ & _ & En & _).
  assert (Hin : In nx (A ++ mkblk t S true :: nx :: B'))
    by (apply in_middle; right; right; left; reflexivity).
  specialize (Hsf nx Hin Hu). lia.
Qed.

Lemma prev_merged_away pool A t S B lst lo hi :
  chain_geo pool (A ++ mkblk t S true :: B) lst -> lo < hi ->
  sep_free (A ++ mkblk t S true :: B) lo hi ->
  t + S <= lo \/ hi <= t ->
  fst (snd (prev_merged A t S)) + snd (snd (prev_merged A t S)) <= lo
  \/ hi <= fst (snd (prev_merged A t S)).
Proof.
  intros Hg Hlt Hsf Hst. unfold prev_merged.
  destruct (last_used true A) eqn:Hpu; cbn [fst snd]; [exact Hst|].
  destruct (last_used_false _ Hpu) as (A' & pb & EA & Hpb).
  rewrite EA, last_last.
  pose proof (cg_geo _ _ _ Hg) as Hgeo. rewrite EA, <- app_assoc in Hgeo.
  cbn [app] in Hgeo. apply geo_app in Hgeo as [_ Hgeo].
  cbn [geo b_addr b_size] in Hgeo. destruct Hgeo as (Ep & _ & _ & Et & _).
  assert (Hin : In pb (A ++ mkblk t S true :: B)).
  { apply in_middle. left. rewrite EA. apply in_or_app. right. left.
    reflexivity. }
  specialize (Hsf pb Hin Hpb). lia.
Qed.

(** [est_free] of the block at [t] writes nowhere in [lo, hi) when that
    range is away from the block, from the free blocks and from the
    headers. *)
Lemma est_free_keeps pool A t S B lst F live lo hi :
  Inv pool (A ++ mkblk t S true :: B) lst F live -> lo < hi ->
  sep_free (A ++ mkblk t S true :: B) lo hi ->
  sep_hdr ((A ++ mkblk t S true :: B) ++ [lst]) lo hi ->
  t + S <= lo \/ hi <= t ->
  kept (heap pool) (heap (est_free pool (t + 8))) lo hi.
Proof.
  intros HI Hlt Hsf Hsh Hst.
  pose proof (Inv_pending _ _ _ _ _ _ _ _ HI) as Hpd.
  pose proof (chain_inv_split _ _ _ _ _ (inv_chain _ _ _ _ _ HI))
    as (Hwt & _).
  destruct (chain_around _ _ _ _ _ (inv_chain _ _ _ _ _ HI))
    as (_ & _ & _ & _ & _ & _ & _ & _ & _ & Htop & Hsz & Hszm & Hpos & _).
  cbn [b_addr b_size b_used] in *.
  rewrite est_free_phases.
  destruct (Z.eqb_spec (t + 8) NULL) as [E|_];
    [unfold NULL, BPOOL_TOP in *; lia|].
  cbv zeta.
  replace (BLOCK_ADRS (t + 8)) with t
    by (unfold BLOCK_ADRS; change sizeof_USED_BLOCK with 8; lia).
  rewrite (PHYS_NEXT_word _ _ _ _ _ Hwt Hszm) by lia.
  pose proof (merge_next_keeps _ _ _ _ _ _ _ _ _ _ _ lo hi Hpd Hsf Hsh)
    as Hk1.
  destruct (sep_next_merged A t S B lst lo hi Hsf Hsh) as (Hsf1 & Hsh1).
  pose proof (next_merged_away pool A t S B lst lo hi (pd_geo _ _ _ _ _ _ _ _ _ _ _ Hpd)
                Hlt Hsf Hst) as Hst1.
  destruct (merge_next_spec _ _ _ _ _ _ _ _ _ _ _ Hpd)
    as (F1 & Hpd1 & E1 & E2 & E3).
  set (pool1 := merge_next pool t (t + S)) in *.
  set (S1 := fst (next_merged S B)) in *.
  set (B1 := snd (next_merged S B)) in *.
  pose proof (merge_prev_keeps _ _ _ _ _ _ _ _ _ lo hi Hpd1 Hsf1 Hsh1)
    as Hk2.
  destruct (sep_prev_merged A t S1 B1 lst lo hi Hsf1 Hsh1) as (Hsf2 & Hsh2).
  pose proof (prev_merged_away pool1 A t S1 B1 lst lo hi
                (pd_geo _ _ _ _ _ _ _ _ _ _ _ Hpd1) Hlt Hsf1 Hst1) as Hst2.
  destruct (merge_prev_spec _ _ _ _ _ _ _ _ _ Hpd1)
    as (F2 & u2 & Hpd2 & Et & Hpu & E4 & E5 & E6).
  rewrite Et.
  pose proof (add_pending_keeps _ _ _ _ _ _ _ _ _ lo hi Hpd2 Hsf2 Hst2)
    as Hk3.
  apply (kept_trans _ _ _ _ _ Hk1). apply (kept_trans _ _ _ _ _ Hk2).
  exact Hk3.
Qed.

(** [est_free] of a live pointer leaves every usable byte of every other
    live allocation and every byte of the regions carved by
    [est_permalloc] as it was: its writes stay within the released
    block, the free blocks and the size words. *)
Theorem free_keeps_allocations ptr bytes s p :
  reachable ptr bytes s -> In p (st_live s) ->
  (forall q i, In q (st_live s) -> q <> p ->
     0 <= i < est_usable_size (st_pool s) q ->
     heap (est_free (st_pool s) p) (q + i) = heap (st_pool s) (q + i))
  /\ (forall q al i, In (q, al) (st_perm s) -> 0 <= i < al ->
        heap (est_free (st_pool s) p) (q + i) = heap (st_pool s) (q + i)).
Proof.
  intros Hr Hp.
  destruct (reachable_valid _ _ _ Hr) as ((L0 & lst & F & HI & Hperm) & _).
  destruct (inv_live _ _ _ _ _ HI _ Hp) as (S & Hb).
  pose proof (inv_chain _ _ _ _ _ HI) as Hc.
  pose proof (chain_inv_blk _ _ _ Hc _ Hb) as Hk. cbn [b_addr b_size] in Hk.
  destruct (in_split _ _ Hb) as (A & B & EL).
  split.
  - intros q i Hq Hne Hi.
    destruct (live_payload_sep _ _ _ _ _ q (q + i) (q + i + 1) HI Hq
                ltac:(lia) ltac:(lia)) as (Hsf & Hsh).
    destruct (usable_size_live _ _ _ _ _ _ HI Hq) as (Sq & Hbq & Hus & _).
    assert (Hst : p - 8 + S <= q + i \/ q + i + 1 <= p - 8).
    { destruct (geo_sep _ _ _ _ (ci_geo _ _ _ Hc) Hb Hbq) as [E|E];
        cbn [b_addr b_size] in E; [inversion E; lia|lia]. }
    rewrite EL in HI, Hsf, Hsh.
    pose proof (est_free_keeps _ A (p - 8) S B lst F _ (q + i) (q + i + 1)
                  HI ltac:(lia) Hsf Hsh Hst) as Hkp.
    replace (p - 8 + 8) with p in Hkp by lia. apply Hkp. lia.
  - intros q al i Hq Hi.
    destruct (perm_region_sep _ _ _ _ _ _ q al (q + i) (q + i + 1) HI Hperm
                Hq ltac:(lia) ltac:(lia)) as (Hsf & Hsh).
    destruct (Hperm q al Hq) as (Hq1 & _).
    rewrite EL in HI, Hsf, Hsh.
    pose proof (est_free_keeps _ A (p - 8) S B lst F _ (q + i) (q + i + 1)
                  HI ltac:(lia) Hsf Hsh ltac:(lia)) as Hkp.
    replace (p - 8 + 8) with p in Hkp by lia. apply Hkp. lia.
Qed.

(** Two allocations, of 100 and of 200 bytes, and a byte stored into the
    first. *)
Definition demo_state6 : state :=
  mkstate (snd demo_alloc5)
          (add_live (fst demo_alloc5) (st_live demo_state5))
          (st_perm demo_state5).

Ltac demo_reach6 :=
  apply (reach_step 4096 4096 demo_state5);
  [demo_reach5
  |apply (step_malloc demo_state5 4097 200 (fst demo_alloc5)
            (snd demo_alloc5)); vm_compute; reflexivity].

Lemma free_keeps_allocations_witness :
  (forall q i, In q (st_live demo_state6) -> q <> fst demo_alloc5 ->
     0 <= i < est_usable_size (st_pool demo_state6) q ->
     heap (est_free (st_pool demo_state6) (fst demo_alloc5)) (q + i)
     = heap (st_pool demo_state6) (q + i))
  /\ (forall q al i, In (q, al) (st_perm demo_state6) -> 0 <= i < al ->
        heap (est_free (st_pool demo_state6) (fst demo_alloc5)) (q + i)
        = heap (st_pool demo_state6) (q + i)).
Proof.
  apply (free_keeps_allocations 4096 4096 demo_state6 (fst demo_alloc5)).
  - demo_reach6.
  - vm_compute. left. reflexivity.
Defined.

(** *** Resizing in place *)

(** [realloc_shrink] where it splits: the state after the split, with the
    rest pending, and what remains to be done. *)
Lemma shrink_split_state pool A t S B pn lst F live ptr al :
  Pending pool A t S true true B pn lst F live ->
  32 <= al <= S -> al mod 8 = 0 -> 32 < S - al ->
  exists v1 v2 v3,
    let r := t + al in
    let pool2 :=
      with_heap pool
        (set_size (set_size (set_size (heap pool) r v1) t v2) r v3) in
    snd (realloc_shrink pool ptr t al)
    = add_free_block (merge_next pool2 r (r + (S - al))) r
    /\ Pending pool2 (A ++ [mkblk t al true]) r (S - al) false false B pn
               lst F live.
Proof.
  intros [Hg HwA Hwt HwB HnA HnB Hi Hcm Hlv] Hal Halm Hgt.
  set (Lu := A ++ mkblk t S true :: B) in *.
  pose proof (chain_geo_ok _ _ _ Hg) as Hok.
  destruct (chain_geo_around _ _ _ _ _ Hg)
    as (nx & R & ER & Hnxa & Hnxs & Hnxm & Hnxe & HR & HA & Htop & Hsz & Hszm
        & Hpos & Hend & Hlen).
  cbn [b_addr b_size] in *.
  pose proof HwB as HwB0.
  rewrite ER in HwB. cbn [words] in HwB. destruct HwB as [Hwn HwR].
  rewrite Hnxa in Hwn.
  set (h := heap pool) in *.
  assert (HB : forall c, In c (B ++ [lst]) -> t + S <= b_addr c).
  { intros c Hc. rewrite ER in Hc. destruct Hc as [<-|Hc]; [lia|].
    specialize (HR _ Hc). lia. }
  rewrite realloc_shrink_phases. fold h. cbv zeta.
  rewrite (PHYS_NEXT_word _ _ _ _ _ Hwt Hszm) by lia.
  unfold split_block.
  rewrite (BLOCK_SIZE_word _ _ _ _ _ Hwt Hszm) by lia.
  set (rsz := S - al) in *.
  assert (Hrsz0 : 0 <= rsz < 2 ^ 32) by (unfold rsz; lia).
  rewrite (u32_id rsz) by exact Hrsz0.
  change ESTALLOC_MIN_MEMORY_BLOCK_SIZE with 32.
  destruct (Z.leb_spec rsz 32) as [Hle|_]; [lia|]. cbn [fst snd].
  set (r := t + al) in *.
  assert (Hrszm : rsz mod 8 = 0).
  { unfold rsz. rewrite Zminus_mod, Hszm, Halm. reflexivity. }
  set (h1 := set_size h r rsz).
  assert (Hw1t : get_size h1 t = word S true (last_used true A)).
  { unfold h1, r. rewrite get_set_size_other by lia. exact Hwt. }
  rewrite Hw1t, (word_resize S true _ Hszm al Halm ltac:(lia)).
  set (h2 := set_size h1 t (word al true (last_used true A))).
  destruct (Z.eqb_spec r NULL) as [Ez|_];
    [unfold r, NULL in Ez; unfold BPOOL_TOP in *; lia|].
  cbn [fst snd].
  assert (Hw2r : get_size h2 r = word rsz false false).
  { unfold h2, h1, r. rewrite get_set_size_other by lia.
    rewrite get_set_size_same. rewrite (u32_id rsz) by exact Hrsz0.
    unfold word, flags. lia. }
  rewrite (SET_PREV_USED_word _ _ _ _ _ Hw2r Hrszm).
  set (h3 := set_size h2 r (word rsz false true)).
  assert (Hw3r : get_size h3 r = word rsz false true)
    by (unfold h3; apply get_set_word; assumption).
  assert (Hw3t : get_size h3 t = word al true (last_used true A)).
  { unfold h3, r. rewrite get_set_size_other by lia. unfold h2.
    apply get_set_word; [assumption|lia]. }
  assert (Hch : changed_in h h3 t (t + S)).
  { unfold h3, h2, h1, r.
    apply (changed_in_trans _ (set_size (set_size h (t + al) rsz) t
                                 (word al true (last_used true A)))).
    - apply (changed_in_trans _ (set_size h (t + al) rsz)).
      + apply changed_in_set_size; lia.
      + apply changed_in_set_size; lia.
    - apply changed_in_set_size; lia. }
  exists rsz, (word al true (last_used true A)), (word rsz false true).
  cbv zeta. fold h1 h2 h3.
  set (pool2 := with_heap pool h3).
  set (A2 := A ++ [mkblk t al true]).
  set (L2 := A2 ++ mkblk r rsz true :: B).
  assert (EL2 : L2 = A ++ mkblk t al true :: mkblk r rsz true :: B).
  { unfold L2, A2. rewrite <- app_assoc. reflexivity. }
  assert (Hmid2 : forall c, In c L2 <->
            In c A \/ c = mkblk t al true \/ c = mkblk r rsz true
            \/ In c B).
  { intros c. rewrite EL2, in_middle. cbn [In].
    split; intros [H|[H|[H|H]]]; auto. }
  split; [replace (t + S) with (r + rsz) by (unfold r, rsz; lia);
          reflexivity|].
  constructor; cbn [heap with_heap pool2].
  - fold L2. rewrite EL2. apply (chain_geo_pool pool); auto.
    apply (chain_geo_split pool A t S true); auto; unfold rsz in *; lia.
  - unfold A2. apply words_app. split.
    + apply (words_frame h); [exact HwA|]. intros c Hc.
      apply (get_size_changed h h3 t (t + S)); [exact Hch|].
      specialize (HA _ Hc). lia.
    + cbn [words b_addr b_size b_used]. split; [exact Hw3t|exact I].
  - unfold A2. rewrite last_used_app. cbn [last_used b_used].
    exact Hw3r.
  - apply (words_frame h); [exact HwB0|]. intros c Hc.
    apply (get_size_changed h h3 t (t + S)); [exact Hch|].
    specialize (HB _ Hc). lia.
  - unfold A2. apply no_adj_app. split; [exact HnA|].
    cbn [no_adj b_used]. auto.
  - exact HnB.
  - fold L2. apply (index_inv_chain _ Lu).
    + apply (index_inv_changed (BPOOL_TOP pool) Lu pool _ F t (t + S));
        auto.
      intros i a sza Ha Hb.
      assert (Hbt : In (mkblk t S true) Lu) by (apply in_middle; auto).
      pose proof (geo_ok_blk _ _ _ Hok Hb) as Hk. cbn in Hk.
      destruct (blk_sep _ _ _ _ _ _ _ _ Hok Hb Hbt) as [(_ & _ & E)|E];
        [discriminate E|lia].
    + intros i a sza Ha Hb. apply Hmid2. apply in_middle in Hb.
      destruct Hb as [Hb|[Hb|Hb]]; auto. discriminate Hb.
  - fold L2. intros b Hb Hub. apply Hmid2 in Hb.
    destruct Hb as [Hb|[->|[->|Hb]]]; try discriminate Hub.
    + apply Hcm; [apply in_middle; auto|exact Hub].
    + apply Hcm; [apply in_middle; auto|exact Hub].
  - intros q Hq. destruct (Hlv _ Hq) as (s & Hs).
    apply in_middle in Hs. destruct Hs as [Hs|[Hs|Hs]].
    + exists s. apply in_middle. left. unfold A2. apply in_or_app. auto.
    + exists al. inversion Hs as [[Eq Es]]. rewrite Eq.
      apply in_middle. left. unfold A2.
      apply in_or_app. right. left. reflexivity.
    + exists s. apply in_middle. auto.
Qed.

Lemma realloc_shrink_keeps pool A t S B pn lst F live ptr al lo hi :
  Pending pool A t S true true B pn lst F live ->
  32 <= al <= S -> al mod 8 = 0 -> lo < hi ->
  sep_free (A ++ mkblk t S true :: B) lo hi ->
  sep_hdr ((A ++ mkblk t S true :: B) ++ [lst]) lo hi ->
  S - al <= 32 \/ t + S <= lo \/ hi <= t + al ->
  kept (heap pool) (heap (snd (realloc_shrink pool ptr t al))) lo hi.
Proof.
  intros Hpd Hal Halm Hlt Hsf Hsh Hst.
  assert (Hht : t + 8 <= lo \/ hi <= t).
  { apply (Hsh (mkblk t S true)). apply in_or_app. left. apply in_middle.
    auto. }
  destruct (Z_le_gt_dec (S - al) 32) as [Hle|Hgt].
  - (* no split *)
    destruct Hpd as [Hg HwA Hwt HwB HnA HnB Hi Hcm Hlv].
    destruct (chain_geo_around _ _ _ _ _ Hg)
      as (nx & R & ER & Hnxa & Hnxs & Hnxm & Hnxe & HR & HA & Htop & Hsz
          & Hszm & Hpos & Hend & Hlen).
    cbn [b_addr b_size] in *.
    rewrite ER in HwB. cbn [words] in HwB. destruct HwB as [Hwn HwR].
    rewrite Hnxa in Hwn.
    assert (Hsn : t + S + 8 <= lo \/ hi <= t + S).
    { rewrite <- Hnxa. apply Hsh. rewrite <- app_assoc.
      cbn [app]. rewrite ER. apply in_or_app. right. right. left.
      reflexivity. }
    rewrite realloc_shrink_phases. cbv zeta.
    rewrite (PHYS_NEXT_word _ _ _ _ _ Hwt Hszm) by lia.
    unfold split_block.
    rewrite (BLOCK_SIZE_word _ _ _ _ _ Hwt Hszm) by lia.
    rewrite (u32_id (S - al)) by lia.
    change ESTALLOC_MIN_MEMORY_BLOCK_SIZE with 32.
    destruct (Z.leb_spec (S - al) 32) as [_|Hx]; [|lia]. cbn [fst snd].
    change (NULL =? NULL) with true. cbv iota. cbn [fst snd heap with_heap].
    unfold SET_PREV_USED. apply kept_set_size. lia.
  - (* split *)
    assert (Hst' : t + S <= lo \/ hi <= t + al) by lia.
    destruct (shrink_split_state pool A t S B pn lst F live ptr al Hpd Hal
                Halm ltac:(lia)) as (v1 & v2 & v3 & Hs).
    cbv zeta in Hs. destruct Hs as (Es & Hpd2).
    rewrite Es.
    set (r := t + al) in *. set (rsz := S - al) in *.
    set (pool2 := with_heap pool
                    (set_size (set_size (set_size (heap pool) r v1) t v2)
                              r v3)) in *.
    set (A2 := A ++ [mkblk t al true]) in *.
    assert (Hk2 : kept (heap pool) (heap pool2) lo hi).
    { cbn [heap with_heap pool2].
      apply (kept_trans _ (set_size (set_size (heap pool) r v1) t v2));
        [apply (kept_trans _ (set_size (heap pool) r v1))|];
        apply kept_set_size; unfold r; lia. }
    assert (Hsf2 : sep_free (A2 ++ mkblk r rsz true :: B) lo hi).
    { refine (sep_free_incl _ _ _ _ _ Hsf).
      intros b Hb Hu. apply in_middle. apply in_middle in Hb.
      destruct Hb as [Hb|[->|Hb]]; [|discriminate Hu|auto].
      unfold A2 in Hb. apply in_app_or in Hb as [Hb|[<-|[]]]; [auto|].
      discriminate Hu. }
    assert (Hsh2 : sep_hdr ((A2 ++ mkblk r rsz true :: B) ++ [lst]) lo hi).
    { intros b Hb. apply in_app_or in Hb as [Hb|Hb].
      - apply in_middle in Hb. destruct Hb as [Hb|[->|Hb]].
        + unfold A2 in Hb. apply in_app_or in Hb as [Hb|[<-|[]]].
          * apply Hsh. apply in_or_app. left. apply in_middle. auto.
          * cbn [b_addr]. exact Hht.
        + cbn [b_addr]. unfold r. lia.
        + apply Hsh. apply in_or_app. left. apply in_middle. auto.
      - apply Hsh. apply in_or_app. right. exact Hb. }
    assert (Hsr : r + rsz <= lo \/ hi <= r) by (unfold r, rsz; lia).
    pose proof (merge_next_keeps _ _ _ _ _ _ _ _ _ _ _ lo hi Hpd2 Hsf2 Hsh2)
      as Hk3.
    destruct (sep_next_merged A2 r rsz B lst lo hi Hsf2 Hsh2)
      as (Hsf3 & Hsh3).
    pose proof (next_merged_away pool2 A2 r rsz B lst lo hi
                  (pd_geo _ _ _ _ _ _ _ _ _ _ _ Hpd2) Hlt Hsf2 Hsr) as Hsr3.
    destruct (merge_next_spec _ _ _ _ _ _ _ _ _ _ _ Hpd2)
      as (F1 & Hpd3 & _).
    pose proof (add_pending_keeps _ _ _ _ _ _ _ _ _ lo hi Hpd3 Hsf3 Hsr3)
      as Hk4.
    apply (kept_trans _ _ _ _ _ Hk2). apply (kept_trans _ _ _ _ _ Hk3).
    exact Hk4.
Qed.

(** *** Resizing by a new allocation *)

Lemma sep_malloc_chain A t sz al B lst lo hi :
  0 <= al ->
  sep_free (A ++ mkblk t sz false :: B) lo hi ->
  sep_hdr ((A ++ mkblk t sz false :: B) ++ [lst]) lo hi ->
  sep_free (malloc_chain A t sz al B) lo hi
  /\ sep_hdr (malloc_chain A t sz al B ++ [lst]) lo hi.
Proof.
  intros Hal Hsf Hsh.
  assert (Hbt : In (mkblk t sz false) (A ++ mkblk t sz false :: B))
    by (apply in_middle; auto).
  pose proof (Hsf _ Hbt eq_refl) as Hst. cbn [b_addr b_size] in Hst.
  assert (Hht : t + 8 <= lo \/ hi <= t).
  { apply (Hsh (mkblk t sz false)). apply in_or_app. left. exact Hbt. }
  unfold malloc_chain. destruct (Z.leb_spec (sz - al) 32) as [Hle|Hgt].
  - split.
    + refine (sep_free_incl _ _ _ _ _ Hsf).
      intros b Hb Hu. apply in_middle. apply in_middle in Hb.
      destruct Hb as [Hb|[->|Hb]]; [auto|discriminate Hu|auto].
    + refine (sep_hdr_incl _ _ _ _ _ Hsh).
      intros b Hb. apply in_app_or in Hb as [Hb|Hb].
      * apply in_middle in Hb. destruct Hb as [Hb|[->|Hb]].
        -- exists b. split; [|reflexivity]. apply in_or_app. left.
           apply in_middle. auto.
        -- exists (mkblk t sz false). split; [|reflexivity].
           apply in_or_app. left. exact Hbt.
        -- exists b. split; [|reflexivity]. apply in_or_app. left.
           apply in_middle. auto.
      * exists b. split; [|reflexivity]. apply in_or_app. right. exact Hb.
  - split.
    + intros b Hb Hu. apply in_middle in Hb.
      destruct Hb as [Hb|[->|[<-|Hb]]].
      * apply Hsf; [apply in_middle; auto|exact Hu].
      * discriminate Hu.
      * cbn [b_addr b_size]. lia.
      * apply Hsf; [apply in_middle; auto|exact Hu].
    + intros b Hb. apply in_app_or in Hb as [Hb|Hb].
      * apply in_middle in Hb. destruct Hb as [Hb|[->|[<-|Hb]]].
        -- apply Hsh. apply in_or_app. left. apply in_middle. auto.
        -- cbn [b_addr]. exact Hht.
        -- cbn [b_addr]. lia.
        -- apply Hsh. apply in_or_app. left. apply in_middle. auto.
      * apply Hsh. apply in_or_app. right. exact Hb.
Qed.

(** The copy loop of [ALLOC_AND_COPY] moves the old payload to the new
    place. *)
Lemma realloc_copy_content m target S u pu new_ptr ptr :
  get_size m target = word S u pu -> S mod 8 = 0 -> 8 <= S < 2 ^ 32 ->
  target + 4 <= new_ptr \/ new_ptr + (S - 8) <= target ->
  ptr + (S - 8) <= new_ptr \/ new_ptr + (S - 8) <= ptr ->
  forall fuel i m' m'',
  0 <= i <= S - 8 ->
  changed_in m m' new_ptr (new_ptr + (S - 8)) ->
  (forall j, 0 <= j < i -> m' (new_ptr + j) = m (ptr + j)) ->
  realloc_copy fuel m' target new_ptr ptr i = Some m'' ->
  forall j, 0 <= j < S - 8 -> m'' (new_ptr + j) = m (ptr + j).
Proof.
  intros Hw Hm Hs Hsep Hdis.
  induction fuel as [|f IH]; intros i m' m'' Hi Hch Hdone Hc;
    [discriminate Hc|].
  cbn [realloc_copy] in Hc.
  assert (Hw' : get_size m' target = word S u pu)
    by (rewrite (get_size_changed _ _ _ _ _ Hch) by lia; exact Hw).
  rewrite (BLOCK_SIZE_word _ _ _ _ _ Hw' Hm) in Hc by lia.
  change sizeof_USED_BLOCK with 8 in Hc. rewrite u64_id in Hc by lia.
  destruct (Z.ltb_spec i (S - 8)) as [Hlt|Hge].
  - rewrite u32_id in Hc by lia.
    assert (Hi1 : 0 <= i + 1 <= S - 8) by lia.
    apply (IH (i + 1) (upd m' (new_ptr + i) (m' (ptr + i))) m'' Hi1);
      [| |exact Hc].
    + apply (changed_in_trans _ m'); [exact Hch|].
      apply changed_in_upd. lia.
    + intros j Hj. destruct (Z.eq_dec j i) as [->|Hne].
      * rewrite upd_same. apply Hch. lia.
      * rewrite upd_other by lia. apply Hdone. lia.
  - apply some_eq in Hc. subst m''. intros j Hj. apply Hdone. lia.
Qed.

Lemma malloc_chain_block A t sz al B :
  al <= sz ->
  exists S', al <= S' <= sz
             /\ In (mkblk t S' true) (malloc_chain A t sz al B).
Proof.
  intros Hal. unfold malloc_chain. destruct (Z.leb_spec (sz - al) 32).
  - exists sz. split; [lia|]. apply in_middle. auto.
  - exists al. split; [lia|]. apply in_middle. auto.
Qed.

(** The state [ALLOC_AND_COPY] passes through: the new block, the copy,
    and the chain in which the old block is released. *)
Lemma alloc_and_copy_state pool A S B lst F live p n fuel r :
  Inv pool (A ++ mkblk (p - 8) S true :: B) lst F live -> In p live ->
  S < alloc_size_of n -> size pool < Z.of_nat fuel ->
  realloc_alloc_and_copy fuel pool p (p - 8) n = Some r ->
  r = (NULL, pool)
  \/ exists A1 t1 sz1 B1 F1 pool1 m2 A2 B2 S1,
       A ++ mkblk (p - 8) S true :: B = A1 ++ mkblk t1 sz1 false :: B1
       /\ est_malloc fuel pool n = Some (t1 + 8, pool1)
       /\ realloc_copy fuel (heap pool1) (p - 8) (t1 + 8) p 0 = Some m2
       /\ r = (t1 + 8, est_free (with_heap pool1 m2) p)
       /\ malloc_chain A1 t1 sz1 (alloc_size_of n) B1
          = A2 ++ mkblk (p - 8) S true :: B2
       /\ Inv (with_heap pool1 m2) (A2 ++ mkblk (p - 8) S true :: B2) lst F1
              (t1 + 8 :: live)
       /\ In (mkblk t1 S1 true) (A2 ++ mkblk (p - 8) S true :: B2)
       /\ alloc_size_of n <= S1 <= sz1
       /\ get_size (heap pool1) (p - 8)
          = word S true (last_used true A2)
       /\ changed_in (heap pool1) m2 (t1 + 8) (t1 + S)
       /\ (p - 8 + S <= t1 \/ t1 + sz1 <= p - 8).
Proof.
  intros HI Hp Hlt Hfuel Hr. set (t := p - 8) in *.
  set (L0 := A ++ mkblk t S true :: B) in *.
  pose proof (inv_chain _ _ _ _ _ HI) as Hc.
  pose proof (chain_length _ _ _ Hc) as Hlen.
  assert (Hbt : In (mkblk t S true) L0) by (apply in_middle; auto).
  pose proof (chain_inv_blk _ _ _ Hc _ Hbt) as Hkt. cbn in Hkt.
  pose proof (chain_inv_lst _ _ _ Hc) as Hkl.
  unfold realloc_alloc_and_copy in Hr.
  destruct (est_malloc_spec pool L0 lst F live n fuel HI ltac:(lia))
    as [Em|(r1 & Em & Hpost)]; rewrite Em in Hr.
  { left. rewrite Z.eqb_refl in Hr. apply some_eq in Hr. congruence. }
  destruct r1 as [q pool1].
  destruct Hpost as (A1 & t1 & sz1 & B1 & F1 & EL1 & Hsz1 & Hq & HI1 & P1 & P2).
  cbn [fst snd] in *. subst q.
  assert (Hb1 : In (mkblk t1 sz1 false) L0)
    by (rewrite EL1; apply in_middle; auto).
  pose proof (chain_inv_blk _ _ _ Hc _ Hb1) as Hk1. cbn in Hk1.
  destruct (Z.eqb_spec (t1 + 8) NULL) as [E|_]; [unfold NULL in E; lia|].
  set (L1 := malloc_chain A1 t1 sz1 (alloc_size_of n) B1) in *.
  pose proof (inv_chain _ _ _ _ _ HI1) as Hc1.
  assert (Hne : t <> t1)
    by (apply (used_free_neq _ _ _ _ _ _ (ci_geo _ _ _ Hc) Hbt Hb1)).
  assert (Hbt1 : In (mkblk t S true) L1).
  { apply malloc_chain_keeps; [rewrite <- EL1; exact Hbt|exact Hne]. }
  destruct (in_split _ _ Hbt1) as (A2 & B2 & EL2).
  pose proof Hc1 as Hc1'. rewrite EL2 in Hc1'.
  destruct (chain_inv_split _ _ _ _ _ Hc1') as (Hwt & _).
  cbn [b_addr b_size b_used] in Hwt.
  assert (Hsepb : t + S <= t1 \/ t1 + sz1 <= t).
  { destruct (blk_sep _ _ _ _ _ _ _ _ (chain_inv_geo_ok _ _ _ Hc) Hbt Hb1)
      as [(E & _)|E]; lia. }
  assert (Hsep : t + 4 <= t1 + 8 \/ t1 + 8 + (S - 8) <= t) by lia.
  destruct (realloc_copy_spec (heap pool1) t S true _ (t1 + 8) p Hwt
              ltac:(lia) ltac:(lia) Hsep (Z.to_nat (S - 8 - 0)) 0 fuel
              (heap pool1) eq_refl ltac:(lia) (changed_in_refl _ _ _)
              ltac:(lia))
    as (m2 & Ecp & Hch).
  rewrite Ecp in Hr. apply some_eq in Hr.
  destruct (malloc_chain_block A1 t1 sz1 (alloc_size_of n) B1 Hsz1)
    as (S1 & HS1' & Hbn). fold L1 in Hbn.
  assert (HI2 : Inv (with_heap pool1 m2) L1 lst F1 (t1 + 8 :: live)).
  { apply (Inv_payload pool1 L1 lst F1 _ t1 S1); auto.
    apply (changed_in_weaken _ _ _ _ _ _ Hch); lia. }
  right. exists A1, t1, sz1, B1, F1, pool1, m2, A2, B2, S1.
  rewrite <- EL2.
  split; [exact EL1|]. split; [exact Em|]. split; [exact Ecp|].
  split; [symmetry; exact Hr|]. split; [reflexivity|].
  split; [exact HI2|]. split; [exact Hbn|]. split; [exact HS1'|].
  split; [exact Hwt|]. split; [|exact Hsepb].
  apply (changed_in_weaken _ _ _ _ _ _ Hch); lia.
Qed.

Lemma alloc_and_copy_keeps pool A S B lst F live p n fuel r lo hi :
  Inv pool (A ++ mkblk (p - 8) S true :: B) lst F live -> In p live ->
  S < alloc_size_of n -> size pool < Z.of_nat fuel ->
  realloc_alloc_and_copy fuel pool p (p - 8) n = Some r ->
  lo < hi ->
  sep_free (A ++ mkblk (p - 8) S true :: B) lo hi ->
  sep_hdr ((A ++ mkblk (p - 8) S true :: B) ++ [lst]) lo hi ->
  p - 8 + S <= lo \/ hi <= p - 8 ->
  kept (heap pool) (heap (snd r)) lo hi.
Proof.
  intros HI Hp Hlt Hfuel Hr Hlh Hsf Hsh Hst.
  destruct (alloc_and_copy_state _ _ _ _ _ _ _ _ _ _ _ HI Hp Hlt Hfuel Hr)
    as [->|(A1 & t1 & sz1 & B1 & F1 & pool1 & m2 & A2 & B2 & S1 & EL1 & Em
            & Ecp & -> & EL2 & HI2 & Hbn & HS1 & Hwt & Hch & Hsepb)];
    [apply kept_refl|].
  cbn [snd].
  pose proof (est_malloc_keeps _ _ _ _ _ n fuel _ lo hi HI Em Hsf Hsh) as Hk1.
  cbn [snd] in Hk1.
  assert (Hk2 : kept (heap pool1) m2 lo hi).
  { apply (kept_changed _ _ _ _ _ _ Hch).
    rewrite EL1 in Hsf.
    specialize (Hsf (mkblk t1 sz1 false) ltac:(apply in_middle; auto)
                  eq_refl).
    cbn [b_addr b_size] in Hsf. lia. }
  destruct (alloc_size_of_facts n) as (Hal & _).
  rewrite EL1 in Hsf, Hsh.
  destruct (sep_malloc_chain A1 t1 sz1 (alloc_size_of n) B1 lst lo hi
              ltac:(lia) Hsf Hsh) as (Hsf1 & Hsh1).
  rewrite EL2 in Hsf1, Hsh1.
  pose proof (est_free_keeps (with_heap pool1 m2) A2 (p - 8) S B2 lst F1 _
                lo hi HI2 Hlh Hsf1 Hsh1 Hst) as Hk3.
  replace (p - 8 + 8) with p in Hk3 by lia. cbn [heap with_heap] in Hk3.
  apply (kept_trans _ _ _ _ _ Hk1). apply (kept_trans _ _ _ _ _ Hk2).
  exact Hk3.
Qed.

Lemma alloc_and_copy_content pool A S B lst F live p n fuel r :
  Inv pool (A ++ mkblk (p - 8) S true :: B) lst F live -> In p live ->
  S < alloc_size_of n -> size pool < Z.of_nat fuel ->
  realloc_alloc_and_copy fuel pool p (p - 8) n = Some r ->
  fst r <> NULL ->
  forall j, 0 <= j < S - 8 ->
  heap (snd r) (fst r + j) = heap pool (p + j).
Proof.
  intros HI Hp Hlt Hfuel Hr Hnn j Hj.
  pose proof (inv_chain _ _ _ _ _ HI) as Hc.
  assert (Hbt : In (mkblk (p - 8) S true) (A ++ mkblk (p - 8) S true :: B))
    by (apply in_middle; auto).
  pose proof (chain_inv_blk _ _ _ Hc _ Hbt) as Hkt. cbn in Hkt.
  destruct (alloc_and_copy_state _ _ _ _ _ _ _ _ _ _ _ HI Hp Hlt Hfuel Hr)
    as [->|(A1 & t1 & sz1 & B1 & F1 & pool1 & m2 & A2 & B2 & S1 & EL1 & Em
            & Ecp & -> & EL2 & HI2 & Hbn & HS1 & Hwt & Hch & Hsepb)];
    [cbn in Hnn; congruence|].
  cbn [fst snd].
  (* the old payload through the allocation *)
  destruct (used_payload_sep pool _ lst (mkblk (p - 8) S true)
              (p + j) (p + j + 1) Hc
              ltac:(apply in_or_app; left; exact Hbt) eq_refl
              ltac:(cbn; lia) ltac:(cbn; lia)) as (Hsf & Hsh).
  pose proof (est_malloc_keeps _ _ _ _ _ n fuel _ _ _ HI Em Hsf Hsh) as Hk1.
  cbn [snd] in Hk1.
  (* the copy *)
  pose proof (realloc_copy_content (heap pool1) (p - 8) S true _ (t1 + 8) p
                Hwt ltac:(lia) ltac:(lia) ltac:(lia) ltac:(lia)
                fuel 0 (heap pool1) m2 ltac:(lia) (changed_in_refl _ _ _)
                ltac:(intros; lia) Ecp j Hj) as Hcp.
  (* the release of the old block *)
  pose proof (inv_chain _ _ _ _ _ HI2) as Hc2.
  destruct (used_payload_sep (with_heap pool1 m2) _ lst (mkblk t1 S1 true)
              (t1 + 8 + j) (t1 + 8 + j + 1) Hc2
              ltac:(apply in_or_app; left; exact Hbn) eq_refl
              ltac:(cbn; lia) ltac:(cbn; lia)) as (Hsf2 & Hsh2).
  pose proof (est_free_keeps (with_heap pool1 m2) A2 (p - 8) S B2 lst F1 _
                (t1 + 8 + j) (t1 + 8 + j + 1) HI2 ltac:(lia) Hsf2 Hsh2
                ltac:(lia)) as Hk3.
  replace (p - 8 + 8) with p in Hk3 by lia. cbn [heap with_heap] in Hk3.
  rewrite (Hk3 (t1 + 8 + j)) by lia. rewrite Hcp.
  apply Hk1. lia.
Qed.

(** The paths of [est_realloc] of a live pointer. *)
Lemma est_realloc_paths pool A S B lst F live p n fuel r :
  Inv pool (A ++ mkblk (p - 8) S true :: B) lst F live -> In p live ->
  est_realloc fuel pool p n = Some r ->
  (alloc_size_of n <= S
   /\ Pending pool A (p - 8) S true true B true lst F live
   /\ r = realloc_shrink pool p (p - 8) (alloc_size_of n))
  \/ (S < alloc_size_of n
      /\ realloc_alloc_and_copy fuel pool p (p - 8) n = Some r)
  \/ (S < alloc_size_of n
      /\ exists nx B' F1,
           B = nx :: B' /\ b_used nx = false
           /\ alloc_size_of n <= S + b_size nx
           /\ Pending pool A (p - 8) S true true B true lst F live
           /\ Pending (merge_next pool (p - 8) (p - 8 + S)) A (p - 8)
                      (S + b_size nx) true true B' false lst F1 live
           /\ r = realloc_shrink (merge_next pool (p - 8) (p - 8 + S)) p
                    (p - 8) (alloc_size_of n)).
Proof.
  intros HI Hp Hr. set (t := p - 8) in *.
  pose proof (inv_chain _ _ _ _ _ HI) as Hc.
  destruct (chain_inv_split _ _ _ _ _ Hc) as (Hwt & _ & HwB & _).
  destruct (chain_around _ _ _ _ _ Hc)
    as (nx & R & ER & Hnxa & Hnxs & Hnxm & Hnxe & HR & HA & Htop & Hsz & Hszm
        & Hpos & Hend & Hlen).
  cbn [b_addr b_size b_used] in *.
  rewrite ER in HwB. cbn [words] in HwB. destruct HwB as [Hwn _].
  rewrite Hnxa in Hwn.
  destruct (alloc_size_of_facts n) as (Hal & Halm).
  unfold est_realloc in Hr.
  destruct (Z.eqb_spec p NULL) as [E|Hpn];
    [unfold NULL, BPOOL_TOP, t in *; lia|].
  cbv zeta in Hr. change (BLOCK_ADRS p) with t in Hr.
  rewrite (BLOCK_SIZE_word _ _ _ _ _ Hwt Hszm) in Hr by lia.
  pose proof (Inv_resizing _ _ _ _ _ _ _ _ HI) as Hpd.
  destruct (Z.gtb_spec (alloc_size_of n) S) as [Hgt|Hle].
  2:{ left. apply some_eq in Hr. split; [lia|]. split; [exact Hpd|].
      symmetry. exact Hr. }
  right.
  rewrite (PHYS_NEXT_word _ _ _ _ _ Hwt Hszm) in Hr by lia.
  rewrite (IS_USED_word _ _ _ _ _ Hwn Hnxm) in Hr.
  destruct (b_used nx) eqn:Hu.
  { left. split; [lia|exact Hr]. }
  rewrite (BLOCK_SIZE_word _ _ _ _ _ Hwn Hnxm) in Hr by lia.
  assert (Hsum : 0 <= S + b_size nx < 2 ^ 32)
    by (unfold BPOOL_TOP, BPOOL_END in *; lia).
  rewrite u32_id in Hr by exact Hsum.
  destruct (Z.ltb_spec (S + b_size nx) (alloc_size_of n)) as [Hlt|Hge].
  { left. split; [lia|exact Hr]. }
  right. split; [lia|].
  destruct (merge_next_spec _ _ _ _ _ _ _ _ _ _ _ Hpd)
    as (F1 & Hpd1 & E1 & E2 & _).
  assert (Emn : merge_next pool t (t + S)
                = with_heap (remove_free_block pool (t + S))
                    (merge_block (heap (remove_free_block pool (t + S))) t
                                 (t + S))).
  { unfold merge_next. rewrite (IS_FREE_word _ _ _ _ _ Hwn Hnxm).
    reflexivity. }
  rewrite <- Emn in Hr. apply some_eq in Hr.
  destruct (next_split _ _ _ _ ER (ci_lst_used _ _ _ Hc))
    as [[Hu' _]|[_ (B' & EB & ERR & Hnm)]]; [congruence|].
  rewrite Hnm in Hpd1. cbn [fst snd] in Hpd1.
  exists nx, B', F1.
  split; [exact EB|]. split; [exact Hu|]. split; [lia|].
  split; [exact Hpd|]. split; [exact Hpd1|]. symmetry. exact Hr.
Qed.

Lemma est_realloc_keeps pool A S B lst F live p n fuel r lo hi :
  Inv pool (A ++ mkblk (p - 8) S true :: B) lst F live -> In p live ->
  size pool < Z.of_nat fuel ->
  est_realloc fuel pool p n = Some r ->
  lo < hi ->
  sep_free (A ++ mkblk (p - 8) S true :: B) lo hi ->
  sep_hdr ((A ++ mkblk (p - 8) S true :: B) ++ [lst]) lo hi ->
  p - 8 + S <= lo \/ hi <= p - 8 ->
  kept (heap pool) (heap (snd r)) lo hi.
Proof.
  intros HI Hp Hfuel Hr Hlh Hsf Hsh Hst.
  destruct (alloc_size_of_facts n) as (Hal & Halm).
  destruct (est_realloc_paths _ _ _ _ _ _ _ _ _ _ _ HI Hp Hr)
    as [(Hle & Hpd & ->)|[(Hlt & Hac)
       |(Hlt & nx & B' & F1 & EB & Hu & Hge & Hpd & Hpd1 & ->)]].
  - apply (realloc_shrink_keeps pool A (p - 8) S B true lst F live p (alloc_size_of n) lo hi
             Hpd ltac:(lia) Halm Hlh Hsf Hsh). lia.
  - apply (alloc_and_copy_keeps pool A S B lst F live p n fuel r lo hi);
      assumption.
  - pose proof (merge_next_keeps _ _ _ _ _ _ _ _ _ _ _ lo hi Hpd Hsf Hsh)
      as Hk1.
    destruct (sep_next_merged A (p - 8) S B lst lo hi Hsf Hsh)
      as (Hsf1 & Hsh1).
    pose proof (next_merged_away pool A (p - 8) S B lst lo hi
                  (pd_geo _ _ _ _ _ _ _ _ _ _ _ Hpd) Hlh Hsf Hst) as Hst1.
    rewrite EB in Hsf1, Hsh1, Hst1. cbn [next_merged] in Hsf1, Hsh1, Hst1.
    rewrite Hu in Hsf1, Hsh1, Hst1. cbn [fst snd] in Hsf1, Hsh1, Hst1.
    apply (kept_trans _ _ _ _ _ Hk1).
    apply (realloc_shrink_keeps _ A (p - 8) (S + b_size nx) B' false lst F1
             live p (alloc_size_of n) lo hi Hpd1 ltac:(lia) Halm Hlh Hsf1 Hsh1). lia.
Qed.

Lemma est_realloc_content pool A S B lst F live p n fuel r :
  Inv pool (A ++ mkblk (p - 8) S true :: B) lst F live -> In p live ->
  size pool < Z.of_nat fuel ->
  est_realloc fuel pool p n = Some r -> fst r <> NULL ->
  forall j, 0 <= j < S - 8 -> j < est_usable_size (snd r) (fst r) ->
  heap (snd r) (fst r + j) = heap pool (p + j).
Proof.
  intros HI Hp Hfuel Hr Hnn j Hj Hju.
  destruct (alloc_size_of_facts n) as (Hal & Halm).
  pose proof (inv_chain _ _ _ _ _ HI) as Hc.
  assert (Hbt : In (mkblk (p - 8) S true) (A ++ mkblk (p - 8) S true :: B))
    by (apply in_middle; auto).
  pose proof (chain_inv_blk _ _ _ Hc _ Hbt) as Hkt. cbn in Hkt.
  destruct (used_payload_sep pool _ lst (mkblk (p - 8) S true)
              (p + j) (p + j + 1) Hc
              ltac:(apply in_or_app; left; exact Hbt) eq_refl
              ltac:(cbn; lia) ltac:(cbn; lia)) as (Hsf & Hsh).
  destruct (est_realloc_paths _ _ _ _ _ _ _ _ _ _ _ HI Hp Hr)
    as [(Hle & Hpd & ->)|[(Hlt & Hac)
       |(Hlt & nx & B' & F1 & EB & Hu & Hge & Hpd & Hpd1 & ->)]].
  - destruct (realloc_shrink_spec _ _ _ _ _ _ _ _ _ p (alloc_size_of n) Hpd
                ltac:(lia) Halm) as (F2 & Hf & HI2 & _).
    rewrite Hf in *.
    assert (Hcond : S - alloc_size_of n <= 32 \/ p - 8 + S <= p + j
                    \/ p + j + 1 <= p - 8 + alloc_size_of n).
    { destruct (Z_le_gt_dec (S - alloc_size_of n) 32) as [|Hgt]; [auto|].
      right. right.
      destruct (usable_size_live _ _ _ _ _ _ HI2 Hp)
        as (S2 & Hb2 & Hus & _).
      assert (Hin : In (mkblk (p - 8) (alloc_size_of n) true)
                       (shrink_chain A (p - 8) S (alloc_size_of n) B)).
      { unfold shrink_chain.
        destruct (Z.leb_spec (S - alloc_size_of n) 32); [lia|].
        apply in_or_app. left. apply in_or_app. right. left. reflexivity. }
      pose proof (geo_addr_inj _ _ _ _
                    (ci_geo _ _ _ (inv_chain _ _ _ _ _ HI2)) Hb2 Hin eq_refl)
        as X. inversion X. lia. }
    apply (realloc_shrink_keeps pool A (p - 8) S B true lst F live p
             (alloc_size_of n) (p + j) (p + j + 1) Hpd ltac:(lia) Halm ltac:(lia) Hsf Hsh
             Hcond). lia.
  - apply (alloc_and_copy_content pool A S B lst F live p n fuel r);
      assumption.
  - cbn [fst snd] in *.
    destruct (realloc_shrink_spec _ _ _ _ _ _ _ _ _ p (alloc_size_of n) Hpd1
                ltac:(lia) Halm) as (F2 & Hf & _).
    rewrite Hf.
    pose proof (merge_next_keeps _ _ _ _ _ _ _ _ _ _ _ (p + j) (p + j + 1)
                  Hpd Hsf Hsh) as Hk1.
    destruct (sep_next_merged A (p - 8) S B lst (p + j) (p + j + 1) Hsf Hsh)
      as (Hsf1 & Hsh1).
    rewrite EB in Hsf1, Hsh1. cbn [next_merged] in Hsf1, Hsh1.
    rewrite Hu in Hsf1, Hsh1. cbn [fst snd] in Hsf1, Hsh1.
    pose proof (realloc_shrink_keeps _ A (p - 8) (S + b_size nx) B' false lst
                  F1 live p (alloc_size_of n) (p + j) (p + j + 1) Hpd1 ltac:(lia) Halm
                  ltac:(lia) Hsf1 Hsh1 ltac:(lia)) as Hk2.
    rewrite (Hk2 (p + j)) by lia. apply Hk1. lia.
Qed.

Lemma free_chain_used A t S B b :
  In b (free_chain A t S B) -> b_used b = true -> In b (A ++ B).
Proof.
  unfold free_chain. cbv zeta. intros Hb Hu. apply in_middle in Hb.
  apply in_or_app. destruct Hb as [Hb|[->|Hb]].
  - left. revert Hb. unfold prev_merged.
    destruct (last_used true A); cbn [fst]; [auto|].
    intros Hb. destruct A as [|a A'] using rev_ind; [destruct Hb|].
    rewrite removelast_last in Hb. apply in_or_app. left. exact Hb.
  - discriminate Hu.
  - right. apply (next_merged_incl S). exact Hb.
Qed.

Lemma shrink_chain_block A t S al B :
  al <= S ->
  exists S', al <= S' /\ In (mkblk t S' true) (shrink_chain A t S al B).
Proof.
  intros Hal. unfold shrink_chain. destruct (Z.leb_spec (S - al) 32).
  - exists S. split; [lia|]. apply in_middle. auto.
  - exists al. split; [lia|]. apply in_or_app. left. apply in_or_app.
    right. left. reflexivity.
Qed.

Lemma block_usable pool L0 lst F live t S :
  Inv pool L0 lst F live -> In (mkblk t S true) L0 ->
  est_usable_size pool (t + 8) = S - 8.
Proof.
  intros HI Hb. pose proof (inv_chain _ _ _ _ _ HI) as Hc.
  pose proof (chain_inv_blk _ _ _ Hc _ Hb) as Hk. cbn in Hk.
  destruct (in_split _ _ Hb) as (A & B & EL).
  pose proof Hc as Hc'. rewrite EL in Hc'.
  destruct (chain_inv_split _ _ _ _ _ Hc') as (Hw & _).
  cbn [b_addr b_size b_used] in Hw.
  unfold est_usable_size, BLOCK_ADRS. change sizeof_USED_BLOCK with 8.
  replace (t + 8 - 8) with t by lia.
  rewrite (BLOCK_SIZE_word _ _ _ _ _ Hw) by lia.
  apply u32_id. lia.
Qed.

(** The block behind a non-NULL result of [est_realloc] has room for the
    effective size of the request. *)
Lemma est_realloc_size pool A S B lst F live p n fuel r :
  Inv pool (A ++ mkblk (p - 8) S true :: B) lst F live -> In p live ->
  size pool < Z.of_nat fuel ->
  est_realloc fuel pool p n = Some r -> fst r <> NULL ->
  alloc_size_of n - 8 <= est_usable_size (snd r) (fst r).
Proof.
  intros HI Hp Hfuel Hr Hnn.
  destruct (alloc_size_of_facts n) as (Hal & Halm).
  pose proof (chain_inv_blk _ _ _ (inv_chain _ _ _ _ _ HI)
                (mkblk (p - 8) S true) ltac:(apply in_middle; auto)) as Hkt.
  cbn [b_addr b_size] in Hkt.
  destruct (est_realloc_paths _ _ _ _ _ _ _ _ _ _ _ HI Hp Hr)
    as [(Hle & Hpd & ->)|[(Hlt & Hac)
       |(Hlt & nx & B' & F1 & EB & Hu & Hge & Hpd & Hpd1 & ->)]].
  - destruct (realloc_shrink_spec _ _ _ _ _ _ _ _ _ p (alloc_size_of n) Hpd
                ltac:(lia) Halm) as (F2 & Hf & HI2 & _).
    rewrite Hf.
    destruct (shrink_chain_block A (p - 8) S (alloc_size_of n) B Hle)
      as (S2 & HS2 & Hb2).
    pose proof (block_usable _ _ _ _ _ _ _ HI2 Hb2) as E.
    replace (p - 8 + 8) with p in E by lia. lia.
  - destruct (alloc_and_copy_state _ _ _ _ _ _ _ _ _ _ _ HI Hp Hlt Hfuel Hac)
      as [->|(A1 & t1 & sz1 & B1 & F1 & pool1 & m2 & A2 & B2 & S1 & EL1 & Em
              & Ecp & -> & EL2 & HI2 & Hbn & HS1 & Hwt & Hch & Hsepb)];
      [cbn in Hnn; congruence|].
    cbn [fst snd].
    destruct (est_free_at _ _ _ _ _ _ _ _ HI2) as (F3 & HI3 & _).
    replace (p - 8 + 8) with p in HI3 by lia.
    assert (Hq : In (t1 + 8) (remove Z.eq_dec p (t1 + 8 :: live))).
    { apply in_in_remove; [|left; reflexivity]. lia. }
    destruct (usable_size_live _ _ _ _ _ _ HI3 Hq) as (S3 & Hb3 & Hus3 & _).
    replace (t1 + 8 - 8) with t1 in Hb3 by lia.
    pose proof (free_chain_used _ _ _ _ _ Hb3 eq_refl) as Hb3'.
    assert (Hb3'' : In (mkblk t1 S3 true) (A2 ++ mkblk (p - 8) S true :: B2)).
    { apply in_middle. apply in_app_or in Hb3' as [H|H]; auto. }
    pose proof (geo_addr_inj _ _ _ _
                  (ci_geo _ _ _ (inv_chain _ _ _ _ _ HI2)) Hb3'' Hbn eq_refl)
      as X. inversion X. lia.
  - destruct (realloc_shrink_spec _ _ _ _ _ _ _ _ _ p (alloc_size_of n) Hpd1
                ltac:(lia) Halm) as (F2 & Hf & HI2 & _).
    rewrite Hf.
    destruct (shrink_chain_block A (p - 8) (S + b_size nx) (alloc_size_of n)
                B' Hge) as (S2 & HS2 & Hb2).
    pose proof (block_usable _ _ _ _ _ _ _ HI2 Hb2) as E.
    replace (p - 8 + 8) with p in E by lia. lia.
Qed.

(** [est_realloc] of a live pointer leaves every usable byte of every
    other live allocation and every byte of the regions carved by
    [est_permalloc] as it was, whether it resizes in place, moves the
    allocation or fails. *)
Theorem realloc_keeps_allocations ptr bytes s p n fuel r pool' :
  reachable ptr bytes s -> In p (st_live s) ->
  size (st_pool s) < Z.of_nat fuel ->
  est_realloc fuel (st_pool s) p n = Some (r, pool') ->
  (forall q i, In q (st_live s) -> q <> p ->
     0 <= i < est_usable_size (st_pool s) q ->
     heap pool' (q + i) = heap (st_pool s) (q + i))
  /\ (forall q al i, In (q, al) (st_perm s) -> 0 <= i < al ->
        heap pool' (q + i) = heap (st_pool s) (q + i)).
Proof.
  intros Hr Hp Hfuel Hm.
  destruct (reachable_valid _ _ _ Hr) as ((L0 & lst & F & HI & Hperm) & _).
  destruct (inv_live _ _ _ _ _ HI _ Hp) as (S & Hb).
  pose proof (inv_chain _ _ _ _ _ HI) as Hc.
  pose proof (chain_inv_blk _ _ _ Hc _ Hb) as Hk. cbn [b_addr b_size] in Hk.
  destruct (in_split _ _ Hb) as (A & B & EL).
  split.
  - intros q i Hq Hne Hi.
    destruct (live_payload_sep _ _ _ _ _ q (q + i) (q + i + 1) HI Hq
                ltac:(lia) ltac:(lia)) as (Hsf & Hsh).
    destruct (usable_size_live _ _ _ _ _ _ HI Hq) as (Sq & Hbq & Hus & _).
    assert (Hst : p - 8 + S <= q + i \/ q + i + 1 <= p - 8).
    { destruct (geo_sep _ _ _ _ (ci_geo _ _ _ Hc) Hb Hbq) as [E|E];
        cbn [b_addr b_size] in E; [inversion E; lia|lia]. }
    rewrite EL in HI, Hsf, Hsh.
    apply (est_realloc_keeps _ A S B lst F _ p n fuel (r, pool') (q + i)
             (q + i + 1) HI Hp Hfuel Hm ltac:(lia) Hsf Hsh Hst). lia.
  - intros q al i Hq Hi.
    destruct (perm_region_sep _ _ _ _ _ _ q al (q + i) (q + i + 1) HI Hperm
                Hq ltac:(lia) ltac:(lia)) as (Hsf & Hsh).
    destruct (Hperm q al Hq) as (Hq1 & _).
    rewrite EL in HI, Hsf, Hsh.
    apply (est_realloc_keeps _ A S B lst F _ p n fuel (r, pool') (q + i)
             (q + i + 1) HI Hp Hfuel Hm ltac:(lia) Hsf Hsh ltac:(lia)). lia.
Qed.

(** A successful [est_realloc] of a live pointer returns a block with
    room for the request, and the bytes the old and the new allocation
    have in common, counted from their start, are those the old one
    held: in place as well as after a move. *)
Theorem realloc_preserves_content ptr bytes s p n fuel r pool' :
  reachable ptr bytes s -> In p (st_live s) ->
  size (st_pool s) < Z.of_nat fuel ->
  est_realloc fuel (st_pool s) p n = Some (r, pool') -> r <> NULL ->
  alloc_size_of n - sizeof_USED_BLOCK <= est_usable_size pool' r
  /\ forall i, 0 <= i < est_usable_size (st_pool s) p ->
       i < est_usable_size pool' r ->
       heap pool' (r + i) = heap (st_pool s) (p + i).
Proof.
  intros Hr Hp Hfuel Hm Hnn.
  destruct (reachable_valid _ _ _ Hr) as ((L0 & lst & F & HI & Hperm) & _).
  destruct (usable_size_live _ _ _ _ _ _ HI Hp) as (S & Hb & Hus & _).
  destruct (in_split _ _ Hb) as (A & B & EL).
  rewrite EL in HI. split.
  - apply (est_realloc_size _ A S B lst F _ p n fuel (r, pool') HI Hp Hfuel
             Hm Hnn).
  - intros i Hi Hi'.
    apply (est_realloc_content _ A S B lst F _ p n fuel (r, pool') HI Hp
             Hfuel Hm Hnn i ltac:(lia) Hi').
Qed.

(** [est_realloc] of the first of the two allocations to 1000 bytes. *)
Definition demo_realloc6 : Z * MEMORY_POOL :=
  match est_realloc 4097 (st_pool demo_state6) (fst demo_alloc) 1000 with
  | Some r => r
  | None => (NULL, st_pool demo_state6)
  end.

Lemma realloc_keeps_allocations_witness :
  (forall q i, In q (st_live demo_state6) -> q <> fst demo_alloc ->
     0 <= i < est_usable_size (st_pool demo_state6) q ->
     heap (snd demo_realloc6) (q + i) = heap (st_pool demo_state6) (q + i))
  /\ (forall q al i, In (q, al) (st_perm demo_state6) -> 0 <= i < al ->
        heap (snd demo_realloc6) (q + i)
        = heap (st_pool demo_state6) (q + i)).
Proof.
  apply (realloc_keeps_allocations 4096 4096 demo_state6 (fst demo_alloc)
           1000 4097 (fst demo_realloc6) (snd demo_realloc6)).
  - demo_reach6.
  - vm_compute. right. left. reflexivity.
  - vm_compute. reflexivity.
  - vm_compute. reflexivity.
Defined.

Lemma realloc_preserves_content_witness :
  alloc_size_of 1000 - sizeof_USED_BLOCK
  <= est_usable_size (snd demo_realloc6) (fst demo_realloc6)
  /\ forall i, 0 <= i < est_usable_size (st_pool demo_state6)
                          (fst demo_alloc) ->
       i < est_usable_size (snd demo_realloc6) (fst demo_realloc6) ->
       heap (snd demo_realloc6) (fst demo_realloc6 + i)
       = heap (st_pool demo_state6) (fst demo_alloc + i).
Proof.
  apply (realloc_preserves_content 4096 4096 demo_state6 (fst demo_alloc)
           1000 4097 (fst demo_realloc6) (snd demo_realloc6)).
  - demo_reach6.
  - vm_compute. right. left. reflexivity.
  - vm_compute. reflexivity.
  - vm_compute. reflexivity.
  - vm_compute. congruence.
Defined.

(** ** Carving from the tail *)

(** [est_permalloc] writes into the last free block, its size word and
    the size word it plants for the shortened sentinel, all inside that
    free block, and into the free lists. *)
Lemma permalloc_tail_keeps pool A pt psz lst F live al lo hi :
  Inv pool (A ++ [mkblk pt psz false]) lst F live ->
  0 <= al <= psz - 8 -> al mod 8 = 0 ->
  sep_free (A ++ [mkblk pt psz false]) lo hi ->
  b_addr lst + 8 <= lo \/ hi <= b_addr lst ->
  kept (heap pool) (heap (snd (permalloc_tail pool pt (b_addr lst) al)))
       lo hi.
Proof.
  intros [Hc Hi Hcm Hlv] Hal Halm Hsf Hsl.
  set (L0 := A ++ [mkblk pt psz false]) in *.
  pose proof (chain_inv_geo_ok _ _ _ Hc) as Hok.
  destruct (chain_around _ _ _ _ _ Hc)
    as (nx & R & ER & Hnxa & Hnxs & Hnxm & Hnxe & HR & HA & Htop & Hsz & Hszm
        & Hpos & Hend & Hlen).
  cbn [app] in ER. pose proof (some_eq _ _ (f_equal Some ER)) as ER'.
  assert (Enx : nx = lst) by congruence. subst nx. clear ER ER' HR.
  destruct (chain_inv_split _ _ _ _ _ Hc)
    as (Hwp & HwA & HwB & _ & HgA & Hpa & _ & _ & HnA & Hput & _).
  cbn [b_addr b_size b_used app words] in *. destruct HwB as [Hwl _].
  rewrite (ci_lst_used _ _ _ Hc) in Hwl.
  assert (Hpu : last_used true A = true).
  { destruct (last_used true A); [reflexivity|].
    specialize (Hput eq_refl). discriminate. }
  rewrite Hpu in Hwp.
  set (l := b_addr lst) in *. set (lsz := b_size lst) in *.
  assert (Hbp : In (mkblk pt psz false) L0) by (apply in_middle; auto).
  pose proof (Hcm _ Hbp eq_refl) as HinF. cbn [b_addr b_size] in HinF.
  assert (Hbsz : BLOCK_SIZE (heap pool) pt = psz)
    by (apply (BLOCK_SIZE_word _ _ _ _ _ Hwp Hszm); lia).
  destruct (remove_free_block_spec _ _ Hok pool F pt psz Hi Hbp HinF Hbsz)
    as (l1 & l2 & HF & Hi1 & Hfr & E1 & E2 & E3).
  pose proof (remove_free_block_keeps _ _ Hok lo hi Hsf pool F pt psz
                (ii_lists _ _ _ Hi) Hbp HinF Hbsz) as Hk1.
  set (pool1 := remove_free_block pool pt) in *.
  set (F1 := fl_set F (calc_index psz) (l1 ++ l2)) in *.
  destruct (unlinked_facts _ _ _ _ _ _ _ _ Hok (ii_lists _ _ _ Hi) HF)
    as (U1 & U2 & U3). fold F1 in U1, U2, U3.
  set (h1 := heap pool1) in *.
  assert (Hposp : hdr_pos L0 pt).
  { apply (hdr_pos_block (BPOOL_TOP pool) L0 (mkblk pt psz false));
      [apply Hc|exact Hbp]. }
  assert (Hposl : hdr_pos L0 l) by (apply (chain_inv_hdr_lst pool); exact Hc).
  assert (Hw1p : get_size h1 pt = word psz false true)
    by (unfold h1; rewrite Hfr by exact Hposp; exact Hwp).
  assert (Hw1l : get_size h1 l = word lsz true false)
    by (unfold h1; rewrite Hfr by exact Hposl; exact Hwl).
  assert (HAfree : forall i a sza, In a (F1 i) -> In (mkblk a sza false) L0 ->
            In (mkblk a sza false) A /\ a + sza <= pt).
  { intros i a sza Ha Hb. apply in_middle in Hb.
    destruct Hb as [Hb|[Hb|[]]].
    - split; [exact Hb|]. specialize (HA _ Hb). cbn in HA. lia.
    - assert (a = pt) by congruence. subst a. exfalso. exact (U1 _ Ha). }
  pose proof (Hsf _ Hbp eq_refl) as Hsp. cbn [b_addr b_size] in Hsp.
  unfold permalloc_tail. fold pool1. cbv zeta. fold h1.
  rewrite (BLOCK_SIZE_word _ _ _ _ _ Hw1p Hszm) by lia.
  rewrite (u32_id (psz - al)) by lia.
  change ESTALLOC_MIN_MEMORY_BLOCK_SIZE with 32.
  change sizeof_USED_BLOCK with 8.
  destruct (Z.leb_spec (psz - al) 32) as [Hle32|Hgt32].
  - (* the whole block is used *)
    cbn [snd heap with_heap]. unfold SET_USED_BLOCK.
    apply (kept_trans _ _ _ _ _ Hk1).
    apply (kept_trans _ (set_size h1 pt (u32 (get_size h1 pt + BLOCK_SIZE h1 l))));
      apply kept_set_size; lia.
  - (* the end of the block is carved *)
    assert (Hsum : 0 <= lsz + al < 2 ^ 32)
      by (unfold BPOOL_TOP, BPOOL_END in *; lia).
    assert (Hsumm : (lsz + al) mod 8 = 0)
      by (rewrite Zplus_mod, Halm, Hnxm; reflexivity).
    rewrite Hw1l, word_add, u32_id by (apply word_range; assumption).
    set (t' := l - al).
    set (m1 := set_size h1 t' (word (lsz + al) true false)).
    assert (Hwm1 : get_size m1 pt = word psz false true).
    { unfold m1, t'. rewrite get_set_size_other by lia. exact Hw1p. }
    assert (Hrm : (psz - al) mod 8 = 0)
      by (rewrite Zminus_mod, Hszm, Halm; reflexivity).
    rewrite Hwm1.
    replace (word psz false true - al) with (word (psz - al) false true)
      by (unfold word; lia).
    rewrite u32_id by (apply word_range; [assumption|lia]).
    set (m2 := set_size m1 pt (word (psz - al) false true)).
    set (pool2 := with_heap pool1 m2).
    assert (Hi2 : index_inv pool2 L0 F1).
    { apply (index_inv_changed (BPOOL_TOP pool) L0 pool1 _ F1 pt (l + 4));
        auto.
      - cbn [heap with_heap]. fold h1. unfold m2, m1, t'.
        apply (changed_in_trans _ (set_size h1 (l - al)
                                     (word (lsz + al) true false))).
        + apply changed_in_set_size; lia.
        + apply changed_in_set_size; lia.
      - intros i a sza Ha Hb. destruct (HAfree i a sza Ha Hb). lia. }
    assert (Hw2 : get_size (heap pool2) pt = word (psz - al) false true).
    { unfold pool2, m2. cbn [heap with_heap].
      apply get_set_word; [assumption|lia]. }
    cbn [snd].
    assert (Hr2 : 32 <= psz - al < 2 ^ 32) by lia.
    assert (Hs2 : pt + (psz - al) <= lo \/ hi <= pt) by lia.
    pose proof (add_free_block_keeps _ _ Hok lo hi Hsf pool2 F1 pt
                  (psz - al) false true (ii_lists _ _ _ Hi2) Hw2 Hrm
                  Hr2 Hs2) as Hk3.
    apply (kept_trans _ _ _ _ _ Hk1).
    refine (kept_trans _ _ _ _ _ _ Hk3).
    unfold pool2, m2. cbn [heap with_heap].
    assert (Hal0 : al = 0 \/ 8 <= al)
      by (pose proof (Z_div_mod_eq_full al 8); lia).
    apply (kept_trans _ m1); [unfold m1, t'|]; apply kept_set_size; lia.
Qed.

Lemma est_permalloc_keeps pool L0 lst F live n fuel r lo hi :
  Inv pool L0 lst F live -> size pool < Z.of_nat fuel ->
  est_permalloc fuel pool n = Some r ->
  sep_free L0 lo hi -> sep_hdr (L0 ++ [lst]) lo hi ->
  kept (heap pool) (heap (snd r)) lo hi.
Proof.
  intros HI Hfuel Hr Hsf Hsh. pose proof (inv_chain _ _ _ _ _ HI) as Hc.
  pose proof (chain_length _ _ _ Hc) as Hlen.
  destruct (permalloc_size_facts n) as (Hal & Halm).
  revert Hr. unfold est_permalloc. cbv zeta. fold (permalloc_size n).
  pose proof (chain_inv_lst _ _ _ Hc) as Hkl.
  pose proof (chain_inv_lst_word _ _ _ Hc) as Hwl.
  destruct L0 as [|b0 L0'].
  - cbn [last_used] in Hwl.
    pose proof (ci_lst_addr _ _ _ Hc) as Ea. cbn [chain_end] in Ea.
    pose proof (ci_lst_end _ _ _ Hc) as Ee. rewrite <- Ee, <- Ea.
    rewrite (find_tail_single _ _ _ _ _ fuel Hwl) by lia.
    rewrite (IS_USED_word _ _ _ _ _ Hwl) by lia.
    intros Hr. exact (est_malloc_keeps _ _ _ _ _ n fuel r lo hi HI Hr Hsf Hsh).
  - destruct (@exists_last _ (b0 :: L0') ltac:(discriminate))
      as (A & pb & EL).
    rewrite EL in *. clear EL b0 L0'.
    destruct (chain_inv_lay _ _ _ Hc) as [Hl He].
    rewrite <- app_assoc in Hl, He. cbn [app] in Hl, He.
    pose proof (ci_words _ _ _ Hc) as Hw.
    rewrite <- app_assoc in Hw. cbn [app] in Hw.
    destruct (chain_around _ _ _ _ _ Hc)
      as (nx & R & ER & Hnxa & Hnxs & Hnxm & Hnxe & HR & HA & Htop & Hsz
          & Hszm & Hpos & Hend & Hlen').
    rewrite length_app in Hlen. cbn [length] in Hlen.
    rewrite (find_tail_spec _ _ A _ true pb lst fuel Hl Hw He) by lia.
    destruct (chain_inv_split _ _ _ _ _ Hc) as (Hwp & _).
    rewrite (IS_USED_word _ _ _ _ _ Hwp Hszm).
    destruct (b_used pb) eqn:Hu.
    { intros Hr.
      exact (est_malloc_keeps _ _ _ _ _ n fuel r lo hi HI Hr Hsf Hsh). }
    rewrite (BLOCK_SIZE_word _ _ _ _ _ Hwp Hszm) by lia.
    change sizeof_USED_BLOCK with 8. rewrite u64_id by lia.
    destruct (Z.ltb_spec (b_size pb - 8) (permalloc_size n)) as [Hlt|Hge].
    { intros Hr.
      exact (est_malloc_keeps _ _ _ _ _ n fuel r lo hi HI Hr Hsf Hsh). }
    intros Hr. pose proof (some_eq _ _ Hr) as Er. subst r.
    destruct pb as [pt psz pu]. cbn [b_addr b_size b_used] in *. subst pu.
    apply (permalloc_tail_keeps pool A pt psz lst F live); auto; [lia|].
    apply Hsh. apply in_or_app. right. left. reflexivity.
Qed.

(** [est_permalloc], from the tail or through [est_malloc], leaves every
    usable byte of every live allocation and every byte of the regions
    carved before as it was. *)
Theorem permalloc_keeps_allocations ptr bytes s n fuel p pool' :
  reachable ptr bytes s -> size (st_pool s) < Z.of_nat fuel ->
  est_permalloc fuel (st_pool s) n = Some (p, pool') ->
  (forall q i, In q (st_live s) ->
     0 <= i < est_usable_size (st_pool s) q ->
     heap pool' (q + i) = heap (st_pool s) (q + i))
  /\ (forall q al i, In (q, al) (st_perm s) -> 0 <= i < al ->
        heap pool' (q + i) = heap (st_pool s) (q + i)).
Proof.
  intros Hr Hfuel Hm.
  destruct (reachable_valid _ _ _ Hr) as ((L0 & lst & F & HI & Hperm) & _).
  split.
  - intros q i Hq Hi.
    destruct (live_payload_sep _ _ _ _ _ q (q + i) (q + i + 1) HI Hq
                ltac:(lia) ltac:(lia)) as (Hsf & Hsh).
    apply (est_permalloc_keeps _ _ _ _ _ n fuel (p, pool') (q + i)
             (q + i + 1) HI Hfuel Hm Hsf Hsh). lia.
  - intros q al i Hq Hi.
    destruct (perm_region_sep _ _ _ _ _ _ q al (q + i) (q + i + 1) HI Hperm
                Hq ltac:(lia) ltac:(lia)) as (Hsf & Hsh).
    apply (est_permalloc_keeps _ _ _ _ _ n fuel (p, pool') (q + i)
             (q + i + 1) HI Hfuel Hm Hsf Hsh). lia.
Qed.

Definition demo_perm3 : Z * MEMORY_POOL :=
  match est_permalloc 4097 (st_pool demo_state3) 64 with
  | Some r => r
  | None => (NULL, st_pool demo_state3)
  end.

Lemma permalloc_keeps_allocations_witness :
  (forall q i, In q (st_live demo_state3) ->
     0 <= i < est_usable_size (st_pool demo_state3) q ->
     heap (snd demo_perm3) (q + i) = heap (st_pool demo_state3) (q + i))
  /\ (forall q al i, In (q, al) (st_perm demo_state3) -> 0 <= i < al ->
        heap (snd demo_perm3) (q + i) = heap (st_pool demo_state3) (q + i)).
Proof.
  apply (permalloc_keeps_allocations 4096 4096 demo_state3 64 4097
           (fst demo_perm3) (snd demo_perm3)).
  - apply (reach_step 4096 4096 demo_state1); [demo_reach1|].
    exact (step_permalloc demo_state1 4097 256 (fst demo_perm1)
             (snd demo_perm1)
             ltac:(vm_compute; reflexivity) ltac:(vm_compute; reflexivity)).
  - vm_compute. reflexivity.
  - vm_compute. reflexivity.
Defined.

(** ** Zeroed allocations *)

Lemma est_calloc_keeps pool L0 lst F live nmemb sz fuel r lo hi :
  Inv pool L0 lst F live -> size pool < Z.of_nat fuel ->
  u32 (nmemb * sz) + 15 < 2 ^ 32 ->
  est_calloc fuel pool nmemb sz = Some r ->
  sep_free L0 lo hi -> sep_hdr (L0 ++ [lst]) lo hi ->
  kept (heap pool) (heap (snd r)) lo hi.
Proof.
  intros HI Hfuel Hn Hr Hsf Hsh.
  pose proof (inv_chain _ _ _ _ _ HI) as Hc.
  pose proof (chain_length _ _ _ Hc) as Hlen.
  assert (H0 : 0 <= u32 (nmemb * sz))
    by (unfold u32; apply Z.mod_pos_bound; lia).
  revert Hr. unfold est_calloc. cbv zeta.
  set (n := u32 (nmemb * sz)) in *.
  destruct (est_malloc fuel pool n) as [[q pool1]|] eqn:Em;
    [|discriminate].
  pose proof (est_malloc_keeps _ _ _ _ _ n fuel (q, pool1) lo hi HI Em Hsf
                Hsh) as Hk1.
  cbn [snd] in Hk1.
  destruct (Z.eqb_spec q NULL) as [E|Hq]; cbn [negb]; intros Hr;
    pose proof (some_eq _ _ Hr) as Er; subst r; cbn [snd]; [exact Hk1|].
  destruct (est_malloc_spec pool L0 lst F live n fuel HI ltac:(lia))
    as [Em'|(r1 & Em' & Hpost)]; rewrite Em in Em';
    pose proof (some_eq _ _ Em') as Er.
  { exfalso. apply Hq. congruence. }
  subst r1.
  destruct Hpost as (A & t & bsz & B & F' & EL & Hsz & Hf & _).
  cbn [fst] in Hf.
  pose proof (alloc_size_of_ge n H0 Hn) as Hge.
  assert (Hb : In (mkblk t bsz false) L0)
    by (rewrite EL; apply in_middle; auto).
  pose proof (Hsf _ Hb eq_refl) as Hst. cbn [b_addr b_size] in Hst.
  cbn [heap with_heap].
  apply (kept_trans _ _ _ _ _ Hk1).
  apply (kept_changed _ _ _ _ _ _ (zero_fill_changed _ _ _)).
  rewrite Z2Nat.id by lia. lia.
Qed.

(** [est_calloc] leaves every usable byte of every live allocation and
    every byte of the regions carved by [est_permalloc] as it was: the
    bytes it clears all belong to the block it has just taken. *)
Theorem calloc_keeps_allocations ptr bytes s nmemb sz fuel p pool' :
  reachable ptr bytes s -> size (st_pool s) < Z.of_nat fuel ->
  u32 (nmemb * sz) + 15 < 2 ^ 32 ->
  est_calloc fuel (st_pool s) nmemb sz = Some (p, pool') ->
  (forall q i, In q (st_live s) ->
     0 <= i < est_usable_size (st_pool s) q ->
     heap pool' (q + i) = heap (st_pool s) (q + i))
  /\ (forall q al i, In (q, al) (st_perm s) -> 0 <= i < al ->
        heap pool' (q + i) = heap (st_pool s) (q + i)).
Proof.
  intros Hr Hfuel Hn Hm.
  destruct (reachable_valid _ _ _ Hr) as ((L0 & lst & F & HI & Hperm) & _).
  split.
  - intros q i Hq Hi.
    destruct (live_payload_sep _ _ _ _ _ q (q + i) (q + i + 1) HI Hq
                ltac:(lia) ltac:(lia)) as (Hsf & Hsh).
    apply (est_calloc_keeps _ _ _ _ _ nmemb sz fuel (p, pool') (q + i)
             (q + i + 1) HI Hfuel Hn Hm Hsf Hsh). lia.
  - intros q al i Hq Hi.
    destruct (perm_region_sep _ _ _ _ _ _ q al (q + i) (q + i + 1) HI Hperm
                Hq ltac:(lia) ltac:(lia)) as (Hsf & Hsh).
    apply (est_calloc_keeps _ _ _ _ _ nmemb sz fuel (p, pool') (q + i)
             (q + i + 1) HI Hfuel Hn Hm Hsf Hsh). lia.
Qed.

Definition demo_calloc5 : Z * MEMORY_POOL :=
  match est_calloc 4097 (st_pool demo_state5) 10 20 with
  | Some r => r
  | None => (NULL, st_pool demo_state5)
  end.

Lemma calloc_keeps_allocations_witness :
  (forall q i, In q (st_live demo_state5) ->
     0 <= i < est_usable_size (st_pool demo_state5) q ->
     heap (snd demo_calloc5) (q + i) = heap (st_pool demo_state5) (q + i))
  /\ (forall q al i, In (q, al) (st_perm demo_state5) -> 0 <= i < al ->
        heap (snd demo_calloc5) (q + i) = heap (st_pool demo_state5) (q + i)).
Proof.
  apply (calloc_keeps_allocations 4096 4096 demo_state5 10 20 4097
           (fst demo_calloc5) (snd demo_calloc5)).
  - demo_reach5.
  - vm_compute. reflexivity.
  - vm_compute. reflexivity.
  - vm_compute. reflexivity.
Defined.
(** ** [est_cleanup] *)

Lemma load_bytes_zero (n : nat) :
  forall m a, (forall x, a <= x < a + Z.of_nat n -> m x = 0) ->
  load_bytes n m a = 0.
Proof.
  induction n as [|k IH]; intros m a H; [reflexivity|].
  cbn [load_bytes]. rewrite H by lia. rewrite IH; [reflexivity|].
  intros x Hx. apply H. lia.
Qed.

(** From round [i] on, with the first [i] bytes already cleared, the loop
    ends no later than round 52: by then the four bytes of [size] are
    zero. *)
Lemma cleanup_loop_spec p :
  forall (k fuel : nat) (m : mem) (i : Z),
  i = 52 - Z.of_nat k -> 0 <= i -> (k < fuel)%nat ->
  (forall x, p <= x < p + i -> m x = 0) ->
  exists m' j,
    cleanup_loop fuel m p i = Some m'
    /\ i <= j <= 52
    /\ (forall x, p <= x < p + j -> m' x = 0)
    /\ (forall x, x < p \/ p + j <= x -> m' x = m x)
    /\ load_bytes 4 m' (p + offsetof_size_DEBUG) <= j.
Proof.
  induction k as [|k IH]; intros fuel m i Hi H0 Hf Hz;
    (destruct fuel as [|fuel]; [lia|]); cbn [cleanup_loop].
  - assert (E : load_bytes 4 m (p + offsetof_size_DEBUG) = 0).
    { apply load_bytes_zero. intros x Hx. apply Hz.
      unfold offsetof_size_DEBUG in Hx. lia. }
    rewrite E. destruct (Z.ltb_spec i 0) as [|_]; [lia|].
    exists m, i. repeat split; auto; lia.
  - destruct (Z.ltb_spec i (load_bytes 4 m (p + offsetof_size_DEBUG)))
      as [Hlt|Hge].
    + assert (Eu : u32 (i + 1) = i + 1) by (apply u32_id; lia).
      rewrite Eu.
      destruct (IH fuel (upd m (p + i) 0) (i + 1) ltac:(lia) ltac:(lia)
                  ltac:(lia)) as (m' & j & E & Hj & Hz' & Hk & Hs).
      { intros x Hx. destruct (Z.eq_dec x (p + i)) as [->|Hne].
        - apply upd_same.
        - rewrite upd_other by exact Hne. apply Hz. lia. }
      exists m', j. split; [exact E|]. split; [lia|]. split; [exact Hz'|].
      split; [|exact Hs].
      intros x Hx. rewrite Hk by lia. apply upd_other. lia.
    + exists m, i. repeat split; auto; lia.
Qed.

(** [est_cleanup] does not clear the pool.  Its loop reads the bound
    [size] from the bytes it is clearing, at offset 48: whatever the size
    of the pool, the call ends after at most 52 bytes, all bytes from
    offset 52 on are as before, and the bytes it did clear include every
    byte below the value [size] is left with. *)
Theorem cleanup_stops_early (m : mem) (est : Z) (fuel : nat) :
  est <> NULL -> (52 < fuel)%nat ->
  exists m' j,
    est_cleanup fuel m est = Some m'
    /\ 0 <= j <= 52
    /\ (forall x, est <= x < est + j -> m' x = 0)
    /\ (forall x, x < est \/ est + j <= x -> m' x = m x)
    /\ load_bytes 4 m' (est + offsetof_size_DEBUG) <= j.
Proof.
  intros Hn Hf. unfold est_cleanup.
  destruct (Z.eqb_spec est NULL) as [E|_]; [contradiction|]. cbn [negb].
  apply (cleanup_loop_spec est 52 fuel m 0); [reflexivity|lia|exact Hf|].
  intros x Hx. lia.
Qed.

(** A pool header with [size] 4096 at address 4096. *)
Definition demo_header : mem := store_bytes 4 demo_mem (4096 + 48) 4096.

Lemma cleanup_stops_early_witness :
  exists m' j,
    est_cleanup 53 demo_header 4096 = Some m'
    /\ 0 <= j <= 52
    /\ (forall x, 4096 <= x < 4096 + j -> m' x = 0)
    /\ (forall x, x < 4096 \/ 4096 + j <= x -> m' x = demo_header x)
    /\ load_bytes 4 m' (4096 + offsetof_size_DEBUG) <= j.
Proof.
  apply (cleanup_stops_early demo_header 4096 53).
  - vm_compute. congruence.
  - vm_compute. lia.
Defined.
(** ** The checks of [est_free] under [ESTALLOC_DEBUG] *)

Lemma Inv_with_est pool L0 lst F live e :
  Inv pool L0 lst F live -> Inv (with_est pool e) L0 lst F live.
Proof.
  intros [[H1 H2 H3 H4 H5 H6 H7 H8 H9 H10 H11 H12]
            [[G1 G2 G3 G4 G5] [B1 B2 B3 B4 B5 B6]] Hcm Hlv].
  constructor; [constructor|constructor; constructor| |]; assumption.
Qed.

(** The search over a chain: it stops at the block whose address is
    [target], or at the last block. *)
Lemma free_search_spec m bpool_end target dflt :
  forall M a pu fuel,
  M <> [] -> lay a M -> words m pu M -> chain_end a M = bpool_end ->
  bpool_end - a < 2 ^ 32 -> (length M <= fuel)%nat ->
  (free_search fuel m a target bpool_end = Some target
   /\ exists b, In b M /\ b_addr b = target)
  \/ (free_search fuel m a target bpool_end = Some (b_addr (last M dflt))
      /\ forall b, In b M -> b_addr b <> target).
Proof.
  induction M as [|b M IH]; intros a pu fuel Hne Hl Hw He Hr Hf;
    [congruence|].
  destruct fuel as [|k]; [cbn in Hf; lia|]. cbn [free_search].
  destruct (walk_step _ _ _ _ _ _ Hl Hw He Hr)
    as (Ha & Hlt & Hbs & Hn & Hu & Hl' & Hw' & He' & Hr').
  destruct (Z.eqb_spec a target) as [E|Hna].
  { left. split; [congruence|]. exists b. split; [left; reflexivity|lia]. }
  rewrite Hn. destruct M as [|c M'].
  - cbn [chain_end] in He'.
    destruct (Z.leb_spec bpool_end (a + b_size b)) as [_|]; [|lia].
    right. split; [cbn [last]; congruence|].
    intros b' [<-|[]]. lia.
  - assert (Hc : a + b_size b < bpool_end).
    { destruct (walk_step _ _ _ _ _ _ Hl' Hw' He' Hr') as (_ & X & _).
      exact X. }
    destruct (Z.leb_spec bpool_end (a + b_size b)) as [|_]; [lia|].
    cbn [length] in Hf.
    destruct (IH (a + b_size b) (b_used b) k ltac:(discriminate) Hl' Hw' He'
                Hr' ltac:(cbn [length]; lia))
      as [(E & b' & Hb' & Eb')|(E & Hno)].
    + left. split; [exact E|]. exists b'. split; [right; exact Hb'|exact Eb'].
    + right. split; [exact E|].
      intros b' [<-|Hb']; [lia|apply Hno; exact Hb'].
Qed.

Lemma Inv_search pool L0 lst F live fuel target :
  Inv pool L0 lst F live -> size pool < Z.of_nat fuel ->
  (free_search fuel (heap pool) (BPOOL_TOP pool) target (BPOOL_END pool)
   = Some target
   /\ exists b, In b (L0 ++ [lst]) /\ b_addr b = target)
  \/ (free_search fuel (heap pool) (BPOOL_TOP pool) target (BPOOL_END pool)
      = Some (b_addr lst)
      /\ forall b, In b (L0 ++ [lst]) -> b_addr b <> target).
Proof.
  intros HI Hfuel. pose proof (inv_chain _ _ _ _ _ HI) as Hc.
  destruct (chain_inv_lay _ _ _ Hc) as [Hl He].
  pose proof (ci_words _ _ _ Hc) as Hw.
  pose proof (chain_length _ _ _ Hc) as Hlen.
  assert (Hr : BPOOL_END pool - BPOOL_TOP pool < 2 ^ 32).
  { unfold BPOOL_END, BPOOL_TOP. pose proof (ci_size _ _ _ Hc).
    change sizeof_MEMORY_POOL with 704. lia. }
  assert (Hne : L0 ++ [lst] <> []) by (destruct L0; discriminate).
  assert (Hf : (length (L0 ++ [lst]) <= fuel)%nat)
    by (rewrite length_app; cbn [length]; lia).
  pose proof (free_search_spec (heap pool) (BPOOL_END pool) target lst
                (L0 ++ [lst]) (BPOOL_TOP pool) true fuel Hne Hl Hw He Hr Hf)
    as X.
  rewrite last_last in X. exact X.
Qed.

(** The fill covers the payload and ends. *)
Lemma free_fill_spec m target S u pu :
  get_size m target = word S u pu -> S mod 8 = 0 -> 8 <= S < 2 ^ 32 ->
  forall (k : nat) i fuel m',
  k = Z.to_nat (S - 8 - i) -> 0 <= i <= S - 8 -> (k < fuel)%nat ->
  (forall x, x < target + 8 \/ target + 8 + i <= x -> m' x = m x) ->
  (forall x, target + 8 <= x < target + 8 + i -> m' x = 255) ->
  exists m'',
    free_fill fuel m' (target + 8) target i = Some m''
    /\ (forall x, x < target + 8 \/ target + S <= x -> m'' x = m x)
    /\ (forall x, target + 8 <= x < target + S -> m'' x = 255).
Proof.
  intros Hw Hm Hs. induction k as [|k IH]; intros i fuel m' Hk Hi Hf Ho Hin;
    (destruct fuel as [|f]; [lia|]); cbn [free_fill];
    assert (Hw' : get_size m' target = word S u pu)
      by (rewrite (get_size_changed m m' (target + 8) (target + 8 + i));
          [exact Hw|intros x Hx; apply Ho; lia|lia]);
    rewrite (BLOCK_SIZE_word _ _ _ _ _ Hw' Hm) by lia;
    change sizeof_USED_BLOCK with 8; rewrite u64_id by lia.
  - destruct (Z.ltb_spec i (S - 8)) as [Hlt|_]; [lia|].
    exists m'. split; [reflexivity|]. split.
    + intros x Hx. apply Ho. lia.
    + intros x Hx. apply Hin. lia.
  - destruct (Z.ltb_spec i (S - 8)) as [Hlt|Hge]; [|lia].
    rewrite u32_id by lia.
    apply IH; try lia.
    + intros x Hx. rewrite upd_other by lia. apply Ho. lia.
    + intros x Hx. destruct (Z.eq_dec x (target + 8 + i)) as [->|Hne].
      * apply upd_same.
      * rewrite upd_other by exact Hne. apply Hin. lia.
Qed.

(** On a consistent pool the walk of [take_profile] ends. *)
Lemma used_walk_ends m bpool_end :
  forall M a pu fuel used,
  lay a M -> words m pu M -> chain_end a M = bpool_end ->
  bpool_end - a < 2 ^ 32 -> (length M < fuel)%nat ->
  exists r, used_walk fuel m a bpool_end used = Some r.
Proof.
  induction M as [|b M IH]; intros a pu fuel used Hl Hw He Hr Hf;
    (destruct fuel as [|k]; [cbn in Hf; lia|]); cbn [used_walk].
  - cbn in He. destruct (Z.ltb_spec a bpool_end); [lia|].
    eexists. reflexivity.
  - destruct (walk_step _ _ _ _ _ _ Hl Hw He Hr)
      as (Ha & Hlt & Hbs & Hn & Hu & Hl' & Hw' & He' & Hr').
    destruct (Z.ltb_spec a bpool_end); [|lia].
    rewrite Hn. cbn [length] in Hf.
    apply (IH _ (b_used b)); auto. lia.
Qed.

Lemma Inv_PROFILE pool L0 lst F live fuel :
  Inv pool L0 lst F live -> size pool < Z.of_nat fuel ->
  PROFILE fuel pool = Some pool.
Proof.
  intros HI Hfuel. pose proof (inv_chain _ _ _ _ _ HI) as Hc.
  destruct (chain_inv_lay _ _ _ Hc) as [Hl He].
  pose proof (ci_words _ _ _ Hc) as Hw.
  pose proof (chain_length _ _ _ Hc) as Hlen.
  assert (Hr : BPOOL_END pool - BPOOL_TOP pool < 2 ^ 32).
  { unfold BPOOL_END, BPOOL_TOP. pose proof (ci_size _ _ _ Hc).
    change sizeof_MEMORY_POOL with 704. lia. }
  unfold PROFILE. destruct (negb _); [|reflexivity].
  unfold take_profile. cbv zeta.
  destruct (used_walk_ends (heap pool) (BPOOL_END pool) (L0 ++ [lst])
              (BPOOL_TOP pool) true fuel 0 Hl Hw He Hr
              ltac:(rewrite length_app; cbn [length]; lia)) as (r & E).
  rewrite E. reflexivity.
Qed.

(** The checks let the payload of a block in use pass; the payload is
    filled, and the release leaves a consistent pool. *)
Lemma est_free_DEBUG_used literal pool A t S B lst F live fuel :
  Inv pool (A ++ mkblk t S true :: B) lst F live ->
  size pool < Z.of_nat fuel ->
  exists m F',
    (forall x, x < t + 8 \/ t + S <= x -> m x = heap pool x)
    /\ (forall x, t + 8 <= x < t + S -> m x = 255)
    /\ est_free_DEBUG literal fuel pool (t + 8)
       = Some (est_free (with_error_message (with_heap pool m) NULL) (t + 8))
    /\ Inv (est_free (with_error_message (with_heap pool m) NULL) (t + 8))
           (free_chain A t S B) lst F' (remove Z.eq_dec (t + 8) live)
    /\ size (est_free (with_error_message (with_heap pool m) NULL) (t + 8))
       = size pool
    /\ error_message
         (est (est_free (with_error_message (with_heap pool m) NULL)
                        (t + 8))) = NULL.
Proof.
  intros HI Hfuel. pose proof (inv_chain _ _ _ _ _ HI) as Hc.
  set (L0 := A ++ mkblk t S true :: B) in *.
  assert (Hb : In (mkblk t S true) L0) by (apply in_middle; auto).
  pose proof (chain_inv_blk _ _ _ Hc _ Hb) as Hk.
  pose proof (chain_inv_lst _ _ _ Hc) as Hkl.
  destruct (chain_inv_split _ _ _ _ _ Hc) as (Hw & _).
  cbn [b_addr b_size b_used] in Hk, Hw.
  assert (Hszm : S mod 8 = 0) by lia.
  unfold est_free_DEBUG.
  destruct (Z.eqb_spec (t + 8) NULL) as [E|_]; [unfold NULL in E; lia|].
  cbv zeta.
  replace (BLOCK_ADRS (t + 8)) with t
    by (unfold BLOCK_ADRS; change sizeof_USED_BLOCK with 8; lia).
  destruct (Z.ltb_spec t (BPOOL_TOP pool)) as [X|_];
    [unfold BPOOL_TOP in X; change sizeof_MEMORY_POOL with 704 in X; lia|].
  destruct (Z.ltb_spec (BPOOL_END pool) t) as [X|_];
    [unfold BPOOL_END in X; lia|]. cbn [orb].
  destruct (Inv_search _ _ _ _ _ fuel t HI Hfuel) as [(Es & _)|(_ & Hno)];
    [|exfalso; apply (Hno (mkblk t S true));
      [apply in_or_app; left; exact Hb|reflexivity]].
  rewrite Es, Z.eqb_refl.
  rewrite (IS_FREE_word _ _ _ _ _ Hw Hszm) by lia. cbn [negb].
  rewrite (PHYS_NEXT_word _ _ _ _ _ Hw Hszm) by lia.
  destruct (Z.leb_spec (BPOOL_END pool) (t + S)) as [X|_];
    [unfold BPOOL_END in X; lia|].
  destruct (free_fill_spec (heap pool) t S true (last_used true A) Hw Hszm
              ltac:(lia) (Z.to_nat (S - 8)) 0 fuel (heap pool))
    as (m & Ef & Hout & Hin).
  { f_equal. lia. }
  { lia. }
  { lia. }
  { intros x _. reflexivity. }
  { intros x Hx. lia. }
  rewrite Ef.
  assert (HI1 : Inv (with_error_message (with_heap pool m) NULL) L0 lst F
                    live).
  { apply Inv_with_est. apply (Inv_payload pool L0 lst F live t S m HI Hb).
    intros x Hx. apply Hout. lia. }
  destruct (est_free_at _ _ _ _ _ _ _ _ HI1) as (F' & HI2 & E1 & E2 & E3).
  cbn [size with_error_message with_est with_heap] in E2.
  exists m, F'. split; [exact Hout|]. split; [exact Hin|].
  split; [|split; [exact HI2|split; [exact E2|rewrite E3; reflexivity]]].
  apply (Inv_PROFILE _ _ _ _ _ fuel HI2). rewrite E2. exact Hfuel.
Qed.

(** The payload of a free block of the chain is refused. *)
Lemma est_free_DEBUG_free literal pool L0 lst F live t S fuel :
  Inv pool L0 lst F live -> In (mkblk t S false) L0 ->
  size pool < Z.of_nat fuel ->
  est_free_DEBUG literal fuel pool (t + 8)
  = Some (with_error_message pool (literal Double_free)).
Proof.
  intros HI Hb Hfuel. pose proof (inv_chain _ _ _ _ _ HI) as Hc.
  pose proof (chain_inv_blk _ _ _ Hc _ Hb) as Hk.
  pose proof (chain_inv_lst _ _ _ Hc) as Hkl.
  destruct (in_split _ _ Hb) as (A & B & EL).
  pose proof Hc as Hc'. rewrite EL in Hc'.
  destruct (chain_inv_split _ _ _ _ _ Hc') as (Hw & _).
  cbn [b_addr b_size b_used] in Hk, Hw.
  assert (Hszm : S mod 8 = 0) by lia.
  unfold est_free_DEBUG.
  destruct (Z.eqb_spec (t + 8) NULL) as [E|_]; [unfold NULL in E; lia|].
  cbv zeta.
  replace (BLOCK_ADRS (t + 8)) with t
    by (unfold BLOCK_ADRS; change sizeof_USED_BLOCK with 8; lia).
  destruct (Z.ltb_spec t (BPOOL_TOP pool)) as [X|_];
    [unfold BPOOL_TOP in X; change sizeof_MEMORY_POOL with 704 in X; lia|].
  destruct (Z.ltb_spec (BPOOL_END pool) t) as [X|_];
    [unfold BPOOL_END in X; lia|]. cbn [orb].
  destruct (Inv_search _ _ _ _ _ fuel t HI Hfuel) as [(Es & _)|(_ & Hno)];
    [|exfalso; apply (Hno (mkblk t S false));
      [apply in_or_app; left; exact Hb|reflexivity]].
  rewrite Es, Z.eqb_refl.
  rewrite (IS_FREE_word _ _ _ _ _ Hw Hszm) by lia. reflexivity.
Qed.

(** An address strictly inside a block of the chain is refused. *)
Lemma est_free_DEBUG_inside literal pool L0 lst F live b t fuel :
  Inv pool L0 lst F live -> In b L0 ->
  b_addr b < t < b_addr b + b_size b ->
  size pool < Z.of_nat fuel ->
  est_free_DEBUG literal fuel pool (t + 8)
  = Some (with_error_message pool (literal Illegal_address)).
Proof.
  intros HI Hb Ht Hfuel. pose proof (inv_chain _ _ _ _ _ HI) as Hc.
  pose proof (chain_inv_blk _ _ _ Hc _ Hb) as Hk.
  pose proof (chain_inv_lst _ _ _ Hc) as Hkl.
  destruct (chain_inv_lay _ _ _ Hc) as [Hl _].
  unfold est_free_DEBUG.
  destruct (Z.eqb_spec (t + 8) NULL) as [E|_]; [unfold NULL in E; lia|].
  cbv zeta.
  replace (BLOCK_ADRS (t + 8)) with t
    by (unfold BLOCK_ADRS; change sizeof_USED_BLOCK with 8; lia).
  destruct (Z.ltb_spec t (BPOOL_TOP pool)) as [X|_];
    [unfold BPOOL_TOP in X; change sizeof_MEMORY_POOL with 704 in X; lia|].
  destruct (Z.ltb_spec (BPOOL_END pool) t) as [X|_];
    [unfold BPOOL_END in X; lia|]. cbn [orb].
  destruct (Inv_search _ _ _ _ _ fuel t HI Hfuel)
    as [(_ & c & Hcin & Ec)|(Es & _)].
  { exfalso.
    assert (Hb' : In b (L0 ++ [lst])) by (apply in_or_app; left; exact Hb).
    pose proof (lay_bounds _ _ _ Hl Hcin) as Hkc.
    destruct (lay_sep _ _ _ _ Hl Hb' Hcin) as [E|E]; [subst c; lia|lia]. }
  rewrite Es.
  destruct (Z.eqb_spec (b_addr lst) t) as [X|_]; [lia|].
  destruct (Z.ltb_spec (b_addr lst) t) as [X|_]; [lia|]. reflexivity.
Qed.

(** An address in the payload of the last block is refused. *)
Lemma est_free_DEBUG_tail literal pool L0 lst F live q fuel :
  Inv pool L0 lst F live ->
  b_addr lst + 8 <= q <= BPOOL_END pool ->
  size pool < Z.of_nat fuel ->
  est_free_DEBUG literal fuel pool q
  = Some (with_error_message pool (literal Permalloc_address)).
Proof.
  intros HI Hq Hfuel. pose proof (inv_chain _ _ _ _ _ HI) as Hc.
  pose proof (chain_inv_lst _ _ _ Hc) as Hkl.
  pose proof (chain_inv_lst_word _ _ _ Hc) as Hwl.
  destruct (chain_inv_lay _ _ _ Hc) as [Hl He].
  unfold est_free_DEBUG.
  destruct (Z.eqb_spec q NULL) as [E|_]; [unfold NULL in E; lia|].
  cbv zeta. unfold BLOCK_ADRS. change sizeof_USED_BLOCK with 8.
  destruct (Z.ltb_spec (q - 8) (BPOOL_TOP pool)) as [X|_];
    [unfold BPOOL_TOP in X; change sizeof_MEMORY_POOL with 704 in X; lia|].
  destruct (Z.ltb_spec (BPOOL_END pool) (q - 8)) as [X|_]; [lia|].
  cbn [orb].
  destruct (Inv_search _ _ _ _ _ fuel (q - 8) HI Hfuel)
    as [(Es & c & Hcin & Ec)|(Es & _)]; rewrite Es.
  - rewrite Z.eqb_refl.
    assert (Ecl : c = lst).
    { apply in_app_or in Hcin as [Hcin|[<-|[]]]; [|reflexivity].
      pose proof (chain_inv_blk _ _ _ Hc _ Hcin). lia. }
    subst c. rewrite <- Ec.
    rewrite (IS_FREE_word _ _ _ _ _ Hwl) by lia.
    cbn [negb].
    rewrite (PHYS_NEXT_word _ _ _ _ _ Hwl) by lia.
    destruct (Z.leb_spec (BPOOL_END pool) (b_addr lst + b_size lst))
      as [_|X]; [reflexivity|unfold BPOOL_END in X; lia].
  - destruct (Z.eqb_spec (b_addr lst) (q - 8)) as [E|Hne].
    + rewrite (IS_FREE_word _ _ _ _ _ Hwl) by lia.
      cbn [negb].
      rewrite (PHYS_NEXT_word _ _ _ _ _ Hwl) by lia.
      destruct (Z.leb_spec (BPOOL_END pool) (b_addr lst + b_size lst))
        as [_|X]; [reflexivity|unfold BPOOL_END in X; lia].
    + destruct (Z.ltb_spec (b_addr lst) (q - 8)) as [_|X]; [reflexivity|lia].
Qed.

(** Under [ESTALLOC_DEBUG], [est_free] of a live pointer passes the
    checks and returns: every usable byte of the allocation is set to
    0xff, no other byte is touched by the fill, the error message is
    cleared and the block is released as in the other configuration. *)
Theorem debug_free_accepts_live literal ptr bytes s p fuel :
  reachable ptr bytes s -> In p (st_live s) ->
  size (st_pool s) < Z.of_nat fuel ->
  exists m pool',
    est_free_DEBUG literal fuel (st_pool s) p = Some pool'
    /\ pool'
       = est_free (with_error_message (with_heap (st_pool s) m) NULL) p
    /\ error_message (est pool') = NULL
    /\ (forall i, 0 <= i < est_usable_size (st_pool s) p -> m (p + i) = 255)
    /\ (forall x, x < p \/ p + est_usable_size (st_pool s) p <= x ->
          m x = heap (st_pool s) x).
Proof.
  intros Hr Hp Hfuel.
  destruct (reachable_valid _ _ _ Hr) as ((L0 & lst & F & HI & _) & _).
  destruct (usable_size_live _ _ _ _ _ _ HI Hp) as (S & Hb & Hus & _).
  destruct (in_split _ _ Hb) as (A & B & EL). rewrite EL in HI.
  destruct (est_free_DEBUG_used literal _ _ _ _ _ _ _ _ fuel HI Hfuel)
    as (m & F' & Hout & Hin & Ef & _ & _ & Em).
  replace (p - 8 + 8) with p in * by lia.
  exists m. eexists. split; [exact Ef|]. split; [reflexivity|].
  split; [exact Em|]. split.
  - intros i Hi. apply Hin. lia.
  - intros x Hx. apply Hout. lia.
Qed.

(** Under [ESTALLOC_DEBUG], [est_free] refuses every address handed out
    by [est_permalloc] from the tail: the pool is left as it was but for
    the error message, which is the one naming [est_permalloc]. *)
Theorem debug_free_refuses_permalloc literal ptr bytes s q al fuel :
  reachable ptr bytes s -> In (q, al) (st_perm s) ->
  size (st_pool s) < Z.of_nat fuel ->
  est_free_DEBUG literal fuel (st_pool s) q
  = Some (with_error_message (st_pool s) (literal Permalloc_address)).
Proof.
  intros Hr Hq Hfuel.
  destruct (reachable_valid _ _ _ Hr) as ((L0 & lst & F & HI & Hperm) & _).
  destruct (Hperm q al Hq) as (H1 & H2 & H3).
  apply (est_free_DEBUG_tail literal _ _ _ _ _ q fuel HI); [lia|exact Hfuel].
Qed.

(** Under [ESTALLOC_DEBUG], a second [est_free] of the same pointer is
    always refused and leaves the pool as the first one left it, but for
    the error message.  The message is the one for a double free only
    when the block before was in use; when the first release merged the
    block into a free block before it, the message is the one for an
    illegal address. *)
Theorem debug_free_refuses_second literal ptr bytes s p fuel :
  reachable ptr bytes s -> In p (st_live s) ->
  size (st_pool s) < Z.of_nat fuel ->
  exists pool1,
    est_free_DEBUG literal fuel (st_pool s) p = Some pool1
    /\ est_free_DEBUG literal fuel pool1 p
       = Some (with_error_message pool1
                 (literal (if IS_PREV_USED (heap (st_pool s)) (p - 8)
                           then Double_free else Illegal_address))).
Proof.
  intros Hr Hp Hfuel.
  destruct (reachable_valid _ _ _ Hr) as ((L0 & lst & F & HI & _) & _).
  destruct (usable_size_live _ _ _ _ _ _ HI Hp) as (S & Hb & _ & HS & HSm & _).
  destruct (in_split _ _ Hb) as (A & B & EL). rewrite EL in HI.
  pose proof (inv_chain _ _ _ _ _ HI) as Hc.
  destruct (chain_inv_split _ _ _ _ _ Hc)
    as (Hw & _ & _ & _ & _ & _ & HgB & _).
  cbn [b_addr b_size b_used] in Hw, HgB.
  rewrite (IS_PREV_USED_word _ _ _ _ _ Hw HSm).
  destruct (est_free_DEBUG_used literal _ _ _ _ _ _ _ _ fuel HI Hfuel)
    as (m & F' & _ & _ & Ef & HI2 & E2 & _).
  replace (p - 8 + 8) with p in * by lia.
  eexists. split; [exact Ef|].
  set (pool1 := est_free (with_error_message (with_heap (st_pool s) m) NULL)
                         p) in *.
  pose proof (next_merged_ge _ S B HgB) as HS1.
  revert HI2. unfold free_chain, prev_merged. cbv zeta.
  set (S1 := fst (next_merged S B)) in *.
  set (B1 := snd (next_merged S B)).
  destruct (last_used true A) eqn:Hpu; cbn [fst snd]; intros HI2.
  - pose proof (est_free_DEBUG_free literal pool1 _ _ _ _ (p - 8) S1 fuel HI2
                  ltac:(apply in_middle; auto) ltac:(lia)) as X.
    replace (p - 8 + 8) with p in X by lia. exact X.
  - destruct (last_used_false _ Hpu) as (A' & pb & EA & Hpb).
    rewrite EA, last_last, removelast_last in HI2.
    pose proof (ci_geo _ _ _ Hc) as Hgeo. rewrite EA, <- app_assoc in Hgeo.
    cbn [app] in Hgeo. apply geo_app in Hgeo as [_ Hgeo].
    cbn [geo b_addr b_size] in Hgeo.
    destruct Hgeo as (Ep & _ & Hps & Et & _).
    pose proof (est_free_DEBUG_inside literal pool1 _ _ _ _
                  (mkblk (b_addr pb) (b_size pb + S1) false) (p - 8) fuel HI2
                  ltac:(apply in_middle; auto)
                  ltac:(cbn [b_addr b_size]; lia) ltac:(lia)) as X.
    replace (p - 8 + 8) with p in X by lia. exact X.
Qed.

(** Addresses for the four string literals. *)
Definition demo_literal (e : free_error) : Z :=
  match e with
  | Outside_pool => 16
  | Double_free => 80
  | Permalloc_address => 120
  | Illegal_address => 168
  end.

Lemma debug_free_accepts_live_witness :
  exists m pool',
    est_free_DEBUG demo_literal 4097 (st_pool demo_state1) (fst demo_alloc)
    = Some pool'
    /\ pool'
       = est_free (with_error_message (with_heap (st_pool demo_state1) m)
                                      NULL) (fst demo_alloc)
    /\ error_message (est pool') = NULL
    /\ (forall i, 0 <= i < est_usable_size (st_pool demo_state1)
                                           (fst demo_alloc) ->
          m (fst demo_alloc + i) = 255)
    /\ (forall x, x < fst demo_alloc
                  \/ fst demo_alloc
                     + est_usable_size (st_pool demo_state1) (fst demo_alloc)
                     <= x ->
          m x = heap (st_pool demo_state1) x).
Proof.
  apply (debug_free_accepts_live demo_literal 4096 4096 demo_state1
           (fst demo_alloc) 4097).
  - demo_reach1.
  - vm_compute. left. reflexivity.
  - vm_compute. reflexivity.
Defined.

Lemma debug_free_refuses_permalloc_witness :
  est_free_DEBUG demo_literal 4097 (st_pool demo_state3) (fst demo_perm1)
  = Some (with_error_message (st_pool demo_state3)
            (demo_literal Permalloc_address)).
Proof.
  apply (debug_free_refuses_permalloc demo_literal 4096 4096 demo_state3
           (fst demo_perm1) (permalloc_size 256) 4097).
  - apply (reach_step 4096 4096 demo_state1); [demo_reach1|].
    exact (step_permalloc demo_state1 4097 256 (fst demo_perm1)
             (snd demo_perm1)
             ltac:(vm_compute; reflexivity) ltac:(vm_compute; reflexivity)).
  - left. reflexivity.
  - vm_compute. reflexivity.
Defined.

Lemma debug_free_refuses_second_witness :
  exists pool1,
    est_free_DEBUG demo_literal 4097 (st_pool demo_state1) (fst demo_alloc)
    = Some pool1
    /\ est_free_DEBUG demo_literal 4097 pool1 (fst demo_alloc)
       = Some (with_error_message pool1
                 (demo_literal
                    (if IS_PREV_USED (heap (st_pool demo_state1))
                                     (fst demo_alloc - 8)
                     then Double_free else Illegal_address))).
Proof.
  apply (debug_free_refuses_second demo_literal 4096 4096 demo_state1
           (fst demo_alloc) 4097).
  - demo_reach1.
  - vm_compute. left. reflexivity.
  - vm_compute. reflexivity.
Defined.

(** ** Shrinking in place *)

(** C7: for a live pointer [p] and every [n] up to its usable size,
    [est_realloc] returns [p] itself, with any fuel, and the allocation
    is shrunk in place: its block stays in use at the same address with
    the same bytes up to its new usable size, which is still at least
    [n]; when the rest is more than [ESTALLOC_MIN_MEMORY_BLOCK_SIZE]
    bytes the block is cut to the effective size of [n] and the rest
    becomes a free block right behind it, otherwise the block keeps its
    size.  No byte of another live allocation or of a region carved by
    [est_permalloc] changes, and the pool stays consistent with [p]
    live. *)
Theorem realloc_in_place ptr bytes s p n fuel :
  reachable ptr bytes s -> In p (st_live s) ->
  0 <= n <= est_usable_size (st_pool s) p ->
  exists pool',
    est_realloc fuel (st_pool s) p n = Some (p, pool')
    /\ est_usable_size pool' p
       = (if est_usable_size (st_pool s) p + 8 - alloc_size_of n <=? 32
          then est_usable_size (st_pool s) p
          else alloc_size_of n - 8)
    /\ n <= est_usable_size pool' p <= est_usable_size (st_pool s) p
    /\ IS_USED_BLOCK (heap pool') (p - 8) = true
    /\ (32 < est_usable_size (st_pool s) p + 8 - alloc_size_of n ->
        IS_FREE_BLOCK (heap pool') (p - 8 + alloc_size_of n) = true
        /\ est_usable_size (st_pool s) p + 8 - alloc_size_of n
           <= BLOCK_SIZE (heap pool') (p - 8 + alloc_size_of n))
    /\ (forall i, 0 <= i < est_usable_size pool' p ->
          heap pool' (p + i) = heap (st_pool s) (p + i))
    /\ (forall q i, In q (st_live s) -> q <> p ->
          0 <= i < est_usable_size (st_pool s) q ->
          heap pool' (q + i) = heap (st_pool s) (q + i))
    /\ (forall q al i, In (q, al) (st_perm s) -> 0 <= i < al ->
          heap pool' (q + i) = heap (st_pool s) (q + i))
    /\ Valid (mkstate pool' (st_live s) (st_perm s)).
Proof.
  intros Hr Hp Hn.
  destruct (reachable_valid _ _ _ Hr) as ((L0 & lst & F & HI & Hperm) & _).
  destruct (usable_size_live _ _ _ _ _ _ HI Hp)
    as (S & Hb & Hus & Hs & Hsm & Hbs).
  destruct (Inv_live_pos _ _ _ _ _ _ HI Hp) as (_ & _ & Hnn).
  destruct (alloc_size_of_facts n) as (Hal & Halm).
  pose proof (alloc_size_of_le n S ltac:(lia) ltac:(lia) Hs Hsm) as Hle.
  assert (Hge : n + 8 <= alloc_size_of n).
  { apply alloc_size_of_ge; [lia|].
    pose proof (Z_div_mod_eq_full S 8). lia. }
  set (al := alloc_size_of n) in *.
  set (pool := st_pool s) in *.
  assert (Er : est_realloc fuel pool p n
               = Some (realloc_shrink pool p (p - 8) al)).
  { unfold est_realloc.
    destruct (Z.eqb_spec p NULL) as [|_]; [contradiction|].
    cbv zeta. change (BLOCK_ADRS p) with (p - 8). rewrite Hbs. fold al.
    destruct (Z.gtb_spec al S) as [Hgt|_]; [lia|]. reflexivity. }
  destruct (in_split _ _ Hb) as (A & B & EL). rewrite EL in HI.
  pose proof (Inv_resizing _ _ _ _ _ _ _ _ HI) as Hpd.
  destruct (realloc_shrink_spec pool A (p - 8) S B true lst F (st_live s) p
              al Hpd ltac:(lia) Halm)
    as (F' & Efst & HI' & E1 & E2 & E3).
  set (r := realloc_shrink pool p (p - 8) al) in *.
  pose proof (inv_chain _ _ _ _ _ HI') as Hc'.
  exists (snd r).
  split; [rewrite Er; f_equal; rewrite <- Efst; destruct r; reflexivity|].
  rewrite Hus. replace (S - 8 + 8 - al) with (S - al) by lia.
  (* the block of [p] and the block behind it in the new chain *)
  assert (Hblk : exists S',
             S' = (if S - al <=? 32 then S else al)
             /\ In (mkblk (p - 8) S' true) (shrink_chain A (p - 8) S al B)
             /\ (32 < S - al ->
                 exists S2, S - al <= S2
                   /\ In (mkblk (p - 8 + al) S2 false)
                         (shrink_chain A (p - 8) S al B))).
  { unfold shrink_chain. destruct (Z.leb_spec (S - al) 32) as [Hsm32|Hbig].
    - exists S. split; [reflexivity|]. split; [apply in_middle; auto|lia].
    - exists al. split; [reflexivity|]. split.
      + apply in_or_app. left. apply in_or_app. right. left. reflexivity.
      + intros _. exists (fst (next_merged (S - al) B)). split.
        * pose proof (chain_inv_split _ _ _ _ _ (inv_chain _ _ _ _ _ HI))
            as (_ & _ & _ & _ & _ & _ & HgB & _).
          cbn [b_addr b_size] in HgB.
          destruct B as [|nx B']; [cbn; lia|].
          cbn [geo] in HgB. destruct HgB as (_ & _ & Hnx & _).
          cbn [next_merged]. destruct (b_used nx); cbn [fst]; lia.
        * apply in_middle. auto. }
  destruct Hblk as (S' & ES' & Hb' & Hfree).
  pose proof (block_usable _ _ _ _ _ _ _ HI' Hb') as Hus'.
  replace (p - 8 + 8) with p in Hus' by lia.
  assert (EU : est_usable_size (snd r) p
               = (if S - al <=? 32 then S - 8 else al - 8)).
  { rewrite Hus', ES'. destruct (S - al <=? 32); reflexivity. }
  split; [exact EU|].
  split; [rewrite EU; destruct (Z.leb_spec (S - al) 32); lia|].
  split.
  { destruct (words_block _ _ _ _ (ci_words _ _ _ Hc')
                (in_or_app _ _ _ (or_introl Hb'))) as (pu & Hw).
    cbn [b_addr b_size b_used] in Hw.
    pose proof (chain_inv_blk _ _ _ Hc' _ Hb') as Hk. cbn in Hk.
    apply (IS_USED_word _ _ _ _ _ Hw); lia. }
  split.
  { intros Hbig. destruct (Hfree Hbig) as (S2 & HS2 & Hb2).
    destruct (words_block _ _ _ _ (ci_words _ _ _ Hc')
                (in_or_app _ _ _ (or_introl Hb2))) as (pu & Hw).
    cbn [b_addr b_size b_used] in Hw.
    pose proof (chain_inv_blk _ _ _ Hc' _ Hb2) as Hk. cbn in Hk.
    rewrite (IS_FREE_word _ _ _ _ _ Hw) by lia.
    rewrite (BLOCK_SIZE_word _ _ _ _ _ Hw) by lia.
    split; [reflexivity|lia]. }
  split.
  { intros i Hi. rewrite EU in Hi.
    assert (Hin : In (mkblk (p - 8) S true)
                     ((A ++ mkblk (p - 8) S true :: B) ++ [lst]))
      by (apply in_or_app; left; apply in_middle; auto).
    destruct (used_payload_sep pool _ lst (mkblk (p - 8) S true)
                (p + i) (p + i + 1) (inv_chain _ _ _ _ _ HI) Hin eq_refl)
      as (Hsf & Hsh).
    { cbn [b_addr]. lia. }
    { cbn [b_addr b_size]. destruct (Z.leb_spec (S - al) 32); lia. }
    apply (realloc_shrink_keeps pool A (p - 8) S B true lst F (st_live s) p
             al (p + i) (p + i + 1) Hpd ltac:(lia) Halm ltac:(lia) Hsf Hsh).
    - destruct (Z.leb_spec (S - al) 32); lia.
    - lia. }
  pose proof (inv_chain _ _ _ _ _ HI) as Hc.
  pose proof Hb as Hb0. rewrite EL in Hb0.
  pose proof (chain_inv_blk _ _ _ Hc _ Hb0) as Hk. cbn [b_addr b_size] in Hk.
  split.
  { intros q i Hq Hne Hi.
    destruct (live_payload_sep _ _ _ _ _ q (q + i) (q + i + 1) HI Hq
                ltac:(lia) ltac:(lia)) as (Hsf & Hsh).
    destruct (usable_size_live _ _ _ _ _ _ HI Hq) as (Sq & Hbq & Husq & _).
    assert (Hst : p - 8 + S <= q + i \/ q + i + 1 <= p - 8).
    { destruct (geo_sep _ _ _ _ (ci_geo _ _ _ Hc) Hb0 Hbq) as [E|E];
        cbn [b_addr b_size] in E; [inversion E; lia|lia]. }
    apply (realloc_shrink_keeps pool A (p - 8) S B true lst F (st_live s) p
             al (q + i) (q + i + 1) Hpd ltac:(lia) Halm ltac:(lia) Hsf Hsh);
      lia. }
  split.
  { intros q al' i Hq Hi.
    destruct (perm_region_sep _ _ _ _ _ _ q al' (q + i) (q + i + 1) HI Hperm
                Hq ltac:(lia) ltac:(lia)) as (Hsf & Hsh).
    destruct (Hperm q al' Hq) as (Hq1 & _).
    apply (realloc_shrink_keeps pool A (p - 8) S B true lst F (st_live s) p
             al (q + i) (q + i + 1) Hpd ltac:(lia) Halm ltac:(lia) Hsf Hsh);
      lia. }
  exists (shrink_chain A (p - 8) S al B), lst, F'.
  split; [exact HI'|].
  apply (perm_ok_down pool _ lst lst); auto. lia.
Qed.

Lemma realloc_in_place_witness :
  exists pool',
    est_realloc 0 (st_pool demo_state1) (fst demo_alloc) 40
    = Some (fst demo_alloc, pool')
    /\ est_usable_size pool' (fst demo_alloc)
       = (if est_usable_size (st_pool demo_state1) (fst demo_alloc) + 8
             - alloc_size_of 40 <=? 32
          then est_usable_size (st_pool demo_state1) (fst demo_alloc)
          else alloc_size_of 40 - 8)
    /\ 40 <= est_usable_size pool' (fst demo_alloc)
          <= est_usable_size (st_pool demo_state1) (fst demo_alloc)
    /\ IS_USED_BLOCK (heap pool') (fst demo_alloc - 8) = true
    /\ (32 < est_usable_size (st_pool demo_state1) (fst demo_alloc) + 8
             - alloc_size_of 40 ->
        IS_FREE_BLOCK (heap pool') (fst demo_alloc - 8 + alloc_size_of 40)
        = true
        /\ est_usable_size (st_pool demo_state1) (fst demo_alloc) + 8
           - alloc_size_of 40
           <= BLOCK_SIZE (heap pool') (fst demo_alloc - 8 + alloc_size_of 40))
    /\ (forall i, 0 <= i < est_usable_size pool' (fst demo_alloc) ->
          heap pool' (fst demo_alloc + i)
          = heap (st_pool demo_state1) (fst demo_alloc + i))
    /\ (forall q i, In q (st_live demo_state1) -> q <> fst demo_alloc ->
          0 <= i < est_usable_size (st_pool demo_state1) q ->
          heap pool' (q + i) = heap (st_pool demo_state1) (q + i))
    /\ (forall q al i, In (q, al) (st_perm demo_state1) -> 0 <= i < al ->
          heap pool' (q + i) = heap (st_pool demo_state1) (q + i))
    /\ Valid (mkstate pool' (st_live demo_state1) (st_perm demo_state1)).
Proof.
  apply (realloc_in_place 4096 4096 demo_state1 (fst demo_alloc) 40 0%nat).
  - demo_reach1.
  - vm_compute. left. reflexivity.
  - vm_compute. split; congruence.
Defined.

(** ** The diagnostics on a well-formed block area *)

(** The block area of [pool], from [pool + hdr] to [BPOOL_END(pool)], is
    tiled by the blocks [M], and every size word holds the size of its
    block, its USED bit and, as PREV_USED, the USED bit of the block
    before. *)
Definition tiled (hdr : Z) (pool : MEMORY_POOL) (M : list blk) : Prop :=
  0 < pool_adrs pool /\ 0 <= hdr /\ 0 < size pool < 2 ^ 32
  /\ lay (pool_adrs pool + hdr) M
  /\ chain_end (pool_adrs pool + hdr) M = BPOOL_END pool
  /\ words (heap pool) true M.

Lemma lay_length a M :
  lay a M -> 8 * Z.of_nat (length M) <= chain_end a M - a.
Proof.
  revert a. induction M as [|b M IH]; intros a H; [cbn; lia|].
  cbn [lay] in H. destruct H as (_ & _ & Hs & Hl). specialize (IH _ Hl).
  cbn [length chain_end]. lia.
Qed.


(** A pool of the debug build, 4112 bytes at address 4080: behind its
    header of 720 bytes lie a block in use of 112 bytes, a free block of
    3272 bytes and the last block.  The bytes from 4800 on are those of
    [demo_state1]. *)
Definition demo_pool_DEBUG : MEMORY_POOL :=
  mkPOOL 4080 (est (st_pool demo_state1)) 4112
         (free_fli_bitmap (st_pool demo_state1))
         (free_sli_bitmap (st_pool demo_state1))
         (free_blocks (st_pool demo_state1)) (heap (st_pool demo_state1)).

Definition demo_chain_DEBUG : list blk :=
  [mkblk 4800 112 true; mkblk 4912 3272 false; mkblk 8184 8 true].

Ltac demo_tiled :=
  unfold tiled; repeat split; vm_compute; try reflexivity; congruence.


(** [est_sanity_check] on a well-formed block area, whatever the size
    [hdr] of the pool header: it ends and returns 0.  No block is larger
    than the pool or ends outside it, and every PREV_USED flag agrees
    with the block in front, so none of the five errors is reported. *)
Theorem sanity_check_passes hdr pool M fuel :
  tiled hdr pool M -> size pool < Z.of_nat fuel ->
  est_sanity_check hdr fuel pool = Some 0.
Proof.
  intros (Hp & Hh & Hs & Hl & He & Hw) Hfuel.
  pose proof (lay_length _ _ Hl) as Hlen. rewrite He in Hlen.
  unfold est_sanity_check.
  destruct (Z.eqb_spec (pool_adrs pool) NULL) as [E|_];
    [unfold NULL in E; lia|].
  destruct (Z.eqb_spec (size pool) 0) as [E|_]; [lia|].
  cbn [orb].
  apply (sanity_walk_ok pool M (pool_adrs pool + hdr) true fuel NULL Hl Hw
           He).
  - unfold BPOOL_END. lia.
  - unfold BPOOL_END in Hlen. lia.
  - left. reflexivity.
Qed.

Lemma sanity_check_passes_witness :
  est_sanity_check sizeof_MEMORY_POOL_DEBUG 4113 demo_pool_DEBUG = Some 0.
Proof.
  apply (sanity_check_passes sizeof_MEMORY_POOL_DEBUG demo_pool_DEBUG
           demo_chain_DEBUG 4113).
  - demo_tiled.
  - vm_compute. reflexivity.
Defined.
